(* ===== verification/_CoqProject ===== *)
-Q . S2P
Prelude.v
GoStrings.v
JsonScan.v
JsonGrammar.v
ChainId.v
JsonRpc.v
Borrow.v
Types.v
BlockContext.v
LbNode.v
Gateway.v
PickNodes.v
Selector.v
Mirror.v
Refresh.v
DiscoveryKeys.v
Discovery.v
EtcdWatch.v
Config.v
UpstreamClient.v
ConfigGauge.v
Processors.v
Logging.v
Serve.v
ServeProof.v
EtcdStore.v
Admin.v
Writers.v
AdminProof.v
MetricCache.v
NodeHealth.v
RequestMetrics.v
Usage.v
UsageClose.v
Routes.v
Main.v
Start.v
System.v
EndToEnd.v
AdminFlow.v
