(* ===== verification/Prelude.v ===== *)
(** * nodex-proxy: a verification development

    nodex-proxy is a JSON-RPC load balancer for blockchain nodes, written in Go.  A
    request [POST /<chain>] is parsed, given to a chain of pre-processors, sent to a
    backend node chosen by weight among the nodes of the chain, possibly sent again to an
    archive node or a native node, and given to a chain of post-processors.  The pools of
    nodes, the weights and routes, the chain heights, the mirror targets and the published
    chain versions come from etcd: a watcher follows the store and sends on five channels
    that one event loop drains.  A management API edits the same documents in etcd (and,
    for its local variants, the proxy's own tables), and an optional collector adds up the
    time each client used and hands it to Kafka.

    This library translates that program into Rocq functions and proves what makes it
    correct.  Everything is executable; the witnesses evaluate it.

    ** Parts of the program and where they are modelled

    - [GoStrings]: what the source uses of Go's [strings], [bytes] and [strconv], on byte
      strings ([TrimSpace] with Unicode spaces, [ParseInt], [Itoa], [SplitN], ...).
    - [JsonScan]: [internal/jsonscan/scan.go], the scanner that finds the boundaries of
      JSON values.  [JsonGrammar]: a grammar of JSON texts and the exactness of the scanner
      on it.
    - [JsonRpc]: [jsonrpc/ext.go], [spec.go], [response.go]: requests, responses, parsing
      with its fast path, validation, the error-key filter.  [Borrow]: [OwnRequests], with
      the fields of a request as views of a buffer that is overwritten later.
    - [ChainId]: chain identifiers ([lb/lb.go]) and [lb/version_router.go].
    - [Types]: [types/lib.go]: the request context, the framework's view of a request, the
      processor chains.
    - [BlockContext]: [lb/block_context.go]: which block a request is pinned to.
    - [LbNode]: [lb/lbnode/node.go]: nodes and pools of nodes.
    - [Gateway]: [discovery/discovery.go]'s gateway document and
      [lb/jsonrpc/gateway_map.go]; the class [GatewayStrategy] with [GatewayLaws] is the
      interface the selector relies on, discharged by [gatewayStrategy_laws].
    - [PickNodes]: [utils/pick_nodes.go]: which pool serves a request.
    - [Selector]: [lb/selector/random/random.go]: the pools and the weighted choice.
    - [Mirror]: [lb/jsonrpc/mirror_map.go], [mirror_limiter.go], [height_map.go].
    - [Refresh]: [lb/node_generation.go], [lb/node_health.go] and the event loop
      [BackgroundRefreshNode] of [lb/lb.go], as a step relation [run] in which the health
      check of a node finishes at any later moment.
    - [UpstreamClient]: the client all backends share ([lb/lbnode/node.go]) and what
      [NewLoadBalancer] makes of the configuration.  [NodeHealth]: the health check of
      [lb/node_health.go] with its requests, its clock, its sleeps and its metrics, which
      [Refresh] has reduced to its verdict.
    - [Config]: [types/config.go]; [ConfigGauge]: the gauge of [types/metrics.go], the walk
      over a Go value by reflection.  [Logging]: [lib/log/zaplog.go].
    - [Processors]: [lb/jsonrpc/hertz_process.go] and [handler.go].
    - [Serve]: the request handler of [lb/lb.go] ([ServeHTTP] and all it calls) and
      [lb/archive_hash_cache.go], [lb/lbnode/upstream_error.go].  [ServeProof] has the
      handler's contract.
    - [DiscoveryKeys] and [Discovery]: [discovery/etcd/discovery.go]: how keys are read, and
      the watcher: snapshot, watch, broken watches, compaction and resynchronisation.
      [EtcdWatch]: what etcd answers it (the history of the store, the watch that is served
      from the revision asked for), and the states [watched] the two reach together.
    - [EtcdStore]: etcd as the management API sees it: a store with revisions and
      transactions, requests of other clients between any two of one's own, and programs of
      requests ([prog]).  [Admin]: [http_handler/handler.go] and [types.go]; [Writers]:
      [http_handler/writer_handler.go]; [AdminProof]: their contracts.
    - [Usage]: [usage/], and the usage parts of [config/config.go] and [cmd/proxy/main.go];
      [UsageClose]: the calls of [Close] with their errors.
    - [MetricCache]: [lb/jsonrpc/metrics/].  [RequestMetrics]: the requests' post-processor
      and that cache together.
    - [Main]: the shutdown budget of [cmd/proxy/main.go]; [Routes]: its route table;
      [Start]: [LoadConfig] and the start of the process.
    - [System]: the event loop and the handler together.  [EndToEnd]: the watcher and the
      event loop together.  [AdminFlow]: the management API, etcd, the watcher and the event
      loop together; the store of [EtcdStore] makes the history that [EtcdWatch] delivers.

    This file has the outcome monad [go] (a value, a panic, or fuel run out), loops,
    record update, machine integers, tactics and the hint database [go].

    ** How the code is rendered

    Go strings and byte slices are [string]s of bytes; an index or slice out of range is
    [Panic], as is a nil dereference.  A [for] loop is [go_loop] over its body with fuel
    that is linear in the length of its input ([fuel]); the lemma [returns_loop] proves
    that it suffices, so the theorems state results, not results up to divergence.  [int] and
    [int64] arithmetic is on [Z] with [wrap_int64] written where the source can overflow.
    Go maps are [gmap]s; a result that depends on their iteration order is only used up to
    that order.  Struct fields are assigned with [r <| f := v |>].  Operations the source
    runs under a lock are single steps; the collector and the metric cache, whose
    goroutines meet outside their locks, are transition systems of such steps.  A send on a
    full channel that has no receiver is [NoFuel].  Where slices are compared by identity ([PickNodes]),
    buffers are overwritten while borrowed ([Processors]) or an object's proxy must survive
    ([LbNode]), the identity is part of the model.

    ** Code that is not in the repository

    is a parameter: sonic and the JSON encoders ([SonicParams], [Sonic], [HealthJson]),
    go-ethereum's block tags and decoders ([GoEthereum]), hertz ([Types.Hertz], [Render],
    [UpstreamClient.Hertz], [Router] with [RouterLaws], net/http in [ProbeHttp]), the
    rate limiter ([RateLimiter]), the bounded cache ([OtterCache], with its documented
    behaviour [OtterLaws]), the reverse proxy ([ProxyLibrary]), the JSON documents of etcd
    ([DiscoveryJson], [AdminJson], [WriterJson]), YAML ([Yaml]), Prometheus ([Prometheus],
    [PrometheusLaws]), the random source, the clock, and the upstream nodes, which answer as
    they like.  Of etcd the watcher relies on this ([EtcdWatch.answers], [etcd_step]): a [Get]
    is the store at its revision, and a watch delivers whole revisions in order from the one
    it was asked to start from ([Discovery.watchFrom]), in responses whose headers may be
    ahead of the changes they carry.  Revisions a reopened watch does not deliver are
    recorded in [ws_gap] and [ws_skips].  [PrometheusLaws] lets [WithLabelValues] succeed
    when the number of values is right, as documented; that it also panics on values that are
    not valid UTF-8 is left out, so recording metrics does not fail.  The management API relies on requests being served one
    at a time as [etcd_spec] says, a failed one possibly carried out ([EtcdLaws]).  Where the
    two meet, the reader of a document reads what the writer wrote ([SharedDocuments]).

    ** What the theorems show

    - Scanning and parsing: on every text of the grammar the scanner finds exactly the
      value, elements and members; parsing never panics and terminates on every body; the
      borrowed fast path reads exactly the members the grammar gives, and a request printed
      in the usual shape is read back; the error-key filter is exactly a search for two tokens.
    - Routing: chain ids are normalised canonically; the router applies the last published
      version; the block context is parsed at most once, independently of debug logging.
    - Selection: [PickNodes] computes a decision table, the pool it offers is drawn from
      with frequencies equal to the published weights, pools keep one entry per key.
    - Refresh, over all interleavings of events and finished health checks: a check
      changes the pools only if its event is still the last one for the node, a deleted
      node stays deleted, a downgrade takes effect at once and sticks, a passed check is
      published.  Runs are shorter than 2^64 events, the range of the generation counter.
    - Serving: a well-formed request returns after at most three attempts of a fixed shape,
      is accounted once, is retried exactly as the error codes demand, never reads a stale
      filter result, and puts into the archive cache only hashes an archive node has served;
      the shutdown wait covers every request.  These rely on [lb_ok]: pooled nodes have a
      proxy, weights are between 0 and 100 and the pools of a chain hold fewer than 2^50
      nodes (so that weight sums do not overflow), and the random source stays in range.
      [System] proves it of every state the event loop reaches in fewer than 2^50 steps when
      the published gateway documents carry percentages, and with it that the proxy serves
      whatever discovery published.  The log of attempts keeps the requests as the nodes were
      handed them; the path and the read timeout are read from those.  One request is served
      from the pools and settings of one moment ([Balancer]); in the code an event may change
      them between two attempts.
    - Discovery, against any history of the store and through any sequence of responses,
      broken watches, compactions and resyncs: as long as no revision was passed over since
      the last snapshot, what the consumers were last told of a key is what the store has at
      the last revision delivered; revisions are passed over only by reconnecting after a
      watch that broke off behind its last header ([catch_up_break_loses] shows the loss), and
      a resync makes up for them.  A resync sends exactly the difference; deletions carry the
      document they withdraw; keys are read back as written.  With the event loop on the other
      side, and under the same condition, the weights, routes, mirrors and versions in force
      are those in etcd and a node that etcd no longer has is in no pool ([EndToEnd]).  From
      the management API on, a call that succeeded is what requests are served with once the
      proxy has caught up: edited weights and routes are in force, an added node is served
      when its check passes, a deleted one is not served ([AdminFlow]).
    - Management API, with other clients' requests between any two of its own: an edit of a
      gateway document replaces the document stored at that moment, or nothing; documents
      stay well formed; adding never overwrites; deleting a node also resets its weight and
      takes it off every list of the routes, leaving the other nodes as they were; the leader is switched atomically; local mirror calls act as discovery does.
    - Usage: what was recorded for a client is what is held plus what the records handed over
      report, in whole milliseconds and at least one each, under any interleaving; a shutdown hands everything over; a full window is flushed; the error
      of [Close] tells what was left behind, and a call of it is never stuck.
    - Metrics: the cache of handles is transparent and bounded; the counters of finished and
      failed requests add up to the requests, however they interleave.
    - A process that starts has all defaults filled in and checked settings; the ways it can
      fail to start are exactly characterised.  Every route reaches its handler, all nodes
      share one client, the configured times are used as durations that do not overflow, a
      health check ends and sleeps between its attempts, and each setting has one series in the
      gauge.
    - Some theorems show defects: [empty_batch_panics], [role_change_leaves_node],
      [rewrite_garbles_mirror], [Init_blocks], [bad_update_delete], [catch_up_break_loses],
      [prefix_joins_chain],
      [update_resurrects_node], [delete_all_keeps_limits], [switch_to_leader_key],
      [huge_wait_wraps] and [unknown_level_resets].

    ** What is not modelled

    The output of the logs ([lib/log/observability.go], the attributes of
    [types/lib.go]), the listeners of [cmd/proxy/main.go] with the port that serves
    Prometheus and pprof, the sockets of the HTTP clients and the Kafka writer are I/O or
    calls of frameworks.  [internal/benchfixture] is test data.  Next: the sender of
    mirrored requests with its header copies. *)

From Stdlib Require Export Ascii ZArith Lia.
From Stdlib Require String.
From stdpp Require Export gmap strings list fin_maps numbers.

(** ** Outcomes of Go code

    A Go computation returns a value, panics (index out of range, slice bounds,
    nil dereference), or, for the bounded rendering of a [for] loop, runs out of
    the fuel that stands for "still looping".  [Panic] and [NoFuel] are kept
    apart from ordinary error values, which the source returns as results. *)

Inductive go (A : Type) : Type :=
| Ret (a : A)
| Panic
| NoFuel.
Arguments Ret {A} _.
Arguments Panic {A}.
Arguments NoFuel {A}.

Definition go_bind {A B : Type} (m : go A) (k : A → go B) : go B :=
  match m with
  | Ret a => k a
  | Panic => Panic
  | NoFuel => NoFuel
  end.

Declare Scope go_scope.
Delimit Scope go_scope with go.
Open Scope go_scope.

Notation "'let!' x := m 'in' k" := (go_bind m (λ x, k))
  (at level 10, x name, m at level 100, k at level 200) : go_scope.
Notation "'let!' ' p := m 'in' k" := (go_bind m (λ p, k))
  (at level 10, p strict pattern, m at level 100, k at level 200) : go_scope.

(** Total correctness: [m] neither panics nor diverges, and its result satisfies [Q]. *)
Definition returns {A : Type} (m : go A) (Q : A → Prop) : Prop :=
  match m with
  | Ret a => Q a
  | Panic => False
  | NoFuel => False
  end.

(** Partial correctness: a result of [m], if there is one, satisfies [Q]. *)
Definition ensures {A : Type} (m : go A) (Q : A → Prop) : Prop :=
  match m with Ret a => Q a | _ => True end.

(** One iteration of a Go [for] loop yields the next loop state or leaves the loop. *)
Inductive next (S R : Type) : Type :=
| Continue (s : S)
| Break (r : R).
Arguments Continue {S R} _.
Arguments Break {S R} _.

Fixpoint go_loop {S R : Type} (fuel : nat) (body : S → go (next S R)) (s : S) : go R :=
  match fuel with
  | O => NoFuel
  | Datatypes.S n =>
      let! o := body s in
      match o with
      | Continue s' => go_loop n body s'
      | Break r => Ret r
      end
  end.

(** ** Automation *)

Create HintDb go discriminated.
#[export] Hint Constants Opaque : go.

(** Splits hypotheses and the goal's conjunctions, then tries arithmetic. *)
Ltac go_split := repeat match goal with
  | H : _ ∧ _ |- _ => destruct H
  | H : ∃ _, _ |- _ => destruct H
  | |- _ ∧ _ => split
  end.

(** Reads a boolean test on [nat], [Z] or [bool] as the proposition it decides. *)
Ltac b2p := repeat match goal with
  | H : (_ && _)%bool = true |- _ => apply andb_true_iff in H; destruct H
  | H : (_ || _)%bool = false |- _ => apply orb_false_iff in H; destruct H
  | H : negb _ = true |- _ => apply negb_true_iff in H
  | H : negb _ = false |- _ => apply negb_false_iff in H
  | H : bool_decide _ = true |- _ => apply bool_decide_eq_true in H
  | H : bool_decide _ = false |- _ => apply bool_decide_eq_false in H
  | H : Nat.ltb _ _ = true |- _ => apply Nat.ltb_lt in H
  | H : Nat.ltb _ _ = false |- _ => apply Nat.ltb_ge in H
  | H : Nat.leb _ _ = true |- _ => apply Nat.leb_le in H
  | H : Nat.leb _ _ = false |- _ => apply Nat.leb_gt in H
  | H : Nat.eqb _ _ = true |- _ => apply Nat.eqb_eq in H
  | H : Nat.eqb _ _ = false |- _ => apply Nat.eqb_neq in H
  | H : Z.ltb _ _ = true |- _ => apply Z.ltb_lt in H
  | H : Z.ltb _ _ = false |- _ => apply Z.ltb_ge in H
  | H : Z.leb _ _ = true |- _ => apply Z.leb_le in H
  | H : Z.leb _ _ = false |- _ => apply Z.leb_gt in H
  | H : Z.eqb _ _ = true |- _ => apply Z.eqb_eq in H
  | H : Z.eqb _ _ = false |- _ => apply Z.eqb_neq in H
  end.

(** Destructs the scrutinee of the first [match]/[if] in the goal. *)
Ltac case_first := match goal with
  | |- context [match ?x with _ => _ end] =>
      lazymatch x with context [match _ with _ => _ end] => fail | _ => destruct x eqn:? end
  end.

(** ** Assigning one field of a struct

    [r <| f := v |>] is [r] with field [f] replaced.  A struct type registers its
    constructor applied to its own fields; the update function of a field is read
    off that expansion by abstracting the field. *)

Class Expands (R : Type) := expansion : R → R.
Class Assignable {R E : Type} (field : R → E) := assign_with : (E → E) → R → R.
#[global] Arguments assign_with {R E} field {_} _ _ /.

Ltac solve_assignable :=
  lazymatch goal with
  | |- @Assignable ?R _ ?field =>
      let e := constr:(_ : Expands R) in
      let e := eval hnf in e in
      lazymatch eval pattern field in e with
      | ?abs _ =>
          let s := eval cbv beta in (λ g : _ → _, abs (λ r, g (field r))) in exact s
      end
  end.
#[global] Hint Extern 1 (Assignable _) => solve_assignable : typeclass_instances.

Notation "r <| f := v |>" := (assign_with f (λ _, v) r)
  (at level 1, left associativity, format "r  <| f  :=  v |>") : go_scope.

(** ** The program logic of [go] *)

Section Returns.
Context {A B : Type}.

Lemma returns_bind (m : go A) (k : A → go B) Q :
  returns m (λ a, returns (k a) Q) → returns (go_bind m k) Q.
Proof. by destruct m. Qed.

Lemma returns_mono (m : go A) (P Q : A → Prop) :
  returns m P → (∀ a, P a → Q a) → returns m Q.
Proof. destruct m; simpl; auto. Qed.

Lemma returns_seq (m : go A) (k : A → go B) P Q :
  returns m P → (∀ a, P a → returns (k a) Q) → returns (go_bind m k) Q.
Proof. destruct m; simpl; auto. Qed.

Lemma ensures_seq (m : go A) (k : A → go B) P Q :
  ensures m P → (∀ a, P a → ensures (k a) Q) → ensures (go_bind m k) Q.
Proof. destruct m; simpl; auto. Qed.

Lemma ensures_mono (m : go A) (P Q : A → Prop) :
  ensures m P → (∀ a, P a → Q a) → ensures m Q.
Proof. destruct m; simpl; auto. Qed.

Lemma ensures_True (m : go A) : ensures m (λ _, True).
Proof. by destruct m. Qed.

Lemma returns_ensures (m : go A) P Q R :
  returns m P → ensures m Q → (∀ a, P a → Q a → R a) → returns m R.
Proof. destruct m; simpl; auto. Qed.

Lemma ensures_both (m : go A) P Q :
  returns m P → ensures m Q → ensures m (λ a, P a ∧ Q a).
Proof. destruct m; simpl; auto. Qed.

Lemma returns_ensures_self (m : go A) P : returns m P → ensures m P.
Proof. by destruct m. Qed.

Lemma returns_eq (m : go A) (a : A) : returns m (λ x, x = a) ↔ m = Ret a.
Proof. destruct m; simpl; naive_solver. Qed.

Lemma returns_inv (m : go A) Q : returns m Q → ∃ a, m = Ret a ∧ Q a.
Proof. destruct m; simpl; [eauto | done | done]. Qed.

Lemma returns_intro (m : go A) a (Q : A → Prop) : m = Ret a → Q a → returns m Q.
Proof. by intros ->. Qed.
End Returns.

(** The total-correctness rule of a loop: the invariant is kept, a measure
    decreases on every further iteration, and leaving the loop gives [Q].  The
    fuel only has to exceed the measure of the start state. *)
Lemma returns_loop {S R : Type} (I : S → Prop) (m : S → nat) (Q : R → Prop)
    (body : S → go (next S R)) :
  (∀ s, I s → returns (body s) (λ o,
     match o with Continue s' => I s' ∧ m s' < m s | Break r => Q r end)) →
  ∀ fuel s, I s → m s < fuel → returns (go_loop fuel body s) Q.
Proof.
  intros Hbody. induction fuel as [|fuel IH]; intros s HI Hm; [lia|]. simpl.
  eapply returns_seq; [by apply Hbody|].
  intros [s'|r]; simpl; [|done]. intros [HI' Hlt]. apply IH; [done|lia].
Qed.

Lemma go_loop_S {S R : Type} n (body : S → go (next S R)) s :
  go_loop (Datatypes.S n) body s =
  let! o := body s in match o with Continue s' => go_loop n body s' | Break r => Ret r end.
Proof. done. Qed.

(** Runs of iterations that do not leave the loop. *)
Inductive loop_steps {S R : Type} (body : S → go (next S R)) : S → S → Prop :=
| steps_refl s : loop_steps body s s
| steps_next s s1 s2 : body s = Ret (Continue s1) → loop_steps body s1 s2 → loop_steps body s s2.

Lemma steps_trans {S R : Type} (body : S → go (next S R)) s1 s2 s3 :
  loop_steps body s1 s2 → loop_steps body s2 s3 → loop_steps body s1 s3.
Proof. induction 1; eauto using loop_steps. Qed.

(** A loop that terminates ends where its run of iterations ends. *)
Lemma steps_loop {S R : Type} (body : S → go (next S R)) s s' r fuel Q :
  loop_steps body s s' → body s' = Ret (Break r) →
  returns (go_loop fuel body s) Q → go_loop fuel body s = Ret r.
Proof.
  intros Hs. revert fuel. induction Hs as [s|s s1 s2 Hb _ IH];
    intros [|fuel] Hr Ht; try done; simpl in *; rewrite ?Hr, ?Hb in *; simpl in *; auto.
Qed.

#[export] Instance go_eq_dec {A} `{EqDecision A} : EqDecision (go A).
Proof. solve_decision. Defined.

#[global] Arguments go_loop : simpl never.
#[global] Arguments Nat.modulo : simpl never.

(** ** Machine integers

    Go's [int] and [int64] are 64-bit two's complement on the platforms the
    proxy is built for; [uint64] wraps modulo 2^64. *)

Definition max_int64 : Z := 2 ^ 63 - 1.
Definition min_int64 : Z := - 2 ^ 63.

Definition wrap_int64 (z : Z) : Z := (z + 2 ^ 63) `mod` 2 ^ 64 - 2 ^ 63.
Definition wrap_uint64 (z : Z) : Z := z `mod` 2 ^ 64.

Definition in_int64 (z : Z) : Prop := (min_int64 ≤ z ≤ max_int64)%Z.

Lemma wrap_int64_id z : in_int64 z → wrap_int64 z = z.
Proof. unfold in_int64, min_int64, max_int64, wrap_int64. intros. rewrite Z.mod_small; lia. Qed.

Lemma wrap_int64_range z : in_int64 (wrap_int64 z).
Proof.
  unfold in_int64, min_int64, max_int64, wrap_int64.
  pose proof (Z.mod_pos_bound (z + 2 ^ 63) (2 ^ 64)). lia.
Qed.

Lemma wrap_uint64_id z : (0 ≤ z < 2 ^ 64)%Z → wrap_uint64 z = z.
Proof. intros. apply Z.mod_small. lia. Qed.

Lemma wrap_uint64_range z : (0 ≤ wrap_uint64 z < 2 ^ 64)%Z.
Proof. apply Z.mod_pos_bound. lia. Qed.

#[export] Hint Resolve wrap_int64_range wrap_uint64_range : go.
