(* ===== verification/GoStrings.v ===== *)
(** * The parts of Go's [strings], [strconv] and [fmt] packages the proxy uses

    Go strings are byte strings: [string] with one [ascii] per byte.  Index and
    slice expressions are checked, so an access out of range is a [Panic]. *)

From S2P Require Import Prelude.
From stdpp Require Export pretty.
Local Open Scope Z_scope.

(** ** Bytes, indexing and slicing *)

Abbreviation len := String.length (only parsing).

(** The double quote and the backslash, spelled by code point. *)
Definition dquote : ascii := "034"%char.
Definition backslash : ascii := "092"%char.
Definition newline : ascii := "010"%char.

(** [s[i]] *)
Definition at_ (s : string) (i : nat) : go ascii :=
  match String.get i s with
  | Some c => Ret c
  | None => Panic
  end.

(** [s[a:b]] *)
Definition slice (s : string) (a b : nat) : go string :=
  if (a <=? b)%nat && (b <=? len s)%nat
  then Ret (String.substring a (b - a) s) else Panic.

(** [s[a:]], used where the caller has already checked [a <= len(s)]. *)
Fixpoint drop_str (n : nat) (s : string) : string :=
  match n, s with
  | O, _ => s
  | S n, "" => ""
  | S n, String _ s => drop_str n s
  end.

(** [strings.IndexByte]; [None] stands for -1. *)
Fixpoint IndexByte (s : string) (c : ascii) : option nat :=
  match s with
  | "" => None
  | String c' s' => if bool_decide (c' = c) then Some O else S <$> IndexByte s' c
  end.

Definition has_byte (s : string) (c : ascii) : bool :=
  match IndexByte s c with Some _ => true | None => false end.

(** [strings.HasPrefix] (argument order of the source) and [strings.TrimPrefix]. *)
Definition HasPrefix (s p : string) : bool := String.prefix p s.
#[global] Arguments HasPrefix : simpl never.
Definition TrimPrefix (s p : string) : string :=
  if HasPrefix s p then drop_str (len p) s else s.

(** [strings.Index] / [bytes.Index]; [None] stands for -1. *)
Fixpoint Index (s p : string) : option nat :=
  if String.prefix p s then Some O
  else match s with
       | "" => None
       | String _ s' => S <$> Index s' p
       end.

Definition Contains (s p : string) : bool :=
  match Index s p with Some _ => true | None => false end.

(** ** [strings.TrimSpace]

    White space is decided on decoded runes.  Besides the six ASCII characters,
    [unicode.IsSpace] accepts U+0085, U+00A0, U+1680, U+2000..U+200A, U+2028,
    U+2029, U+202F, U+205F and U+3000; [space2] and [space3] are their UTF-8
    encodings.  Any other byte at an end of the string decodes to a rune that
    is not white space. *)

Definition byte (c : ascii) : Z := Z.of_N (N_of_ascii c).

Definition space1 (c : ascii) : bool :=
  let b := byte c in ((9 <=? b) && (b <=? 13)) || (b =? 32).

Definition space2 (c1 c2 : ascii) : bool :=
  (byte c1 =? 0xC2) && ((byte c2 =? 0x85) || (byte c2 =? 0xA0)).

Definition space3 (c1 c2 c3 : ascii) : bool :=
  let b1 := byte c1 in let b2 := byte c2 in let b3 := byte c3 in
  ((b1 =? 0xE1) && (b2 =? 0x9A) && (b3 =? 0x80))
  || ((b1 =? 0xE2) && (b2 =? 0x80) &&
      (((0x80 <=? b3) && (b3 <=? 0x8A)) || (b3 =? 0xA8) || (b3 =? 0xA9) || (b3 =? 0xAF)))
  || ((b1 =? 0xE2) && (b2 =? 0x81) && (b3 =? 0x9F))
  || ((b1 =? 0xE3) && (b2 =? 0x80) && (b3 =? 0x80)).

(** One leading white-space rune, for rune tests given in reading order. *)
Definition drop_space (t2 : ascii → ascii → bool) (t3 : ascii → ascii → ascii → bool)
    (s : string) : option string :=
  match s with
  | "" => None
  | String c1 s1 =>
      if space1 c1 then Some s1 else
      match s1 with
      | "" => None
      | String c2 s2 =>
          if t2 c1 c2 then Some s2 else
          match s2 with
          | "" => None
          | String c3 s3 => if t3 c1 c2 c3 then Some s3 else None
          end
      end
  end.

Fixpoint trim_while (t2 : ascii → ascii → bool) (t3 : ascii → ascii → ascii → bool)
    (s : string) {struct s} : string :=
  match s with
  | "" => ""
  | String c1 s1 =>
      if space1 c1 then trim_while t2 t3 s1 else
      match s1 with
      | "" => s
      | String c2 s2 =>
          if t2 c1 c2 then trim_while t2 t3 s2 else
          match s2 with
          | "" => s
          | String c3 s3 => if t3 c1 c2 c3 then trim_while t2 t3 s3 else s
          end
      end
  end.

Definition trim_left (s : string) : string := trim_while space2 space3 s.
Definition trim_right (s : string) : string :=
  String.rev (trim_while (λ a b, space2 b a) (λ a b c, space3 c b a) (String.rev s)).

Definition TrimSpace (s : string) : string := trim_right (trim_left s).

(** [strings.Trim] with a one-byte cutset. *)
Fixpoint trim_byte_left (c : ascii) (s : string) : string :=
  match s with
  | "" => ""
  | String c' s' => if bool_decide (c' = c) then trim_byte_left c s' else s
  end.
Definition TrimByte (s : string) (c : ascii) : string :=
  String.rev (trim_byte_left c (String.rev (trim_byte_left c s))).

(** [strings.ReplaceAll] of one byte by one byte. *)
Fixpoint ReplaceByte (s : string) (old new : ascii) : string :=
  match s with
  | "" => ""
  | String c s' => String (if bool_decide (c = old) then new else c) (ReplaceByte s' old new)
  end.

(** [strings.SplitN(s, sep, 2)] for a one-byte separator: the part before the
    first separator and, when there is one, the part after it. *)
Fixpoint SplitN2 (s : string) (sep : ascii) : string * option string :=
  match s with
  | "" => ("", None)
  | String c s' =>
      if bool_decide (c = sep) then ("", Some s')
      else let '(a, b) := SplitN2 s' sep in (String c a, b)
  end.

(** ASCII lower case, and [strings.EqualFold] on ASCII operands. *)
Definition lower_ascii (c : ascii) : ascii :=
  if (65 <=? byte c) && (byte c <=? 90)
  then ascii_of_N (Z.to_N (byte c + 32)) else c.
Fixpoint lower_str (s : string) : string :=
  match s with "" => "" | String c s' => String (lower_ascii c) (lower_str s') end.
Definition EqualFold (a b : string) : bool := bool_decide (lower_str a = lower_str b).

(** ** [strconv.ParseInt(s, base, 64)] and integer formatting *)

(** A digit in bases up to 36, as [strconv.ParseUint] reads it. *)
Definition digit_val (c : ascii) : option Z :=
  let b := byte c in
  if (48 <=? b) && (b <=? 57) then Some (b - 48)
  else let l := byte (lower_ascii c) in
       if (97 <=? l) && (l <=? 122) then Some (l - 97 + 10) else None.

Fixpoint parse_digits (base : Z) (s : string) (acc : Z) : option Z :=
  match s with
  | "" => Some acc
  | String c s' =>
      match digit_val c with
      | Some d => if d <? base then parse_digits base s' (acc * base + d) else None
      | None => None
      end
  end.

(** [strconv.ParseUint(s, base, 64)] with an explicit base; every error is [None]. *)
Definition ParseUint (s : string) (base : Z) : option Z :=
  match s with
  | "" => None
  | _ => match parse_digits base s 0 with
         | Some n => if n <? 2 ^ 64 then Some n else None
         | None => None
         end
  end.

#[global] Arguments ParseUint : simpl never.

Definition ParseInt (s : string) (base : Z) : option Z :=
  match s with
  | "" => None
  | String c s' =>
      let neg := bool_decide (c = "-"%char) in
      let body := if neg || bool_decide (c = "+"%char) then s' else s in
      match ParseUint body base with
      | Some un =>
          if negb neg && (2 ^ 63 <=? un) then None
          else if neg && (2 ^ 63 <? un) then None
          else Some (if neg then - un else un)
      | None => None
      end
  end.

(** [fmt.Sprint] of an [int64], [strconv.Itoa] and the [%d] verb. *)
Definition Itoa (z : Z) : string := pretty z.

Fixpoint all_bytes (f : ascii → bool) (s : string) : bool :=
  match s with "" => true | String c s' => f c && all_bytes f s' end.

(** ** Lemmas on byte strings *)

Local Open Scope nat_scope.

Create Rewrite HintDb str.

Lemma app_nil_l s : "" +:+ s = s.
Proof. done. Qed.

Lemma app_cons c a b : String c a +:+ b = String c (a +:+ b).
Proof. done. Qed.

Lemma app_nil_r s : s +:+ "" = s.
Proof. induction s as [|c s IH]; [done|]. by rewrite app_cons, IH. Qed.

Lemma app_assoc a b c : (a +:+ b) +:+ c = a +:+ (b +:+ c).
Proof. induction a as [|x a IH]; [done|]. by rewrite !app_cons, IH. Qed.

Lemma len_app a b : len (a +:+ b) = len a + len b.
Proof. induction a as [|x a IH]; [done|]. rewrite app_cons. simpl. by rewrite IH. Qed.

Lemma len_cons c s : len (String c s) = S (len s).
Proof. done. Qed.

#[export] Hint Rewrite app_nil_l app_cons app_nil_r app_assoc len_app len_cons : str.

(** Linear arithmetic over lengths of concatenations. *)
Ltac len_lia := repeat (rewrite len_app || cbn [String.length]); lia.

Lemma app_eq_nil a b : a +:+ b = "" → a = "" ∧ b = "".
Proof. by destruct a. Qed.

Lemma get_app_r a b i : String.get (len a + i) (a +:+ b) = String.get i b.
Proof. rewrite Nat.add_comm. symmetry. apply String.append_correct2. Qed.

Lemma get_app_ge a b i : len a ≤ i → String.get i (a +:+ b) = String.get (i - len a) b.
Proof. intros. rewrite <- (get_app_r a b (i - len a)). f_equal. lia. Qed.

Lemma get_app_l a b i : i < len a → String.get i (a +:+ b) = String.get i a.
Proof. intros. symmetry. by apply String.append_correct1. Qed.

Lemma get_lt s i : i < len s → ∃ c, String.get i s = Some c.
Proof.
  revert i. induction s as [|c s IH]; simpl; [lia|].
  intros [|i] Hi; [eauto|]. apply IH. lia.
Qed.

Lemma get_Some_lt s i c : String.get i s = Some c → i < len s.
Proof.
  revert i. induction s as [|c' s IH]; simpl; [done|].
  intros [|i] Hi; [lia|]. apply IH in Hi. lia.
Qed.

Lemma get_ge s i : len s ≤ i → String.get i s = None.
Proof.
  intros. destruct (String.get i s) eqn:E; [|done]. apply get_Some_lt in E. lia.
Qed.

Lemma returns_at s i (Q : ascii → Prop) :
  i < len s → (∀ c, String.get i s = Some c → Q c) → returns (at_ s i) Q.
Proof. intros Hi HQ. unfold at_. destruct (get_lt s i Hi) as [c E]. rewrite E. by apply HQ. Qed.

Lemma at_Some s i c : String.get i s = Some c → at_ s i = Ret c.
Proof. unfold at_. by intros ->. Qed.

Lemma returns_slice s a b (Q : string → Prop) :
  a ≤ b → b ≤ len s → Q (String.substring a (b - a) s) → returns (slice s a b) Q.
Proof.
  intros ???. unfold slice.
  rewrite (proj2 (Nat.leb_le a b)), (proj2 (Nat.leb_le b _)) by done. done.
Qed.

Lemma slice_Ret s a b :
  a ≤ b → b ≤ len s → slice s a b = Ret (String.substring a (b - a) s).
Proof.
  intros. unfold slice.
  by rewrite (proj2 (Nat.leb_le a b)), (proj2 (Nat.leb_le b _)).
Qed.

Lemma substring_0_full s : String.substring 0 (len s) s = s.
Proof. induction s as [|c s IH]; [done|]. simpl. by rewrite IH. Qed.

Lemma substring_prefix a b : String.substring 0 (len a) (a +:+ b) = a.
Proof.
  induction a as [|c a IH]; [by destruct b|].
  rewrite app_cons. simpl. by rewrite IH.
Qed.

Lemma substring_skip a b n m : String.substring (len a + n) m (a +:+ b) = String.substring n m b.
Proof. induction a as [|c a IH]; [done|]. rewrite app_cons. simpl. apply IH. Qed.

(** The middle of a three-part concatenation. *)
Lemma substring_mid a b c : String.substring (len a) (len b) (a +:+ b +:+ c) = b.
Proof.
  rewrite <- (Nat.add_0_r (len a)), substring_skip. apply substring_prefix.
Qed.

Lemma len_substring s n m : n + m ≤ len s → len (String.substring n m s) = m.
Proof.
  revert n m. induction s as [|c s IH]; simpl; intros n m H.
  - assert (n = 0 ∧ m = 0) as [-> ->] by lia. done.
  - destruct n as [|n], m as [|m]; simpl; try done; rewrite IH; lia.
Qed.

Lemma get_substring s n m k : k < m → String.get k (String.substring n m s) = String.get (n + k) s.
Proof. intros. rewrite Nat.add_comm. by apply String.substring_correct1. Qed.

Lemma drop_str_app a b : drop_str (len a) (a +:+ b) = b.
Proof. induction a as [|c a IH]; [by destruct b|]. rewrite app_cons. simpl. apply IH. Qed.

Lemma drop_str_split n s : n ≤ len s → ∃ a, s = a +:+ drop_str n s ∧ len a = n.
Proof.
  revert s. induction n as [|n IH]; intros s Hn.
  - exists "". by destruct s.
  - destruct s as [|c s]; simpl in *; [lia|].
    destruct (IH s) as (a & E & Hl); [lia|]. exists (String c a).
    rewrite app_cons. simpl. by rewrite <- E, Hl.
Qed.

Lemma get_drop n s i : String.get i (drop_str n s) = String.get (n + i) s.
Proof.
  revert s. induction n as [|n IH]; intros s; [by destruct s|].
  destruct s as [|c s]; simpl; [by destruct i|]. apply IH.
Qed.

Lemma len_drop n s : len (drop_str n s) = len s - n.
Proof. revert s. induction n as [|n IH]; intros [|c s]; simpl; auto. Qed.

Lemma drop_drop n m s : drop_str m (drop_str n s) = drop_str (n + m) s.
Proof.
  revert s. induction n as [|n IH]; intros s; [by destruct s|].
  destruct s as [|c s]; simpl; [by destruct m|]. apply IH.
Qed.

Lemma drop_cons n s c : String.get n s = Some c → drop_str n s = String c (drop_str (S n) s).
Proof.
  revert s. induction n as [|n IH]; intros [|c' s]; simpl; intros; simplify_eq.
  - by destruct s.
  - by apply IH.
Qed.

(** [strings.HasPrefix] *)
Lemma HasPrefix_spec s p : HasPrefix s p = true ↔ ∃ r, s = p +:+ r.
Proof.
  unfold HasPrefix. revert s. induction p as [|c p IH]; intros s.
  - split; [exists s; done|]. by destruct s.
  - destruct s as [|c' s]; simpl; [split; [done|intros [r [=]]]|].
    destruct (ascii_dec c c') as [->|Hne].
    + rewrite IH. setoid_rewrite app_cons. clear IH.
      split; intros [r E]; exists r; congruence.
    + split; [done|]. intros [r [=]]. congruence.
Qed.

Lemma HasPrefix_app p r : HasPrefix (p +:+ r) p = true.
Proof. apply HasPrefix_spec. eauto. Qed.

Lemma TrimPrefix_app p r : TrimPrefix (p +:+ r) p = r.
Proof. unfold TrimPrefix. by rewrite HasPrefix_app, drop_str_app. Qed.

Lemma HasPrefix_cons k s c p :
  HasPrefix (drop_str k s) (String c p) = true ↔
  String.get k s = Some c ∧ HasPrefix (drop_str (S k) s) p = true.
Proof.
  destruct (String.get k s) as [c'|] eqn:E.
  - rewrite (drop_cons _ _ _ E). unfold HasPrefix at 1. simpl.
    destruct (ascii_dec c c') as [->|Hne]; [unfold HasPrefix; tauto|].
    split; [done|]. intros [[= ->] _]. done.
  - split; [|by intros [??]]. rewrite HasPrefix_spec. intros [r Hr].
    assert (String.get 0 (drop_str k s) = None) as Hn by (by rewrite get_drop, Nat.add_0_r).
    by rewrite Hr in Hn.
Qed.

Lemma HasPrefix_get k s p m c :
  HasPrefix (drop_str k s) p = true → String.get m p = Some c → String.get (k + m) s = Some c.
Proof.
  intros H Hm. apply HasPrefix_spec in H as [r Hr].
  rewrite <- get_drop, Hr, get_app_l; [done|by eapply get_Some_lt].
Qed.

Lemma HasPrefix_len k s p : p ≠ "" → HasPrefix (drop_str k s) p = true → k + len p ≤ len s.
Proof.
  intros Hp H. apply HasPrefix_spec in H as [r Hr]. apply (f_equal String.length) in Hr.
  rewrite len_drop, len_app in Hr. destruct p; [done|]. cbn [String.length] in *. lia.
Qed.

(** [strings.IndexByte] finds the first occurrence. *)
Lemma IndexByte_Some s c k :
  IndexByte s c = Some k →
  String.get k s = Some c ∧ ∀ j, j < k → String.get j s ≠ Some c.
Proof.
  revert k. induction s as [|c' s IH]; intros k; simpl; [done|].
  case_bool_decide as E; intros H.
  - simplify_eq. split; [done|lia].
  - destruct (IndexByte s c) as [k'|]; simpl in H; simplify_eq.
    destruct (IH k' eq_refl) as [Hk Hf]. split; [done|].
    intros [|j] Hj; simpl; [congruence|]. apply Hf. lia.
Qed.

Lemma IndexByte_None s c : IndexByte s c = None → ∀ j, String.get j s ≠ Some c.
Proof.
  induction s as [|c' s IH]; simpl; [intros _ []; done|].
  case_bool_decide; [done|].
  destruct (IndexByte s c); [done|]. intros _ [|j]; simpl; [congruence|auto].
Qed.

Lemma IndexByte_complete s c k :
  String.get k s = Some c → (∀ j, j < k → String.get j s ≠ Some c) → IndexByte s c = Some k.
Proof.
  intros Hk Hf. destruct (IndexByte s c) as [k'|] eqn:E.
  - apply IndexByte_Some in E as [E1 E2]. f_equal.
    destruct (lt_eq_lt_dec k k') as [[H|H]|H]; [|done|]; exfalso; naive_solver.
  - exfalso. by apply (IndexByte_None _ _ E k).
Qed.

Lemma has_byte_false s c : has_byte s c = false ↔ ∀ j, String.get j s ≠ Some c.
Proof.
  unfold has_byte. destruct (IndexByte s c) as [k|] eqn:E.
  - apply IndexByte_Some in E as [E _]. split; [done|]. intros H. by destruct (H k).
  - split; [|done]. intros _. by apply IndexByte_None.
Qed.

Lemma has_byte_cons a s c : has_byte (String a s) c = bool_decide (a = c) || has_byte s c.
Proof.
  unfold has_byte. simpl. case_bool_decide; [done|]. by destruct (IndexByte s c).
Qed.

Lemma has_byte_app a b c : has_byte (a +:+ b) c = has_byte a c || has_byte b c.
Proof.
  induction a as [|d a IH]; [done|]. by rewrite app_cons, !has_byte_cons, IH, orb_assoc.
Qed.

(** [strings.Index] finds the first occurrence. *)
Lemma Index_unfold s p :
  Index s p = if HasPrefix s p then Some 0 else
              match s with "" => None | String _ s' => S <$> Index s' p end.
Proof. by destruct s. Qed.

Lemma Index_Some s p k :
  Index s p = Some k ↔
  HasPrefix (drop_str k s) p = true ∧ ∀ j, j < k → HasPrefix (drop_str j s) p = false.
Proof.
  revert k. induction s as [|c s IH]; intros k; rewrite Index_unfold.
  - destruct (HasPrefix "" p) eqn:E.
    + split; [intros H; simplify_eq; split; [done|lia]|].
      intros [_ H]. destruct k as [|k]; [done|]. specialize (H 0 ltac:(lia)). simpl in H.
      congruence.
    + split; [done|]. destruct k; simpl; intros [H _]; congruence.
  - destruct (HasPrefix (String c s) p) eqn:E.
    + split; [intros H; simplify_eq; split; [done|lia]|].
      intros [_ H]. destruct k as [|k]; [done|]. specialize (H 0 ltac:(lia)). simpl in H.
      congruence.
    + destruct k as [|k]; simpl.
      * split; [by destruct (Index s p)|]. intros [H _]. congruence.
      * transitivity (Index s p = Some k).
        { clear IH. destruct (Index s p); naive_solver. }
        rewrite IH. split; intros [H1 H2]; (split; [done|]).
        { intros [|j] Hj; simpl; [done|]. apply H2. lia. }
        { intros j Hj. apply (H2 (S j)). lia. }
Qed.

Lemma Index_None s p :
  Index s p = None ↔ ∀ k, k ≤ len s → HasPrefix (drop_str k s) p = false.
Proof.
  induction s as [|c s IH]; rewrite Index_unfold.
  - destruct (HasPrefix "" p) eqn:E; split; try done.
    + intros H. specialize (H 0 (Nat.le_0_l _)). simpl in H. congruence.
    + intros _ [|k]; [done|]. simpl. lia.
  - destruct (HasPrefix (String c s) p) eqn:E.
    + split; [done|]. intros H. specialize (H 0 (Nat.le_0_l _)). simpl in H. congruence.
    + transitivity (Index s p = None); [clear IH; destruct (Index s p); naive_solver|].
      rewrite IH. split; intros H.
      * intros [|k] Hk; [done|]. simpl in *. apply H. lia.
      * intros k Hk. apply (H (S k)). simpl. lia.
Qed.

Lemma Contains_spec s p :
  p ≠ "" → Contains s p = true ↔ ∃ k, HasPrefix (drop_str k s) p = true.
Proof.
  intros Hp. unfold Contains. destruct (Index s p) as [k|] eqn:E.
  - apply Index_Some in E as [E _]. split; eauto.
  - split; [done|]. intros [k Hk]. rewrite Index_None in E.
    rewrite E in Hk; [done|]. apply HasPrefix_len in Hk; [lia|done].
Qed.

Lemma all_bytes_app f a b : all_bytes f (a +:+ b) = all_bytes f a && all_bytes f b.
Proof.
  induction a as [|c a IH]; [done|]. rewrite app_cons. simpl. by rewrite IH, andb_assoc.
Qed.

Lemma all_bytes_impl (f g : ascii → bool) t :
  (∀ c, f c = true → g c = true) → all_bytes f t = true → all_bytes g t = true.
Proof.
  intros Hfg. induction t as [|c t IH]; simpl; [done|]. intros. b2p.
  rewrite (Hfg c) by done. auto.
Qed.

(** ** Reversal and trimming *)

Lemma rev_app_acc a b : String.rev_app a b = String.rev a +:+ b.
Proof.
  unfold String.rev. revert b. induction a as [|c a IH]; intros b; [done|].
  simpl. rewrite IH, (IH (String c "")). by rewrite app_assoc.
Qed.

Lemma rev_cons c s : String.rev (String c s) = String.rev s +:+ String c "".
Proof. unfold String.rev at 1. simpl. apply rev_app_acc. Qed.

Lemma rev_app_distr a b : String.rev (a +:+ b) = String.rev b +:+ String.rev a.
Proof.
  induction a as [|c a IH]; [by rewrite app_nil_l, app_nil_r|].
  by rewrite app_cons, !rev_cons, IH, app_assoc.
Qed.

Lemma rev_involutive s : String.rev (String.rev s) = s.
Proof. induction s as [|c s IH]; [done|]. by rewrite rev_cons, rev_app_distr, IH. Qed.

Section Trim.
Context (t2 : ascii → ascii → bool) (t3 : ascii → ascii → ascii → bool).

(** [trim_while] removes leading white-space runes until there is none. *)
Lemma trim_while_step s :
  trim_while t2 t3 s =
  match drop_space t2 t3 s with Some s' => trim_while t2 t3 s' | None => s end.
Proof.
  destruct s as [|c1 s]; [done|]. simpl. destruct (space1 c1); [done|].
  destruct s as [|c2 s]; [done|]. destruct (t2 c1 c2); [done|].
  destruct s as [|c3 s]; [done|]. by destruct (t3 c1 c2 c3).
Qed.

Lemma drop_space_split s s' : drop_space t2 t3 s = Some s' → ∃ p, s = p +:+ s' ∧ 0 < len p.
Proof.
  destruct s as [|c1 [|c2 [|c3 s]]]; simpl; repeat case_match; intros; simplify_eq;
    first [ by exists (String c1 ""); split; [done|simpl; lia]
          | by exists (String c1 (String c2 "")); split; [done|simpl; lia]
          | by exists (String c1 (String c2 (String c3 ""))); split; [done|simpl; lia] ].
Qed.

(** A prefix of a string that starts with no white space starts with none. *)
Lemma drop_space_prefix a b : drop_space t2 t3 (a +:+ b) = None → drop_space t2 t3 a = None.
Proof.
  destruct a as [|c1 [|c2 [|c3 a]]]; rewrite ?app_cons, ?app_nil_l; simpl;
    repeat case_match; intros; simplify_eq; done.
Qed.

Lemma trim_while_spec s :
  ∃ p, s = p +:+ trim_while t2 t3 s ∧ drop_space t2 t3 (trim_while t2 t3 s) = None.
Proof.
  remember (len s) as n eqn:Hn. assert (len s ≤ n) as Hle by lia. clear Hn.
  revert s Hle. induction n as [|n IH]; intros s Hle; rewrite trim_while_step;
    (destruct (drop_space t2 t3 s) as [s'|] eqn:E; [|by exists ""]).
  - apply drop_space_split in E as (p & -> & Hp). rewrite len_app in Hle. lia.
  - apply drop_space_split in E as (p & -> & Hp). rewrite len_app in Hle.
    destruct (IH s') as (q & Hq & Hd); [lia|]. exists (p +:+ q).
    rewrite app_assoc. by rewrite <- Hq.
Qed.

Lemma trim_while_id s : drop_space t2 t3 s = None → trim_while t2 t3 s = s.
Proof. intros H. by rewrite trim_while_step, H. Qed.
End Trim.

Lemma trim_left_spec s :
  ∃ p, s = p +:+ trim_left s ∧ drop_space space2 space3 (trim_left s) = None.
Proof. apply trim_while_spec. Qed.

Definition ends_space (s : string) : option string :=
  drop_space (λ a b, space2 b a) (λ a b c, space3 c b a) (String.rev s).

Lemma trim_right_spec s : ∃ p, s = trim_right s +:+ p ∧ ends_space (trim_right s) = None.
Proof.
  unfold trim_right, ends_space.
  destruct (trim_while_spec (λ a b, space2 b a) (λ a b c, space3 c b a) (String.rev s))
    as (p & Hp & Hd).
  exists (String.rev p). rewrite rev_involutive. split; [|done].
  rewrite <- rev_app_distr, <- Hp. by rewrite rev_involutive.
Qed.

Lemma trim_right_id s : ends_space s = None → trim_right s = s.
Proof.
  intros H. unfold trim_right. rewrite trim_while_id by done. apply rev_involutive.
Qed.

(** The result of [TrimSpace] has no white space at either end, and is a
    contiguous part of the argument. *)
Lemma TrimSpace_spec s :
  ∃ p q, s = p +:+ TrimSpace s +:+ q
    ∧ drop_space space2 space3 (TrimSpace s) = None ∧ ends_space (TrimSpace s) = None.
Proof.
  unfold TrimSpace.
  destruct (trim_left_spec s) as (p & Hp & Hl), (trim_right_spec (trim_left s)) as (q & Hq & Hr).
  exists p, q. split; [congruence|]. split; [|done].
  rewrite Hq in Hl. by eapply drop_space_prefix.
Qed.

Lemma TrimSpace_id s :
  drop_space space2 space3 s = None → ends_space s = None → TrimSpace s = s.
Proof.
  intros Hl Hr. unfold TrimSpace, trim_left. rewrite trim_while_id by done.
  by apply trim_right_id.
Qed.

Lemma TrimSpace_idemp s : TrimSpace (TrimSpace s) = TrimSpace s.
Proof. destruct (TrimSpace_spec s) as (p & q & _ & Hl & Hr). by apply TrimSpace_id. Qed.

Lemma TrimSpace_nil : TrimSpace "" = "".
Proof. done. Qed.

#[export] Hint Rewrite TrimSpace_idemp TrimSpace_nil : str.

(** Visible ASCII is never trimmed. *)
Definition visible (c : ascii) : bool := (33 <=? byte c)%Z && (byte c <=? 126)%Z.

Lemma all_bytes_rev f s : all_bytes f (String.rev s) = all_bytes f s.
Proof.
  induction s as [|c s IH]; [done|]. rewrite rev_cons, all_bytes_app, IH. simpl.
  by rewrite andb_true_r, andb_comm.
Qed.

Lemma visible_drop t2 t3 s :
  (∀ a b, visible a = true → visible b = true → t2 a b = false) →
  (∀ a b c, visible a = true → visible b = true → visible c = true → t3 a b c = false) →
  all_bytes visible s = true → drop_space t2 t3 s = None.
Proof.
  intros H2 H3. assert (∀ c, visible c = true → space1 c = false) as H1.
  { intros c. destruct c as [[] [] [] [] [] [] [] []]; by vm_compute. }
  destruct s as [|c1 [|c2 [|c3 s]]]; simpl; intros; b2p;
    rewrite ?H1, ?H2, ?H3 by done; done.
Qed.

Lemma visible_space2 a b : visible a = true → space2 a b = false.
Proof.
  unfold visible, space2. intros. b2p. destruct (byte a =? 0xC2)%Z eqn:E; b2p; [lia|done].
Qed.

Lemma visible_space3 a b c : visible a = true → space3 a b c = false.
Proof.
  unfold visible, space3. intros. b2p.
  rewrite !(proj2 (Z.eqb_neq (byte a) _)) by lia. done.
Qed.

Lemma TrimSpace_visible s : all_bytes visible s = true → TrimSpace s = s.
Proof.
  intros Hs. apply TrimSpace_id.
  - apply visible_drop; auto using visible_space2, visible_space3.
  - apply visible_drop; [intros; by apply visible_space2|intros; by apply visible_space3|].
    by rewrite all_bytes_rev.
Qed.

(** *** What is trimmed holds no visible byte *)

Definition invisible (s : string) : Prop := all_bytes (λ c, negb (visible c)) s = true.

Lemma invisible_app a b : invisible (a +:+ b) ↔ invisible a ∧ invisible b.
Proof. unfold invisible. rewrite all_bytes_app. apply andb_true_iff. Qed.

Lemma all_bytes_get f s k c : all_bytes f s = true → String.get k s = Some c → f c = true.
Proof.
  revert k. induction s as [|a s IH]; intros k; [done|]. simpl. intros Hs. b2p.
  destruct k; simpl; [by intros [= <-]|eauto].
Qed.

Section TrimInvisible.
Context (t2 : ascii → ascii → bool) (t3 : ascii → ascii → ascii → bool).
Context (H2 : ∀ a b, t2 a b = true → visible a = false ∧ visible b = false).
Context (H3 : ∀ a b c, t3 a b c = true → visible a = false ∧ visible b = false ∧ visible c = false).

Lemma space1_invisible c : space1 c = true → visible c = false.
Proof. destruct c as [[] [] [] [] [] [] [] []]; by vm_compute. Qed.

Lemma drop_space_invisible s s' :
  drop_space t2 t3 s = Some s' → ∃ p, s = p +:+ s' ∧ 0 < len p ∧ invisible p.
Proof using H2 H3.
  unfold drop_space, invisible. intros Hd.
  destruct s as [|c1 s]; [done|]. destruct (space1 c1) eqn:E1.
  { simplify_eq. exists (String c1 ""). simpl. rewrite space1_invisible by done. repeat split; lia. }
  destruct s as [|c2 s]; [done|]. destruct (t2 c1 c2) eqn:E2.
  { simplify_eq. apply H2 in E2 as [E E']. exists (String c1 (String c2 "")). simpl.
    rewrite E, E'. repeat split; lia. }
  destruct s as [|c3 s]; [done|]. destruct (t3 c1 c2 c3) eqn:E3; [|done].
  simplify_eq. apply H3 in E3 as (E & E' & E''). exists (String c1 (String c2 (String c3 ""))).
  simpl. rewrite E, E', E''. repeat split; lia.
Qed.

Lemma trim_while_invisible s : ∃ p, s = p +:+ trim_while t2 t3 s ∧ invisible p.
Proof using H2 H3.
  remember (len s) as n eqn:Hn. assert (len s ≤ n) as Hle by lia. clear Hn.
  revert s Hle. induction n as [|n IH]; intros s Hle; rewrite trim_while_step;
    (destruct (drop_space t2 t3 s) as [s'|] eqn:E; [|by exists ""]);
    apply drop_space_invisible in E as (p & -> & Hp & Hi); rewrite len_app in Hle; [lia|].
  destruct (IH s') as (q & Hq & Hd); [lia|]. exists (p +:+ q).
  rewrite app_assoc, <- Hq, invisible_app. done.
Qed.
End TrimInvisible.

Lemma space2_invisible a b : space2 a b = true → visible a = false ∧ visible b = false.
Proof.
  unfold space2, visible. intros H. b2p. apply orb_true_iff in H0. rewrite H, !Z.eqb_eq in *.
  split; apply andb_false_iff; rewrite !Z.leb_gt; lia.
Qed.

Lemma space3_invisible a b c :
  space3 a b c = true → visible a = false ∧ visible b = false ∧ visible c = false.
Proof.
  unfold space3, visible. intros H.
  repeat rewrite ?orb_true_iff, ?andb_true_iff, ?Z.eqb_eq, ?Z.leb_le in H.
  repeat split; apply andb_false_iff; rewrite !Z.leb_gt; lia.
Qed.

Lemma TrimSpace_invisible s : ∃ p q, s = p +:+ TrimSpace s +:+ q ∧ invisible p ∧ invisible q.
Proof.
  destruct (trim_while_invisible space2 space3 space2_invisible space3_invisible s) as (p & Hp & Ip).
  destruct (trim_while_invisible (λ a b, space2 b a) (λ a b c, space3 c b a)) with
    (s := String.rev (trim_left s)) as (q & Hq & Iq).
  { intros a b H. apply space2_invisible in H. tauto. }
  { intros a b c H. apply space3_invisible in H. tauto. }
  exists p, (String.rev q). split; [|split; [done|unfold invisible; by rewrite all_bytes_rev]].
  unfold TrimSpace, trim_right. rewrite <- rev_app_distr, <- Hq, rev_involutive. exact Hp.
Qed.

Lemma HasPrefix_gets k s p :
  (∀ m c, String.get m p = Some c → String.get (k + m) s = Some c) →
  HasPrefix (drop_str k s) p = true.
Proof.
  revert k. induction p as [|c p IH]; intros k H.
  - apply HasPrefix_spec. exists (drop_str k s). done.
  - apply HasPrefix_cons. split; [rewrite <- (Nat.add_0_r k); by apply (H 0)|].
    apply IH. intros m d Hm. replace (S k + m) with (k + S m) by lia. by apply H.
Qed.

(** A token of visible bytes cannot touch what is trimmed. *)
Lemma Contains_TrimSpace s tok :
  tok ≠ "" → all_bytes visible tok = true → Contains (TrimSpace s) tok = Contains s tok.
Proof.
  intros Hne Hv. destruct (TrimSpace_invisible s) as (p & q & Hs & Ip & Iq).
  set (t := TrimSpace s) in *. clearbody t. subst s.
  apply eq_bool_prop_intro. rewrite !Is_true_true, !Contains_spec by done. split; intros [k Hk].
  - exists (len p + k). pose proof (HasPrefix_len _ _ _ Hne Hk) as Hl.
    apply HasPrefix_gets. intros m c Hm. rewrite <- Nat.add_assoc, get_app_r, get_app_l.
    + by eapply HasPrefix_get.
    + apply get_Some_lt in Hm. lia.
  - assert (∀ m c, String.get m tok = Some c → len p ≤ k + m < len p + len t) as Hin.
    { intros m c Hm. pose proof (all_bytes_get _ _ _ _ Hv Hm) as Hc.
      pose proof (HasPrefix_get _ _ _ _ _ Hk Hm) as Hg. destruct (decide (k + m < len p)).
      { rewrite get_app_l in Hg by done. pose proof (all_bytes_get _ _ _ _ Ip Hg) as Hx.
        simpl in Hx. by rewrite Hc in Hx. }
      split; [lia|]. destruct (decide (k + m < len p + len t)); [done|].
      rewrite !get_app_ge in Hg by (rewrite ?len_app; lia).
      pose proof (all_bytes_get _ _ _ _ Iq Hg) as Hx. simpl in Hx. by rewrite Hc in Hx. }
    exists (k - len p). apply HasPrefix_gets. intros m c Hm. pose proof (Hin m c Hm).
    destruct tok as [|c0 tok]; [done|]. pose proof (Hin 0 c0 eq_refl).
    pose proof (HasPrefix_get _ _ _ _ _ Hk Hm) as Hg.
    rewrite get_app_ge, get_app_l in Hg by lia. replace (k - len p + m) with (k + m - len p) by lia.
    done.
Qed.

(** ** Splitting and replacing *)

Lemma SplitN2_spec s sep :
  match SplitN2 s sep with
  | (a, None) => s = a ∧ has_byte s sep = false
  | (a, Some b) => s = a +:+ String sep b ∧ has_byte a sep = false
  end.
Proof.
  induction s as [|c s IH]; [done|]. simpl. case_bool_decide as E.
  - by subst.
  - unfold has_byte in *. destruct (SplitN2 s sep) as [a [b|]]; simpl in *;
      rewrite bool_decide_eq_false_2 by done; destruct IH as [-> IH]; split;
      try done; by destruct (IndexByte _ _).
Qed.

Lemma SplitN2_app a b sep :
  has_byte a sep = false → SplitN2 (a +:+ String sep b) sep = (a, Some b).
Proof.
  induction a as [|c a IH]; rewrite ?app_nil_l, ?app_cons; simpl.
  - intros _. by rewrite bool_decide_eq_true_2.
  - unfold has_byte in *. simpl. case_bool_decide; [done|].
    intros Hb. rewrite IH; [done|]. by destruct (IndexByte a sep).
Qed.

Lemma SplitN2_none a sep : has_byte a sep = false → SplitN2 a sep = (a, None).
Proof.
  induction a as [|c a IH]; [done|]. unfold has_byte in *. simpl.
  case_bool_decide; [done|]. intros Hb. rewrite IH; [done|]. by destruct (IndexByte a sep).
Qed.

Lemma ReplaceByte_no_old s old new :
  old ≠ new → has_byte (ReplaceByte s old new) old = false.
Proof.
  intros Hne. induction s as [|c s IH]; [done|]. unfold has_byte in *. simpl.
  assert ((if bool_decide (c = old) then new else c) ≠ old) as Hc
    by (case_bool_decide; congruence).
  rewrite (bool_decide_eq_false_2 _ Hc). by destruct (IndexByte _ _).
Qed.

Lemma ReplaceByte_id s old new : has_byte s old = false → ReplaceByte s old new = s.
Proof.
  induction s as [|c s IH]; [done|]. unfold has_byte in *. simpl.
  case_bool_decide; [done|]. intros Hb. f_equal. apply IH. by destruct (IndexByte s old).
Qed.

(** ** Decimal round trip *)

Section Decimal.
Local Open Scope Z_scope.

Lemma digit_val_pretty x : (x < 10)%N → digit_val (pretty_N_char x) = Some (Z.of_N x).
Proof.
  intros Hx. destruct x as [|p]; [done|].
  do 4 (destruct p as [p|p|]; try done); lia.
Qed.

Lemma byte_pretty_char x : 48 <= byte (pretty_N_char x) <= 57.
Proof. unfold pretty_N_char. repeat case_match; cbv; split; discriminate. Qed.

Lemma parse_pretty_go x s :
  parse_digits 10 (pretty_N_go x s) 0 = parse_digits 10 s (Z.of_N x).
Proof.
  revert s. induction (N.lt_wf_0 x) as [x _ IH]; intros s.
  assert (x = 0 ∨ 0 < x)%N as [->|Hpos] by lia; [by rewrite pretty_N_go_0|].
  rewrite pretty_N_go_step by done. rewrite IH by (by apply N.div_lt). simpl.
  rewrite digit_val_pretty by (apply N.mod_lt; lia).
  pose proof (N.mod_lt x 10 ltac:(lia)).
  rewrite (proj2 (Z.ltb_lt _ _)) by lia. f_equal.
  rewrite (N.div_mod x 10) at 3 by lia. lia.
Qed.

Lemma parse_pretty_N x : parse_digits 10 (pretty x) 0 = Some (Z.of_N x).
Proof.
  unfold pretty, pretty_N. case_decide; [by subst|]. by rewrite parse_pretty_go.
Qed.

(** The first character of a printed natural number is a digit. *)
Lemma pretty_go_head x c s :
  (48 <= byte c <= 57) →
  ∃ c' s', pretty_N_go x (String c s) = String c' s' ∧ 48 <= byte c' <= 57.
Proof.
  revert c s. induction (N.lt_wf_0 x) as [x _ IH]; intros c s Hc.
  assert (x = 0 ∨ 0 < x)%N as [->|Hpos] by lia; [rewrite pretty_N_go_0; eauto|].
  rewrite pretty_N_go_step by done.
  apply IH; [by apply N.div_lt|apply byte_pretty_char].
Qed.

Lemma pretty_N_head (x : N) : ∃ c s, pretty x = String c s ∧ 48 <= byte c <= 57.
Proof.
  unfold pretty, pretty_N. case_decide as E.
  - exists "0"%char, "". split; [done|]. cbv; split; discriminate.
  - rewrite pretty_N_go_step by lia. apply pretty_go_head, byte_pretty_char.
Qed.

Lemma parse_Itoa_nonneg n :
  0 <= n < 2 ^ 64 → ParseUint (pretty (Z.to_N n)) 10 = Some n.
Proof.
  intros Hn. unfold ParseUint.
  destruct (pretty_N_head (Z.to_N n)) as (c & s & E & _).
  rewrite E, <- E, parse_pretty_N, Z2N.id by lia.
  by rewrite (proj2 (Z.ltb_lt _ _)) by lia.
Qed.

Lemma Itoa_nonneg n : 0 <= n → Itoa n = pretty (Z.to_N n).
Proof. by destruct n. Qed.

Lemma Itoa_neg n : n < 0 → Itoa n = String "-"%char (pretty (Z.to_N (- n))).
Proof. by destruct n. Qed.

Lemma head_not_sign c : 48 <= byte c <= 57 → c ≠ "-"%char ∧ c ≠ "+"%char.
Proof. intros Hc. split; intros ->; cbv in Hc; destruct Hc; congruence. Qed.

(** [strconv.ParseInt] reads back what [fmt.Sprint] prints. *)
Lemma ParseInt_Itoa n : in_int64 n → ParseInt (Itoa n) 10 = Some n.
Proof.
  unfold in_int64, min_int64, max_int64. intros Hn. destruct (decide (0 <= n)) as [Hp|Hp].
  - rewrite Itoa_nonneg by done.
    pose proof (parse_Itoa_nonneg n ltac:(lia)) as Hu.
    destruct (pretty_N_head (Z.to_N n)) as (c & s & E & Hc). rewrite E in *.
    destruct (head_not_sign c Hc). unfold ParseInt.
    rewrite !bool_decide_eq_false_2 by done. simpl. rewrite Hu.
    by rewrite (proj2 (Z.leb_gt _ _)) by lia.
  - rewrite Itoa_neg by lia. unfold ParseInt. rewrite bool_decide_eq_true_2 by done. simpl.
    rewrite parse_Itoa_nonneg by lia.
    rewrite (proj2 (Z.ltb_ge _ _)) by lia. f_equal. lia.
Qed.

Lemma digit_val_nonneg c d : digit_val c = Some d → 0 <= d.
Proof. unfold digit_val. intros. repeat case_match; simplify_eq; b2p; lia. Qed.

Lemma parse_digits_nonneg base t acc m :
  0 <= base → 0 <= acc → parse_digits base t acc = Some m → 0 <= m.
Proof.
  intros Hb. revert acc. induction t as [|c t IH]; intros acc Hacc; simpl.
  - by intros; simplify_eq.
  - destruct (digit_val c) as [d|] eqn:Ed; [|done]. case_match; [|done].
    apply IH. apply digit_val_nonneg in Ed. nia.
Qed.

Lemma ParseUint_range s base n : 0 <= base → ParseUint s base = Some n → 0 <= n < 2 ^ 64.
Proof.
  intros Hb. unfold ParseUint. destruct s as [|c s]; [done|].
  destruct (parse_digits base (String c s) 0) as [m|] eqn:E; [|done].
  destruct (m <? 2 ^ 64) eqn:Em; [|done]. intros [= <-]. b2p.
  apply parse_digits_nonneg in E; lia.
Qed.

(** [ParseInt] only answers with 64-bit integers. *)
Lemma ParseInt_range s base n : 0 <= base → ParseInt s base = Some n → in_int64 n.
Proof.
  intros Hb. unfold ParseInt. destruct s as [|c s]; [done|].
  destruct (ParseUint _ base) as [un|] eqn:E; [|done].
  apply ParseUint_range in E; [|done]. unfold in_int64, min_int64, max_int64.
  destruct (bool_decide (c = "-"%char)); simpl; intros; repeat case_match; simplify_eq; b2p; lia.
Qed.

Definition is_digit (c : ascii) : bool := (48 <=? byte c) && (byte c <=? 57).

Lemma pretty_go_digits x s :
  all_bytes is_digit s = true → all_bytes is_digit (pretty_N_go x s) = true.
Proof.
  revert s. induction (N.lt_wf_0 x) as [x _ IH]; intros s Hs.
  assert (x = 0 ∨ 0 < x)%N as [->|Hpos] by lia; [by rewrite pretty_N_go_0|].
  rewrite pretty_N_go_step by done. apply IH; [by apply N.div_lt|]. simpl. rewrite Hs.
  pose proof (byte_pretty_char (x `mod` 10)). unfold is_digit.
  by rewrite !(proj2 (Z.leb_le _ _)) by lia.
Qed.

Lemma pretty_N_digits (x : N) : all_bytes is_digit (pretty x) = true.
Proof. unfold pretty, pretty_N. case_decide; [done|]. by apply pretty_go_digits. Qed.

Lemma Itoa_bytes n :
  all_bytes (λ c, is_digit c || bool_decide (c = "-"%char)) (Itoa n) = true.
Proof.
  assert (∀ x : N, all_bytes (λ c, is_digit c || bool_decide (c = "-"%char)) (pretty x) = true) as Hx.
  { intros x. eapply all_bytes_impl; [|apply pretty_N_digits]. by intros c ->. }
  destruct (decide (0 <= n)); [by rewrite Itoa_nonneg|]. rewrite Itoa_neg by lia.
  simpl. apply Hx.
Qed.

Lemma Itoa_visible n : all_bytes visible (Itoa n) = true.
Proof.
  eapply all_bytes_impl; [|apply Itoa_bytes]. intros c.
  destruct c as [[] [] [] [] [] [] [] []]; by vm_compute.
Qed.

Lemma TrimSpace_Itoa n : TrimSpace (Itoa n) = Itoa n.
Proof. apply TrimSpace_visible, Itoa_visible. Qed.

Lemma Itoa_not_nil n : Itoa n ≠ "".
Proof.
  destruct (decide (0 <= n)) as [H|H].
  - rewrite Itoa_nonneg by done. destruct (pretty_N_head (Z.to_N n)) as (? & ? & -> & _). done.
  - by rewrite Itoa_neg by lia.
Qed.

(** A printed integer does not read as a hexadecimal literal. *)
Lemma Itoa_not_hex n x : x = "x"%char ∨ x = "X"%char → HasPrefix (Itoa n) (String "0" (String x "")) = false.
Proof.
  intros Hx. destruct (HasPrefix _ _) eqn:E; [|done]. exfalso.
  apply HasPrefix_spec in E as [r E]. pose proof (Itoa_bytes n) as Hb. rewrite E in Hb.
  destruct Hx as [-> | ->]; done.
Qed.
End Decimal.
