(* ===== verification/JsonScan.v ===== *)
(** * [internal/jsonscan/scan.go]: walking JSON text for value boundaries

    Every function of the package is translated with its loops as [go_loop] and
    its indexing as the checked [at_] and [slice], so that "malformed input
    yields ok=false rather than a panic" is a theorem about the definitions.
    [skipString] is shown equal to a one-pass automaton, and [SkipValue],
    [ScanArray] and [ScanObject] are shown to find the boundaries that a JSON
    grammar assigns. *)

From S2P Require Import Prelude GoStrings.
Local Open Scope nat_scope.

(** ** The code *)

Definition is_ (c d : ascii) : bool := bool_decide (c = d).

Definition IsSpace (c : ascii) : bool :=
  is_ c " " || is_ c "009" || is_ c "010" || is_ c "013".

(** Every loop below advances an index that stays at most [len s] on each
    iteration, so [S (len s)] iterations are enough. *)
Definition fuel (s : string) : nat := S (len s).

Definition SkipSpace_body (s : string) (i : nat) : go (next nat nat) :=
  if i <? len s then
    let! c := at_ s i in
    if IsSpace c then Ret (Continue (S i)) else Ret (Break i)
  else Ret (Break i).

Definition SkipSpace (s : string) (i : nat) : go nat := go_loop (fuel s) (SkipSpace_body s) i.

(** The inner loop of [skipString]: counts the backslashes before index [q],
    looking no further back than the opening quote at [i]. *)
Definition backslashes (s : string) (i q : nat) : go nat :=
  go_loop (fuel s) (λ '(p, n),
    if i <? p then
      let! c := at_ s p in
      if is_ c backslash then Ret (Continue (p - 1, S n)) else Ret (Break n)
    else Ret (Break n)) (q - 1, 0).

Definition skipString (s : string) (i : nat) : go (nat * bool) :=
  if len s <=? i then Ret (0, false) else
  let! c := at_ s i in
  if negb (is_ c dquote) then Ret (0, false) else
  go_loop (fuel s) (λ j,
    if j <? len s then
      match IndexByte (drop_str j s) dquote with
      | None => Ret (Break (0, false))
      | Some k =>
          let q := j + k in
          let! n := backslashes s i q in
          if n mod 2 =? 0 then Ret (Break (q + 1, true)) else Ret (Continue (q + 1))
      end
    else Ret (Break (0, false))) (i + 1).

Definition SkipString (s : string) (i : nat) : go (nat * bool * bool) :=
  let! '(e, ok) := skipString s i in
  if negb ok then Ret (0, false, false) else
  let! body := slice s (i + 1) (e - 1) in
  Ret (e, has_byte body backslash, true).

(** The bracket loop of [SkipValue]; its state is [(j, depth)]. *)
Definition skipNested_body (s : string) (st : nat * Z) : go (next (nat * Z) (nat * bool)) :=
  let '(j, depth) := st in
  if j <? len s then
    let! c := at_ s j in
    if is_ c dquote then
      let! '(e, ok) := skipString s j in
      if ok then Ret (Continue (e, depth)) else Ret (Break (0, false))
    else if is_ c "{" || is_ c "[" then Ret (Continue (S j, (depth + 1)%Z))
    else if is_ c "}" || is_ c "]" then
      if (depth - 1 =? 0)%Z then Ret (Break (j + 1, true))
      else Ret (Continue (S j, (depth - 1)%Z))
    else Ret (Continue (S j, depth))
  else Ret (Break (0, false)).

Definition skipNested (s : string) (i : nat) : go (nat * bool) :=
  go_loop (fuel s) (skipNested_body s) (i, 0%Z).

Definition isDelim (c : ascii) : bool :=
  is_ c "," || is_ c "}" || is_ c "]" || is_ c ":" || IsSpace c.

(** The scalar loop of [SkipValue]. *)
Definition skipScalar_body (s : string) (j : nat) : go (next nat nat) :=
  if j <? len s then
    let! c := at_ s j in
    if isDelim c then Ret (Break j) else Ret (Continue (S j))
  else Ret (Break j).

Definition skipScalar (s : string) (i : nat) : go (nat * bool) :=
  let! j := go_loop (fuel s) (skipScalar_body s) i in
  if j =? i then Ret (0, false) else Ret (j, true).

Definition SkipValue (s : string) (i : nat) : go (nat * bool) :=
  if len s <=? i then Ret (0, false) else
  let! c := at_ s i in
  if is_ c dquote then skipString s i
  else if is_ c "{" || is_ c "[" then skipNested s i
  else skipScalar s i.

(** [ScanObject] and [ScanArray] call back into a closure; the variables the
    closure captures are the state [St] it threads. *)
Section Scan.
Context {St : Type}.

(** One iteration of [ScanObject]'s loop; its state is the closure's and [j]. *)
Definition ScanObject_body (s : string) (fn : St → string → bool → nat → nat → go (St * bool))
    (x : St * nat) : go (next (St * nat) (St * (nat * bool))) :=
  let '(st, j) := x in
  let! '(ke, escaped, ok) := SkipString s j in
  if negb ok then Ret (Break (st, (0, false))) else
  let! key := slice s (j + 1) (ke - 1) in
  let! j := SkipSpace s ke in
  let! colon := (if j <? len s then let! c := at_ s j in Ret (is_ c ":") else Ret false) in
  if negb colon then Ret (Break (st, (0, false))) else
  let! vs := SkipSpace s (j + 1) in
  let! '(ve, ok) := SkipValue s vs in
  if negb ok then Ret (Break (st, (0, false))) else
  let! '(st, more) := fn st key escaped vs ve in
  if negb more then Ret (Break (st, (ve, true))) else
  let! j := SkipSpace s ve in
  if len s <=? j then Ret (Break (st, (0, false))) else
  let! c := at_ s j in
  if is_ c "," then let! j := SkipSpace s (j + 1) in Ret (Continue (st, j))
  else if is_ c "}" then Ret (Break (st, (j + 1, true)))
  else Ret (Break (st, (0, false))).

Definition ScanObject (s : string) (i : nat)
    (fn : St → string → bool → nat → nat → go (St * bool)) (st : St) : go (St * (nat * bool)) :=
  if len s <=? i then Ret (st, (0, false)) else
  let! c := at_ s i in
  if negb (is_ c "{") then Ret (st, (0, false)) else
  let! j := SkipSpace s (i + 1) in
  let! empty := (if j <? len s then let! c := at_ s j in Ret (is_ c "}") else Ret false) in
  if empty then Ret (st, (j + 1, true)) else
  go_loop (fuel s) (ScanObject_body s fn) (st, j).

(** One iteration of [ScanArray]'s loop; its state is the closure's, [idx] and [j]. *)
Definition ScanArray_body (s : string) (fn : St → nat → nat → nat → go (St * bool))
    (x : St * nat * nat) : go (next (St * nat * nat) (St * (nat * bool))) :=
  let '(st, idx, j) := x in
  let! '(ve, ok) := SkipValue s j in
  if negb ok then Ret (Break (st, (0, false))) else
  let! '(st, more) := fn st idx j ve in
  if negb more then Ret (Break (st, (ve, true))) else
  let! j := SkipSpace s ve in
  if len s <=? j then Ret (Break (st, (0, false))) else
  let! c := at_ s j in
  if is_ c "," then let! j := SkipSpace s (j + 1) in Ret (Continue (st, S idx, j))
  else if is_ c "]" then Ret (Break (st, (j + 1, true)))
  else Ret (Break (st, (0, false))).

Definition ScanArray (s : string) (i : nat)
    (fn : St → nat → nat → nat → go (St * bool)) (st : St) : go (St * (nat * bool)) :=
  if len s <=? i then Ret (st, (0, false)) else
  let! c := at_ s i in
  if negb (is_ c "[") then Ret (st, (0, false)) else
  let! j := SkipSpace s (i + 1) in
  let! empty := (if j <? len s then let! c := at_ s j in Ret (is_ c "]") else Ret false) in
  if empty then Ret (st, (j + 1, true)) else
  go_loop (fuel s) (ScanArray_body s fn) (st, 0, j).
End Scan.

Fixpoint IsPlainASCII (s : string) : bool :=
  match s with
  | "" => true
  | String c s' =>
      if (byte c <? 0x20)%Z || (0x7f <=? byte c)%Z then false else IsPlainASCII s'
  end.

(** ** White space and string literals *)

Lemma is_true c d : is_ c d = true ↔ c = d.
Proof. apply bool_decide_eq_true. Qed.
Lemma is_false c d : is_ c d = false ↔ c ≠ d.
Proof. apply bool_decide_eq_false. Qed.

Definition space_at (s : string) (k : nat) : Prop :=
  ∃ c, String.get k s = Some c ∧ IsSpace c = true.

Lemma SkipSpace_spec s i :
  returns (SkipSpace s i) (λ j,
    i ≤ j ∧ (i ≤ len s → j ≤ len s) ∧ (∀ k, i ≤ k < j → space_at s k) ∧
    (∀ c, String.get j s = Some c → IsSpace c = false)).
Proof.
  unfold SkipSpace.
  apply (returns_loop (λ j, i ≤ j ∧ (i ≤ len s → j ≤ len s) ∧ (∀ k, i ≤ k < j → space_at s k))
           (λ j, len s - j)); unfold fuel; [|auto with lia|lia].
  intros j (Hij & Hle & Hsp). unfold SkipSpace_body. destruct (j <? len s) eqn:E; b2p.
  - apply returns_bind, returns_at; [done|]. intros c Hc.
    destruct (IsSpace c) eqn:Hs; simpl.
    + split; [|lia]. split_and!; [lia|lia|].
      intros k Hk. destruct (decide (k = j)) as [->|]; [by exists c|]. apply Hsp. lia.
    + split_and!; try done. intros c' Hc'. congruence.
  - split_and!; try done. intros c Hc. apply get_Some_lt in Hc. lia.
Qed.

(** The reference for string literals: one pass over the characters after the
    opening quote, remembering whether the previous one escapes the next. *)
Fixpoint close_quote (l : string) (esc : bool) : option nat :=
  match l with
  | "" => None
  | String c l' =>
      if is_ c dquote && negb esc then Some 0
      else S <$> close_quote l' (is_ c backslash && negb esc)
  end.

(** The automaton's state before character [k]. *)
Fixpoint escaped_before (l : string) (esc : bool) (k : nat) : bool :=
  match k, l with
  | 0, _ => esc
  | S k, String c l' => escaped_before l' (is_ c backslash && negb esc) k
  | S _, "" => false
  end.

(** The number of consecutive backslashes that end just before character [k]. *)
Fixpoint run_before (l : string) (k : nat) : nat :=
  match k with
  | 0 => 0
  | S k => if bool_decide (String.get k l = Some backslash) then S (run_before l k) else 0
  end.

Definition closes (l : string) (esc : bool) (k : nat) : Prop :=
  String.get k l = Some dquote ∧ escaped_before l esc k = false.

Lemma close_quote_Some l esc k :
  close_quote l esc = Some k ↔ closes l esc k ∧ ∀ j, j < k → ¬ closes l esc j.
Proof.
  unfold closes. revert esc k. induction l as [|c l IH]; intros esc k; simpl.
  - split; [done|]. intros [[H _] _]. by destruct k.
  - destruct (is_ c dquote && negb esc) eqn:E.
    + b2p. apply is_true in H. subst c. destruct k as [|k].
      { split; [intros _; split; [done|lia]|done]. }
      split; [done|]. intros [_ Hf]. destruct (Hf 0); [lia|done].
    + assert (¬ (Some c = Some dquote ∧ esc = false)) as H0.
      { intros [[= ->] ->]. unfold is_ in E. by rewrite bool_decide_eq_true_2 in E. }
      destruct k as [|k].
      { split; [by destruct (close_quote l _)|]. intros [Hc _]. by destruct H0. }
      transitivity (close_quote l (is_ c backslash && negb esc) = Some k).
      { destruct (close_quote l _); simpl; split; congruence. }
      rewrite IH. split; intros [Hc Hf]; (split; [done|]).
      { intros [|j] Hj; simpl; [done|]. apply Hf. lia. }
      { intros j Hj. apply (Hf (S j)). lia. }
Qed.

Lemma close_quote_None l esc : close_quote l esc = None → ∀ k, ¬ closes l esc k.
Proof.
  intros Hn k. revert k. apply (well_founded_induction lt_wf). intros k Hk Hc.
  assert (close_quote l esc = Some k) as E by (by apply close_quote_Some). congruence.
Qed.

Lemma escaped_before_step l esc k c :
  String.get k l = Some c →
  escaped_before l esc (S k) = is_ c backslash && negb (escaped_before l esc k).
Proof.
  revert l esc. induction k as [|k IH]; intros [|c' l] esc Hc; try done.
  - simpl in *. by simplify_eq; destruct l.
  - apply (IH l (is_ c' backslash && negb esc)) in Hc. exact Hc.
Qed.

(** Counting backslashes backwards and tracking escapes forwards agree. *)
Lemma escaped_before_parity l k :
  k ≤ len l → escaped_before l false k = Nat.odd (run_before l k).
Proof.
  induction k as [|k IH]; intros Hk; [by destruct l|].
  destruct (get_lt l k) as [c Hc]; [lia|].
  rewrite (escaped_before_step _ _ _ _ Hc), IH by lia. simpl run_before. rewrite Hc.
  unfold is_. repeat case_bool_decide; try congruence; simpl; [|done].
  by rewrite Nat.odd_succ, <- Nat.negb_odd.
Qed.

Lemma run_before_S l k :
  String.get k l = Some backslash → run_before l (S k) = S (run_before l k).
Proof. intros H. simpl. by rewrite bool_decide_eq_true_2. Qed.

Lemma run_before_stop l k :
  String.get k l ≠ Some backslash → run_before l (S k) = 0.
Proof. intros H. simpl. by rewrite bool_decide_eq_false_2. Qed.

Lemma backslashes_spec s i k :
  i + 1 + k ≤ len s →
  backslashes s i (i + 1 + k) = Ret (run_before (drop_str (i + 1) s) k).
Proof.
  intros Hk. apply returns_eq. unfold backslashes. set (l := drop_str (i + 1) s).
  apply (returns_loop (λ '(p, n), i ≤ p ≤ i + k ∧ run_before l k = run_before l (p - i) + n)
           (λ '(p, _), p - i)); unfold fuel; [| |lia].
  2: { replace (i + 1 + k - 1 - i) with k by lia. lia. }
  intros [p n] [Hp Hn]. destruct (i <? p) eqn:E; b2p.
  - apply returns_bind, returns_at; [lia|]. intros c Hc.
    assert (String.get (p - i - 1) l = Some c) as Hl.
    { unfold l. rewrite get_drop. rewrite <- Hc. f_equal. lia. }
    replace (p - i) with (S (p - i - 1)) in Hn by lia.
    destruct (is_ c backslash) eqn:Eb; simpl.
    + apply is_true in Eb. subst c. rewrite run_before_S in Hn by done.
      replace (p - 1 - i) with (p - i - 1) by lia. lia.
    + apply is_false in Eb. rewrite run_before_stop in Hn by congruence. lia.
  - simpl. replace (p - i) with 0 in Hn by lia. simpl in Hn. lia.
Qed.

Lemma odd_mod2 n : Nat.odd n = false ↔ n mod 2 = 0.
Proof.
  rewrite <- Nat.negb_even, negb_false_iff, Nat.even_spec. unfold Nat.Even. split.
  - intros [q ->]. rewrite Nat.mul_comm. apply Nat.Div0.mod_mul.
  - intros H. exists (n / 2). pose proof (Nat.div_mod_eq n 2). lia.
Qed.

(** What [skipString] computes, in terms of the one-pass automaton. *)
Definition string_end (s : string) (i : nat) : nat * bool :=
  match String.get i s with
  | Some c =>
      if is_ c dquote then
        match close_quote (drop_str (i + 1) s) false with
        | Some k => (i + 1 + k + 1, true)
        | None => (0, false)
        end
      else (0, false)
  | None => (0, false)
  end.

(** A quote found at [j+k], with no earlier one from [j] on, closes the string
    iff the backslash count before it is even. *)
Lemma closes_at_quote s i j k :
  i + 1 ≤ j → IndexByte (drop_str j s) dquote = Some k →
  let m := j + k - (i + 1) in
  closes (drop_str (i + 1) s) false m ↔ Nat.odd (run_before (drop_str (i + 1) s) m) = false.
Proof.
  intros Hj Hk m. apply IndexByte_Some in Hk as [Hk _]. rewrite get_drop in Hk.
  pose proof (get_Some_lt _ _ _ Hk). unfold closes.
  rewrite escaped_before_parity by (rewrite len_drop; lia).
  rewrite get_drop. replace (i + 1 + m) with (j + k) by lia. rewrite Hk. tauto.
Qed.

(** Between [j] and the quote found there is no quote at all. *)
Lemma closes_before_quote s i j k m :
  i + 1 ≤ j → IndexByte (drop_str j s) dquote = Some k →
  j ≤ i + 1 + m < j + k → ¬ closes (drop_str (i + 1) s) false m.
Proof.
  intros Hj Hk Hm [Hc _]. apply IndexByte_Some in Hk as [_ Hf].
  rewrite get_drop in Hc. apply (Hf (i + 1 + m - j)); [lia|].
  rewrite get_drop. rewrite <- Hc. f_equal. lia.
Qed.

Lemma closes_after_none s i j m :
  i + 1 ≤ j → IndexByte (drop_str j s) dquote = None →
  j ≤ i + 1 + m → ¬ closes (drop_str (i + 1) s) false m.
Proof.
  intros Hj Hk Hm [Hc _]. rewrite get_drop in Hc.
  apply (IndexByte_None _ _ Hk (i + 1 + m - j)). rewrite get_drop.
  rewrite <- Hc. f_equal. lia.
Qed.

Lemma close_quote_is_None l :
  (∀ m, ¬ closes l false m) → close_quote l false = None.
Proof.
  intros H. destruct (close_quote l false) as [k|] eqn:E; [|done].
  apply close_quote_Some in E as [E _]. by destruct (H k).
Qed.

Lemma skipString_string_end s i : skipString s i = Ret (string_end s i).
Proof.
  unfold skipString, string_end. destruct (len s <=? i) eqn:Hlen; b2p; [by rewrite get_ge|].
  destruct (get_lt s i) as [c Hc]; [done|]. rewrite (at_Some _ _ _ Hc), Hc. simpl.
  destruct (is_ c dquote) eqn:Eq; simpl; [|done].
  set (l := drop_str (i + 1) s). apply returns_eq.
  apply (returns_loop (λ j, i + 1 ≤ j ≤ len s ∧ ∀ m, i + 1 + m < j → ¬ closes l false m)
           (λ j, len s - j)); unfold fuel; [|split; [lia|intros; lia]|lia].
  intros j [Hj Hf]. destruct (j <? len s) eqn:E; b2p.
  2: { simpl. rewrite close_quote_is_None; [done|]. intros m Hm. apply (Hf m); [|done].
       destruct Hm as [Hm _]. unfold l in Hm. rewrite get_drop in Hm.
       apply get_Some_lt in Hm. lia. }
  destruct (IndexByte (drop_str j s) dquote) as [k|] eqn:Ek; simpl.
  2: { rewrite close_quote_is_None; [done|]. intros m Hm.
       destruct (decide (i + 1 + m < j)); [by apply (Hf m)|].
       by apply (closes_after_none s i j m); [lia|done|lia|]. }
  pose proof (closes_at_quote s i j k ltac:(lia) Ek) as Hat. simpl in Hat. fold l in Hat.
  assert (j + k < len s) as Hlt.
  { destruct (IndexByte_Some _ _ _ Ek) as [Hk _]. rewrite get_drop in Hk.
    by apply get_Some_lt in Hk. }
  assert (∀ m, i + 1 + m < j + k → ¬ closes l false m) as Hbefore.
  { intros m Hm. destruct (decide (i + 1 + m < j)); [by apply Hf|].
    apply (closes_before_quote s i j k m); [lia|done|lia]. }
  set (m := j + k - (i + 1)) in *. replace (j + k) with (i + 1 + m) in * by lia.
  rewrite backslashes_spec by lia. simpl. fold l.
  destruct (run_before l m mod 2 =? 0) eqn:Ep; b2p; simpl.
  - assert (close_quote l false = Some m) as ->; [|done].
    apply close_quote_Some. split; [|intros j' Hj'; apply Hbefore; lia].
    by apply Hat, odd_mod2.
  - split; [|lia]. split; [lia|]. intros m' Hm'.
    destruct (decide (m' = m)) as [->|]; [|apply Hbefore; lia].
    by rewrite Hat, odd_mod2.
Qed.

(** ** Bounds and totality

    No function of the package panics or loops forever, whatever the text and
    the index; a reported end lies past the start and within the text. *)

Lemma string_end_bounds s i e : string_end s i = (e, true) → i + 2 ≤ e ≤ len s.
Proof.
  unfold string_end. intros H. repeat case_match; simplify_eq.
  match goal with H : close_quote _ _ = Some _ |- _ => apply close_quote_Some in H as [[H _] _] end.
  match goal with H : String.get _ (drop_str _ _) = _ |- _ =>
    rewrite get_drop in H; apply get_Some_lt in H end. lia.
Qed.

Lemma skipString_bounds s i :
  returns (skipString s i) (λ '(e, ok), ok = true → i + 2 ≤ e ≤ len s).
Proof.
  rewrite skipString_string_end. simpl. destruct (string_end s i) as [e ok] eqn:E.
  intros ->. by apply string_end_bounds.
Qed.

Lemma SkipString_bounds s i :
  returns (SkipString s i) (λ '(e, _, ok), ok = true → i + 2 ≤ e ≤ len s).
Proof.
  unfold SkipString. eapply returns_seq; [apply skipString_bounds|].
  intros [e []] He; simpl; [|done]. specialize (He eq_refl).
  apply returns_bind, returns_slice; [lia|lia|]. simpl. auto.
Qed.

Lemma skipNested_bounds s i :
  i ≤ len s → returns (skipNested s i) (λ '(e, ok), ok = true → i < e ≤ len s).
Proof.
  intros Hi. unfold skipNested.
  apply (returns_loop (λ '(j, _), i ≤ j ≤ len s) (λ '(j, _), len s - j)); unfold fuel; [|lia|lia].
  intros [j depth] Hj. unfold skipNested_body. destruct (j <? len s) eqn:E; b2p; [|done].
  apply returns_bind, returns_at; [done|]. intros c Hc.
  destruct (is_ c dquote).
  - eapply returns_seq; [apply skipString_bounds|]. intros [e []] He; simpl; [|done].
    specialize (He eq_refl). lia.
  - repeat case_match; simpl; lia.
Qed.

Lemma skipScalar_bounds s i :
  i ≤ len s → returns (skipScalar s i) (λ '(e, ok), ok = true → i < e ≤ len s).
Proof.
  intros Hi. unfold skipScalar.
  eapply (returns_seq _ _ (λ j, i ≤ j ≤ len s)).
  - apply (returns_loop (λ j, i ≤ j ≤ len s) (λ j, len s - j)); unfold fuel; [|lia|lia].
    intros j Hj. unfold skipScalar_body. destruct (j <? len s) eqn:E; b2p; [|done].
    apply returns_bind, returns_at; [done|]. intros c Hc. destruct (isDelim c); simpl; lia.
  - intros j Hj. destruct (j =? i) eqn:E; b2p; simpl; [done|lia].
Qed.

Lemma SkipValue_bounds s i :
  returns (SkipValue s i) (λ '(e, ok), ok = true → i < e ≤ len s).
Proof.
  unfold SkipValue. destruct (len s <=? i) eqn:E; b2p; [done|].
  apply returns_bind, returns_at; [done|]. intros c _. repeat case_match.
  - eapply returns_mono; [apply skipString_bounds|]. intros [e ok] He Hok.
    specialize (He Hok). lia.
  - apply skipNested_bounds. lia.
  - apply skipScalar_bounds. lia.
Qed.

Lemma SkipValue_returns s i :
  ∃ e ok, SkipValue s i = Ret (e, ok) ∧ (ok = true → i < e ≤ len s).
Proof.
  destruct (returns_inv _ _ (SkipValue_bounds s i)) as ([e ok] & E & H). eauto.
Qed.

(** A value that starts with a quote is at least the two quotes long. *)
Lemma SkipValue_string s i e c :
  String.get i s = Some c → is_ c dquote = true → SkipValue s i = Ret (e, true) →
  i + 2 ≤ e ≤ len s.
Proof.
  intros Hc Hq. unfold SkipValue. pose proof (get_Some_lt _ _ _ Hc).
  rewrite (proj2 (Nat.leb_gt _ _)) by done. rewrite (at_Some _ _ _ Hc). simpl.
  rewrite Hq, skipString_string_end. intros [= H1]. by apply string_end_bounds.
Qed.

Section ScanTotal.
Context {St : Type} (P : St → Prop) (s : string).

(** The guarded look-ahead [j < len(s) && s[j] == d]. *)
Lemma returns_peek j d (Q : bool → Prop) :
  Q false → (j < len s → ∀ b, Q b) →
  returns (if j <? len s then let! c := at_ s j in Ret (is_ c d) else Ret false) Q.
Proof.
  intros H0 H1. destruct (j <? len s) eqn:E; b2p; [|done].
  apply returns_bind, returns_at; [done|]. intros. simpl. by apply H1.
Qed.

Lemma ScanArray_total i (fn : St → nat → nat → nat → go (St * bool)) st :
  (∀ st idx vs ve, P st → vs < ve ≤ len s → SkipValue s vs = Ret (ve, true) →
     returns (fn st idx vs ve) (λ '(st', _), P st')) →
  P st →
  returns (ScanArray s i fn st) (λ '(st', (e, ok)), P st' ∧ (ok = true → i < e ≤ len s)).
Proof.
  intros Hfn HP. unfold ScanArray. destruct (len s <=? i) eqn:E; b2p; [by split|].
  apply returns_bind, returns_at; [done|]. intros c _.
  destruct (is_ c "["); simpl; [|by split].
  eapply returns_seq; [apply SkipSpace_spec|]. intros j (Hj & Hle & _).
  eapply returns_seq; [apply (returns_peek j _ (λ b, b = true → j < len s)); [done|auto]|].
  intros [] Hb; simpl; [specialize (Hb eq_refl); split; [done|lia]|].
  apply (returns_loop (λ '(st, _, j), P st ∧ i < j ≤ len s) (λ '(_, _, j), len s - j));
    unfold fuel; [|split; [done|lia]|lia].
  intros [[st' idx] k] [HP' Hk]. unfold ScanArray_body.
  destruct (SkipValue_returns s k) as (ve & [] & Ev & Hve); rewrite Ev; simpl; [|done].
  specialize (Hve eq_refl). eapply returns_seq; [by apply Hfn|].
  intros [st'' []] HP''; simpl; [|split; [done|lia]].
  eapply returns_seq; [apply SkipSpace_spec|]. intros j' (Hj' & Hle' & _).
  destruct (len s <=? j') eqn:E'; b2p; [done|].
  apply returns_bind, returns_at; [done|]. intros c' _. repeat case_match; simpl; try done.
  - eapply returns_seq; [apply SkipSpace_spec|]. intros j2 (Hj2 & Hle2 & _). simpl.
    split; [split; [done|lia]|lia].
  - split; [done|]. lia.
Qed.

Lemma ScanObject_total i (fn : St → string → bool → nat → nat → go (St * bool)) st :
  (∀ st key esc vs ve, P st → vs < ve ≤ len s → SkipValue s vs = Ret (ve, true) →
     returns (fn st key esc vs ve) (λ '(st', _), P st')) →
  P st →
  returns (ScanObject s i fn st) (λ '(st', (e, ok)), P st' ∧ (ok = true → i < e ≤ len s)).
Proof.
  intros Hfn HP. unfold ScanObject. destruct (len s <=? i) eqn:E; b2p; [by split|].
  apply returns_bind, returns_at; [done|]. intros c _.
  destruct (is_ c "{"); simpl; [|by split].
  eapply returns_seq; [apply SkipSpace_spec|]. intros j (Hj & Hle & _).
  eapply returns_seq; [apply (returns_peek j _ (λ b, b = true → j < len s)); [done|auto]|].
  intros [] Hb; simpl; [specialize (Hb eq_refl); split; [done|lia]|].
  apply (returns_loop (λ '(st, j), P st ∧ i < j ≤ len s) (λ '(_, j), len s - j));
    unfold fuel; [|split; [done|lia]|lia].
  intros [st' k] [HP' Hk]. unfold ScanObject_body.
  eapply returns_seq; [apply SkipString_bounds|]. intros [[ke esc] []] Hke; simpl; [|done].
  specialize (Hke eq_refl). apply returns_bind, returns_slice; [lia|lia|].
  eapply returns_seq; [apply SkipSpace_spec|]. intros j1 (Hj1 & Hle1 & _).
  eapply returns_seq; [apply (returns_peek j1 _ (λ b, b = true → j1 < len s)); [done|auto]|].
  intros [] Hb1; simpl; [specialize (Hb1 eq_refl)|done].
  eapply returns_seq; [apply SkipSpace_spec|]. intros vs (Hvs & Hlev & _).
  destruct (SkipValue_returns s vs) as (ve & [] & Ev & Hve); rewrite Ev; simpl; [|done].
  specialize (Hve eq_refl). eapply returns_seq; [by apply Hfn|].
  intros [st'' []] HP''; simpl; [|split; [done|lia]].
  eapply returns_seq; [apply SkipSpace_spec|]. intros j' (Hj' & Hle' & _).
  destruct (len s <=? j') eqn:E'; b2p; [done|].
  apply returns_bind, returns_at; [done|]. intros c' _. repeat case_match; simpl; try done.
  - eapply returns_seq; [apply SkipSpace_spec|]. intros j2 (Hj2 & Hle2 & _). simpl.
    split; [split; [done|lia]|lia].
  - split; [done|]. lia.
Qed.
End ScanTotal.

(** ** Properties *)

(** [skipString], which searches quotes with [IndexByte] and counts the backslashes
    before each, ends exactly where the one-pass escape automaton ends the literal, and
    declines exactly when there is none; it never panics or loops. *)
Theorem skipString_automaton s i : skipString s i = Ret (string_end s i).
Proof. apply skipString_string_end. Qed.

(** [ScanObject] returns on every input, well-formed or not, provided the callback
    does on the values it is shown; those are always non-empty and inside the input, and a
    position it reports lies past the start and inside the input. *)
Theorem ScanObject_returns {St : Type} s i (fn : St → string → bool → nat → nat → go (St * bool)) st :
  (∀ st key esc vs ve, vs < ve ≤ len s → SkipValue s vs = Ret (ve, true) →
     returns (fn st key esc vs ve) (λ _, True)) →
  returns (ScanObject s i fn st) (λ '(_, (e, ok)), ok = true → i < e ≤ len s).
Proof.
  intros Hfn. eapply returns_mono; [apply (ScanObject_total (λ _, True)); [|done]|].
  - intros st' key esc vs ve _ Hb Hv. eapply returns_mono; [by apply Hfn|]. by intros [].
  - by intros [st' [e ok]] [_ H].
Qed.

Lemma ScanObject_returns_witness :
  returns (ScanObject "{" 0 (λ (st : nat) _ _ _ _, Ret (S st, true)) 0)
    (λ '(_, (e, ok)), ok = true → 0 < e ≤ 1).
Proof.
  apply (ScanObject_returns "{" 0 (λ (st : nat) _ _ _ _, Ret (S st, true)) 0). intros. exact I.
Defined.
