(* ===== verification/JsonGrammar.v ===== *)
(** * The JSON grammar the scanner is checked against

    [json_text] describes JSON values as text, white space included; the scalar
    tokens and the string bodies are described as loosely as the scanner's
    contract allows.  [SkipValue] ends exactly where the grammar says a value
    ends, and [ScanArray] and [ScanObject] visit exactly the elements and
    members of an array or object, in order. *)

From S2P Require Import Prelude GoStrings JsonScan.
Local Open Scope nat_scope.

(** ** The grammar *)

Definition ws (w : string) : Prop := all_bytes IsSpace w = true.

(** A scalar token holds no delimiter, quote or opening bracket. *)
Definition scalar_byte (c : ascii) : bool :=
  negb (isDelim c) && negb (is_ c dquote) && negb (is_ c "{") && negb (is_ c "[").

(** The body of a string literal: the quote written after it is the first
    unescaped one. *)
Definition string_body (b : string) : Prop :=
  close_quote (b +:+ String dquote "") false = Some (len b).

Definition quoted (b : string) : string := String dquote (b +:+ String dquote "").

(** [json_elems t bs]: [t] is the comma-separated inside of an array and [bs]
    the bounds of its elements, relative to the start of [t].  Members carry
    their key's text as well. *)
Definition shift (n : nat) (b : nat * nat) : nat * nat := (n + b.1, n + b.2).

Inductive json_text : string → Prop :=
| JT_scalar t : t ≠ "" → all_bytes scalar_byte t = true → json_text t
| JT_string b : string_body b → json_text (quoted b)
| JT_array_nil w : ws w → json_text (String "[" (w +:+ "]"))
| JT_array es bs : json_elems es bs → json_text (String "[" (es +:+ "]"))
| JT_object_nil w : ws w → json_text (String "{" (w +:+ "}"))
| JT_object ms bs : json_members ms bs → json_text (String "{" (ms +:+ "}"))
with json_elems : string → list (nat * nat) → Prop :=
| JE_one w1 v w2 : ws w1 → json_text v → ws w2 →
    json_elems (w1 +:+ v +:+ w2) [(len w1, len w1 + len v)]
| JE_cons w1 v w2 es bs : ws w1 → json_text v → ws w2 → json_elems es bs →
    json_elems (w1 +:+ v +:+ w2 +:+ String "," es)
      ((len w1, len w1 + len v) :: (shift (len w1 + len v + len w2 + 1) <$> bs))
with json_members : string → list (string * (nat * nat)) → Prop :=
| JM_one w0 k w1 w2 v w3 : ws w0 → string_body k → ws w1 → ws w2 → json_text v → ws w3 →
    json_members (w0 +:+ quoted k +:+ w1 +:+ String ":" (w2 +:+ v +:+ w3))
      [(k, shift (len w0 + len k + 2 + len w1 + 1 + len w2) (0, len v))]
| JM_cons w0 k w1 w2 v w3 ms bs :
    ws w0 → string_body k → ws w1 → ws w2 → json_text v → ws w3 → json_members ms bs →
    json_members (w0 +:+ quoted k +:+ w1 +:+ String ":" (w2 +:+ v +:+ w3 +:+ String "," ms))
      ((k, shift (len w0 + len k + 2 + len w1 + 1 + len w2) (0, len v)) ::
       (prod_map id (shift (len w0 + len k + 2 + len w1 + 1 + len w2 + len v + len w3 + 1)) <$> bs)).

Scheme json_text_mut := Induction for json_text Sort Prop
with json_elems_mut := Induction for json_elems Sort Prop
with json_members_mut := Induction for json_members Sort Prop.
Combined Scheme json_mut from json_text_mut, json_elems_mut, json_members_mut.

(** What may follow a value: nothing, or a delimiter. *)
Definition terminated (post : string) : Prop :=
  match post with "" => True | String c _ => isDelim c = true end.

(** ** Reading at a known position *)

Lemma at_mid pre c post : at_ (pre +:+ String c post) (len pre) = Ret c.
Proof. unfold at_. rewrite <- (Nat.add_0_r (len pre)), get_app_r. done. Qed.

Lemma get_mid pre c post : String.get (len pre) (pre +:+ String c post) = Some c.
Proof. rewrite <- (Nat.add_0_r (len pre)), get_app_r. done. Qed.

Lemma lt_mid pre c post : (len pre <? len (pre +:+ String c post)) = true.
Proof. rewrite len_app. simpl. apply Nat.ltb_lt. lia. Qed.

Lemma ge_mid pre c post : (len (pre +:+ String c post) <=? len pre) = false.
Proof. rewrite len_app. simpl. apply Nat.leb_gt. lia. Qed.

Definition starts_with (f : ascii → bool) (s : string) : Prop :=
  match s with "" => False | String c _ => f c = true end.

Lemma starts_app f a b : starts_with f a → starts_with f (a +:+ b).
Proof. by destruct a. Qed.

(** Iterations that advance one byte at a time over the bytes of [t]. *)
Lemma run_bytes {St R : Type} (body : St → go (next St R)) (mk : nat → St) (f : ascii → bool) s :
  (∀ pre c post, s = pre +:+ String c post → f c = true →
     body (mk (len pre)) = Ret (Continue (mk (S (len pre))))) →
  ∀ t pre post, s = pre +:+ t +:+ post → all_bytes f t = true →
    loop_steps body (mk (len pre)) (mk (len pre + len t)).
Proof.
  intros Hbody. induction t as [|c t IH]; intros pre post Hs Ht.
  - cbn [String.length]. rewrite Nat.add_0_r. constructor.
  - simpl in Ht. b2p. eapply steps_next; [by eapply Hbody|].
    replace (S (len pre)) with (len (pre +:+ String c "")) by (rewrite len_app; simpl; lia).
    replace (len pre + len (String c t)) with (len (pre +:+ String c "") + len t)
      by (rewrite len_app; simpl; lia).
    apply (IH _ post); [|done]. rewrite app_assoc. exact Hs.
Qed.

(** [SkipSpace] stops at the first byte that is not white space. *)
Lemma SkipSpace_ws pre w post :
  ws w → (post = "" ∨ starts_with (λ c, negb (IsSpace c)) post) →
  SkipSpace (pre +:+ w +:+ post) (len pre) = Ret (len pre + len w).
Proof.
  intros Hw Hpost. set (s := pre +:+ w +:+ post).
  eapply (steps_loop _ _ (len pre + len w)); [| |apply SkipSpace_spec].
  - apply (run_bytes _ id IsSpace s) with (post := post); [|done|done].
    intros p c q -> Hc. unfold SkipSpace_body, id. rewrite lt_mid, at_mid. simpl. by rewrite Hc.
  - unfold s, SkipSpace_body. rewrite <- app_assoc, <- len_app. destruct Hpost as [->|Hpost].
    + rewrite app_nil_r. by rewrite Nat.ltb_irrefl.
    + destruct post as [|c post]; [done|]. rewrite lt_mid, at_mid. simpl in *.
      apply negb_true_iff in Hpost. by rewrite Hpost.
Qed.

(** The same with the position given by an equation. *)
Lemma SkipSpace_ws_at s i pre w post :
  s = pre +:+ w +:+ post → i = len pre → ws w →
  (post = "" ∨ starts_with (λ c, negb (IsSpace c)) post) →
  SkipSpace s i = Ret (len pre + len w).
Proof. intros -> ->. apply SkipSpace_ws. Qed.

Lemma close_quote_app a b e k : close_quote a e = Some k → close_quote (a +:+ b) e = Some k.
Proof.
  revert e k. induction a as [|c a IH]; intros e k; simpl; [done|].
  case_match; [done|].
  destruct (close_quote a _) as [k'|] eqn:E; [|done]. apply IH in E. by rewrite E.
Qed.

(** [skipString] ends just past the closing quote of a literal. *)
Lemma skipString_quoted pre b post :
  string_body b →
  skipString (pre +:+ quoted b +:+ post) (len pre) = Ret (len pre + len (quoted b), true).
Proof.
  intros Hb. rewrite skipString_string_end. unfold string_end, quoted.
  rewrite app_cons, app_assoc, get_mid. unfold is_. rewrite bool_decide_eq_true_2 by done.
  replace (drop_str (len pre + 1) (pre +:+ String dquote (b +:+ String dquote "" +:+ post)))
    with (b +:+ String dquote "" +:+ post).
  2: { replace (len pre + 1) with (len (pre +:+ String dquote "")) by (rewrite len_app; done).
       rewrite <- (drop_str_app (pre +:+ String dquote "") (b +:+ _)) at 1.
       by rewrite app_assoc. }
  rewrite <- app_assoc. rewrite (close_quote_app _ _ _ _ Hb).
  do 2 f_equal. rewrite len_cons, len_app. simpl. lia.
Qed.

(** ** The bracket loop crosses well-formed text at constant depth *)

Definition crosses (t : string) : Prop :=
  ∀ s pre post d, s = pre +:+ t +:+ post → (1 ≤ d)%Z →
    loop_steps (skipNested_body s) (len pre, d) (len pre + len t, d).

Definition nested_plain (c : ascii) : bool :=
  negb (is_ c dquote) && negb (is_ c "{" || is_ c "[") && negb (is_ c "}" || is_ c "]").

Lemma crosses_plain t : all_bytes nested_plain t = true → crosses t.
Proof.
  intros Ht s pre post d Hs _.
  apply (run_bytes _ (λ j, (j, d)) nested_plain s) with (post := post); [|done|done].
  intros p c q -> Hc. unfold nested_plain in Hc. b2p.
  unfold skipNested_body. rewrite lt_mid, at_mid. simpl.
  repeat match goal with H : ?x = false |- context [?x] => rewrite H end. done.
Qed.

Lemma crosses_app a b : crosses a → crosses b → crosses (a +:+ b).
Proof.
  intros Ha Hb s pre post d Hs Hd. rewrite app_assoc in Hs.
  eapply steps_trans; [by eapply Ha|]. rewrite len_app, Nat.add_assoc.
  rewrite <- (len_app pre a). eapply (Hb _ (pre +:+ a) post); [|done].
  by rewrite app_assoc.
Qed.

Lemma crosses_string b : string_body b → crosses (quoted b).
Proof.
  intros Hb s pre post d -> _. eapply steps_next; [|constructor].
  unfold skipNested_body. unfold quoted at 1 2. rewrite app_cons, lt_mid, at_mid.
  cbn [go_bind]. unfold is_ at 1. rewrite bool_decide_eq_true_2 by done.
  rewrite skipString_quoted by done. done.
Qed.

Definition opening (c : ascii) : bool := is_ c "{" || is_ c "[".
Definition closing (c : ascii) : bool := is_ c "}" || is_ c "]".

Lemma opening_step pre c post d :
  opening c = true →
  skipNested_body (pre +:+ String c post) (len pre, d) =
  Ret (Continue (S (len pre), (d + 1)%Z)).
Proof.
  intros Hc. unfold skipNested_body. rewrite lt_mid, at_mid. cbn [go_bind].
  assert (is_ c dquote = false) as ->.
  { apply is_false. intros ->. done. }
  unfold opening in Hc. by rewrite Hc.
Qed.

Lemma closing_step pre c post d :
  closing c = true →
  skipNested_body (pre +:+ String c post) (len pre, d) =
  if (d - 1 =? 0)%Z then Ret (Break (len pre + 1, true))
  else Ret (Continue (S (len pre), (d - 1)%Z)).
Proof.
  intros Hc. unfold skipNested_body. rewrite lt_mid, at_mid. cbn [go_bind].
  assert (is_ c dquote = false ∧ is_ c "{" || is_ c "[" = false) as [-> ->].
  { unfold closing in Hc. apply orb_true_iff in Hc. rewrite !is_true in Hc.
    destruct Hc as [-> | ->]; done. }
  unfold closing in Hc. by rewrite Hc.
Qed.

(** From just past an opening bracket, the loop reaches the closing one one
    level up. *)
Lemma inside_steps o t c pre post d :
  opening o = true → crosses t → (0 ≤ d)%Z →
  loop_steps (skipNested_body (pre +:+ String o (t +:+ String c post)))
    (len pre, d) (len pre + 1 + len t, (d + 1)%Z).
Proof.
  intros Ho Ht Hd. eapply steps_next; [by apply opening_step|].
  replace (S (len pre)) with (len (pre +:+ String o "")) by (rewrite len_app; simpl; lia).
  replace (len pre + 1 + len t) with (len (pre +:+ String o "") + len t)
    by (rewrite len_app; simpl; lia).
  apply (Ht _ _ (String c post)); [|lia]. by rewrite app_assoc.
Qed.

Lemma closing_after o t c pre post d :
  closing c = true →
  skipNested_body (pre +:+ String o (t +:+ String c post)) (len pre + 1 + len t, d) =
  if (d - 1 =? 0)%Z then Ret (Break (len pre + 1 + len t + 1, true))
  else Ret (Continue (S (len pre + 1 + len t), (d - 1)%Z)).
Proof.
  intros Hc.
  assert (len pre + 1 + len t = len (pre +:+ String o t)) as ->
    by (rewrite len_app; simpl; lia).
  replace (pre +:+ String o (t +:+ String c post)) with ((pre +:+ String o t) +:+ String c post)
    by (by rewrite app_assoc).
  by rewrite closing_step.
Qed.

Lemma crosses_bracket o t c :
  opening o = true → closing c = true → crosses t → crosses (String o (t +:+ String c "")).
Proof.
  intros Ho Hc Ht s pre post d -> Hd. rewrite app_cons, app_assoc, app_cons, app_nil_l.
  eapply steps_trans; [apply inside_steps; [done|done|lia]|].
  eapply steps_next; [|apply steps_refl].
  rewrite closing_after by done. rewrite (proj2 (Z.eqb_neq _ _)) by lia.
  do 3 f_equal; [|lia]. simpl. rewrite len_app. simpl. lia.
Qed.

Lemma space_nested_plain c : IsSpace c = true → nested_plain c = true.
Proof. destruct c as [[] [] [] [] [] [] [] []]; by vm_compute. Qed.

Lemma scalar_nested_plain c : scalar_byte c = true → nested_plain c = true.
Proof. destruct c as [[] [] [] [] [] [] [] []]; by vm_compute. Qed.

Lemma crosses_ws w : ws w → crosses w.
Proof. intros. eapply crosses_plain, all_bytes_impl; [apply space_nested_plain|done]. Qed.

Lemma crosses_sep c t : nested_plain c = true → crosses t → crosses (String c t).
Proof.
  intros Hc Ht. apply (crosses_app (String c "") t); [|done].
  apply crosses_plain. simpl. by rewrite Hc.
Qed.

#[export] Hint Resolve crosses_app crosses_ws crosses_string : go.

Lemma json_crosses :
  (∀ v, json_text v → crosses v) ∧ (∀ es bs, json_elems es bs → crosses es)
  ∧ (∀ ms bs, json_members ms bs → crosses ms).
Proof.
  apply json_mut; intros;
    repeat first
      [ apply crosses_bracket; [done|done|] | apply crosses_app | apply crosses_sep; [done|]
      | by auto with go ].
  eapply crosses_plain, all_bytes_impl; [apply scalar_nested_plain|done].
Qed.

Lemma json_elems_crosses es bs : json_elems es bs → crosses es.
Proof. apply json_crosses. Qed.

Lemma json_members_crosses ms bs : json_members ms bs → crosses ms.
Proof. apply json_crosses. Qed.

(** ** [SkipValue] ends where the grammar says the value ends *)

Lemma skipScalar_text pre t post :
  t ≠ "" → all_bytes scalar_byte t = true → terminated post →
  skipScalar (pre +:+ t +:+ post) (len pre) = Ret (len pre + len t, true).
Proof.
  intros Hne Ht Hpost. unfold skipScalar. set (s := pre +:+ t +:+ post).
  assert (go_loop (fuel s) (skipScalar_body s) (len pre) = Ret (len pre + len t)) as ->.
  { eapply (steps_loop _ _ (len pre + len t)).
    - apply (run_bytes _ id scalar_byte s) with (post := post); [|done|done].
      intros p c q -> Hc. unfold skipScalar_body, id. rewrite lt_mid, at_mid. simpl.
      unfold scalar_byte in Hc. b2p. by rewrite H.
    - unfold s, skipScalar_body. rewrite <- app_assoc, <- len_app.
      destruct post as [|c post].
      + rewrite app_nil_r. by rewrite Nat.ltb_irrefl.
      + rewrite lt_mid, at_mid. simpl in *. by rewrite Hpost.
    - apply (returns_loop (λ j, j ≤ len s) (λ j, len s - j)) with (Q := λ _, True);
        unfold fuel; [|unfold s; rewrite len_app; lia|lia].
      intros j Hj. unfold skipScalar_body. destruct (j <? len s) eqn:E; b2p; [|done].
      apply returns_bind, returns_at; [done|]. intros c _. destruct (isDelim c); simpl; lia. }
  simpl. destruct t as [|c t]; [done|]. simpl.
  rewrite (proj2 (Nat.eqb_neq _ _)) by lia. done.
Qed.

Lemma skipNested_text o t c pre post :
  opening o = true → closing c = true → crosses t →
  skipNested (pre +:+ String o (t +:+ String c "") +:+ post) (len pre) =
  Ret (len pre + len (String o (t +:+ String c "")), true).
Proof.
  intros Ho Hc Ht. rewrite app_cons, app_assoc, app_cons, app_nil_l.
  transitivity (Ret (len pre + 1 + len t + 1, true)); [|f_equal; f_equal; rewrite len_cons, len_app; simpl; lia].
  eapply steps_loop; [apply inside_steps; [done|done|lia]| |].
  - by rewrite closing_after.
  - apply skipNested_bounds. rewrite len_app. lia.
Qed.

(** The first byte of a value decides how [SkipValue] reads it. *)
Lemma SkipValue_head pre c post :
  SkipValue (pre +:+ String c post) (len pre) =
  if is_ c dquote then skipString (pre +:+ String c post) (len pre)
  else if opening c then skipNested (pre +:+ String c post) (len pre)
  else skipScalar (pre +:+ String c post) (len pre).
Proof. unfold SkipValue. rewrite ge_mid, at_mid. done. Qed.

Lemma json_text_SkipValue pre v post :
  json_text v → terminated post →
  SkipValue (pre +:+ v +:+ post) (len pre) = Ret (len pre + len v, true).
Proof.
  intros Hv Hpost. destruct Hv as [t Hne Ht|b Hb|w Hw|es bs Hes|w Hw|ms bs Hms].
  - pose proof (skipScalar_text pre t post Hne Ht Hpost) as Hs.
    destruct t as [|c t]; [done|]. rewrite app_cons in *. rewrite SkipValue_head.
    simpl in Ht. unfold scalar_byte at 1 in Ht. b2p. unfold opening.
    repeat match goal with H : ?x = false |- context [?x] => rewrite H end. done.
  - rewrite <- (skipString_quoted pre b post) by done. unfold quoted.
    by rewrite app_cons, SkipValue_head.
  - rewrite app_cons, SkipValue_head, <- app_cons.
    apply (skipNested_text "["%char w "]"%char); auto with go.
  - rewrite app_cons, SkipValue_head, <- app_cons.
    apply (skipNested_text "["%char es "]"%char); [done|done|by eapply json_elems_crosses].
  - rewrite app_cons, SkipValue_head, <- app_cons.
    apply (skipNested_text "{"%char w "}"%char); auto with go.
  - rewrite app_cons, SkipValue_head, <- app_cons.
    apply (skipNested_text "{"%char ms "}"%char); [done|done|by eapply json_members_crosses].
Qed.

Lemma json_text_start v : json_text v → starts_with (λ c, negb (IsSpace c || isDelim c)) v.
Proof.
  destruct 1 as [t Hne Ht|b Hb|w Hw|es bs Hes|w Hw|ms bs Hms]; try done.
  destruct t as [|c t]; [done|]. cbn in Ht |- *. apply andb_prop in Ht as [Hc _].
  revert Hc. clear. destruct c as [[] [] [] [] [] [] [] []]; by vm_compute.
Qed.

Lemma json_text_not_space v r :
  json_text v → starts_with (λ c, negb (IsSpace c)) (v +:+ r).
Proof.
  intros Hv. apply json_text_start in Hv. destruct v as [|c v]; [done|].
  rewrite app_cons. simpl in *. apply negb_true_iff, orb_false_iff in Hv as [-> _]. done.
Qed.

(** ** [ScanArray] and [ScanObject] visit the elements and members *)

Lemma SkipSpace_returns s i : ∃ j, SkipSpace s i = Ret j.
Proof. destruct (returns_inv _ _ (SkipSpace_spec s i)) as (j & E & _). eauto. Qed.

Lemma terminated_ws w c post :
  ws w → isDelim c = true → terminated (w +:+ String c post).
Proof.
  intros Hw Hc. destruct w as [|a w]; [done|]. rewrite app_cons. unfold ws in Hw. simpl in *. b2p.
  unfold isDelim. by rewrite H, orb_true_r.
Qed.

Section Visit.
Context {St : Type}.

(** The reference walk: calls [fn] on the listed bounds, in order, and stops
    early when it answers false. *)
Fixpoint visit_elems (fn : St → nat → nat → nat → go (St * bool)) (st : St) (idx off : nat)
    (bs : list (nat * nat)) (fin : nat) : go (St * (nat * bool)) :=
  match bs with
  | [] => Ret (st, (fin, true))
  | b :: bs =>
      let! '(st, more) := fn st idx (off + b.1) (off + b.2) in
      if negb more then Ret (st, (off + b.2, true)) else visit_elems fn st (S idx) off bs fin
  end.

Fixpoint visit_members (fn : St → string → bool → nat → nat → go (St * bool)) (st : St)
    (off : nat) (bs : list (string * (nat * nat))) (fin : nat) : go (St * (nat * bool)) :=
  match bs with
  | [] => Ret (st, (fin, true))
  | (k, b) :: bs =>
      let! '(st, more) := fn st k (has_byte k backslash) (off + b.1) (off + b.2) in
      if negb more then Ret (st, (off + b.2, true)) else visit_members fn st off bs fin
  end.

Lemma visit_elems_shift fn st idx off n bs fin :
  visit_elems fn st idx off (shift n <$> bs) fin = visit_elems fn st idx (off + n) bs fin.
Proof.
  revert st idx. induction bs as [|[a b] bs IH]; intros st idx; [done|]. simpl.
  rewrite <- !Nat.add_assoc. destruct (fn st idx _ _) as [[st' []]| |]; simpl; auto.
Qed.

Lemma visit_members_shift fn st off n bs fin :
  visit_members fn st off (prod_map id (shift n) <$> bs) fin
  = visit_members fn st (off + n) bs fin.
Proof.
  revert st. induction bs as [|[k [a b]] bs IH]; intros st; [done|]. simpl. unfold id.
  rewrite <- !Nat.add_assoc. destruct (fn st k _ _ _) as [[st' []]| |]; simpl; auto.
Qed.

(** White space, then a byte that is none. *)
Lemma ws_then s pre w c post :
  s = pre +:+ w +:+ String c post → ws w → IsSpace c = false →
  SkipSpace s (len pre) = Ret (len pre + len w) ∧
  (len s <=? len pre + len w) = false ∧ at_ s (len pre + len w) = Ret c.
Proof.
  intros Es Hw Hc. split; [|rewrite Es, <- app_assoc, <- len_app; split; [apply ge_mid|apply at_mid]].
  apply (SkipSpace_ws_at s _ pre w (String c post)); [done|done|done|right; simpl; by rewrite Hc].
Qed.

(** One element between white space, followed by a comma or the bracket. *)
Lemma ScanArray_step (fn : St → nat → nat → nat → go (St * bool)) st idx pre w1 v w2 c post :
  ws w1 → json_text v → ws w2 → isDelim c = true → IsSpace c = false →
  let s := pre +:+ w1 +:+ v +:+ w2 +:+ String c post in
  ScanArray_body s fn (st, idx, len pre + len w1) =
  let! '(st, more) := fn st idx (len pre + len w1) (len pre + (len w1 + len v)) in
  if negb more then Ret (Break (st, (len pre + (len w1 + len v), true))) else
  let j := len pre + len w1 + len v + len w2 in
  if is_ c "," then let! j := SkipSpace s (j + 1) in Ret (Continue (st, S idx, j))
  else if is_ c "]" then Ret (Break (st, (j + 1, true)))
  else Ret (Break (st, (0, false))).
Proof.
  intros H1 Hv H2 Hc Hns s. unfold ScanArray_body.
  assert (SkipValue s (len pre + len w1) = Ret (len pre + len w1 + len v, true)) as ->.
  { unfold s. rewrite <- len_app, <- app_assoc.
    apply json_text_SkipValue; [done|by apply terminated_ws]. }
  cbn [go_bind negb]. rewrite Nat.add_assoc.
  destruct (fn st idx _ _) as [[st' []]| |]; simpl; [|done|done|done].
  destruct (ws_then s (pre +:+ w1 +:+ v) w2 c post) as (Hsp & Hge & Hat);
    [unfold s; by rewrite !app_assoc|done|done|].
  replace (len pre + len w1 + len v) with (len (pre +:+ w1 +:+ v)) by len_lia.
  rewrite Hsp. simpl. rewrite Hge, Hat. simpl. by rewrite !len_app, !Nat.add_assoc.
Qed.

Lemma ScanArray_loop es bs :
  json_elems es bs → ∀ (fn : St → nat → nat → nat → go (St * bool)) st idx pre post n j,
  let s := pre +:+ es +:+ String "]" post in
  length bs ≤ n → SkipSpace s (len pre) = Ret j →
  go_loop n (ScanArray_body s fn) (st, idx, j) =
  visit_elems fn st idx (len pre) bs (len pre + len es + 1).
Proof.
  induction 1 as [w1 v w2 H1 Hv H2|w1 v w2 es bs H1 Hv H2 Hes IH];
    intros fn st idx pre post [|n] j s Hn Hj; try (simpl in Hn; lia); rewrite go_loop_S.
  - assert (s = pre +:+ w1 +:+ v +:+ w2 +:+ String "]" post) as Es
      by (unfold s; by rewrite !app_assoc).
    erewrite SkipSpace_ws_at in Hj; [|exact Es|done|done|right; by apply json_text_not_space].
    injection Hj as <-. rewrite Es, ScanArray_step by done. simpl.
    destruct (fn st idx _ _) as [[st' []]| |]; simpl; try done.
    rewrite !len_app. do 4 f_equal. lia.
  - assert (s = pre +:+ w1 +:+ v +:+ w2 +:+ String "," (es +:+ String "]" post)) as Es
      by (unfold s; by rewrite !app_assoc, app_cons).
    erewrite SkipSpace_ws_at in Hj; [|exact Es|done|done|right; by apply json_text_not_space].
    injection Hj as <-. rewrite Es at 1. rewrite ScanArray_step by done. rewrite <- Es. simpl.
    destruct (fn st idx _ _) as [[st' []]| |]; simpl; try done.
    set (pre' := pre +:+ w1 +:+ v +:+ w2 +:+ String "," "").
    assert (len pre + len w1 + len v + len w2 + 1 = len pre') as ->
      by (unfold pre'; rewrite !len_app; simpl; lia).
    assert (s = pre' +:+ es +:+ String "]" post) as Es'
      by (rewrite Es; unfold pre'; by rewrite !app_assoc).
    destruct (SkipSpace_returns s (len pre')) as [j' Ej]. rewrite Ej. simpl.
    rewrite Es' in Ej. rewrite Es', (IH fn st' (S idx) pre' post n j').
    + rewrite visit_elems_shift. unfold pre'. rewrite !len_app. simpl.
      f_equal; lia.
    + simpl in Hn. rewrite length_fmap in Hn. lia.
    + done.
Qed.

Lemma json_elems_length es bs : json_elems es bs → length bs ≤ len es.
Proof.
  induction 1 as [w1 v w2 H1 Hv H2|w1 v w2 es bs H1 Hv H2 Hes IH]; simpl;
    rewrite ?length_fmap, !len_app; apply json_text_start in Hv; destruct v; simpl in *;
    try done; lia.
Qed.

Lemma json_elems_first es bs post :
  json_elems es bs → ∃ w r, es +:+ post = w +:+ r ∧ ws w
    ∧ starts_with (λ c, negb (IsSpace c || isDelim c)) r.
Proof.
  destruct 1 as [w1 v w2 H1 Hv H2|w1 v w2 es bs H1 Hv H2 Hes]; eexists w1, _;
    (split; [rewrite !app_assoc; reflexivity|]); (split; [done|]);
    by apply starts_app, json_text_start.
Qed.

(** On a non-empty array, [ScanArray] is the reference walk over the bounds
    the grammar assigns. *)
Lemma ScanArray_text pre es bs post (fn : St → nat → nat → nat → go (St * bool)) st :
  json_elems es bs →
  ScanArray (pre +:+ String "[" (es +:+ String "]" post)) (len pre) fn st =
  visit_elems fn st 0 (len pre + 1) bs (len pre + 1 + len es + 1).
Proof.
  intros Hes. unfold ScanArray. rewrite ge_mid, at_mid. simpl.
  set (pre' := pre +:+ String "[" ""). set (s := pre +:+ String "[" _).
  assert (s = pre' +:+ es +:+ String "]" post) as Es
    by (unfold s, pre'; by rewrite !app_assoc).
  assert (len pre + 1 = len pre') as -> by (unfold pre'; rewrite len_app; simpl; lia).
  destruct (json_elems_first es bs (String "]" post) Hes) as (w & r & Er & Hw & Hr).
  destruct r as [|c r]; [done|]. simpl in Hr. apply negb_true_iff, orb_false_iff in Hr as [Hns Hnd].
  assert (s = pre' +:+ w +:+ String c r) as Es2 by (rewrite Es; by f_equal).
  assert (SkipSpace s (len pre') = Ret (len pre' + len w)) as Ej.
  { rewrite Es2. apply SkipSpace_ws; [done|]. right. simpl. by rewrite Hns. }
  rewrite Ej. simpl.
  assert ((len pre' + len w <? len s) = true ∧ at_ s (len pre' + len w) = Ret c) as [-> ->].
  { rewrite Es2, <- app_assoc, <- len_app. split; [apply lt_mid|apply at_mid]. }
  simpl. assert (is_ c "]" = false) as ->.
  { apply is_false. intros ->. done. }
  rewrite Es in *. apply ScanArray_loop; [done| |done].
  pose proof (json_elems_length _ _ Hes). unfold fuel. rewrite !len_app. lia.
Qed.

Lemma ScanArray_text_nil pre w post (fn : St → nat → nat → nat → go (St * bool)) st :
  ws w →
  ScanArray (pre +:+ String "[" (w +:+ String "]" post)) (len pre) fn st =
  Ret (st, (len pre + 1 + len w + 1, true)).
Proof.
  intros Hw. unfold ScanArray. rewrite ge_mid, at_mid. simpl.
  set (pre' := pre +:+ String "[" ""). set (s := pre +:+ String "[" _).
  assert (s = pre' +:+ w +:+ String "]" post) as Es
    by (unfold s, pre'; by rewrite !app_assoc).
  assert (len pre + 1 = len pre') as -> by (unfold pre'; rewrite len_app; simpl; lia).
  rewrite Es, SkipSpace_ws by first [done|by right]. simpl.
  rewrite <- !app_assoc, <- len_app, lt_mid, at_mid. done.
Qed.

Lemma SkipString_quoted pre b post :
  string_body b →
  SkipString (pre +:+ quoted b +:+ post) (len pre) =
  Ret (len pre + len (quoted b), has_byte b backslash, true).
Proof.
  intros Hb. unfold SkipString. rewrite skipString_quoted by done. simpl.
  assert (slice (pre +:+ quoted b +:+ post) (len pre + 1) (len pre + len (quoted b) - 1) = Ret b)
    as Hsl; [|unfold quoted in Hsl |- *; simpl in Hsl; by rewrite Hsl].
  unfold quoted. rewrite slice_Ret by len_lia.
  f_equal. replace (len pre + 1) with (len (pre +:+ String dquote "")) by len_lia.
  replace (_ - len (pre +:+ _)) with (len b) by len_lia.
  replace (pre +:+ String dquote (b +:+ String dquote "") +:+ post)
    with ((pre +:+ String dquote "") +:+ b +:+ String dquote "" +:+ post)
    by (by autorewrite with str).
  apply substring_mid.
Qed.

(** A key and its text. *)
Lemma key_at s pre k post :
  s = pre +:+ quoted k +:+ post → string_body k →
  SkipString s (len pre) = Ret (len (pre +:+ quoted k), has_byte k backslash, true) ∧
  slice s (len pre + 1) (len (pre +:+ quoted k) - 1) = Ret k.
Proof.
  intros Es Hk. split; [by rewrite Es, SkipString_quoted, len_app|].
  rewrite slice_Ret by (rewrite ?Es; unfold quoted; len_lia). f_equal.
  replace (len pre + 1) with (len (pre +:+ String dquote "")) by len_lia.
  replace (len (pre +:+ quoted k) - 1 - _) with (len k) by (unfold quoted; len_lia).
  replace s with ((pre +:+ String dquote "") +:+ k +:+ String dquote post)
    by (rewrite Es; unfold quoted; by autorewrite with str).
  apply substring_mid.
Qed.

(** One member, followed by a comma or the brace. *)
Lemma ScanObject_step (fn : St → string → bool → nat → nat → go (St * bool)) st
    pre w0 k w1 w2 v w3 c post :
  string_body k → ws w1 → ws w2 → json_text v → ws w3 →
  isDelim c = true → IsSpace c = false →
  let s := pre +:+ w0 +:+ quoted k +:+ w1 +:+ String ":" (w2 +:+ v +:+ w3 +:+ String c post) in
  let vs := len w0 + len k + 2 + len w1 + 1 + len w2 in
  ScanObject_body s fn (st, len pre + len w0) =
  let! '(st, more) := fn st k (has_byte k backslash) (len pre + vs) (len pre + (vs + len v)) in
  if negb more then Ret (Break (st, (len pre + (vs + len v), true))) else
  let j := len pre + (vs + len v + len w3) in
  if is_ c "," then let! j := SkipSpace s (j + 1) in Ret (Continue (st, j))
  else if is_ c "}" then Ret (Break (st, (j + 1, true)))
  else Ret (Break (st, (0, false))).
Proof.
  intros Hk H1 H2 Hv H3 Hc Hns s vs. unfold ScanObject_body.
  set (p0 := pre +:+ w0). set (p1 := p0 +:+ quoted k). set (p2 := p1 +:+ w1).
  set (p3 := p2 +:+ String ":" ""). set (p4 := p3 +:+ w2). set (p5 := p4 +:+ v).
  assert (s = p0 +:+ quoted k +:+ (w1 +:+ String ":" (w2 +:+ v +:+ w3 +:+ String c post))) as E0
    by (unfold s, p0; by autorewrite with str).
  assert (s = p1 +:+ w1 +:+ String ":" (w2 +:+ v +:+ w3 +:+ String c post)) as E1
    by (rewrite E0; unfold p1; by autorewrite with str).
  assert (s = p3 +:+ w2 +:+ v +:+ w3 +:+ String c post) as E3
    by (rewrite E1; unfold p3, p2; by autorewrite with str).
  assert (s = p4 +:+ v +:+ (w3 +:+ String c post)) as E4
    by (rewrite E3; unfold p4; by autorewrite with str).
  assert (s = p5 +:+ w3 +:+ String c post) as E5 by (rewrite E4; unfold p5; by autorewrite with str).
  destruct (key_at s p0 k _ E0 Hk) as [Hstr Hkey]. fold p1 in Hstr, Hkey.
  destruct (ws_then s p1 w1 ":" _ E1 H1 eq_refl) as (Hs1 & _ & Hat1).
  assert (len p1 + len w1 <? len s = true) as Hlt1 by (apply Nat.ltb_lt; rewrite E1; len_lia).
  pose proof (SkipSpace_ws_at s _ _ _ _ E3 eq_refl H2 (or_intror (json_text_not_space _ _ Hv))) as Hs3.
  destruct (ws_then s p5 w3 c post E5 H3 Hns) as (Hs5 & Hge5 & Hat5).
  replace (len pre + len w0) with (len p0) by (unfold p0; len_lia).
  rewrite Hstr. cbn [go_bind negb]. rewrite Hkey. cbn [go_bind]. rewrite Hs1. cbn [go_bind].
  rewrite Hlt1, Hat1. cbn [go_bind negb].
  replace (len p1 + len w1 + 1) with (len p3) by (unfold p3, p2; len_lia).
  rewrite Hs3. replace (len p3 + len w2) with (len p4) by (unfold p4; len_lia). cbn [go_bind].
  rewrite (f_equal (λ t, SkipValue t (len p4)) E4 : SkipValue s _ = _).
  rewrite json_text_SkipValue by (done || by apply terminated_ws). cbn [go_bind negb].
  replace (len pre + vs) with (len p4) by (unfold p4, p3, p2, p1, p0, quoted, vs; len_lia).
  replace (len pre + (vs + len v)) with (len p5) by (unfold p5, p4, p3, p2, p1, p0, quoted, vs; len_lia).
  replace (len p4 + len v) with (len p5) by (unfold p5; len_lia).
  destruct (fn st k _ _ _) as [[st' []]| |]; cbn [go_bind negb]; [|done|done|done].
  replace (len pre + (vs + len v + len w3)) with (len p5 + len w3)
    by (unfold p5, p4, p3, p2, p1, p0, quoted, vs; len_lia).
  rewrite Hs5. cbn [go_bind]. by rewrite Hge5, Hat5.
Qed.

Lemma ScanObject_loop ms bs :
  json_members ms bs →
  ∀ (fn : St → string → bool → nat → nat → go (St * bool)) st pre post n j,
  let s := pre +:+ ms +:+ String "}" post in
  length bs ≤ n → SkipSpace s (len pre) = Ret j →
  go_loop n (ScanObject_body s fn) (st, j) =
  visit_members fn st (len pre) bs (len pre + len ms + 1).
Proof.
  induction 1 as [w0 k w1 w2 v w3 H0 Hk H1 H2 Hv H3|w0 k w1 w2 v w3 ms bs H0 Hk H1 H2 Hv H3 Hms IH];
    intros fn st pre post [|n] j s Hn Hj; try (simpl in Hn; lia); rewrite go_loop_S.
  - assert (s = pre +:+ w0 +:+ quoted k +:+ w1 +:+
      String ":" (w2 +:+ v +:+ w3 +:+ String "}" post)) as Es
      by (unfold s; by autorewrite with str).
    erewrite SkipSpace_ws_at in Hj; [|exact Es|done|done|by right].
    injection Hj as <-. rewrite Es, ScanObject_step by done. cbn [visit_members].
    unfold shift. cbn [fst snd]. rewrite Nat.add_0_r.
    destruct (fn st k _ _ _) as [[st' []]| |]; simpl; try done.
    do 4 f_equal. unfold quoted. len_lia.
  - assert (s = pre +:+ w0 +:+ quoted k +:+ w1 +:+
      String ":" (w2 +:+ v +:+ w3 +:+ String "," (ms +:+ String "}" post))) as Es
      by (unfold s; by autorewrite with str).
    erewrite SkipSpace_ws_at in Hj; [|exact Es|done|done|by right].
    injection Hj as <-. rewrite Es at 1. rewrite ScanObject_step by done. rewrite <- Es.
    cbn [visit_members]. unfold shift at 1 2 3. cbn [fst snd]. rewrite Nat.add_0_r.
    destruct (fn st k _ _ _) as [[st' []]| |]; simpl; try done.
    set (pre' := pre +:+ w0 +:+ quoted k +:+ w1 +:+ String ":" (w2 +:+ v +:+ w3 +:+ String "," "")).
    match goal with |- context [SkipSpace s ?j] =>
      replace j with (len pre') by (unfold pre', quoted; len_lia) end.
    assert (s = pre' +:+ ms +:+ String "}" post) as Es'
      by (rewrite Es; unfold pre'; by autorewrite with str).
    destruct (SkipSpace_returns s (len pre')) as [j' Ej]. rewrite Ej. simpl.
    rewrite Es' in Ej. rewrite Es', (IH fn st' pre' post n j').
    + rewrite visit_members_shift. unfold pre', quoted. f_equal; len_lia.
    + simpl in Hn. rewrite length_fmap in Hn. lia.
    + done.
Qed.

Lemma json_members_length ms bs : json_members ms bs → length bs ≤ len ms.
Proof.
  induction 1 as [|w0 k w1 w2 v w3 ms bs H0 Hk H1 H2 Hv H3 Hms IH]; simpl;
    rewrite ?length_fmap; unfold quoted; len_lia.
Qed.

Lemma json_members_first ms bs post :
  json_members ms bs → ∃ w r, ms +:+ post = w +:+ String dquote r ∧ ws w.
Proof.
  destruct 1 as [w0 k w1 w2 v w3 H0|w0 k w1 w2 v w3 ms bs H0]; eexists w0, _;
    (split; [unfold quoted; autorewrite with str; reflexivity|done]).
Qed.

(** On a non-empty object, [ScanObject] is the reference walk over the members
    the grammar assigns. *)
Lemma ScanObject_text pre ms bs post
    (fn : St → string → bool → nat → nat → go (St * bool)) st :
  json_members ms bs →
  ScanObject (pre +:+ String "{" (ms +:+ String "}" post)) (len pre) fn st =
  visit_members fn st (len pre + 1) bs (len pre + 1 + len ms + 1).
Proof.
  intros Hms. unfold ScanObject. rewrite ge_mid, at_mid. simpl.
  set (pre' := pre +:+ String "{" ""). set (s := pre +:+ String "{" _).
  assert (s = pre' +:+ ms +:+ String "}" post) as Es
    by (unfold s, pre'; by autorewrite with str).
  assert (len pre + 1 = len pre') as -> by (unfold pre'; len_lia).
  destruct (json_members_first ms bs (String "}" post) Hms) as (w & r & Er & Hw).
  assert (s = pre' +:+ w +:+ String dquote r) as Es2 by (rewrite Es; by f_equal).
  assert (SkipSpace s (len pre') = Ret (len pre' + len w)) as Ej.
  { rewrite Es2. apply SkipSpace_ws; [done|by right]. }
  rewrite Ej. simpl.
  assert ((len pre' + len w <? len s) = true ∧ at_ s (len pre' + len w) = Ret dquote) as [-> ->].
  { rewrite Es2, <- app_assoc, <- len_app. split; [apply lt_mid|apply at_mid]. }
  simpl. rewrite Es in *. apply ScanObject_loop; [done| |done].
  pose proof (json_members_length _ _ Hms). unfold fuel. len_lia.
Qed.
End Visit.

(** ** Properties *)

(** C18: a JSON value is skipped exactly: wherever it stands in the input, [SkipValue]
    ends at its last byte as the grammar delimits it. *)
Theorem SkipValue_exact pre v post :
  json_text v → terminated post →
  SkipValue (pre +:+ v +:+ post) (len pre) = Ret (len pre + len v, true).
Proof. apply json_text_SkipValue. Qed.

Lemma SkipValue_exact_witness :
  SkipValue ("[1," +:+ "[2, 3]" +:+ "]") 3 = Ret (9, true).
Proof.
  apply (SkipValue_exact "[1," "[2, 3]" "]"); [|done].
  apply (JT_array "2, 3" [(0, 1); (3, 4)]), (JE_cons "" "2" "" " 3" [(1, 2)]); try done; [by apply JT_scalar|].
  apply (JE_one " " "3" ""); try done. by apply JT_scalar.
Defined.

(** On a JSON array [ScanArray] calls its callback on exactly the elements of the
    grammar, in order, with their index and bounds, and stops where the callback stops. *)
Theorem ScanArray_exact {St : Type} pre es bs post
    (fn : St → nat → nat → nat → go (St * bool)) st :
  json_elems es bs →
  ScanArray (pre +:+ String "[" (es +:+ String "]" post)) (len pre) fn st =
  visit_elems fn st 0 (len pre + 1) bs (len pre + 1 + len es + 1).
Proof. apply ScanArray_text. Qed.

Lemma ScanArray_exact_witness :
  ScanArray ("" +:+ String "[" ("2, 3" +:+ String "]" "")) 0
    (λ st idx vs ve, Ret (st ++ [(idx, vs, ve)], true)) []
  = Ret ([(0, 1, 2); (1, 4, 5)], (6, true)).
Proof.
  apply (ScanArray_exact "" "2, 3" [(0, 1); (3, 4)] ""
           (λ st idx vs ve, Ret (st ++ [(idx, vs, ve)], true)) []).
  apply (JE_cons "" "2" "" " 3" [(1, 2)]); try done; [by apply JT_scalar|].
  apply (JE_one " " "3" ""); try done. by apply JT_scalar.
Defined.

(** On a JSON object [ScanObject] calls its callback on exactly the members of the
    grammar, in order, with the key's raw text, whether it holds an escape, and the bounds
    of the value, and stops where the callback stops. *)
Theorem ScanObject_exact {St : Type} pre ms bs post
    (fn : St → string → bool → nat → nat → go (St * bool)) st :
  json_members ms bs →
  ScanObject (pre +:+ String "{" (ms +:+ String "}" post)) (len pre) fn st =
  visit_members fn st (len pre + 1) bs (len pre + 1 + len ms + 1).
Proof. apply ScanObject_text. Qed.

Lemma ScanObject_exact_witness :
  ScanObject ("" +:+ String "{" ((quoted "id" +:+ ":7") +:+ String "}" "")) 0
    (λ st key esc vs ve, Ret (st ++ [(key, esc, vs, ve)], true)) []
  = Ret ([("id", false, 6, 7)], (8, true)).
Proof.
  apply (ScanObject_exact "" (quoted "id" +:+ ":7") [("id", shift 5 (0, 1))] ""
           (λ st key esc vs ve, Ret (st ++ [(key, esc, vs, ve)], true)) []).
  apply (JM_one "" "id" "" "" "7" ""); try done. by apply JT_scalar.
Defined.
