(* ===== verification/ChainId.v ===== *)
(** * Chain identifiers and version overrides

    [lb/lb.go] ([parseNumber], [normalizeChainID], [splitChainIdentifier],
    [ParseBaseChainID], [handleChainVersionUpdate]) and [lb/version_router.go]. *)

From S2P Require Import Prelude GoStrings.
Local Open Scope Z_scope.

(** ** Normalising a chain id *)

Definition parseNumber (s : string) : option Z :=
  let s := TrimSpace s in
  if HasPrefix s "0x" || HasPrefix s "0X" then ParseInt (drop_str 2 s) 16 else ParseInt s 10.

Definition normalizeChainID (chainID : string) : string :=
  let chainID := TrimSpace chainID in
  if bool_decide (chainID = "") then "" else
  match parseNumber chainID with
  | Some chainIDNum => Itoa chainIDNum
  | None => chainID
  end.

(** [(base, uuid, trimmed)] *)
Definition splitChainIdentifier (chainID : string) : string * string * string :=
  let trimmed := TrimSpace chainID in
  if bool_decide (trimmed = "") then ("", "", "") else
  let '(base, rest) := SplitN2 trimmed "-" in
  let uuid := match rest with Some p => TrimSpace p | None => "" end in
  (normalizeChainID base, uuid, trimmed).

Definition ParseBaseChainID (chainID : string) : Z * bool :=
  let '(baseChainID, _, _) := splitChainIdentifier chainID in
  if bool_decide (baseChainID = "") then (0, false) else
  match ParseInt baseChainID 10 with
  | Some numericChainID => (numericChainID, true)
  | None => (0, false)
  end.

(** ** The version router *)

Record ChainVersionRouter := { overrides : gmap string string }.

Definition NewChainVersionRouter : ChainVersionRouter := {| overrides := ∅ |}.

Definition Update (r : ChainVersionRouter) (chain version : string) : ChainVersionRouter :=
  let chain := TrimSpace chain in
  let version := TrimSpace version in
  if bool_decide (chain = "") then r else
  if bool_decide (version = "") then {| overrides := delete chain (overrides r) |} else
  let normalizedVersion := ReplaceByte version "/" "-" in
  {| overrides := <[chain := chain +:+ "-" +:+ normalizedVersion]> (overrides r) |}.

Definition Remove (r : ChainVersionRouter) (chain : string) : ChainVersionRouter :=
  let chain := TrimSpace chain in
  if bool_decide (chain = "") then r else {| overrides := delete chain (overrides r) |}.

Definition Resolve (r : ChainVersionRouter) (chain : string) : string :=
  let chain := TrimSpace chain in
  if bool_decide (chain = "") then "" else
  match overrides r !! chain with
  | Some target => target
  | None => chain
  end.

(** [discovery.ChainVersion]; the two change types are etcd's. *)
Inductive ChangeType := EVENT_PUT | EVENT_DELETE.
#[export] Instance ChangeType_eq_dec : EqDecision ChangeType.
Proof. solve_decision. Defined.

Record ChainVersion := {
  cv_ChainId : string; cv_Version : string; cv_ChangeType : ChangeType }.

Definition handleChainVersionUpdate (r : ChainVersionRouter) (update : option ChainVersion)
    : ChainVersionRouter :=
  match update with
  | None => r
  | Some u =>
      let version := TrimSpace (cv_Version u) in
      match cv_ChangeType u with
      | EVENT_PUT => Update r (cv_ChainId u) version
      | EVENT_DELETE => Remove r (cv_ChainId u)
      end
  end.

(** The chain id a request is served under: [ServeHTTP] resolves a bare base
    chain through the router and takes an explicit version as written.  [None]
    is the "invalid chain id" answer. *)
Definition effectiveChain (r : ChainVersionRouter) (chainID : string)
    : option (string * string * string) :=
  let '(baseChainID, chainUUID, rawChainID) := splitChainIdentifier chainID in
  if bool_decide (baseChainID = "") then None else
  let effectiveChainID :=
    if bool_decide (chainUUID = "") then Resolve r baseChainID else rawChainID in
  Some (baseChainID, chainUUID, effectiveChainID).

(** ** Lemmas *)

Lemma parseNumber_range s n : parseNumber s = Some n → in_int64 n.
Proof. unfold parseNumber. case_match; apply ParseInt_range; lia. Qed.

Lemma parseNumber_trim s : parseNumber (TrimSpace s) = parseNumber s.
Proof. unfold parseNumber. by rewrite TrimSpace_idemp. Qed.

Lemma parseNumber_Itoa n : in_int64 n → parseNumber (Itoa n) = Some n.
Proof.
  intros Hn. unfold parseNumber. rewrite TrimSpace_Itoa.
  rewrite !Itoa_not_hex by auto. by apply ParseInt_Itoa.
Qed.

Lemma parseNumber_nonempty s n : parseNumber s = Some n → TrimSpace s ≠ "".
Proof. unfold parseNumber. intros H E. by rewrite E in H. Qed.

(** Every spelling of a number normalises to its decimal form. *)
Lemma normalizeChainID_number s n : parseNumber s = Some n → normalizeChainID s = Itoa n.
Proof.
  intros H. unfold normalizeChainID.
  rewrite bool_decide_eq_false_2 by (by eapply parseNumber_nonempty).
  by rewrite parseNumber_trim, H.
Qed.

Lemma normalizeChainID_other s : parseNumber s = None → normalizeChainID s = TrimSpace s.
Proof.
  intros H. unfold normalizeChainID. case_bool_decide as E; [done|].
  by rewrite parseNumber_trim, H.
Qed.

Lemma normalizeChainID_idem s : normalizeChainID (normalizeChainID s) = normalizeChainID s.
Proof.
  destruct (parseNumber s) as [n|] eqn:E.
  - rewrite (normalizeChainID_number s n E). apply normalizeChainID_number, parseNumber_Itoa.
    by eapply parseNumber_range.
  - rewrite (normalizeChainID_other s E). rewrite normalizeChainID_other by (by rewrite parseNumber_trim).
    apply TrimSpace_idemp.
Qed.

(** A bare numeric chain id splits into its decimal form and no version. *)
Lemma splitChainIdentifier_bare s n :
  has_byte (TrimSpace s) "-" = false → parseNumber s = Some n →
  splitChainIdentifier s = (Itoa n, "", TrimSpace s).
Proof.
  intros Hd Hn. unfold splitChainIdentifier.
  rewrite bool_decide_eq_false_2 by (by eapply parseNumber_nonempty).
  rewrite SplitN2_none by done. rewrite (normalizeChainID_number _ n) by (by rewrite parseNumber_trim).
  done.
Qed.

Lemma effectiveChain_bare r s n :
  has_byte (TrimSpace s) "-" = false → parseNumber s = Some n →
  effectiveChain r s = Some (Itoa n, "", Resolve r (Itoa n)).
Proof.
  intros Hd Hn. unfold effectiveChain. rewrite (splitChainIdentifier_bare s n) by done.
  by rewrite bool_decide_eq_false_2 by apply Itoa_not_nil.
Qed.

Lemma Resolve_Update_same r c v :
  TrimSpace c ≠ "" → TrimSpace v ≠ "" →
  Resolve (Update r c v) c = TrimSpace c +:+ "-" +:+ ReplaceByte (TrimSpace v) "/" "-".
Proof.
  intros Hc Hv. unfold Resolve, Update. rewrite !bool_decide_eq_false_2 by done. simpl.
  by rewrite lookup_insert_eq.
Qed.

Lemma Resolve_Update_clear r c v :
  TrimSpace v = "" → Resolve (Update r c v) c = TrimSpace c.
Proof.
  intros Hv. unfold Resolve, Update. rewrite Hv. case_bool_decide as E; [done|].
  rewrite bool_decide_eq_true_2 by done. simpl. by rewrite lookup_delete_eq.
Qed.

Lemma Resolve_Update_other r c c' v :
  TrimSpace c ≠ TrimSpace c' → Resolve (Update r c v) c' = Resolve r c'.
Proof.
  intros Hne. unfold Resolve, Update. repeat case_bool_decide; try done; simpl;
    by rewrite ?lookup_delete_ne, ?lookup_insert_ne.
Qed.

Lemma Resolve_Remove_same r c : Resolve (Remove r c) c = TrimSpace c.
Proof.
  unfold Resolve, Remove. case_bool_decide as E; [done|]. simpl. by rewrite lookup_delete_eq.
Qed.

Lemma Resolve_Remove_other r c c' :
  TrimSpace c ≠ TrimSpace c' → Resolve (Remove r c) c' = Resolve r c'.
Proof.
  intros Hne. unfold Resolve, Remove. repeat case_bool_decide; try done; simpl.
  by rewrite lookup_delete_ne.
Qed.

(** ** A functional specification of the router

    The router's promise: a table from chain to the last non-empty version
    published for it and not since cleared. *)

Definition version_step (t : gmap string string) (u : ChainVersion) : gmap string string :=
  let c := TrimSpace (cv_ChainId u) in
  let v := TrimSpace (cv_Version u) in
  match cv_ChangeType u with
  | EVENT_PUT => if bool_decide (v = "") then delete c t else <[c := v]> t
  | EVENT_DELETE => delete c t
  end.

Definition versions (us : list ChainVersion) : gmap string string := foldl version_step ∅ us.

Definition router (us : list ChainVersion) : ChainVersionRouter :=
  foldl (λ r u, handleChainVersionUpdate r (Some u)) NewChainVersionRouter us.

Definition target (c v : string) : string := c +:+ "-" +:+ ReplaceByte v "/" "-".

Lemma version_step_lookup t u c :
  c ≠ "" →
  ∀ r, (∀ c', c' ≠ "" → overrides r !! c' = target c' <$> t !! c') →
  overrides (handleChainVersionUpdate r (Some u)) !! c = target c <$> version_step t u !! c.
Proof.
  intros Hc r Hr. unfold handleChainVersionUpdate, version_step, Update, Remove.
  rewrite TrimSpace_idemp. destruct (cv_ChangeType u).
  - repeat case_bool_decide; simpl; rewrite ?lookup_delete, ?lookup_insert;
      repeat case_decide; subst; simpl; rewrite ?Hr; done.
  - case_bool_decide; simpl; rewrite ?lookup_delete; repeat case_decide; subst; simpl;
      rewrite ?Hr; done.
Qed.

Lemma router_versions us c :
  c ≠ "" → overrides (router us) !! c = target c <$> versions us !! c.
Proof.
  unfold router, versions.
  assert (∀ r t, (∀ c', c' ≠ "" → overrides r !! c' = target c' <$> t !! c') →
    ∀ c', c' ≠ "" →
    overrides (foldl (λ r u, handleChainVersionUpdate r (Some u)) r us) !! c'
    = target c' <$> foldl version_step t us !! c') as Hgen.
  { induction us as [|u us IH]; intros r t Hr c' Hc'; simpl; [by apply Hr|].
    apply IH; [|done]. intros. by apply version_step_lookup. }
  intros Hc. apply Hgen; [|done]. intros c' _. simpl. by rewrite !lookup_empty.
Qed.

Lemma Resolve_router us c :
  TrimSpace c = c → c ≠ "" →
  Resolve (router us) c = match versions us !! c with Some v => target c v | None => c end.
Proof.
  intros Ht Hc. unfold Resolve. rewrite Ht, bool_decide_eq_false_2, router_versions by done.
  by destruct (versions us !! c).
Qed.

(** ** Properties *)

(** Every way of writing a chain id (white space, decimal, hexadecimal with either
    prefix) has one normal form, which normalising again leaves alone; numbers go to their
    decimal form. *)
Theorem normalizeChainID_canonical s :
  normalizeChainID (normalizeChainID s) = normalizeChainID s ∧
  ∀ n, parseNumber s = Some n → normalizeChainID s = Itoa n.
Proof. split; [apply normalizeChainID_idem|apply normalizeChainID_number]. Qed.

(** C37: after any sequence of published version changes, a request for a bare base chain
    is served under the last version published for that chain and not cleared since, with
    slashes as dashes, and under the base chain itself when there is none. *)
Theorem version_routing us s n :
  has_byte (TrimSpace s) "-" = false → parseNumber s = Some n →
  effectiveChain (router us) s =
  Some (Itoa n, "", match versions us !! Itoa n with
                    | Some v => target (Itoa n) v
                    | None => Itoa n
                    end).
Proof.
  intros Hd Hn. rewrite (effectiveChain_bare _ s n) by done.
  by rewrite Resolve_router by (apply TrimSpace_Itoa || apply Itoa_not_nil).
Qed.

Lemma version_routing_witness :
  effectiveChain (router [ {| cv_ChainId := "1"; cv_Version := "v/2"; cv_ChangeType := EVENT_PUT |} ])
    " 0x1" = Some ("1", "", "1-v-2").
Proof.
  apply (version_routing
    [ {| cv_ChainId := "1"; cv_Version := "v/2"; cv_ChangeType := EVENT_PUT |} ] " 0x1" 1);
    vm_compute; done.
Defined.

(** An explicit version in the identifier bypasses the published overrides. *)
Theorem explicit_version_not_routed r s base uuid raw :
  splitChainIdentifier s = (base, uuid, raw) → base ≠ "" → uuid ≠ "" →
  effectiveChain r s = Some (base, uuid, TrimSpace s).
Proof.
  intros Hs Hb Hu. unfold effectiveChain. rewrite Hs, !bool_decide_eq_false_2 by done.
  unfold splitChainIdentifier in Hs. case_bool_decide; [by simplify_eq|].
  destruct (SplitN2 _ _). by simplify_eq.
Qed.

Lemma explicit_version_not_routed_witness :
  effectiveChain (Update NewChainVersionRouter "1" "v9") "0x1-v3" = Some ("1", "v3", "0x1-v3").
Proof.
  apply (explicit_version_not_routed _ "0x1-v3" "1" "v3" "0x1-v3"); vm_compute; done.
Defined.
