(* ===== verification/JsonRpc.v ===== *)
(** * JSON-RPC requests and responses

    [jsonrpc/spec.go], [jsonrpc/ext.go] and [jsonrpc/response.go].  The JSON
    library sonic is not part of the repository: its validity check and its
    decoders are arguments of the definitions that call them. *)

From S2P Require Import Prelude GoStrings JsonScan JsonGrammar.
Local Open Scope nat_scope.

(** ** Data ([jsonrpc/spec.go]) *)

Abbreviation RPCMethod := string (only parsing).

Definition ParseErrorCode : Z := -32700.
Definition InvalidRequestCode : Z := -32600.
Definition InvalidParamsCode : Z := -32602.
Definition InternalErrorCode : Z := -32603.
Definition InvalidResponseCode : Z := -32604.
Definition ExtTooManyRequests : Z := -41001.
Definition ExtWaitingTargetResponseTimeout : Z := -41002.
Definition ExtMethodNotAllowed : Z := -41003.

Definition ParseErrorMsg : string := "parse error".
Definition InvalidRequestMsg : string := "invalid Request".
Definition InvalidParamsMsg : string := "invalid params".
Definition ServerErrorMsg : string := "server error".
Definition ExtMethodNotAllowedMsg : string := "method not allowed".

Definition GetLatestBlock : string := "getLatestBlock".
Definition ContractMultiCall : string := "contractMultiCall".
Definition SimulateTransactions : string := "simulateTransactions".
Definition EstimateGas : string := "estimateGas".

(** The [interface{}] an error object carries: absent, text, or another value. *)
Inductive ErrorData := DataNil | DataString (s : string) | DataOther.

Record ErrorObject := { eo_Code : Z; eo_Message : string; eo_Data : ErrorData }.

(** A raw message is [None] when the member is absent (a nil slice). *)
Record RequestObject := {
  ro_Jsonrpc : string; ro_Method : string; ro_Params : option string; ro_ID : option string }.

Record ResponseObject := {
  rs_Jsonrpc : string; rs_Error : option ErrorObject; rs_Result : option string;
  rs_ID : option string }.

#[export] Instance ErrorData_eq_dec : EqDecision ErrorData.
Proof. solve_decision. Defined.
#[export] Instance ErrorObject_eq_dec : EqDecision ErrorObject.
Proof. solve_decision. Defined.
#[export] Instance RequestObject_eq_dec : EqDecision RequestObject.
Proof. solve_decision. Defined.
#[export] Instance ResponseObject_eq_dec : EqDecision ResponseObject.
Proof. solve_decision. Defined.

(** A Go [error]: either a JSON-RPC error object or a plain message. *)
Inductive error := ErrObject (e : ErrorObject) | ErrText (msg : string).
#[export] Instance error_eq_dec : EqDecision error.
Proof. solve_decision. Defined.

(** The [Error] method of [ErrorObject]. *)
Definition ErrorObject_Error (eo : ErrorObject) : string :=
  "code: " +:+ Itoa (eo_Code eo) +:+ ", err_msg: " +:+ eo_Message eo.

Definition Error (e : error) : string :=
  match e with ErrObject eo => ErrorObject_Error eo | ErrText m => m end.

(** ** Responses ([jsonrpc/response.go]) *)

Definition ErrorResponse (errorObject : ErrorObject) (err : option error)
    : ResponseObject * error :=
  let respObject :=
    {| rs_Jsonrpc := "2.0"; rs_Error := Some errorObject; rs_Result := None; rs_ID := Some "1" |} in
  (respObject, match err with Some e => e | None => ErrObject errorObject end).

Definition BadRequest (err : error) : ResponseObject * error :=
  ErrorResponse {| eo_Code := ParseErrorCode; eo_Message := ParseErrorMsg;
                   eo_Data := DataString (Error err) |} (Some err).

Definition BadGateway (err : error) : ResponseObject * error :=
  ErrorResponse {| eo_Code := InternalErrorCode; eo_Message := ServerErrorMsg;
                   eo_Data := DataString (Error err) |} (Some err).

Definition GatewayTimeout (err : error) : ResponseObject * error :=
  ErrorResponse {| eo_Code := ExtWaitingTargetResponseTimeout; eo_Message := ServerErrorMsg;
                   eo_Data := DataString (Error err) |} (Some err).

(** ** Parsing requests ([jsonrpc/ext.go]) *)

Inductive ParseError := ErrReadBody | ErrParseBatch | ErrParseSingle.
#[export] Instance ParseError_eq_dec : EqDecision ParseError.
Proof. solve_decision. Defined.

Definition ParseError_text (e : ParseError) : string :=
  match e with
  | ErrReadBody => "failed to read jsonrpc request body"
  | ErrParseBatch => "failed to parse jsonrpc batch request"
  | ErrParseSingle => "failed to parse jsonrpc request"
  end.

Fixpoint IsBatch (msg : string) : bool :=
  match msg with
  | "" => false
  | String c msg' =>
      if is_ c "032" || is_ c "009" || is_ c "010" || is_ c "013" then IsBatch msg'
      else is_ c "["
  end.

Definition requestKeys : list string := ["jsonrpc"; "method"; "params"; "id"].

Definition emptyRequest : RequestObject :=
  {| ro_Jsonrpc := ""; ro_Method := ""; ro_Params := None; ro_ID := None |}.

Definition set_Jsonrpc (v : string) (r : RequestObject) : RequestObject :=
  {| ro_Jsonrpc := v; ro_Method := ro_Method r; ro_Params := ro_Params r; ro_ID := ro_ID r |}.
Definition set_Method (v : string) (r : RequestObject) : RequestObject :=
  {| ro_Jsonrpc := ro_Jsonrpc r; ro_Method := v; ro_Params := ro_Params r; ro_ID := ro_ID r |}.
Definition set_Params (v : string) (r : RequestObject) : RequestObject :=
  {| ro_Jsonrpc := ro_Jsonrpc r; ro_Method := ro_Method r; ro_Params := Some v; ro_ID := ro_ID r |}.
Definition set_ID (v : string) (r : RequestObject) : RequestObject :=
  {| ro_Jsonrpc := ro_Jsonrpc r; ro_Method := ro_Method r; ro_Params := ro_Params r; ro_ID := Some v |}.

(** The closure of [scanRequestObject]; its state is [(req, ok)]. *)
Definition scanRequestMember (s : string) (st : RequestObject * bool) (key : string)
    (keyEscaped : bool) (vs ve : nat) : go (RequestObject * bool * bool) :=
  let '(req, ok) := st in
  if bool_decide (key = "jsonrpc") || bool_decide (key = "method") then
    let! c := at_ s vs in
    if negb (is_ c dquote) then Ret (req, false, false) else
    let! value := slice s (vs + 1) (ve - 1) in
    if negb (IsPlainASCII value) then Ret (req, false, false) else
    if bool_decide (key = "jsonrpc") then Ret (set_Jsonrpc value req, ok, true)
    else Ret (set_Method value req, ok, true)
  else if bool_decide (key = "params") then
    let! v := slice s vs ve in Ret (set_Params v req, ok, true)
  else if bool_decide (key = "id") then
    let! v := slice s vs ve in Ret (set_ID v req, ok, true)
  else if keyEscaped || negb (IsPlainASCII key) then Ret (req, false, false)
  else if existsb (EqualFold key) requestKeys then Ret (req, false, false)
  else Ret (req, ok, true).

Definition scanRequestObject (s : string) (i : nat) : go (RequestObject * bool) :=
  let! '(st, (_, scanned)) := ScanObject s i (scanRequestMember s) (emptyRequest, true) in
  Ret (st.1, st.2 && scanned).

(** The batch closure; its state is [(reqs, declined)]. *)
Definition scanRequestItem (s : string) (st : list RequestObject * bool) (_ vs _ : nat)
    : go (list RequestObject * bool * bool) :=
  let '(reqs, declined) := st in
  let! c := at_ s vs in
  if negb (is_ c "{") then Ret (reqs, true, false) else
  let! '(req, ok) := scanRequestObject s vs in
  if negb ok then Ret (reqs, true, false) else Ret (reqs ++ [req], declined, true).

Section Parse.
(** [sonic.Valid] and [sonic.Unmarshal] into a request and into a batch, where
    a [null] item decodes to a nil pointer. *)
Context (Valid : string → bool)
        (UnmarshalRequest : string → option RequestObject)
        (UnmarshalBatch : string → option (list (option RequestObject))).

Definition parseRequestBorrowed (body : string) : go (option (list RequestObject)) :=
  if has_byte body backslash || negb (Valid body) then Ret None else
  let! i := SkipSpace body 0 in
  if len body <=? i then Ret None else
  let! c := at_ body i in
  if is_ c "{" then
    let! '(req, ok) := scanRequestObject body i in
    if ok then Ret (Some [req]) else Ret None
  else if is_ c "[" then
    let! '(st, (_, ok)) := ScanArray body i (scanRequestItem body) ([], false) in
    if negb ok || st.2 then Ret None else Ret (Some st.1)
  else Ret None.

Definition parseRequestDecoded (body : string) : ParseError + list (option RequestObject) :=
  if IsBatch body then
    match UnmarshalBatch body with Some reqs => inr reqs | None => inl ErrParseBatch end
  else
    match UnmarshalRequest body with Some req => inr [Some req] | None => inl ErrParseSingle end.

(** [body = None] is a body that could not be read. *)
Definition ParseRequest (body : option string) : go (ParseError + list (option RequestObject)) :=
  match body with
  | None => Ret (inl ErrReadBody)
  | Some body =>
      let! fast := parseRequestBorrowed body in
      match fast with
      | Some reqs => Ret (inr (Some <$> reqs))
      | None => Ret (parseRequestDecoded body)
      end
  end.
End Parse.

Definition ValidateRequest (req : option RequestObject) : option ErrorObject :=
  match req with
  | None => Some {| eo_Code := ParseErrorCode; eo_Message := ParseErrorMsg;
                    eo_Data := DataString "request must not be nil" |}
  | Some r =>
      if bool_decide (ro_Jsonrpc r ≠ "2.0") then
        Some {| eo_Code := InvalidRequestCode; eo_Message := InvalidRequestMsg;
                eo_Data := DataString "protocol must be exactly 2.0" |}
      else if bool_decide (ro_Method r = "") then
        Some {| eo_Code := InvalidRequestCode; eo_Message := InvalidRequestMsg;
                eo_Data := DataString "method must not empty" |}
      else None
  end.

(** ** The error-key filter *)

Definition errorKeySuffix : string := "rror" +:+ String dquote "".

Definition ContainsErrorKey_body (msg : string) (offset : nat) : go (next nat bool) :=
  if offset <? len msg then
    match Index (drop_str offset msg) errorKeySuffix with
    | None => Ret (Break false)
    | Some i =>
        let i := i + offset in
        if i <? 2 then Ret (Continue (i + len errorKeySuffix)) else
        let! q := at_ msg (i - 2) in
        let! e := (if is_ q dquote then
                     let! c := at_ msg (i - 1) in Ret (is_ c "e" || is_ c "E")
                   else Ret false) in
        if e then Ret (Break true) else Ret (Continue (i + len errorKeySuffix))
    end
  else Ret (Break false).

Definition ContainsErrorKey (msg : string) : go bool :=
  go_loop (fuel msg) (ContainsErrorKey_body msg) 0.

(** ** Totality of the request parser *)

Lemma returns_at_value s vs ve (Q : ascii → Prop) :
  vs < ve ≤ len s → (∀ c, String.get vs s = Some c → Q c) → returns (at_ s vs) Q.
Proof. intros H HQ. apply returns_at; [lia|done]. Qed.

Lemma scanRequestMember_total s st key esc vs ve :
  vs < ve ≤ len s → SkipValue s vs = Ret (ve, true) →
  returns (scanRequestMember s st key esc vs ve) (λ _, True).
Proof.
  intros Hb Hv. unfold scanRequestMember. destruct st as [req ok].
  destruct (bool_decide (key = "jsonrpc") || bool_decide (key = "method")).
  - eapply returns_bind, returns_at_value; [done|]. intros c Hc.
    destruct (is_ c dquote) eqn:Eq; simpl; [|done].
    pose proof (SkipValue_string _ _ _ _ Hc Eq Hv).
    apply returns_bind, returns_slice; [lia|lia|]. repeat case_match; done.
  - repeat case_match; try done; apply returns_bind, returns_slice; try lia; done.
Qed.

Lemma scanRequestObject_total s i : returns (scanRequestObject s i) (λ _, True).
Proof.
  unfold scanRequestObject. eapply returns_seq.
  - apply (ScanObject_total (λ _, True)); [|done]. intros st key esc vs ve _ Hb Hv.
    eapply returns_mono; [by apply scanRequestMember_total|]. by intros [].
  - intros [st [e ok]] _. done.
Qed.

Lemma scanRequestItem_total s st idx vs ve :
  vs < ve ≤ len s → returns (scanRequestItem s st idx vs ve) (λ _, True).
Proof.
  intros Hb. unfold scanRequestItem. destruct st as [reqs declined].
  eapply returns_bind, returns_at_value; [done|]. intros c _.
  destruct (is_ c "{"); simpl; [|done].
  eapply returns_seq; [apply scanRequestObject_total|]. intros [req []] _; done.
Qed.

Section ParseTotal.
Context (Valid : string → bool)
        (UnmarshalRequest : string → option RequestObject)
        (UnmarshalBatch : string → option (list (option RequestObject))).

Lemma parseRequestBorrowed_total body : returns (parseRequestBorrowed Valid body) (λ _, True).
Proof.
  unfold parseRequestBorrowed. case_match; [done|].
  eapply returns_seq; [apply SkipSpace_spec|]. intros i _.
  destruct (len body <=? i) eqn:E; b2p; [done|].
  apply returns_bind, returns_at; [done|]. intros c _. repeat case_match; try done.
  - eapply returns_seq; [apply scanRequestObject_total|]. intros [req []] _; done.
  - eapply returns_seq.
    + apply (ScanArray_total (λ _, True)); [|done]. intros. 
      eapply returns_mono; [by apply scanRequestItem_total|]. by intros [].
    + intros [st [e ok]] _. simpl. case_match; done.
Qed.

Lemma ParseRequest_total body :
  returns (ParseRequest Valid UnmarshalRequest UnmarshalBatch body) (λ _, True).
Proof.
  unfold ParseRequest. destruct body as [body|]; [|done].
  eapply returns_seq; [apply parseRequestBorrowed_total|]. intros [reqs|] _; done.
Qed.
End ParseTotal.

(** ** The error-key filter is exact *)

(** The key tokens the filter looks for. *)
Definition error_token (e : ascii) : string := String dquote (String e errorKeySuffix).

Definition has_error_token_at (msg : string) (k : nat) : Prop :=
  HasPrefix (drop_str k msg) (error_token "e") = true
  ∨ HasPrefix (drop_str k msg) (error_token "E") = true.

Lemma errorKeySuffix_len : errorKeySuffix ≠ "" ∧ len errorKeySuffix = 5.
Proof. by vm_compute. Qed.

Lemma error_suffix_len msg k :
  HasPrefix (drop_str k msg) errorKeySuffix = true → k + 5 ≤ len msg.
Proof.
  destruct errorKeySuffix_len as [Hne Hl]. intros H. pose proof (HasPrefix_len _ _ _ Hne H). lia.
Qed.

Lemma error_token_at msg k :
  has_error_token_at msg k ↔
  String.get k msg = Some dquote ∧
  (String.get (S k) msg = Some "e"%char ∨ String.get (S k) msg = Some "E"%char) ∧
  HasPrefix (drop_str (S (S k)) msg) errorKeySuffix = true.
Proof. unfold has_error_token_at, error_token. rewrite !HasPrefix_cons. tauto. Qed.

(** Two occurrences of the suffix that begin a token are at least its length apart. *)
Lemma error_token_far msg i k :
  HasPrefix (drop_str i msg) errorKeySuffix = true → has_error_token_at msg k →
  i < S (S k) → i + len errorKeySuffix ≤ S (S k).
Proof.
  intros Hi Hk Hlt. apply error_token_at in Hk as (_ & He & Hs).
  pose proof (HasPrefix_get _ _ _ 0 "r"%char Hs eq_refl) as Hr. rewrite Nat.add_0_r in Hr.
  pose proof (HasPrefix_get _ _ _ 0 "r"%char Hi eq_refl) as H0. rewrite Nat.add_0_r in H0.
  pose proof (HasPrefix_get _ _ _ 2 "o"%char Hi eq_refl) as H2.
  pose proof (HasPrefix_get _ _ _ 4 dquote Hi eq_refl) as H4; unfold dquote in H4.
  change (len errorKeySuffix) with 5. destruct (decide (i + 5 ≤ S (S k))); [done|]. exfalso.
  assert (S k = i ∨ S (S k) = i + 2 ∨ S k = i + 2 ∨ S (S k) = i + 4) as Hcases by lia.
  destruct Hcases as [E|[E|[E|E]]]; rewrite E in *; destruct He; congruence.
Qed.

Lemma ContainsErrorKey_exists msg :
  returns (ContainsErrorKey msg) (λ b, b = true ↔ ∃ k, has_error_token_at msg k).
Proof.
  apply (returns_loop (λ offset, ∀ k, has_error_token_at msg k → offset ≤ S (S k))
           (λ offset, len msg - offset)); unfold fuel; [|lia|lia].
  intros offset Hinv. unfold ContainsErrorKey_body. destruct (offset <? len msg) eqn:E; b2p.
  2: { simpl. split; [done|]. intros [k Hk]. specialize (Hinv k Hk).
       apply error_token_at in Hk as (_ & _ & Hs). apply error_suffix_len in Hs. lia. }
  destruct (Index (drop_str offset msg) errorKeySuffix) as [i|] eqn:Ei.
  2: { simpl. split; [done|]. intros [k Hk]. specialize (Hinv k Hk).
       apply error_token_at in Hk as (_ & _ & Hs). rewrite Index_None in Ei.
       pose proof (error_suffix_len _ _ Hs) as Hl.
       specialize (Ei (S (S k) - offset)). rewrite len_drop in Ei.
       rewrite drop_drop in Ei. replace (offset + (S (S k) - offset)) with (S (S k)) in Ei by lia.
       rewrite Ei in Hs; [done|lia]. }
  apply Index_Some in Ei as [Hi Hfirst]. rewrite drop_drop in Hi. rewrite (Nat.add_comm i).
  set (p := offset + i) in *.
  pose proof (error_suffix_len _ _ Hi) as Hl. change (len errorKeySuffix) with 5 in *.
  assert (∀ k, has_error_token_at msg k → p ≤ S (S k)) as Hp.
  { intros k Hk. specialize (Hinv k Hk). destruct (decide (p ≤ S (S k))); [done|].
    apply error_token_at in Hk as (_ & _ & Hs).
    specialize (Hfirst (S (S k) - offset) ltac:(lia)). rewrite drop_drop in Hfirst.
    replace (offset + (S (S k) - offset)) with (S (S k)) in Hfirst by lia. congruence. }
  assert (Hskip : (∀ k, has_error_token_at msg k → p ≠ S (S k)) →
    (∀ k, has_error_token_at msg k → p + 5 ≤ S (S k)) ∧ len msg - (p + 5) < len msg - offset).
  { intros Hn. split; [|lia]. intros k Hk. specialize (Hp k Hk). specialize (Hn k Hk).
    apply (error_token_far msg p k); [done|done|lia]. }
  destruct (p <? 2) eqn:Ep; b2p; [simpl; apply Hskip; lia|].
  apply returns_bind, returns_at; [lia|]. intros q Hq.
  destruct (is_ q dquote) eqn:Eq.
  2: { simpl. apply Hskip. intros k Hk E'. apply error_token_at in Hk as (Hk & _).
       apply is_false in Eq. replace (p - 2) with k in Hq by lia. congruence. }
  apply is_true in Eq. subst q. apply returns_bind, returns_bind, returns_at; [lia|].
  intros c Hc. simpl. destruct (is_ c "e" || is_ c "E") eqn:Ec; simpl.
  - split; [intros _|done]. exists (p - 2). apply error_token_at.
    replace (S (p - 2)) with (p - 1) by lia. replace (S (p - 1)) with p by lia.
    apply orb_true_iff in Ec. rewrite !is_true in Ec. rewrite Hq, Hc. naive_solver.
  - apply Hskip. intros k Hk E'. apply error_token_at in Hk as (_ & He & _).
    replace (p - 1) with (S k) in Hc by lia. b2p. rewrite !is_false in *. naive_solver.
Qed.

Lemma ContainsErrorKey_tokens msg :
  ContainsErrorKey msg =
  Ret (Contains msg (error_token "e") || Contains msg (error_token "E")).
Proof.
  destruct (returns_inv _ _ (ContainsErrorKey_exists msg)) as (b & -> & Hb). f_equal.
  apply eq_bool_prop_intro. rewrite !Is_true_true, orb_true_iff, !Contains_spec by done.
  rewrite Hb. unfold has_error_token_at. split; [intros [k [?|?]]|intros [[k ?]|[k ?]]]; eauto.
Qed.

(** ** The fast path reads a request object off the grammar *)

(** The members of an object as pairs of a key and the text of its value. *)
Definition member_texts (ms : string) (bs : list (string * (nat * nat))) : list (string * string) :=
  prod_map id (λ b, String.substring b.1 (b.2 - b.1) ms) <$> bs.

(** The content of a string literal; [None] for any other value. *)
Definition string_content (v : string) : option string :=
  match v with
  | String c v' => if is_ c dquote then Some (String.substring 0 (len v' - 1) v') else None
  | "" => None
  end.

(** The reference reading: members in order, a later one overriding an earlier
    one; [None] where only the full decoder knows the answer. *)
Definition read_member (req : RequestObject) (kv : string * string) : option RequestObject :=
  let '(k, v) := kv in
  if decide (k = "jsonrpc" ∨ k = "method") then
    c ← string_content v;
    if IsPlainASCII c then Some (if decide (k = "jsonrpc") then set_Jsonrpc c req else set_Method c req)
    else None
  else if decide (k = "params") then Some (set_Params v req)
  else if decide (k = "id") then Some (set_ID v req)
  else if has_byte k backslash || negb (IsPlainASCII k) || existsb (EqualFold k) requestKeys then None
  else Some req.

Fixpoint read_members (req : RequestObject) (kvs : list (string * string)) : option RequestObject :=
  match kvs with
  | [] => Some req
  | kv :: kvs => req' ← read_member req kv; read_members req' kvs
  end.

(** Where a member's value stands in the text around it. *)
Definition stands (s : string) (vs ve : nat) : Prop :=
  ∃ p v q, s = p +:+ v +:+ q ∧ vs = len p ∧ ve = len p + len v ∧ json_text v.

Lemma stands_wrap s a b vs ve :
  stands s vs ve → stands (a +:+ s +:+ b) (len a + vs) (len a + ve).
Proof.
  intros (p & v & q & -> & -> & -> & Hv). exists (a +:+ p), v, (q +:+ b).
  repeat split; [by autorewrite with str|len_lia|len_lia|done].
Qed.

Lemma json_members_stand ms bs :
  json_members ms bs → Forall (λ kb, stands ms kb.2.1 kb.2.2) bs.
Proof.
  induction 1 as [w0 k w1 w2 v w3 H0 Hk H1 H2 Hv H3|w0 k w1 w2 v w3 ms bs H0 Hk H1 H2 Hv H3 Hms IH].
  - constructor; [|done]. simpl.
    exists (w0 +:+ quoted k +:+ w1 +:+ String ":" w2), v, w3. unfold quoted.
    repeat split; [by autorewrite with str|len_lia|len_lia|done].
  - constructor.
    + exists (w0 +:+ quoted k +:+ w1 +:+ String ":" w2), v, (w3 +:+ String "," ms). unfold quoted.
      repeat split; [by autorewrite with str|simpl; len_lia|simpl; len_lia|done].
    + apply Forall_fmap. eapply Forall_impl; [exact IH|]. intros [k' [a b]] Hst. simpl in *.
      apply (stands_wrap _ (w0 +:+ quoted k +:+ w1 +:+ String ":" (w2 +:+ v +:+ w3 +:+ String "," "")) "")
        in Hst.
      replace (_ +:+ ms +:+ "") with (w0 +:+ quoted k +:+ w1 +:+
        String ":" (w2 +:+ v +:+ w3 +:+ String "," ms)) in Hst by (by autorewrite with str).
      revert Hst. unfold quoted. generalize ms. intros ms'.
      match goal with |- stands _ ?a ?b → stands _ ?c ?d =>
        replace c with a by len_lia; replace d with b by len_lia end. done.
Qed.

Lemma slice_mid p v q : slice (p +:+ v +:+ q) (len p) (len p + len v) = Ret v.
Proof.
  rewrite slice_Ret by len_lia. replace (len p + len v - len p) with (len v) by lia.
  by rewrite substring_mid.
Qed.

Lemma string_content_quoted b : string_content (quoted b) = Some b.
Proof.
  unfold string_content, quoted. unfold is_. rewrite bool_decide_eq_true_2 by done.
  replace (len _ - 1) with (len b) by len_lia. f_equal. apply (substring_mid "" b).
Qed.

(** A value either is a literal, whose content the scanner slices, or does not
    begin with a quote. *)
Lemma string_value p v q :
  json_text v →
  (∃ b, v = quoted b ∧ string_content v = Some b ∧ at_ (p +:+ v +:+ q) (len p) = Ret dquote ∧
        slice (p +:+ v +:+ q) (len p + 1) (len p + len v - 1) = Ret b)
  ∨ (∃ c, string_content v = None ∧ at_ (p +:+ v +:+ q) (len p) = Ret c ∧ is_ c dquote = false).
Proof.
  destruct 1 as [t Hne Ht|b Hb|w Hw|es bs Hes|w Hw|ms bs Hms];
    [right|left|right|right|right|right]; try (eexists; by rewrite app_cons, at_mid).
  - destruct t as [|c t]; [done|]. exists c. rewrite app_cons, at_mid. simpl in *.
    unfold scalar_byte at 1 in Ht. b2p.
    by match goal with H : is_ c dquote = false |- _ => rewrite H end.
  - exists b. split_and!; [done|apply string_content_quoted|unfold quoted; by rewrite app_cons, at_mid|].
    replace (p +:+ quoted b +:+ q) with ((p +:+ String dquote "") +:+ b +:+ String dquote q)
      by (unfold quoted; by autorewrite with str).
    replace (len p + 1) with (len (p +:+ String dquote "")) by len_lia.
    replace (_ - 1) with (len (p +:+ String dquote "") + len b) by (unfold quoted; len_lia).
    apply slice_mid.
Qed.

Lemma scanRequestMember_text s req k vs ve p v q :
  s = p +:+ v +:+ q → vs = len p → ve = len p + len v → json_text v →
  scanRequestMember s (req, true) k (has_byte k backslash) vs ve =
  Ret match read_member req (k, v) with
      | Some r => (r, true, true)
      | None => (req, false, false)
      end.
Proof.
  intros -> -> -> Hv. unfold scanRequestMember, read_member.
  destruct (decide (k = "jsonrpc" ∨ k = "method")) as [Hk|Hk].
  - rewrite (proj2 (orb_true_iff _ _)) by (rewrite !bool_decide_eq_true; done).
    destruct (string_value p v q Hv) as [(b & -> & -> & -> & Hs)|(c & -> & -> & Hc)]; cbn [go_bind];
      [|by rewrite Hc].
    change (negb (is_ dquote dquote)) with false. rewrite Hs. simpl. destruct (IsPlainASCII b); [|done]. simpl.
    destruct (decide (k = "jsonrpc")) as [->|Hn]; [done|].
    by rewrite bool_decide_eq_false_2 by done.
  - rewrite (proj2 (orb_false_iff _ _)) by (rewrite !bool_decide_eq_false; tauto).
    rewrite slice_mid. cbn [go_bind]. destruct (decide (k = "params")) as [->|]; [done|].
    rewrite (bool_decide_eq_false_2 (k = "params")) by done.
    destruct (decide (k = "id")) as [->|]; [done|].
    rewrite (bool_decide_eq_false_2 (k = "id")) by done.
    destruct (has_byte k backslash || negb (IsPlainASCII k)); [done|].
    destruct (existsb (EqualFold k) requestKeys); done.
Qed.

Lemma visit_request_members s off bs fin ms req :
  (∃ a b, s = a +:+ ms +:+ b ∧ off = len a) →
  Forall (λ kb, stands ms kb.2.1 kb.2.2) bs →
  returns (visit_members (scanRequestMember s) (req, true) off bs fin) (λ r,
    r.2.2 = true ∧
    match read_members req (member_texts ms bs) with
    | Some q => r.1 = (q, true)
    | None => r.1.2 = false
    end).
Proof.
  intros (a & z & -> & ->) Hall. revert req.
  induction Hall as [|[k [vs ve]] bs Hst Hall IH]; intros req; [done|].
  destruct Hst as (p & v & q & Ems & Hvs & Hve & Hv). simpl in Hvs, Hve. subst ms vs ve.
  cbn [visit_members fst snd].
  rewrite (scanRequestMember_text _ _ _ _ _ (a +:+ p) v (q +:+ z));
    [|by autorewrite with str|len_lia|len_lia|done].
  cbn [member_texts fmap list_fmap read_members prod_map fst snd id]. unfold id.
  replace (len p + len v - len p) with (len v) by lia. rewrite substring_mid.
  destruct (read_member req (k, v)) as [r|]; simpl; [apply IH|done].
Qed.

(** [scanRequestObject] computes the reference reading of the object's members. *)
Lemma scanRequestObject_text pre ms bs post :
  json_members ms bs →
  returns (scanRequestObject (pre +:+ String "{" (ms +:+ String "}" post)) (len pre)) (λ r,
    match read_members emptyRequest (member_texts ms bs) with
    | Some q => r = (q, true)
    | None => r.2 = false
    end).
Proof.
  intros Hms. unfold scanRequestObject. rewrite ScanObject_text with (bs := bs) by done.
  eapply returns_seq; [apply (visit_request_members _ _ bs _ ms)|].
  - exists (pre +:+ String "{" ""), (String "}" post). split; [by autorewrite with str|len_lia].
  - by apply json_members_stand.
  - intros [[req ok] [e sc]] [Hsc Hm]. simpl in *. subst sc. rewrite andb_true_r.
    destruct (read_members _ _); [by simplify_eq|done].
Qed.

Lemma parseRequestBorrowed_object Valid w ms bs post :
  let body := w +:+ String "{" (ms +:+ String "}" post) in
  ws w → json_members ms bs → has_byte body backslash = false → Valid body = true →
  parseRequestBorrowed Valid body =
  Ret ((λ q, [q]) <$> read_members emptyRequest (member_texts ms bs)).
Proof.
  intros body Hw Hms Hb Hv. unfold parseRequestBorrowed. rewrite Hb, Hv. cbn [orb negb].
  unfold body. rewrite (SkipSpace_ws_at _ _ "" w (String "{" (ms +:+ String "}" post)))
    by first [done|by right].
  cbn [go_bind String.length Nat.add]. rewrite ge_mid, at_mid. cbn [go_bind].
  change (is_ "{" "{") with true. cbv iota.
  destruct (returns_inv _ _ (scanRequestObject_text w ms bs post Hms)) as ([req ok] & -> & Hr).
  cbn [go_bind]. destruct (read_members _ _); [by simplify_eq|]. simpl in Hr. by subst ok.
Qed.

(** Printing members without white space, and reading them back. *)
Fixpoint print_members (kvs : list (string * string)) : string :=
  match kvs with
  | [] => ""
  | [(k, v)] => quoted k +:+ String ":" v
  | (k, v) :: kvs => quoted k +:+ String ":" (v +:+ String "," (print_members kvs))
  end.

Definition request_text (method params id : string) : string :=
  String "{" (print_members [("jsonrpc", quoted "2.0"); ("method", quoted method);
                             ("params", params); ("id", id)] +:+ "}").

Lemma close_quote_plain b :
  has_byte b dquote = false → has_byte b backslash = false → string_body b.
Proof.
  unfold string_body. rewrite !has_byte_false. intros Hq Hb. induction b as [|c b IH]; [done|].
  pose proof (Hq 0) as Hq0. pose proof (Hb 0) as Hb0. simpl in Hq0, Hb0.
  rewrite app_cons. cbn [close_quote].
  assert (is_ c dquote = false) as -> by (apply is_false; congruence).
  assert (is_ c backslash = false) as -> by (apply is_false; congruence).
  simpl. rewrite IH; [done| |]; intros j; [apply (Hq (S j))|apply (Hb (S j))].
Qed.

Lemma member_texts_shift a ms b n bs :
  n = len a → Forall (λ kb, stands ms kb.2.1 kb.2.2) bs →
  member_texts (a +:+ ms +:+ b) (prod_map id (shift n) <$> bs) = member_texts ms bs.
Proof.
  intros -> Hall. unfold member_texts. rewrite <- list_fmap_compose.
  apply list_fmap_ext. intros i [k [vs ve]] Hi.
  rewrite Forall_lookup in Hall. destruct (Hall _ _ Hi) as (p & v & q & -> & E1 & E2 & _).
  simpl in *. subst. unfold id. f_equal.
  replace (len p + len v - len p) with (len v) by lia.
  replace (len a + (len p + len v) - (len a + len p)) with (len v) by lia.
  rewrite substring_mid, <- len_app.
  replace (a +:+ (p +:+ v +:+ q) +:+ b) with ((a +:+ p) +:+ v +:+ (q +:+ b))
    by (by autorewrite with str).
  apply substring_mid.
Qed.

Lemma substring_at p v q n m : n = len p → m = len v → String.substring n m (p +:+ v +:+ q) = v.
Proof. intros -> ->. apply substring_mid. Qed.

Lemma print_members_texts kvs :
  kvs ≠ [] → Forall (λ kv, string_body kv.1 ∧ json_text kv.2) kvs →
  ∃ bs, json_members (print_members kvs) bs ∧ member_texts (print_members kvs) bs = kvs.
Proof.
  induction kvs as [|[k v] kvs IH]; [done|]. intros _ [[Hk Hv] Hall]%Forall_cons. simpl in Hk, Hv.
  destruct kvs as [|kv kvs].
  - eexists. pose proof (JM_one "" k "" "" v "" eq_refl Hk eq_refl eq_refl Hv eq_refl) as HJ.
    split; [autorewrite with str in HJ; exact HJ|].
    cbn [print_members]. unfold member_texts, shift.
    cbn [fmap list_fmap prod_map fst snd]. unfold id. do 2 f_equal.
    replace (quoted k +:+ String ":" v) with ((quoted k +:+ ":") +:+ v +:+ "")
      by (by autorewrite with str).
    apply substring_at; unfold quoted; len_lia.
  - destruct (IH ltac:(done) Hall) as (bs & Hms & Htx). clear IH.
    set (ms := print_members (kv :: kvs)) in *. eexists.
    pose proof (JM_cons "" k "" "" v "" ms bs eq_refl Hk eq_refl eq_refl Hv eq_refl Hms) as HJ.
    split; [autorewrite with str in HJ; exact HJ|].
    change (print_members ((k, v) :: kv :: kvs)) with (quoted k +:+ String ":" (v +:+ String "," ms)).
    unfold member_texts at 1. rewrite fmap_cons. f_equal.
    + unfold shift. cbn [prod_map fst snd]. unfold id. f_equal.
      replace (quoted k +:+ String ":" (v +:+ String "," ms))
        with ((quoted k +:+ ":") +:+ v +:+ String "," ms) by (by autorewrite with str).
      apply substring_at; unfold quoted; len_lia.
    + rewrite <- Htx.
      replace (quoted k +:+ String ":" (v +:+ String "," ms))
        with ((quoted k +:+ String ":" (v +:+ ",")) +:+ ms +:+ "") by (by autorewrite with str).
      apply (member_texts_shift _ ms ""); [unfold quoted; len_lia|by apply json_members_stand].
Qed.

Lemma request_text_members method params id :
  string_body method → json_text params → json_text id →
  ∃ ms bs, request_text method params id = String "{" (ms +:+ "}") ∧ json_members ms bs ∧
    member_texts ms bs = [("jsonrpc", quoted "2.0"); ("method", quoted method);
                          ("params", params); ("id", id)].
Proof.
  intros Hm Hp Hi. destruct (print_members_texts [("jsonrpc", quoted "2.0"); ("method", quoted method);
    ("params", params); ("id", id)]) as (bs & Hms & Htx); [done| |eauto].
  rewrite !Forall_cons. repeat split; try done; by apply JT_string.
Qed.

Lemma request_text_no_backslash method params id :
  has_byte method backslash = false → has_byte params backslash = false →
  has_byte id backslash = false → has_byte (request_text method params id) backslash = false.
Proof.
  intros Hm Hp Hi. unfold request_text. cbn [print_members]. unfold quoted.
  repeat (rewrite ?has_byte_app, ?has_byte_cons); rewrite ?Hm, ?Hp, ?Hi. done.
Qed.

(** ** Properties *)

(** Parsing never panics and never loops, whatever the body (malformed, truncated,
    empty or unreadable) and whatever the JSON library answers: every request body gets
    either a list of requests or one of the three parse errors. *)
Theorem ParseRequest_returns Valid UnmarshalRequest UnmarshalBatch body :
  ∃ r, ParseRequest Valid UnmarshalRequest UnmarshalBatch body = Ret r.
Proof.
  destruct (returns_inv _ _ (ParseRequest_total Valid UnmarshalRequest UnmarshalBatch body))
    as (r & E & _). eauto.
Qed.

(** C31: on the text of a JSON object without escapes the fast path answers exactly the
    reference reading of its members: it accepts with that request, or declines when the
    reading needs the decoder. *)
Theorem parseRequestBorrowed_exact Valid w ms bs post :
  let body := w +:+ String "{" (ms +:+ String "}" post) in
  ws w → json_members ms bs → has_byte body backslash = false → Valid body = true →
  parseRequestBorrowed Valid body =
  Ret ((λ q, [q]) <$> read_members emptyRequest (member_texts ms bs)).
Proof. apply parseRequestBorrowed_object. Qed.

Lemma parseRequestBorrowed_exact_witness :
  parseRequestBorrowed (λ _, true) (" " +:+ String "{" (print_members [("id", "7")] +:+ String "}" ""))
  = Ret (Some [set_ID "7" emptyRequest]).
Proof.
  apply (parseRequestBorrowed_exact (λ _, true) " " (print_members [("id", "7")])
           [("id", shift 5 (0, 1))]); [done| |done|done].
  apply (JM_one "" "id" "" "" "7" ""); try done. by apply JT_scalar.
Defined.

(** C16: a request printed the way client libraries print it is read back unchanged by
    [ParseRequest], without the decoder being consulted. *)
Theorem ParseRequest_request_text Valid UnmarshalRequest UnmarshalBatch method params id :
  IsPlainASCII method = true → has_byte method dquote = false →
  has_byte method backslash = false → has_byte params backslash = false →
  has_byte id backslash = false → json_text params → json_text id →
  Valid (request_text method params id) = true →
  ParseRequest Valid UnmarshalRequest UnmarshalBatch (Some (request_text method params id)) =
  Ret (inr [Some {| ro_Jsonrpc := "2.0"; ro_Method := method;
                    ro_Params := Some params; ro_ID := Some id |}]).
Proof.
  intros Ha Hq Hm Hp Hi Jp Ji HV. unfold ParseRequest.
  pose proof (request_text_no_backslash method params id Hm Hp Hi) as Hb.
  destruct (request_text_members method params id) as (ms & bs & E & Hms & Htx);
    [by apply close_quote_plain|done|done|]. rewrite E in *.
  pose proof (parseRequestBorrowed_object Valid "" ms bs "" eq_refl Hms Hb HV) as HP.
  rewrite app_nil_l in HP. rewrite HP, Htx. cbn -[quoted]. rewrite string_content_quoted. cbn.
  by rewrite Ha.
Qed.

Lemma ParseRequest_request_text_witness :
  ParseRequest (λ _, true) (λ _, None) (λ _, None) (Some (request_text "eth_blockNumber" "[]" "1")) =
  Ret (inr [Some {| ro_Jsonrpc := "2.0"; ro_Method := "eth_blockNumber";
                    ro_Params := Some "[]"; ro_ID := Some "1" |}]).
Proof.
  apply ParseRequest_request_text; try done; [by apply (JT_array_nil "")|by apply JT_scalar].
Defined.

(** C36: the error-key filter answers exactly whether the response text holds one of the two
    key tokens, although it searches their common suffix only once. *)
Theorem ContainsErrorKey_exact msg :
  ContainsErrorKey msg =
  Ret (Contains msg (error_token "e") || Contains msg (error_token "E")).
Proof. apply ContainsErrorKey_tokens. Qed.

(** Validation accepts exactly the requests that state protocol 2.0 and name a method;
    a nil item of a batch is answered as a parse error. *)
Theorem ValidateRequest_ok req :
  ValidateRequest req = None ↔
  ∃ r, req = Some r ∧ ro_Jsonrpc r = "2.0" ∧ ro_Method r ≠ "".
Proof.
  destruct req as [r|]; simpl; [|naive_solver].
  repeat case_bool_decide; naive_solver.
Qed.
