(* ===== verification/Borrow.v ===== *)
(** * Requests that borrow the body

    [jsonrpc/ext.go]'s fast path returns requests whose texts are views into the request
    body, which hertz reuses.  A text is a string of its own or a stretch of a buffer, and
    the memory says what the buffers hold.  [Processors] keeps the texts of the requests
    over a rewrite of the body; this file shows why it may. *)

From S2P Require Import Prelude GoStrings JsonScan JsonRpc.

(** ** Texts in memory *)

Inductive text := Own (s : string) | View (buf start length : nat).
#[export] Instance text_eq_dec : EqDecision text.
Proof. solve_decision. Defined.

Definition memory : Type := gmap nat string.

Definition read (m : memory) (t : text) : string :=
  match t with
  | Own s => s
  | View buf start length => String.substring start length (default "" (m !! buf))
  end.

(** [strings.Clone] and [bytes.Clone]. *)
Definition clone (m : memory) (t : text) : text := Own (read m t).

(** A [RequestObject] as it lies in memory. *)
Record RequestRef := mkRequestRef {
  rr_Jsonrpc : text; rr_Method : text; rr_Params : option text; rr_ID : option text }.

Definition deref (m : memory) (r : RequestRef) : RequestObject :=
  {| ro_Jsonrpc := read m (rr_Jsonrpc r); ro_Method := read m (rr_Method r);
     ro_Params := read m <$> rr_Params r; ro_ID := read m <$> rr_ID r |}.

Definition OwnRequest (m : memory) (r : RequestRef) : RequestRef :=
  mkRequestRef (clone m (rr_Jsonrpc r)) (clone m (rr_Method r)) (clone m <$> rr_Params r) (clone m <$> rr_ID r).

(** A nil request stays nil. *)
Definition OwnRequests (m : memory) (reqs : list (option RequestRef)) : list (option RequestRef) :=
  (λ o : option RequestRef, OwnRequest m <$> o) <$> reqs.

(** ** Views of a body *)

(** The view of the stretch [v] of the body [pre ++ v ++ post]. *)
Definition view_of (buf : nat) (pre v : string) : text := View buf (len pre) (len v).

Lemma read_view_of (m : memory) buf pre v post :
  m !! buf = Some (pre +:+ v +:+ post) → read m (view_of buf pre v) = v.
Proof. intros Hm. unfold read, view_of. rewrite Hm. apply substring_mid. Qed.

Lemma deref_OwnRequest m m' r : deref m' (OwnRequest m r) = deref m r.
Proof. destruct r as [j me [p|] [i|]]; done. Qed.

(** ** Properties *)

(** Requests that were made their own keep their text, whatever is later written to the
    buffers they were parsed from; and what they read as is what they read as before. *)
Theorem own_requests_survive m m' reqs :
  (λ o : option RequestRef, deref m' <$> o) <$> OwnRequests m reqs = (λ o : option RequestRef, deref m <$> o) <$> reqs.
Proof.
  unfold OwnRequests. rewrite <- list_fmap_compose. apply list_fmap_ext. intros i [r|] _; [|done].
  simpl. by rewrite deref_OwnRequest.
Qed.

(** Without that a rewrite shows: the method of a request parsed from the old body reads as
    a stretch of the new one. *)
Theorem borrowed_request_changes :
  let old := request_text "getLatestBlock" "[]" "1" in
  let new := request_text "getBlockByHeight" "[7]" "1" in
  ∃ r, deref {[0%nat := old]} r = {| ro_Jsonrpc := "2.0"; ro_Method := "getLatestBlock"; ro_Params := Some "[]"; ro_ID := Some "1" |} ∧
       ro_Method (deref {[0%nat := new]} r) = "getBlockByHeig".
Proof.
  intros old new. exists (mkRequestRef (View 0 12 3) (View 0 27 14) (Some (View 0 52 2)) (Some (View 0 60 1))).
  split; vm_compute; reflexivity.
Qed.
