(* ===== verification/Types.v ===== *)
(** * The data a request carries

    [types/lib.go]: the request context that accompanies a request from parsing
    to the post-processors, its lazily parsed block context and its cached
    error-key filter; the processor chains; the error writer.  Of the web
    framework only the parts the proxy reads and writes are kept: the request's
    path, headers and body and the response's status, headers and body. *)

From S2P Require Import Prelude GoStrings JsonScan JsonRpc.
Local Open Scope nat_scope.

(** ** Block contexts *)

(** A 32-byte hash, as its bytes. *)
Definition Hash : Type := string.

(** go-ethereum's [rpc.BlockNumberOrHash]. *)
Record BlockNumberOrHash := mkBlockNumberOrHash {
  BlockNumber : option Z; BlockHash : option Hash }.

Record BlockContext := mkBlockContext { BlockId : option BlockNumberOrHash; Type_ : string }.

#[export] Instance BlockNumberOrHash_eq_dec : EqDecision BlockNumberOrHash.
Proof. solve_decision. Defined.
#[export] Instance BlockContext_eq_dec : EqDecision BlockContext.
Proof. solve_decision. Defined.

(** What the proxy uses of go-ethereum: the block tags' numbers and the two
    text decoders.  The values of the tags are go-ethereum's. *)
Class GoEthereum := {
  LatestBlockNumber : Z;
  PendingBlockNumber : Z;
  EarliestBlockNumber : Z;
  FinalizedBlockNumber : Z;
  SafeBlockNumber : Z;
  DecodeUint64 : string → option Z;
  HashUnmarshalText : string → option Hash }.

(** ** The framework's view of a request and its response *)

Record Hertz := mkHertz {
  hz_Method : string; hz_Path : string; hz_Host : string;
  hz_Header : string → string;
  hz_ReqBody : option string;       (* [None]: the body cannot be read *)
  hz_ReadTimeout : option Z;        (* set per request *)
  hz_Status : Z;
  hz_ContentType : string; hz_TransferEncoding : string;
  hz_Body : string }.

#[export] Instance Hertz_expands : Expands Hertz := λ c,
  mkHertz (hz_Method c) (hz_Path c) (hz_Host c) (hz_Header c) (hz_ReqBody c) (hz_ReadTimeout c)
    (hz_Status c) (hz_ContentType c) (hz_TransferEncoding c) (hz_Body c).

Definition StatusOK : Z := 200.
Definition StatusBadRequest : Z := 400.
Definition StatusInternalServerError : Z := 500.
Definition StatusBadGateway : Z := 502.
Definition StatusGatewayTimeout : Z := 504.

(** [Response.Reset]: an unset status reads as 200. *)
Definition Response_Reset (c : Hertz) : Hertz :=
  c <| hz_Status := StatusOK |> <| hz_ContentType := "" |> <| hz_TransferEncoding := "" |>
    <| hz_Body := "" |>.

(** What the proxy relies on of the framework: the bytes its JSON renderer writes and
    their media type, and what a slice borrowed from the request body reads after
    [SetBody] stored a new body in the same buffer (from the old and the new bytes). *)
Class Render := {
  MarshalResponse : ResponseObject → string;
  JSONContentType : string;
  AfterSetBody : string → string → string }.

(** [c.JSON] *)
Definition JSON `{Render} (c : Hertz) (status : Z) (resp : ResponseObject) : Hertz :=
  c <| hz_Status := status |> <| hz_ContentType := JSONContentType |>
    <| hz_Body := MarshalResponse resp |>.

(** ** The request context *)

Record RequestContext := mkRequestContext {
  Host : string; Target : string;
  SourceBiz : string; SourceHost : string; SourceIP : string; SourceEnv : string;
  SourceServerVersion : string;
  UpstreamRelated : bool;
  rc_Error : option error;
  RawRequestBody : string;
  RequestBody : list (option RequestObject);
  Method : string;
  rc_IsBatch : bool;
  ResponseBody : option ResponseObject;
  RequestBodySize : Z;
  ResponseBodySize : Z;
  rc_BlockContext : option BlockContext;
  blockContextFn : option (go (option BlockContext));
  blockContextDone : bool;
  BaseChainId : string; ChainUUID : string; ChainId : string;
  TargetNodeAddr : string;
  Archive : bool;
  Native : bool;
  responseErrorKeyKnown : bool;
  responseHasErrorKey : bool }.

#[export] Instance RequestContext_expands : Expands RequestContext := λ p,
  mkRequestContext (Host p) (Target p) (SourceBiz p) (SourceHost p) (SourceIP p) (SourceEnv p)
    (SourceServerVersion p) (UpstreamRelated p) (rc_Error p) (RawRequestBody p) (RequestBody p)
    (Method p) (rc_IsBatch p) (ResponseBody p) (RequestBodySize p) (ResponseBodySize p)
    (rc_BlockContext p) (blockContextFn p) (blockContextDone p) (BaseChainId p) (ChainUUID p)
    (ChainId p) (TargetNodeAddr p) (Archive p) (Native p) (responseErrorKeyKnown p)
    (responseHasErrorKey p).

Definition CachedResponseContainsErrorKey (p : RequestContext) (body : string)
    : go (bool * RequestContext) :=
  if responseErrorKeyKnown p then Ret (responseHasErrorKey p, p) else
  let! b := ContainsErrorKey body in
  Ret (b, p <| responseHasErrorKey := b |> <| responseErrorKeyKnown := true |>).

Definition ResetResponseErrorKey (p : RequestContext) : RequestContext :=
  p <| responseErrorKeyKnown := false |> <| responseHasErrorKey := false |>.

Definition SetBlockContextFn (p : RequestContext) (fn : go (option BlockContext)) : RequestContext :=
  p <| blockContextFn := Some fn |>.

Definition GetBlockContext (p : RequestContext) : go (option BlockContext * RequestContext) :=
  match rc_BlockContext p, blockContextDone p, blockContextFn p with
  | None, false, Some fn =>
      let! bc := fn in
      let p := p <| rc_BlockContext := bc |> <| blockContextDone := true |> in
      Ret (rc_BlockContext p, p)
  | _, _, _ => Ret (rc_BlockContext p, p)
  end.

(** The id an error response carries: a single request's own, when it has one. *)
Definition response_with_id (p : RequestContext) (resp : ResponseObject) : ResponseObject :=
  match RequestBody p with
  | [Some r] =>
      match ro_ID r with
      | Some id => {| rs_Jsonrpc := rs_Jsonrpc resp; rs_Error := rs_Error resp;
                      rs_Result := rs_Result resp; rs_ID := Some id |}
      | None => resp
      end
  | _ => resp
  end.

Definition WriteError `{Render} (p : RequestContext) (c : Hertz) (status : Z) (resp : ResponseObject)
    : Hertz :=
  JSON c status (response_with_id p resp).

Definition SetTargetNode (p : RequestContext) (addr : string) : RequestContext :=
  p <| TargetNodeAddr := addr |>.

Definition ClearTargetNode (p : RequestContext) : RequestContext := p <| TargetNodeAddr := "" |>.

(** ** Processor chains

    A processor updates the framework's context and the request context, and
    threads the state [W] the processors share (metrics, limiters, the mirror
    requests sent); a disabled one is nil. *)

Section Processors.
Context {W : Type}.

Definition PState : Type := Hertz * RequestContext * W.
Definition ProcessorFunc : Type := option (PState → go PState).

Fixpoint PreProcessors_Call (ps : list ProcessorFunc) (s : PState) : go PState :=
  match ps with
  | [] => Ret s
  | p :: ps =>
      let! s := match p with Some f => f s | None => Ret s end in
      let '(c, _, _) := s in
      if bool_decide (hz_Body c ≠ "") then Ret s else PreProcessors_Call ps s
  end.

Fixpoint PostProcessors_Call (ps : list ProcessorFunc) (s : PState) : go PState :=
  match ps with
  | [] => Ret s
  | p :: ps =>
      let! s := match p with Some f => f s | None => Ret s end in
      PostProcessors_Call ps s
  end.
End Processors.

(** ** Lemmas *)

Lemma ContainsErrorKey_TrimSpace body : ContainsErrorKey (TrimSpace body) = ContainsErrorKey body.
Proof. rewrite !ContainsErrorKey_tokens. by rewrite !Contains_TrimSpace. Qed.

(** The cached filter result describes [body] (up to white space around it). *)
Definition error_key_for (p : RequestContext) (body : string) : Prop :=
  responseErrorKeyKnown p = true → ContainsErrorKey body = Ret (responseHasErrorKey p).

Lemma error_key_for_reset p body : error_key_for (ResetResponseErrorKey p) body.
Proof. done. Qed.

Lemma CachedResponseContainsErrorKey_ok p body :
  error_key_for p body →
  ∃ b p', CachedResponseContainsErrorKey p body = Ret (b, p') ∧
    ContainsErrorKey body = Ret b ∧ error_key_for p' body ∧
    p' = p <| responseHasErrorKey := b |> <| responseErrorKeyKnown := true |>.
Proof.
  intros Hp. unfold CachedResponseContainsErrorKey, error_key_for in *.
  destruct (responseErrorKeyKnown p) eqn:Ek.
  - exists (responseHasErrorKey p), p. repeat split; auto.
    destruct p; simpl in *. by subst.
  - rewrite ContainsErrorKey_tokens. simpl. eauto 10.
Qed.

#[export] Hint Resolve error_key_for_reset : go.

(** ** Properties *)

(** The block context is parsed at most once: after one call the installed parser is
    not consulted again, whatever it is replaced with, and the answer stays the same. *)
Theorem GetBlockContext_once p bc p' :
  GetBlockContext p = Ret (bc, p') →
  ∀ fn, blockContextFn p ≠ None → 
    GetBlockContext (p' <| blockContextFn := fn |>) = Ret (bc, p' <| blockContextFn := fn |>).
Proof.
  unfold GetBlockContext. intros H fn Hfn.
  destruct (rc_BlockContext p) as [b|] eqn:Eb; [simplify_eq; simpl; by rewrite Eb|].
  destruct (blockContextDone p) eqn:Ed; [simplify_eq; simpl; by rewrite Eb, Ed|].
  destruct (blockContextFn p) as [g|]; [|done].
  destruct g as [x| |]; simpl in H; simplify_eq/=. by destruct bc.
Qed.

Lemma GetBlockContext_once_witness :
  let p := mkRequestContext "" "" "" "" "" "" "" false None "" [] "" false None 0 0 None
             (Some (Ret None)) false "" "" "" "" false false false false in
  GetBlockContext (p <| rc_BlockContext := None |> <| blockContextDone := true |>
                     <| blockContextFn := Some Panic |>)
  = Ret (None, p <| rc_BlockContext := None |> <| blockContextDone := true |>
                 <| blockContextFn := Some Panic |>).
Proof. intros p. apply (GetBlockContext_once p); [reflexivity|discriminate]. Defined.

(** The error-key filter is unaffected by white space around the body, so the result
    cached from the trimmed response serves the readers of the untrimmed one. *)
Theorem cached_error_key_sound p body b p' :
  responseErrorKeyKnown p = false →
  CachedResponseContainsErrorKey p (TrimSpace body) = Ret (b, p') →
  CachedResponseContainsErrorKey p' body = Ret (b, p') ∧ ContainsErrorKey body = Ret b.
Proof.
  intros Hk. unfold CachedResponseContainsErrorKey. rewrite Hk, ContainsErrorKey_TrimSpace.
  rewrite ContainsErrorKey_tokens. intros. by simplify_eq/=.
Qed.

Lemma cached_error_key_sound_witness :
  let p := mkRequestContext "" "" "" "" "" "" "" false None "" [] "" false None 0 0 None
             None false "" "" "" "" false false false false in
  let p' := p <| responseHasErrorKey := false |> <| responseErrorKeyKnown := true |> in
  CachedResponseContainsErrorKey p' " {} " = Ret (false, p') ∧ ContainsErrorKey " {} " = Ret false.
Proof. intros p p'. apply (cached_error_key_sound p " {} "); vm_compute; reflexivity. Defined.
