(* ===== verification/BlockContext.v ===== *)
(** * Reading the block a request is pinned to

    [lb/block_context.go].  The routing argument is located with the scanner and
    decoded directly when it has the usual shape; sonic's path lookup and decoder
    and go-ethereum's text decoders are arguments. *)

From S2P Require Import Prelude GoStrings JsonScan JsonGrammar JsonRpc Types.
Local Open Scope nat_scope.

Inductive bcError := errMalformedParams | errBlockNumberTooHigh | errHash | errHex | errSonic.

Definition nativeSkipThreshold : nat := Nat.shiftl 8 10.

(** The two sonic calls: the raw text at path [1] of an array (an error of the
    lookup is [None], one of reading the node [Some (inl _)]), and the decoder of
    a block context. *)
Class SonicParams := {
  GetSecond : string → option (bcError + string);
  UnmarshalBlockContext : string → option BlockContext }.

(** The closure of [blockContextArgument] over [count], [lastS], [lastE],
    [secondS], [secondE]. *)
Record ArgState := mkArgState { as_count : nat; as_last : nat * nat; as_second : nat * nat }.

Definition scanArgument (stopAtSecond : bool) (st : ArgState) (idx vs ve : nat)
    : go (ArgState * bool) :=
  let count := S (as_count st) in
  if idx =? 1 then Ret (mkArgState count (vs, ve) (vs, ve), negb stopAtSecond)
  else Ret (mkArgState count (vs, ve) (as_second st), true).

(** What follows the walk. *)
Definition argumentResult (s : string) (second stopAtSecond : bool) (st : ArgState) (end_ : nat)
    (ok : bool) : go (bcError + string * nat) :=
  if negb ok then Ret (inl errMalformedParams) else
  if as_count st =? 0 then Ret (inr ("", 0)) else
  let! trailing := (if negb (stopAtSecond && (as_count st =? 2)) then
                      let! e := SkipSpace s end_ in Ret (negb (e =? len s))
                    else Ret false) in
  if trailing then Ret (inl errMalformedParams) else
  if second && (1 <? as_count st) then
    let! raw := slice s (as_second st).1 (as_second st).2 in Ret (inr (raw, as_count st))
  else
    let! raw := slice s (as_last st).1 (as_last st).2 in Ret (inr (raw, as_count st)).

Definition blockContextArgument `{SonicParams} (debug : bool) (params : string) (second : bool)
    : go (bcError + string * nat) :=
  let s := params in
  let! i := SkipSpace s 0 in
  if len s <=? i then Ret (inl errMalformedParams) else
  let! c := at_ s i in
  if negb (is_ c "[") then
    let! e := SkipSpace s (i + 4) in
    let! rest := slice s i (len s) in
    if (e =? len s) && HasPrefix rest "null" then Ret (inr ("", 0)) else Ret (inl errMalformedParams)
  else
  let stopAtSecond := second && negb debug in
  match (if stopAtSecond && (nativeSkipThreshold <? len params) then GetSecond params else None) with
  | Some (inr raw) => Ret (inr (raw, 2))
  | Some (inl err) => Ret (inl err)
  | None =>
      let! '(st, (end_, ok)) :=
        ScanArray s i (scanArgument stopAtSecond) (mkArgState 0 (0, 0) (0, 0)) in
      argumentResult s second stopAtSecond st end_ ok
  end.

Definition parseBlockIDString `{GoEthereum} (input : string) : bcError + BlockNumberOrHash :=
  let number bn := inr (mkBlockNumberOrHash (Some bn) None) in
  if bool_decide (input = "earliest") then number EarliestBlockNumber
  else if bool_decide (input = "latest") then number LatestBlockNumber
  else if bool_decide (input = "pending") then number PendingBlockNumber
  else if bool_decide (input = "finalized") then number FinalizedBlockNumber
  else if bool_decide (input = "safe") then number SafeBlockNumber
  else if len input =? 66 then
    match HashUnmarshalText input with
    | None => inl errHash
    | Some hash => inr (mkBlockNumberOrHash None (Some hash))
    end
  else
    match DecodeUint64 input with
    | None => inl errHex
    | Some n => if (2 ^ 63 - 1 <? n)%Z then inl errBlockNumberTooHigh else number (wrap_int64 n)
    end.

(** [ownBlockContextType] returns its argument's text in memory of its own. *)
Definition ownBlockContextType (typ : string) : string := typ.

(** The closure of [decodeBlockContextFast]: the two destinations with their
    seen flags, and [declined]. *)
Record FastState := mkFastState { fs_blockID : option string; fs_typ : option string; fs_declined : bool }.

(** The value a destination takes: a literal of plain ASCII, once; [None]
    declines. *)
Definition plainString (raw : string) (seen : option string) (vs ve : nat) : go (option string) :=
  let! value := slice raw vs ve in
  match seen with
  | Some _ => Ret None
  | None =>
      let! c := at_ value 0 in
      if negb (is_ c dquote) then Ret None else
      let! content := slice value 1 (len value - 1) in
      if has_byte content backslash || negb (IsPlainASCII content) then Ret None
      else Ret (Some content)
  end.

Definition scanContextMember (raw : string) (st : FastState) (key : string) (keyEscaped : bool)
    (vs ve : nat) : go (FastState * bool) :=
  let decline := (mkFastState (fs_blockID st) (fs_typ st) true, false) in
  if keyEscaped || negb (IsPlainASCII key) then Ret decline else
  if bool_decide (key = "block_id") then
    let! v := plainString raw (fs_blockID st) vs ve in
    match v with
    | None => Ret decline
    | Some v => Ret (mkFastState (Some v) (fs_typ st) (fs_declined st), true)
    end
  else if bool_decide (key = "type") then
    let! v := plainString raw (fs_typ st) vs ve in
    match v with
    | None => Ret decline
    | Some v => Ret (mkFastState (fs_blockID st) (Some v) (fs_declined st), true)
    end
  else if EqualFold key "block_id" || EqualFold key "type" then Ret decline
  else Ret (st, true).

(** [None]: not handled. *)
Definition decodeBlockContextFast `{GoEthereum} (raw : string)
    : go (option (bcError + BlockContext)) :=
  if len raw =? 0 then Ret None else
  let! c := at_ raw 0 in
  if negb (is_ c "{") then Ret None else
  let! '(st, (_, ok)) := ScanObject raw 0 (scanContextMember raw) (mkFastState None None false) in
  if negb ok || fs_declined st then Ret None else
  let typ := ownBlockContextType (default "" (fs_typ st)) in
  match fs_blockID st with
  | None => Ret (Some (inr (mkBlockContext None typ)))
  | Some blockID =>
      match parseBlockIDString blockID with
      | inl err => Ret (Some (inl err))
      | inr bnh => Ret (Some (inr (mkBlockContext (Some bnh) typ)))
      end
  end.

Definition decodeBlockContext `{GoEthereum} `{SonicParams} (raw : string)
    : go (bcError + BlockContext) :=
  let! fast := decodeBlockContextFast raw in
  match fast with
  | Some r => Ret r
  | None =>
      match UnmarshalBlockContext raw with
      | None => Ret (inl errSonic)
      | Some ctx => Ret (inr ctx)
      end
  end.

Definition secondArgumentMethod (m : string) : bool :=
  bool_decide (m = ContractMultiCall) || bool_decide (m = SimulateTransactions)
  || bool_decide (m = EstimateGas).

(** A nil request is dereferenced. *)
Fixpoint ParseBlockContext `{GoEthereum} `{SonicParams} (debug : bool)
    (requestBody : list (option RequestObject)) : go (option BlockContext) :=
  match requestBody with
  | [] => Ret None
  | None :: _ => Panic
  | Some req :: rest =>
      let second := secondArgumentMethod (ro_Method req) in
      let! arg := blockContextArgument debug (default "" (ro_Params req)) second in
      match arg with
      | inl _ => ParseBlockContext debug rest
      | inr (raw, count) =>
          if count =? 0 then ParseBlockContext debug rest else
          if second && (count =? 1) then
            Ret (Some (mkBlockContext (Some (mkBlockNumberOrHash (Some LatestBlockNumber) None))
                         "Contains"))
          else
            let! ctx := decodeBlockContext raw in
            match ctx with
            | inl _ => ParseBlockContext debug rest
            | inr ctx => Ret (Some ctx)
            end
      end
  end.

(** ** Totality *)

Definition arg_in (s : string) (st : ArgState) : Prop :=
  (as_last st).1 ≤ (as_last st).2 ≤ len s ∧ (as_second st).1 ≤ (as_second st).2 ≤ len s.

Lemma scanArgument_in s stop st idx vs ve :
  arg_in s st → vs < ve ≤ len s →
  returns (scanArgument stop st idx vs ve) (λ '(st', _), arg_in s st').
Proof.
  intros [Hl Hs] Hb. unfold scanArgument, arg_in. destruct (idx =? 1); simpl; lia.
Qed.

Section Total.
Context `{GoEthereum} `{SonicParams}.

Lemma blockContextArgument_total debug params second :
  returns (blockContextArgument debug params second) (λ _, True).
Proof.
  unfold blockContextArgument. eapply returns_seq; [apply SkipSpace_spec|]. intros i (_ & Hi & _).
  destruct (len params <=? i) eqn:E; b2p; [done|].
  apply returns_bind, returns_at; [done|]. intros c _. destruct (is_ c "["); simpl.
  - match goal with |- context [match ?x with _ => _ end] => destruct x as [[|]|]; [done|done|] end.
    eapply returns_seq; [apply (ScanArray_total (arg_in params))|].
    + intros st idx vs ve HP Hb _. by apply scanArgument_in.
    + unfold arg_in. simpl. lia.
    + intros [st [e ok]] [[Hl Hs] _]. unfold argumentResult. destruct (negb ok); [done|]. destruct (as_count st =? 0); [done|].
      eapply (returns_seq _ _ (λ _, True)).
      { case_match; [|done]. eapply returns_seq; [apply SkipSpace_spec|]. done. }
      intros [] _; [done|]. case_match; apply returns_bind, returns_slice; try lia; done.
  - eapply returns_seq; [apply SkipSpace_spec|]. intros e _.
    apply returns_bind, returns_slice; [lia|lia|]. case_match; done.
Qed.

Lemma plainString_total raw seen vs ve :
  vs < ve ≤ len raw → SkipValue raw vs = Ret (ve, true) →
  returns (plainString raw seen vs ve) (λ _, True).
Proof.
  intros Hb Hv. unfold plainString. rewrite slice_Ret by lia. cbn [go_bind].
  assert (len (String.substring vs (ve - vs) raw) = ve - vs) as Hl by (apply len_substring; lia).
  destruct seen as [w|]; [done|]. apply returns_bind, returns_at; [lia|]. intros c Hc.
  rewrite get_substring in Hc by lia. rewrite Nat.add_0_r in Hc.
  destruct (is_ c dquote) eqn:Eq; [|done]. cbn [negb].
  pose proof (SkipValue_string _ _ _ _ Hc Eq Hv).
  apply returns_bind, returns_slice; [lia|lia|]. case_match; done.
Qed.

Lemma scanContextMember_total raw st key esc vs ve :
  vs < ve ≤ len raw → SkipValue raw vs = Ret (ve, true) →
  returns (scanContextMember raw st key esc vs ve) (λ _, True).
Proof.
  intros Hb Hv. unfold scanContextMember. case_match; [done|].
  repeat (case_match; [first [done | eapply returns_seq; [by apply plainString_total|];
    intros [?|] _; done]|]). done.
Qed.

Lemma decodeBlockContext_total raw : returns (decodeBlockContext raw) (λ _, True).
Proof.
  unfold decodeBlockContext. eapply (returns_seq _ _ (λ _, True)).
  - unfold decodeBlockContextFast. destruct (len raw =? 0) eqn:E; b2p; [done|].
    apply returns_bind, returns_at; [lia|]. intros c _. destruct (negb (is_ c "{")); [done|].
    eapply returns_seq; [apply (ScanObject_total (λ _, True)); [|done]|].
    + intros st key esc vs ve _ Hb Hv. eapply returns_mono; [by apply scanContextMember_total|].
      by intros [].
    + intros [st [e ok]] _. repeat case_match; done.
  - intros [r|] _; [done|]. case_match; done.
Qed.

Lemma ParseBlockContext_total debug reqs :
  Forall is_Some reqs → returns (ParseBlockContext debug reqs) (λ _, True).
Proof.
  induction 1 as [|req reqs [r ->] _ IH]; [done|]. cbn [ParseBlockContext].
  eapply returns_seq; [apply blockContextArgument_total|]. intros [e|[raw count]] _; [done|].
  case_match; [done|]. case_match; [done|].
  eapply returns_seq; [apply decodeBlockContext_total|]. intros [e|ctx] _; done.
Qed.
End Total.

(** ** The routing argument of a well-formed parameter list *)

(** The element that decides routing: the second for the methods that take it
    there (if there is one), the last otherwise. *)
Definition routing_bounds (second : bool) (bs : list (nat * nat)) : option (nat * nat) :=
  if second then match bs with _ :: b :: _ => Some b | _ => last bs end else last bs.

(** What the walk has recorded after visiting [bs] from index [idx] on. *)
Lemma visit_arguments stop off bs fin st idx :
  stop = false ∨ 2 ≤ idx →
  visit_elems (scanArgument stop) st idx off bs fin =
  Ret (mkArgState (as_count st + length bs)
         (match last bs with Some b => (off + b.1, off + b.2) | None => as_last st end)
         (match idx, bs with
          | 0, _ :: b :: _ | 1, b :: _ => (off + b.1, off + b.2)
          | _, _ => as_second st
          end), (fin, true)).
Proof.
  revert st idx. induction bs as [|b bs IH]; intros st idx Hs.
  - simpl. rewrite Nat.add_0_r. destruct st as [a l r]; simpl. by destruct idx as [|[|idx]].
  - cbn [visit_elems]. unfold scanArgument at 1.
    rewrite last_cons. cbn [length]. rewrite Nat.add_succ_r.
    destruct idx as [|[|idx]]; cbn [Nat.eqb go_bind];
      [destruct Hs as [->|Hs]; [|lia]|destruct Hs as [->|Hs]; [|lia]|];
      cbn [negb]; rewrite IH by (auto with lia); cbn [as_count as_last as_second];
      rewrite Nat.add_succ_l; destruct (last bs), bs; done.
Qed.

Lemma visit_arguments_stop off bs fin :
  visit_elems (scanArgument true) (mkArgState 0 (0, 0) (0, 0)) 0 off bs fin =
  match bs with
  | [] => Ret (mkArgState 0 (0, 0) (0, 0), (fin, true))
  | [b] => Ret (mkArgState 1 (off + b.1, off + b.2) (0, 0), (fin, true))
  | _ :: b :: _ =>
      Ret (mkArgState 2 (off + b.1, off + b.2) (off + b.1, off + b.2), (off + b.2, true))
  end.
Proof. by destruct bs as [|b [|b' bs]]. Qed.

Definition params_text (w es w' : string) : string := w +:+ String "[" (es +:+ String "]" w').
Definition bounds_text (es : string) (b : nat * nat) : string := String.substring b.1 (b.2 - b.1) es.

Lemma json_elems_stand es bs : json_elems es bs → Forall (λ b, stands es b.1 b.2) bs.
Proof.
  induction 1 as [w1 v w2 H1 Hv H2|w1 v w2 es bs H1 Hv H2 Hes IH].
  - constructor; [|done]. exists w1, v, w2. done.
  - constructor; [by exists w1, v, (w2 +:+ String "," es)|]. apply Forall_fmap.
    eapply Forall_impl; [exact IH|]. intros [a b] Hst. simpl in *.
    apply (stands_wrap _ (w1 +:+ v +:+ w2 +:+ ",") "") in Hst. revert Hst.
    replace ((w1 +:+ v +:+ w2 +:+ ",") +:+ es +:+ "") with (w1 +:+ v +:+ w2 +:+ String "," es)
      by (by autorewrite with str).
    match goal with |- stands _ ?a ?b → stands _ ?c ?d =>
      replace c with a by len_lia; replace d with b by len_lia end. done.
Qed.

Lemma slice_params w es w' b :
  stands es b.1 b.2 →
  slice (params_text w es w') (len w + 1 + b.1) (len w + 1 + b.2) = Ret (bounds_text es b).
Proof.
  destruct b as [vs ve]. intros (p & v & q & -> & E1 & E2 & _). simpl in *. subst vs ve.
  unfold bounds_text. simpl. replace (len p + len v - len p) with (len v) by lia.
  rewrite substring_mid.
  replace (params_text w (p +:+ v +:+ q) w') with ((w +:+ "[" +:+ p) +:+ v +:+ (q +:+ String "]" w'))
    by (unfold params_text; by autorewrite with str).
  rewrite slice_Ret by len_lia. f_equal. apply substring_at; len_lia.
Qed.

Lemma json_elems_nonempty es bs : json_elems es bs → bs ≠ [].
Proof. by destruct 1. Qed.

Section Argument.
Context `{SonicParams}.

(** What sonic documents of the lookup: path [1] of an array is its second
    element; an array without one is an error of the lookup. *)
Definition sonic_second : Prop := ∀ w es bs w' r,
  ws w → json_elems es bs → ws w' → GetSecond (params_text w es w') = Some r →
  ∃ b, bs !! 1 = Some b ∧ r = inr (bounds_text es b).

Context (Hsonic : sonic_second).

Lemma SkipSpace_end pre w' : ws w' → SkipSpace (pre +:+ w') (len pre) = Ret (len (pre +:+ w')).
Proof.
  intros Hw. rewrite len_app. rewrite (SkipSpace_ws_at _ _ pre w' "") by
    first [done|by left|by rewrite app_nil_r]. done.
Qed.

Lemma argumentResult_ok s second stop st e t :
  as_count st ≠ 0 →
  (stop = true ∧ as_count st = 2) ∨ SkipSpace s e = Ret (len s) →
  (let b := if second && (1 <? as_count st) then as_second st else as_last st in
   slice s b.1 b.2 = Ret t) →
  argumentResult s second stop st e true = Ret (inr (t, as_count st)).
Proof.
  intros Hc He Ht. unfold argumentResult. cbn [negb]. rewrite (proj2 (Nat.eqb_neq _ _) Hc).
  assert ((if negb (stop && (as_count st =? 2))
           then let! e' := SkipSpace s e in Ret (negb (e' =? len s)) else Ret false) = Ret false) as ->.
  { destruct He as [[-> ->]| ->]; [done|]. destruct (negb _); [|done]. cbn [go_bind].
    by rewrite Nat.eqb_refl. }
  cbn [go_bind]. destruct (second && _); simpl in Ht; by rewrite Ht.
Qed.

(** The argument and the count the walk reports, for a non-empty list. *)
Lemma blockContextArgument_text debug w es bs w' second :
  ws w → json_elems es bs → ws w' →
  ∃ b n, routing_bounds second bs = Some b ∧
    blockContextArgument debug (params_text w es w') second = Ret (inr (bounds_text es b, n)) ∧
    n ≠ 0 ∧ (n = 1 ↔ length bs = 1).
Proof using Hsonic.
  intros Hw Hes Hw'. unfold blockContextArgument.
  set (s := params_text w es w').
  rewrite (SkipSpace_ws_at s _ "" w (String "[" (es +:+ String "]" w'))) by first [done|by right].
  cbn [go_bind String.length Nat.add].
  assert ((len s <=? len w) = false ∧ at_ s (len w) = Ret "["%char) as [-> ->]
    by (unfold s, params_text; split; [apply ge_mid|apply at_mid]).
  cbn [go_bind]. change (negb (is_ "[" "[")) with false. cbv iota.
  set (stop := second && negb debug).
  pose proof (json_elems_stand _ _ Hes) as Hst. pose proof (json_elems_nonempty _ _ Hes) as Hne.
  destruct (if stop && (nativeSkipThreshold <? len s) then GetSecond s else None) as [r|] eqn:Er.
  - destruct (stop && _) eqn:Eb in Er; [|done]. apply andb_prop in Eb as [Eb _].
    unfold stop in Eb. b2p. subst second.
    destruct (Hsonic w es bs w' r Hw Hes Hw' Er) as (b & Hb & ->).
    destruct bs as [|b0 [|b1 bs]]; simplify_eq/=. exists b, 2. repeat split; try done; lia.
  - clear Er.
    assert (SkipSpace s (len w + 1 + len es + 1) = Ret (len s)) as Hend.
    { replace s with ((w +:+ String "[" (es +:+ "]")) +:+ w')
        by (unfold s, params_text; by autorewrite with str).
      rewrite <- SkipSpace_end by done. f_equal. len_lia. }
    assert (stop = true → second = true) as Hstop by (unfold stop; by destruct second).
    unfold s at 1. unfold params_text. rewrite (ScanArray_text w es bs w') by done.
    fold (params_text w es w') s. clearbody stop.
    assert (∀ b, b ∈ bs → slice s (len w + 1 + b.1) (len w + 1 + b.2) = Ret (bounds_text es b)) as Hsl.
    { intros b Hb. apply slice_params. by eapply Forall_forall in Hst. }
    destruct stop.
    + rewrite (Hstop eq_refl), visit_arguments_stop.
      destruct bs as [|b [|b' bs]]; [done| |]; cbn [go_bind].
      * exists b, 1. split; [done|]. split; [|split; [done|done]].
        apply (argumentResult_ok s true true); [done|by right|]. apply Hsl. by left.
      * exists b', 2. split; [done|]. split; [|split; [done|simpl; lia]].
        apply (argumentResult_ok s true true); [done|by left|]. apply Hsl. right. by left.
    + rewrite visit_arguments by auto. cbn [go_bind].
      destruct (last bs) as [l|] eqn:El; [|by apply last_None in El].
      assert (∃ b, routing_bounds second bs = Some b ∧
        (if second && (1 <? length bs) then bs !! 1 = Some b else l = b)) as (b & Hr & Hb).
      { unfold routing_bounds. destruct second; [|by eexists].
        destruct bs as [|b0 [|b1 bs]]; [done|by eexists|by eexists]. }
      exists b, (length bs). split; [done|]. split; [|split; [by destruct bs|done]].
      apply (argumentResult_ok s second false); cbn [as_count as_second as_last];
        [by destruct bs|by right|].
      rewrite Nat.add_0_l. destruct (second && (1 <? length bs)) eqn:E2.
      * destruct bs as [|b0 [|b1 bs]]; simplify_eq/=. apply Hsl. right. by left.
      * subst l. apply Hsl. by apply last_Some_elem_of.
Qed.
End Argument.

(** ** The direct decoding of the usual shape *)

(** The reference reading of an object's members. *)
Definition plain_content (seen : option string) (v : string) : option string :=
  match seen with
  | Some _ => None
  | None =>
      c ← string_content v;
      if has_byte c backslash || negb (IsPlainASCII c) then None else Some c
  end.

Definition read_context_member (st : FastState) (kv : string * string) : FastState * bool :=
  let '(k, v) := kv in
  let decline := (mkFastState (fs_blockID st) (fs_typ st) true, false) in
  if has_byte k backslash || negb (IsPlainASCII k) then decline else
  if decide (k = "block_id") then
    match plain_content (fs_blockID st) v with
    | Some c => (mkFastState (Some c) (fs_typ st) (fs_declined st), true)
    | None => decline
    end
  else if decide (k = "type") then
    match plain_content (fs_typ st) v with
    | Some c => (mkFastState (fs_blockID st) (Some c) (fs_declined st), true)
    | None => decline
    end
  else if EqualFold k "block_id" || EqualFold k "type" then decline else (st, true).

Fixpoint read_context (st : FastState) (kvs : list (string * string)) : FastState :=
  match kvs with
  | [] => st
  | kv :: kvs => let '(st', more) := read_context_member st kv in
                 if more then read_context st' kvs else st'
  end.

Lemma plainString_text p v q seen :
  json_text v →
  plainString (p +:+ v +:+ q) seen (len p) (len p + len v) = Ret (plain_content seen v).
Proof.
  intros Hv. unfold plainString. rewrite slice_mid. cbn [go_bind]. destruct seen; [done|].
  pose proof (string_value "" v "" Hv) as Hs. rewrite app_nil_l, app_nil_r in Hs.
  cbn [String.length Nat.add] in Hs. simpl. unfold plain_content.
  destruct Hs as [(b & -> & Hc & Hat & Hsl)|(c & Hc & Hat & Hq)]; rewrite Hc, Hat; cbn [go_bind].
  - change (negb (is_ dquote dquote)) with false. rewrite Hsl. simpl. by destruct (_ || _).
  - by rewrite Hq.
Qed.

Lemma scanContextMember_text s st k vs ve p v q :
  s = p +:+ v +:+ q → vs = len p → ve = len p + len v → json_text v →
  scanContextMember s st k (has_byte k backslash) vs ve = Ret (read_context_member st (k, v)).
Proof.
  intros -> -> -> Hv. unfold scanContextMember, read_context_member.
  rewrite !plainString_text by done. cbn [go_bind]. destruct (_ || _); [done|].
  destruct (decide (k = "block_id")) as [->|Hb].
  { rewrite bool_decide_eq_true_2 by done. by destruct (plain_content _ _). }
  rewrite (bool_decide_eq_false_2 (k = "block_id")) by done.
  destruct (decide (k = "type")) as [->|Ht].
  { rewrite bool_decide_eq_true_2 by done. by destruct (plain_content _ _). }
  rewrite (bool_decide_eq_false_2 (k = "type")) by done. by destruct (_ || _).
Qed.

Lemma visit_context_members s off bs fin ms st :
  (∃ a b, s = a +:+ ms +:+ b ∧ off = len a) →
  Forall (λ kb, stands ms kb.2.1 kb.2.2) bs →
  returns (visit_members (scanContextMember s) st off bs fin) (λ r,
    r.2.2 = true ∧ r.1 = read_context st (member_texts ms bs)).
Proof.
  intros (a & z & -> & ->) Hall. revert st.
  induction Hall as [|[k [vs ve]] bs Hst Hall IH]; intros st; [done|].
  destruct Hst as (p & v & q & Ems & Hvs & Hve & Hv). simpl in Hvs, Hve. subst ms vs ve.
  cbn [visit_members fst snd].
  rewrite (scanContextMember_text _ _ _ _ _ (a +:+ p) v (q +:+ z));
    [|by autorewrite with str|len_lia|len_lia|done].
  cbn [member_texts fmap list_fmap read_context prod_map fst snd id]. unfold id.
  replace (len p + len v - len p) with (len v) by lia. rewrite substring_mid.
  destruct (read_context_member st (k, v)) as [st' []]; simpl; [apply IH|done].
Qed.

(** The text of the usual shape. *)
Definition context_text (block_id typ : string) : string :=
  String "{" (print_members [("block_id", quoted block_id); ("type", quoted typ)] +:+ "}").

Definition plain (v : string) : Prop :=
  IsPlainASCII v = true ∧ has_byte v dquote = false ∧ has_byte v backslash = false.

Lemma context_members b t :
  plain b → plain t →
  ∃ ms bs, context_text b t = String "{" (ms +:+ "}") ∧ json_members ms bs ∧
    member_texts ms bs = [("block_id", quoted b); ("type", quoted t)].
Proof.
  intros (_ & Hb1 & Hb2) (_ & Ht1 & Ht2).
  destruct (print_members_texts [("block_id", quoted b); ("type", quoted t)]) as (bs & Hms & Htx);
    [done| |eauto].
  rewrite !Forall_cons. repeat split; try done; by apply JT_string, close_quote_plain.
Qed.

Lemma context_text_json b t : plain b → plain t → json_text (context_text b t).
Proof.
  intros Hb Ht. destruct (context_members b t Hb Ht) as (ms & bs & -> & Hms & _).
  by apply (JT_object ms bs).
Qed.

Lemma plain_content_quoted b : plain b → plain_content None (quoted b) = Some b.
Proof.
  intros (Hb & _ & Hb'). unfold plain_content. rewrite string_content_quoted.
  cbn [mbind option_bind]. by rewrite Hb, Hb'.
Qed.

Lemma read_context_usual b t :
  plain b → plain t →
  read_context (mkFastState None None false) [("block_id", quoted b); ("type", quoted t)] =
  mkFastState (Some b) (Some t) false.
Proof.
  intros Hb Ht. unfold read_context, read_context_member.
  change (has_byte "block_id" backslash || negb (IsPlainASCII "block_id")) with false.
  change (has_byte "type" backslash || negb (IsPlainASCII "type")) with false. cbv iota.
  rewrite (decide_True _ _ (eq_refl : "block_id" = "block_id")).
  cbn [fs_blockID fs_typ fs_declined]. rewrite plain_content_quoted by done.
  cbn [fs_blockID fs_typ fs_declined]. rewrite (decide_False (P := "type" = "block_id")) by done.
  rewrite (decide_True _ _ (eq_refl : "type" = "type")). by rewrite plain_content_quoted.
Qed.

Section Decode.
Context `{GoEthereum}.

Lemma decodeBlockContextFast_text b t :
  plain b → plain t →
  decodeBlockContextFast (context_text b t) =
  Ret (Some match parseBlockIDString b with
            | inl err => inl err
            | inr bnh => inr (mkBlockContext (Some bnh) t)
            end).
Proof.
  intros Hb Ht. unfold decodeBlockContextFast.
  change (len (context_text b t) =? 0) with false. cbv iota.
  change (at_ (context_text b t) 0) with (Ret "{"%char). cbn [go_bind].
  change (negb (is_ "{" "{")) with false. cbv iota.
  destruct (context_members b t Hb Ht) as (ms & bs & -> & Hms & Htx).
  pose proof (ScanObject_text "" ms bs "" (scanContextMember (String "{" (ms +:+ "}")))
    (mkFastState None None false) Hms) as Hscan.
  rewrite app_nil_l in Hscan. cbn [String.length Nat.add] in Hscan. rewrite Hscan.
  assert (∃ a b, String "{" (ms +:+ "}") = a +:+ ms +:+ b ∧ 1 = len a) as Hat.
  { exists "{", "}". split; [by autorewrite with str|done]. }
  destruct (returns_inv _ _ (visit_context_members _ 1 bs (1 + len ms + 1) ms
    (mkFastState None None false) Hat (json_members_stand _ _ Hms))) as ([st [e ok]] & Hv & Hok & Hst).
  simpl in Hv. rewrite Hv.
  simpl in Hok, Hst. subst ok st. rewrite Htx, read_context_usual by done. cbn [go_bind].
  simpl. by destruct (parseBlockIDString b).
Qed.
End Decode.

(** Parameters that are a non-empty JSON array. *)
Definition array_params (params : option string) : Prop :=
  ∃ w es bs w', params = Some (params_text w es w') ∧ ws w ∧ json_elems es bs ∧ ws w'.

Lemma ParseBlockContext_cons `{GoEthereum} `{SonicParams} debug req rest w es bs w' :
  sonic_second → ro_Params req = Some (params_text w es w') → ws w → json_elems es bs → ws w' →
  let second := secondArgumentMethod (ro_Method req) in
  ∃ b, routing_bounds second bs = Some b ∧
  ParseBlockContext debug (Some req :: rest) =
    if second && (length bs =? 1) then
      Ret (Some (mkBlockContext (Some (mkBlockNumberOrHash (Some LatestBlockNumber) None)) "Contains"))
    else
      let! ctx := decodeBlockContext (bounds_text es b) in
      match ctx with inl _ => ParseBlockContext debug rest | inr ctx => Ret (Some ctx) end.
Proof.
  intros Hs Hp Hw Hes Hw' second.
  destruct (blockContextArgument_text Hs debug w es bs w' second Hw Hes Hw')
    as (b & n & Hb & Ha & Hn0 & Hn1).
  exists b. split; [done|]. cbn [ParseBlockContext]. rewrite Hp. fold second. simpl. rewrite Ha.
  cbn [go_bind]. rewrite (proj2 (Nat.eqb_neq _ _) Hn0).
  assert ((n =? 1) = (length bs =? 1)) as ->; [|done].
  apply eq_bool_prop_intro. by rewrite !Is_true_true, !Nat.eqb_eq.
Qed.

(** ** Properties *)

(** Reading the block context never panics on requests that passed validation, whatever
    their parameters hold. *)
Theorem ParseBlockContext_returns `{GoEthereum} `{SonicParams} debug reqs :
  Forall is_Some reqs → ∃ r, ParseBlockContext debug reqs = Ret r.
Proof.
  intros Hr. destruct (returns_inv _ _ (ParseBlockContext_total debug reqs Hr)) as (r & E & _). eauto.
Qed.

(** Concrete parsers for the examples. *)
Definition example_eth : GoEthereum := {|
  LatestBlockNumber := -2; PendingBlockNumber := -1; EarliestBlockNumber := 0;
  FinalizedBlockNumber := -3; SafeBlockNumber := -4;
  DecodeUint64 := λ s, if HasPrefix s "0x" then ParseUint (drop_str 2 s) 16 else None;
  HashUnmarshalText := λ s, Some s |}.
Definition example_sonic : SonicParams := {|
  GetSecond := λ _, None; UnmarshalBlockContext := λ _, None |}.

Lemma ParseBlockContext_returns_witness :
  ∃ r, @ParseBlockContext example_eth example_sonic false
    [Some (set_Params "[1, " (set_Method "estimateGas" emptyRequest))] = Ret r.
Proof. apply (@ParseBlockContext_returns example_eth example_sonic). by repeat constructor. Defined.

(** Turning debug logging on, which makes the walk visit every argument instead of
    stopping at the second, and disables sonic's lookup, does not change the block context
    found in well-formed parameters. *)
Theorem ParseBlockContext_debug `{GoEthereum} `{SonicParams} reqs :
  sonic_second →
  Forall (λ r, ∃ req, r = Some req ∧ array_params (ro_Params req)) reqs →
  ParseBlockContext true reqs = ParseBlockContext false reqs.
Proof.
  intros Hs. induction 1 as [|r reqs (req & -> & w & es & bs & w' & Hp & Hw & Hes & Hw') _ IH]; [done|].
  destruct (ParseBlockContext_cons true req reqs w es bs w' Hs Hp Hw Hes Hw') as (b & Hb & ->).
  destruct (ParseBlockContext_cons false req reqs w es bs w' Hs Hp Hw Hes Hw') as (b' & Hb' & ->).
  rewrite Hb in Hb'. injection Hb' as <-. by rewrite IH.
Qed.

Definition example_params : string := params_text "" "7,8" "".
Lemma example_elems : json_elems "7,8" [(0, 1); (2, 3)].
Proof.
  apply (JE_cons "" "7" "" "8" [(0, 1)]); try done; [by apply JT_scalar|].
  apply (JE_one "" "8" ""); try done. by apply JT_scalar.
Qed.

Lemma ParseBlockContext_debug_witness :
  let req := set_Params example_params (set_Method "estimateGas" emptyRequest) in
  @ParseBlockContext example_eth example_sonic true [Some req]
  = @ParseBlockContext example_eth example_sonic false [Some req].
Proof.
  intros req. apply (@ParseBlockContext_debug example_eth example_sonic); [by intros ?????|].
  repeat constructor. exists req. split; [done|]. exists "", "7,8", [(0, 1); (2, 3)], "".
  split; [done|]. split; [done|]. split; [exact example_elems|done].
Defined.

(** C33: a request whose routing argument is written in the usual shape
    [{"block_id":"<b>","type":"<t>"}] is pinned to exactly that block and type, or to
    nothing when the block id does not parse; the decoder is never consulted. *)
Theorem ParseBlockContext_usual `{GoEthereum} `{SonicParams} debug req w es bs w' bd b t :
  sonic_second → ro_Params req = Some (params_text w es w') →
  ws w → json_elems es bs → ws w' →
  routing_bounds (secondArgumentMethod (ro_Method req)) bs = Some bd →
  bounds_text es bd = context_text b t → plain b → plain t →
  secondArgumentMethod (ro_Method req) = false ∨ length bs ≠ 1 →
  ParseBlockContext debug [Some req] =
  Ret match parseBlockIDString b with
      | inl _ => None
      | inr bnh => Some (mkBlockContext (Some bnh) t)
      end.
Proof.
  intros Hs Hp Hw Hes Hw' Hb Ht Pb Pt Hone.
  destruct (ParseBlockContext_cons debug req [] w es bs w' Hs Hp Hw Hes Hw') as (bd' & Hb' & ->).
  rewrite Hb in Hb'. injection Hb' as <-. rewrite Ht.
  assert (secondArgumentMethod (ro_Method req) && (length bs =? 1) = false) as ->.
  { apply andb_false_iff. rewrite Nat.eqb_neq. tauto. }
  unfold decodeBlockContext. rewrite decodeBlockContextFast_text by done. simpl.
  by destruct (parseBlockIDString b).
Qed.

Lemma ParseBlockContext_usual_witness :
  let req := set_Params (params_text "" (context_text "0x10" "Equals") "")
               (set_Method "eth_call" emptyRequest) in
  @ParseBlockContext example_eth example_sonic false [Some req]
  = Ret (Some (mkBlockContext (Some (mkBlockNumberOrHash (Some 16%Z) None)) "Equals")).
Proof.
  intros req.
  apply (@ParseBlockContext_usual example_eth example_sonic false req ""
           (context_text "0x10" "Equals") [(0, 35)] "" (0, 35) "0x10" "Equals");
    try (vm_compute; done); try (by left).
  rewrite <- (app_nil_r (context_text "0x10" "Equals")) at 1.
  apply (JE_one "" (context_text "0x10" "Equals") ""); [done|by apply context_text_json|done].
Defined.
