(* ===== verification/LbNode.v ===== *)
(** * Backend nodes

    [lb/lbnode/node.go].  A node keeps its identity (key, address, source, type,
    reverse proxy) for life; weight and state are the part that is refreshed.  The
    reverse proxy is represented by the reference of the object the constructor
    allocates, so that "the same proxy" is visible. *)

From S2P Require Import Prelude GoStrings.
Local Open Scope Z_scope.

Definition NodeTypeState : Z := 1.
Definition NodeTypeArchive : Z := 2.
Definition StateAvailable : Z := 1.

Record Node := mkNode {
  Key : string; IP : string; Port : Z; Addr : string; Source : string;
  Weight : Z; State : Z;
  NodeType : Z;
  ReverseProxy : option nat }.

#[export] Instance Node_expands : Expands Node := λ n,
  mkNode (Key n) (IP n) (Port n) (Addr n) (Source n) (Weight n) (State n) (NodeType n)
    (ReverseProxy n).

#[export] Instance Node_eq_dec : EqDecision Node.
Proof. solve_decision. Defined.

(** What building a proxy depends on: whether the reverse-proxy library accepts
    the target URL, and whether the shared client could be created. *)
Class ProxyLibrary := {
  NewSingleHostReverseProxy_ok : string → bool;
  SharedClient_ok : bool }.

Definition WithSource (source : string) (n : Node) : Node :=
  let source := if bool_decide (source = "") then "official" else source in
  n <| Source := source |>.

(** [ref] is the reference of the proxy object a successful call allocates; an
    error is [None] (its callers do not use the node it comes with). *)
Definition New `{ProxyLibrary} (ref : nat) (key ip : string) (port weight nodeType : Z)
    (opts : list (Node → Node)) : option Node :=
  let weight := if weight <=? 0 then 1 else weight in
  let node := mkNode key ip port (ip +:+ ":" +:+ Itoa port) "" weight 0 nodeType None in
  let node := foldl (λ n opt, opt n) node opts in
  if negb (NewSingleHostReverseProxy_ok ("http://" +:+ Addr node)) then None else
  if negb SharedClient_ok then None else
  Some (node <| ReverseProxy := Some ref |>).

Definition SetState (n : Node) (state : Z) : Node := n <| State := state |>.

Definition Available (n : Node) : bool := State n =? StateAvailable.

Definition UpdateFrom (n other : Node) : Node :=
  n <| Weight := Weight other |> <| State := State other |>.

Definition same_identity (a b : Node) : bool :=
  bool_decide (Addr a = Addr b) && bool_decide (Source a = Source b)
  && bool_decide (NodeType a = NodeType b).

Fixpoint UpsertInto (nodes : list Node) (node : Node) : list Node :=
  match nodes with
  | [] => [node]
  | existing :: nodes' =>
      if bool_decide (Key existing = Key node) then
        (if same_identity existing node then UpdateFrom existing node else node) :: nodes'
      else existing :: UpsertInto nodes' node
  end.

(** The loop shared by the branches of [RemoveNode]: cuts the first node with
    the key, if there is one. *)
Fixpoint RemoveKey (nodes : list Node) (key : string) : list Node :=
  match nodes with
  | [] => []
  | existing :: nodes' =>
      if bool_decide (Key existing = key) then nodes' else existing :: RemoveKey nodes' key
  end.

(** ** Pools as finite maps from keys to nodes *)

Definition keys (nodes : list Node) : list string := Key <$> nodes.

Fixpoint find_key (nodes : list Node) (key : string) : option Node :=
  match nodes with
  | [] => None
  | n :: nodes' => if bool_decide (Key n = key) then Some n else find_key nodes' key
  end.

(** What an update for a key leaves in the pool. *)
Definition merge (old : option Node) (node : Node) : Node :=
  match old with
  | Some e => if same_identity e node then UpdateFrom e node else node
  | None => node
  end.

Lemma merge_fields old n :
  State (merge old n) = State n ∧ Weight (merge old n) = Weight n ∧ Addr (merge old n) = Addr n.
Proof.
  unfold merge. destruct old as [e|]; [|done]. destruct (same_identity e n) eqn:E; [|done].
  unfold same_identity in E. b2p. done.
Qed.

Lemma UpsertInto_find nodes node k :
  find_key (UpsertInto nodes node) k =
  if bool_decide (k = Key node) then Some (merge (find_key nodes (Key node)) node)
  else find_key nodes k.
Proof.
  induction nodes as [|e nodes IH]; simpl.
  - repeat case_bool_decide; simpl; congruence.
  - destruct (bool_decide (Key e = Key node)) eqn:E; b2p.
    + simpl. destruct (same_identity e node); simpl; repeat case_bool_decide; congruence.
    + simpl. rewrite IH. repeat case_bool_decide; try congruence.
Qed.

Lemma UpsertInto_keys nodes node :
  keys (UpsertInto nodes node) =
  if bool_decide (Key node ∈ keys nodes) then keys nodes else keys nodes ++ [Key node].
Proof.
  induction nodes as [|e nodes IH]; cbn [UpsertInto].
  - rewrite bool_decide_eq_false_2; [done|]. unfold keys. set_solver.
  - destruct (bool_decide (Key e = Key node)) eqn:E; b2p.
    + rewrite bool_decide_eq_true_2 by (unfold keys; rewrite fmap_cons, E; set_solver). simpl.
      destruct (same_identity e node); simpl; [done|by rewrite E].
    + cbn [keys fmap list_fmap]. fold (keys (UpsertInto nodes node)). rewrite IH.
      unfold keys. repeat case_bool_decide; set_solver.
Qed.

Lemma UpsertInto_NoDup nodes node : NoDup (keys nodes) → NoDup (keys (UpsertInto nodes node)).
Proof.
  intros Hnd. rewrite UpsertInto_keys. case_bool_decide; [done|].
  apply NoDup_app. split; [done|]. split; [set_solver|apply NoDup_singleton].
Qed.

Lemma RemoveKey_sublist nodes key : RemoveKey nodes key `sublist_of` nodes.
Proof.
  induction nodes as [|e nodes IH]; simpl; [done|]. case_bool_decide; [by constructor|by constructor].
Qed.

Lemma find_key_elem nodes key n : find_key nodes key = Some n → n ∈ nodes ∧ Key n = key.
Proof.
  induction nodes as [|e nodes IH]; simpl; [done|]. case_bool_decide; intros; simplify_eq.
  - split; [by left|done].
  - destruct IH; [done|]. split; [by right|done].
Qed.

Lemma find_key_None nodes key : find_key nodes key = None ↔ key ∉ keys nodes.
Proof.
  induction nodes as [|e nodes IH]; simpl; [set_solver|]. case_bool_decide; [set_solver|].
  rewrite IH. set_solver.
Qed.

Lemma RemoveKey_find nodes key k :
  NoDup (keys nodes) →
  find_key (RemoveKey nodes key) k = if bool_decide (k = key) then None else find_key nodes k.
Proof.
  induction nodes as [|e nodes IH]; simpl; [by case_bool_decide|]. intros [Hn Hnd]%NoDup_cons.
  destruct (bool_decide (Key e = key)) eqn:E; b2p.
  - subst key. case_bool_decide; [subst; by apply find_key_None|].
    rewrite bool_decide_eq_false_2; congruence.
  - simpl. rewrite IH by done. repeat case_bool_decide; congruence.
Qed.

Lemma RemoveKey_NoDup nodes key : NoDup (keys nodes) → NoDup (keys (RemoveKey nodes key)).
Proof.
  intros Hnd. eapply sublist_NoDup; [exact Hnd|]. apply fmap_sublist, RemoveKey_sublist.
Qed.

Lemma UpdateFrom_proxy n other : ReverseProxy (UpdateFrom n other) = ReverseProxy n.
Proof. done. Qed.

#[export] Hint Resolve UpsertInto_NoDup RemoveKey_NoDup : go.

Lemma foldl_New `{ProxyLibrary} ref key ip port weight nt source n :
  New ref key ip port weight nt [WithSource source] = Some n →
  Key n = key ∧ Addr n = ip +:+ ":" +:+ Itoa port ∧ NodeType n = nt ∧
  Source n = (if bool_decide (source = "") then "official" else source) ∧
  Weight n = (if weight <=? 0 then 1 else weight) ∧ ReverseProxy n = Some ref.
Proof. unfold New. simpl. repeat case_match; intros; by simplify_eq/=. Qed.

(** ** Properties *)

(** Upserting keeps at most one node per key and leaves every other key's node as it
    was; the key's own entry is the merge of what was there with the update. *)
Theorem UpsertInto_map nodes node :
  NoDup (keys nodes) →
  NoDup (keys (UpsertInto nodes node)) ∧
  ∀ k, find_key (UpsertInto nodes node) k =
       if bool_decide (k = Key node) then Some (merge (find_key nodes (Key node)) node)
       else find_key nodes k.
Proof. intros Hnd. split; [by apply UpsertInto_NoDup|intros k; apply UpsertInto_find]. Qed.

Definition example_node (key addr : string) (state : Z) (ref : nat) : Node :=
  mkNode key addr 8545 (addr +:+ ":8545") "official" 1 state NodeTypeState (Some ref).

Lemma UpsertInto_map_witness :
  let nodes := [example_node "a" "10.0.0.1" 1 0; example_node "b" "10.0.0.2" 1 1] in
  let up := example_node "b" "10.0.0.2" 2 7 in
  NoDup (keys (UpsertInto nodes up)) ∧
  ∀ k, find_key (UpsertInto nodes up) k =
       if bool_decide (k = "b") then Some (merge (find_key nodes "b") up) else find_key nodes k.
Proof.
  intros nodes up. apply (UpsertInto_map nodes up). apply NoDup_cons.
  split; [set_solver|apply NoDup_singleton].
Defined.

(** A discovery update of a node whose address, source and type are unchanged takes
    over the new weight and state but keeps the pooled node's reverse proxy (and with it
    the warm connections); a changed identity replaces the node, proxy included. *)
Theorem upsert_keeps_proxy nodes node old :
  find_key nodes (Key node) = Some old →
  ∃ new, find_key (UpsertInto nodes node) (Key node) = Some new ∧
    Weight new = Weight node ∧ State new = State node ∧ Addr new = Addr node ∧
    Source new = Source node ∧ NodeType new = NodeType node ∧
    ReverseProxy new = if same_identity old node then ReverseProxy old else ReverseProxy node.
Proof.
  intros Hf. rewrite UpsertInto_find, bool_decide_eq_true_2, Hf by done. simpl.
  eexists. split; [done|]. destruct (same_identity old node) eqn:E; [|done].
  unfold same_identity in E. b2p. done.
Qed.

Lemma upsert_keeps_proxy_witness :
  let nodes := [example_node "a" "10.0.0.1" 1 0] in
  let up := example_node "a" "10.0.0.1" 2 7 in
  ∃ new, find_key (UpsertInto nodes up) "a" = Some new ∧ Weight new = 1 ∧ State new = 2 ∧
    Addr new = Addr up ∧ Source new = Source up ∧ NodeType new = NodeType up ∧
    ReverseProxy new = Some 0%nat.
Proof.
  intros nodes up. apply (upsert_keeps_proxy nodes up (example_node "a" "10.0.0.1" 1 0)). reflexivity.
Defined.
