(* ===== verification/Gateway.v ===== *)
(** * Gateway strategy: published weights and method routes

    [lb/jsonrpc/gateway_map.go] and the gateway record of [discovery/discovery.go].
    Reading a nil map is reading an empty one, so maps that are only read are
    finite maps. *)

From S2P Require Import Prelude GoStrings ChainId LbNode.
Local Open Scope Z_scope.

Definition DefaultWeight : Z := 100.

(** ** The published record ([discovery/discovery.go]) *)

Record WeightInfo := mkWeightInfo { wi_NodeKey : string; wi_Weight : Z }.

Record MethodRoute := mkMethodRoute {
  IncludeNodeKeys : gmap string bool; ExcludeNodeKeys : gmap string bool }.

Record Gateway := mkGateway {
  gw_ChainId : string; gw_ChangeType : ChangeType;
  Weights : list WeightInfo; MethodRoutes : gmap string MethodRoute }.

#[export] Instance Gateway_expands : Expands Gateway := λ g,
  mkGateway (gw_ChainId g) (gw_ChangeType g) (Weights g) (MethodRoutes g).

(** Index of the first entry for a node, as the loop of [SetWeight] finds it. *)
Fixpoint weightIndex (ws : list WeightInfo) (nodeKey : string) : option nat :=
  match ws with
  | [] => None
  | w :: ws => if bool_decide (wi_NodeKey w = nodeKey) then Some 0%nat
               else S <$> weightIndex ws nodeKey
  end.

Definition SetWeight (g : Gateway) (nodeKey : string) (weight : Z) : Gateway :=
  let nodeIndex := weightIndex (Weights g) nodeKey in
  if bool_decide (weight = DefaultWeight) then
    match nodeIndex with
    | Some i => g <| Weights := take i (Weights g) ++ drop (S i) (Weights g) |>
    | None => g
    end
  else
    match nodeIndex with
    | Some i => g <| Weights := alter (λ w, mkWeightInfo (wi_NodeKey w) weight) i (Weights g) |>
    | None => g <| Weights := Weights g ++ [mkWeightInfo nodeKey weight] |>
    end.

(** ** The strategy ([lb/jsonrpc/gateway_map.go]) *)

Record gatewayStrategy := mkGatewayStrategy {
  weightMap : gmap string (gmap string Z);
  methodRouteMap : gmap string (gmap string MethodRoute) }.

#[export] Instance gatewayStrategy_expands : Expands gatewayStrategy := λ g,
  mkGatewayStrategy (weightMap g) (methodRouteMap g).

Definition NewGatewayStrategy : gatewayStrategy := mkGatewayStrategy ∅ ∅.

Definition weightsOf (status : list WeightInfo) : gmap string Z :=
  foldl (λ m w, <[wi_NodeKey w := wi_Weight w]> m) ∅ status.

Definition GetWeightForChain (g : gatewayStrategy) (chainId : string) : gmap string Z * bool :=
  match weightMap g !! chainId with Some nodes => (nodes, true) | None => (∅, false) end.

Definition GetWeightForNode (g : gatewayStrategy) (chainId nodeId : string) : Z * bool :=
  match weightMap g !! chainId ≫= lookup nodeId with
  | Some weight => (weight, true)
  | None => (0, false)
  end.

Definition UpdateWeightForChain (g : gatewayStrategy) (chainId : string)
    (status : list WeightInfo) : gatewayStrategy :=
  g <| weightMap := <[chainId := weightsOf status]> (weightMap g) |>.

Definition UpdateGateway (g : gatewayStrategy) (chainId : string) (gateway : Gateway)
    : gatewayStrategy :=
  g <| weightMap := <[chainId := weightsOf (Weights gateway)]> (weightMap g) |>
    <| methodRouteMap := <[chainId := MethodRoutes gateway]> (methodRouteMap g) |>.

(** The order of the routes is the map's iteration order. *)
Definition GetMethodRoutes (g : gatewayStrategy) (chainId : string) : list MethodRoute * bool :=
  match methodRouteMap g !! chainId with
  | Some methodRoutes => ((map_to_list methodRoutes).*2, true)
  | None => ([], false)
  end.

Definition AddMethodRoute (g : gatewayStrategy) (chainId method : string) (route : MethodRoute)
    : gatewayStrategy :=
  let routes := default ∅ (methodRouteMap g !! chainId) in
  g <| methodRouteMap := <[chainId := <[method := route]> routes]> (methodRouteMap g) |>.

Definition DeleteGateway (g : gatewayStrategy) (chainId : string) : gatewayStrategy :=
  g <| weightMap := delete chainId (weightMap g) |>
    <| methodRouteMap := delete chainId (methodRouteMap g) |>.

(** A key missing from the map reads as false. *)
Definition listed (m : gmap string bool) (key : string) : bool := default false (m !! key).

Definition applyMethodRoutes (routes : MethodRoute) (nodes : list Node) : list Node :=
  if bool_decide (size (IncludeNodeKeys routes) ≠ 0%nat) then
    filter (λ n, listed (IncludeNodeKeys routes) (Key n) = true) nodes
  else if bool_decide (size (ExcludeNodeKeys routes) ≠ 0%nat) then
    filter (λ n, listed (ExcludeNodeKeys routes) (Key n) = false) nodes
  else nodes.

Definition FilterNodesByMethod (g : gatewayStrategy) (chainId method : string) (nodes : list Node)
    : list Node :=
  match methodRouteMap g !! chainId ≫= lookup method with
  | Some routes => applyMethodRoutes routes nodes
  | None => nodes
  end.

Definition ChainWeights (g : gatewayStrategy) (chainId : string) : gmap string Z :=
  default ∅ (weightMap g !! chainId).

(** ** What a node selector relies on *)

Class GatewayStrategy (G : Type) := {
  filter_nodes : G → string → string → list Node → list Node;
  chain_weights : G → string → gmap string Z }.

(** Filtering only removes nodes and keeps their order. *)
Class GatewayLaws (G : Type) `{GatewayStrategy G} := {
  filter_nodes_sublist g c m ns : filter_nodes g c m ns `sublist_of` ns }.

#[export] Instance gatewayStrategy_ops : GatewayStrategy gatewayStrategy := {|
  filter_nodes := FilterNodesByMethod; chain_weights := ChainWeights |}.

Lemma applyMethodRoutes_sublist r ns : applyMethodRoutes r ns `sublist_of` ns.
Proof. unfold applyMethodRoutes. repeat case_bool_decide; try done; apply sublist_filter. Qed.

Lemma FilterNodesByMethod_sublist g c m ns : FilterNodesByMethod g c m ns `sublist_of` ns.
Proof.
  unfold FilterNodesByMethod. case_match; [|done]. apply applyMethodRoutes_sublist.
Qed.

#[export] Instance gatewayStrategy_laws : GatewayLaws gatewayStrategy.
Proof. constructor. apply FilterNodesByMethod_sublist. Qed.

(** ** Published weights *)

Definition weight_keys (ws : list WeightInfo) : list string := wi_NodeKey <$> ws.

(** The weight the selector uses for a node. *)
Definition nodeWeight (weights : gmap string Z) (key : string) : Z :=
  default DefaultWeight (weights !! key).

Lemma weights_fold (m : gmap string Z) ws k v :
  NoDup (weight_keys ws) →
  (foldl (λ m w, <[wi_NodeKey w := wi_Weight w]> m) m ws : gmap string Z) !! k = Some v ↔
  mkWeightInfo k v ∈ ws ∨ (k ∉ weight_keys ws ∧ m !! k = Some v).
Proof.
  revert m. induction ws as [|[k0 v0] ws IH]; intros m Hnd; simpl; [set_solver|].
  apply NoDup_cons in Hnd as [Hn Hnd]. rewrite IH by done. simpl in *.
  rewrite elem_of_cons, not_elem_of_cons, lookup_insert_Some.
  destruct (decide (k = k0)) as [->|Hne]; [|naive_solver].
  assert (mkWeightInfo k0 v ∉ ws) by (intros H; apply Hn, list_elem_of_fmap; by exists (mkWeightInfo k0 v)).
  naive_solver.
Qed.

Lemma weightsOf_Some ws k v :
  NoDup (weight_keys ws) → weightsOf ws !! k = Some v ↔ mkWeightInfo k v ∈ ws.
Proof.
  intros Hnd. unfold weightsOf. rewrite weights_fold by done. rewrite lookup_empty. naive_solver.
Qed.

Lemma weightIndex_None ws k : weightIndex ws k = None ↔ k ∉ weight_keys ws.
Proof.
  induction ws as [|w ws IH]; simpl; [set_solver|]. case_bool_decide; [set_solver|].
  rewrite fmap_None, IH. set_solver.
Qed.

Lemma weightIndex_Some ws k i :
  weightIndex ws k = Some i →
  ∃ a w b, ws = a ++ w :: b ∧ length a = i ∧ wi_NodeKey w = k.
Proof.
  revert i. induction ws as [|w ws IH]; intros i; simpl; [done|]. case_bool_decide.
  - intros [= <-]. by exists [], w, ws.
  - intros (j & Hj & ->)%fmap_Some. destruct (IH j Hj) as (a & w' & b & -> & <- & Hk).
    by exists (w :: a), w', b.
Qed.

Lemma alter_middle {A : Type} (f : A → A) (a b : list A) x :
  alter f (length a) (a ++ x :: b) = a ++ f x :: b.
Proof. induction a as [|y a IH]; simpl; [done|]. by f_equal. Qed.

(** The list of weights after [SetWeight], in each of its branches. *)
Lemma SetWeight_list g k w :
  (k ∉ weight_keys (Weights g) ∧
   Weights (SetWeight g k w) =
     Weights g ++ (if decide (w = DefaultWeight) then [] else [mkWeightInfo k w]))
  ∨ ∃ a o b, Weights g = a ++ o :: b ∧ wi_NodeKey o = k ∧
    Weights (SetWeight g k w) = a ++ (if decide (w = DefaultWeight) then [] else [mkWeightInfo k w]) ++ b.
Proof.
  unfold SetWeight. destruct (weightIndex (Weights g) k) as [i|] eqn:Ei; [right|left].
  - apply weightIndex_Some in Ei as (a & o & b & E & <- & Hk). exists a, o, b.
    split; [done|]. split; [done|]. destruct (decide (w = DefaultWeight)); case_bool_decide; try done; simpl.
    + rewrite E, take_app_length, drop_app_ge by lia. by replace (S (length a) - length a)%nat with 1%nat by lia.
    + rewrite E, alter_middle. by rewrite Hk.
  - apply weightIndex_None in Ei. split; [done|].
    destruct (decide (w = DefaultWeight)); case_bool_decide; try done; simpl. by rewrite (right_id_L [] (++)).
Qed.

Lemma SetWeight_NoDup g k w :
  NoDup (weight_keys (Weights g)) → NoDup (weight_keys (Weights (SetWeight g k w))).
Proof.
  unfold weight_keys. intros Hnd.
  destruct (SetWeight_list g k w) as [[Hk ->]|(a & o & b & E & Ho & ->)].
  - destruct (decide (w = DefaultWeight)); [by rewrite (right_id_L [] (++))|].
    rewrite fmap_app. apply NoDup_app. split; [done|]. unfold weight_keys in Hk.
    split; [set_solver|apply NoDup_singleton].
  - rewrite E in Hnd. rewrite fmap_app, fmap_cons in Hnd. rewrite !fmap_app.
    destruct (decide (w = DefaultWeight)); simpl.
    + rewrite NoDup_app, NoDup_cons in *. set_solver.
    + by rewrite <- Ho.
Qed.

Lemma SetWeight_lookup g k w k' :
  NoDup (weight_keys (Weights g)) →
  weightsOf (Weights (SetWeight g k w)) !! k' =
  if decide (k' = k) then (if decide (w = DefaultWeight) then None else Some w)
  else weightsOf (Weights g) !! k'.
Proof.
  intros Hnd. pose proof (SetWeight_NoDup g k w Hnd) as Hnd'. apply option_eq. intros v.
  rewrite weightsOf_Some by done.
  assert (∀ ws, k ∉ weight_keys ws → mkWeightInfo k v ∉ ws) as Hno.
  { intros ws Hk Hin. apply Hk, list_elem_of_fmap. by exists (mkWeightInfo k v). }
  destruct (SetWeight_list g k w) as [[Hk ->]|(a & o & b & E & Ho & ->)].
  - specialize (Hno _ Hk). destruct (decide (k' = k)) as [->|Hne], (decide (w = DefaultWeight));
      rewrite ?weightsOf_Some by done; set_solver.
  - assert (k ∉ weight_keys a ∧ k ∉ weight_keys b) as [Ha Hb].
    { unfold weight_keys in *. rewrite E, fmap_app, fmap_cons, NoDup_app, NoDup_cons in Hnd. set_solver. }
    apply Hno in Ha, Hb. destruct o as [k0 w0]. simpl in Ho. subst k0.
    destruct (decide (k' = k)) as [->|Hne], (decide (w = DefaultWeight));
      rewrite ?weightsOf_Some by done; rewrite ?E; set_solver.
Qed.

(** ** Properties *)

(** Setting a node's weight and publishing the gateway makes the selector see exactly
    that weight for the node and the old weight for every other node; a default weight is
    stored by omission, and a node is never listed twice. *)
Theorem SetWeight_published s chain g k w :
  NoDup (weight_keys (Weights g)) →
  let seen g := nodeWeight (ChainWeights (UpdateGateway s chain g) chain) in
  NoDup (weight_keys (Weights (SetWeight g k w))) ∧
  ∀ k', seen (SetWeight g k w) k' = if decide (k' = k) then w else seen g k'.
Proof.
  intros Hnd seen. split; [by apply SetWeight_NoDup|]. intros k'. unfold seen, nodeWeight, ChainWeights.
  simpl. rewrite !lookup_insert_eq. simpl. rewrite SetWeight_lookup by done.
  repeat case_decide; subst; done.
Qed.

Lemma SetWeight_published_witness :
  let g := mkGateway "1" EVENT_PUT [mkWeightInfo "a" 0; mkWeightInfo "b" 7] ∅ in
  let seen g := nodeWeight (ChainWeights (UpdateGateway NewGatewayStrategy "1" g) "1") in
  NoDup (weight_keys (Weights (SetWeight g "a" 100))) ∧
  ∀ k', seen (SetWeight g "a" 100) k' = if decide (k' = "a") then 100 else seen g k'.
Proof.
  intros g. apply (SetWeight_published NewGatewayStrategy "1" g "a" 100).
  apply NoDup_cons. split; [set_solver|apply NoDup_singleton].
Defined.

(** Method routing keeps only pool nodes, in their order: with an include list exactly
    the listed ones, otherwise exactly the ones not on the exclude list; a method without a
    route, or a chain without a gateway, is not filtered. *)
Theorem FilterNodesByMethod_spec g chain method nodes n :
  FilterNodesByMethod g chain method nodes `sublist_of` nodes ∧
  (n ∈ FilterNodesByMethod g chain method nodes ↔ n ∈ nodes ∧
   match methodRouteMap g !! chain ≫= lookup method with
   | None => True
   | Some r =>
       if decide (IncludeNodeKeys r = ∅)
       then listed (ExcludeNodeKeys r) (Key n) = false
       else listed (IncludeNodeKeys r) (Key n) = true
   end).
Proof.
  split; [apply FilterNodesByMethod_sublist|]. unfold FilterNodesByMethod.
  destruct (methodRouteMap g !! chain ≫= lookup method) as [r|]; [|tauto]. unfold applyMethodRoutes.
  assert (∀ x : gmap string bool, size x = 0%nat ↔ x = ∅) as Hsz by apply map_size_empty_iff.
  destruct (decide (IncludeNodeKeys r = ∅)) as [Hi|Hi].
  - rewrite bool_decide_eq_false_2 by (rewrite Hsz; tauto). case_bool_decide as He.
    + rewrite list_elem_of_filter. tauto.
    + assert (ExcludeNodeKeys r = ∅) as -> by (apply Hsz; lia). unfold listed. rewrite lookup_empty.
      simpl. tauto.
  - rewrite bool_decide_eq_true_2 by (by rewrite Hsz). rewrite list_elem_of_filter. tauto.
Qed.
