(* ===== verification/PickNodes.v ===== *)
(** * Choosing the pool a request is served from

    [utils/pick_nodes.go].  [PickNodes] compares slices by the address of their
    first element, so a slice here carries the identity of its backing array. *)

From S2P Require Import Prelude GoStrings Types LbNode.
Local Open Scope Z_scope.

Record nslice := mkSlice { base : nat; elems : list Node }.

(** Allocation of a backing array: the next unused identity. *)
Definition heap : Type := nat.

(** [&a[0] == &b[0]] for non-empty slices that start at their array's start. *)
Definition same_array (a b : nslice) : bool := bool_decide (base a = base b).

Definition preferAvailableNodes (h : heap) (nodes : nslice) : heap * nslice :=
  if bool_decide (elems nodes = []) then (h, nodes) else
  if forallb Available (elems nodes) then (h, nodes) else
  let available := filter (λ n, Available n = true) (elems nodes) in
  if bool_decide (available ≠ []) then (S h, mkSlice h available) else (S h, nodes).

Section Pick.
Context `{GoEthereum}.
(** The state the block-context getter memoizes in. *)
Context {St : Type}.

Definition PickNodes (h : heap) (getBlockContext : option (St → go (option BlockContext * St)))
    (st : St) (blockHeight : option Z) (archiveNodes stateNodes nativeNodes : nslice)
    (forceArchive forceNative : bool) : go (nslice * St) :=
  let '(h, archiveNodes) := preferAvailableNodes h archiveNodes in
  let '(h, stateNodes) := preferAvailableNodes h stateNodes in
  let '(h, nativeNodes) := preferAvailableNodes h nativeNodes in
  if forceNative then Ret (nativeNodes, st) else
  if forceArchive then Ret (archiveNodes, st) else
  let stateNodes := if bool_decide (elems stateNodes = []) then archiveNodes else stateNodes in
  let archiveNodes := if bool_decide (elems archiveNodes = []) then stateNodes else archiveNodes in
  if bool_decide (length (elems stateNodes) = length (elems archiveNodes))
     && (bool_decide (elems stateNodes = []) || same_array stateNodes archiveNodes)
  then Ret (stateNodes, st) else
  let! '(blockContext, st) :=
    match getBlockContext with Some get => get st | None => Ret (None, st) end in
  match blockContext with
  | None => Ret (stateNodes, st)
  | Some ctx =>
      if bool_decide (Type_ ctx ≠ "Equals") then Ret (stateNodes, st) else
      match BlockId ctx with
      | None => Ret (stateNodes, st)
      | Some id =>
          match BlockNumber id with
          | None => Ret (stateNodes, st)
          | Some blockNumber =>
              if (blockNumber =? LatestBlockNumber) || (blockNumber =? PendingBlockNumber)
              then Ret (stateNodes, st) else
              match blockHeight with
              | None => Ret (archiveNodes, st)
              | Some height =>
                  let stateLow := height - 64 in
                  if stateLow <=? blockNumber then Ret (stateNodes, st)
                  else Ret (archiveNodes, st)
              end
          end
      end
  end.

(** ** The decision table *)

(** Available nodes, or all of them when none is. *)
Definition prefer (nodes : list Node) : list Node :=
  let available := filter (λ n, Available n = true) nodes in
  if decide (available = []) then nodes else available.

(** Only a request pinned to a block number below the window the state nodes
    keep needs an archive node. *)
Definition needs_archive (bc : option BlockContext) (height : option Z) : bool :=
  match bc with
  | Some (mkBlockContext (Some (mkBlockNumberOrHash (Some n) _)) t) =>
      bool_decide (t = "Equals") && negb (n =? LatestBlockNumber) && negb (n =? PendingBlockNumber)
      && match height with None => true | Some h => n <? h - 64 end
  | _ => false
  end.

(** Whether the choice depends on the block context at all. *)
Definition consults (archive state : list Node) (forceArchive forceNative : bool) : bool :=
  negb forceNative && negb forceArchive
  && bool_decide (archive ≠ []) && bool_decide (state ≠ []).

Definition pick (bc : option BlockContext) (height : option Z) (archive state native : list Node)
    (forceArchive forceNative : bool) : list Node :=
  if forceNative then prefer native else
  if forceArchive then prefer archive else
  if decide (state = []) then prefer archive else
  if decide (archive = []) then prefer state else
  if needs_archive bc height then prefer archive else prefer state.
End Pick.

Lemma prefer_nil nodes : prefer nodes = [] ↔ nodes = [].
Proof. unfold prefer. case_decide; [done|]. split; [done|]. by intros ->. Qed.

Lemma prefer_sublist nodes : prefer nodes `sublist_of` nodes.
Proof. unfold prefer. case_decide; [done|apply sublist_filter]. Qed.

Lemma prefer_all nodes : forallb Available nodes = true → prefer nodes = nodes.
Proof.
  intros Hall. unfold prefer. case_decide as E; [done|]. clear E.
  induction nodes as [|n nodes IH]; simpl in Hall; [done|]. b2p.
  rewrite filter_cons_True by done. by rewrite IH.
Qed.

(** [preferAvailableNodes] computes [prefer]; its result is the argument's array
    or a fresh one. *)
Lemma preferAvailableNodes_spec h s :
  let '(h', s') := preferAvailableNodes h s in
  elems s' = prefer (elems s) ∧ (h ≤ h')%nat ∧ (base s' = base s ∨ (h ≤ base s' < h')%nat).
Proof.
  unfold preferAvailableNodes. case_bool_decide as E0; [rewrite E0; split_and!; [done|lia|by left]|].
  destruct (forallb Available (elems s)) eqn:E1;
    [rewrite prefer_all by done; split_and!; [done|lia|by left]|].
  unfold prefer. case_bool_decide as E2; simpl.
  - rewrite decide_False by done. split_and!; [done|lia|right; lia].
  - rewrite decide_True by done. split_and!; [done|lia|by left].
Qed.

(** Distinct pools stay in distinct arrays. *)
Lemma prefer_distinct h a s :
  base a ≠ base s → (base a < h)%nat → (base s < h)%nat →
  let '(h1, a') := preferAvailableNodes h a in
  let '(h2, s') := preferAvailableNodes h1 s in
  base a' ≠ base s'.
Proof.
  intros Hne Ha Hs. pose proof (preferAvailableNodes_spec h a) as H1.
  destruct (preferAvailableNodes h a) as [h1 a']. destruct H1 as (_ & Hh1 & Hb1).
  pose proof (preferAvailableNodes_spec h1 s) as H2.
  destruct (preferAvailableNodes h1 s) as [h2 s']. destruct H2 as (_ & Hh2 & Hb2). lia.
Qed.

Section PickSpec.
Context `{GoEthereum} {St : Type}.

Definition consult (get : option (St → go (option BlockContext * St))) (st : St)
  : go (option BlockContext * St) :=
  match get with Some get => get st | None => Ret (None, st) end.

(** The last part of [PickNodes]: the route a block context asks for. *)
Lemma route_by_context bc height (s a : nslice) (st : St) :
  match bc with
  | None => Ret (s, st)
  | Some ctx =>
      if bool_decide (Type_ ctx ≠ "Equals") then Ret (s, st) else
      match BlockId ctx with
      | None => Ret (s, st)
      | Some id =>
          match BlockNumber id with
          | None => Ret (s, st)
          | Some n =>
              if (n =? LatestBlockNumber) || (n =? PendingBlockNumber) then Ret (s, st) else
              match height with
              | None => Ret (a, st)
              | Some h => if h - 64 <=? n then Ret (s, st) else Ret (a, st)
              end
          end
      end
  end = Ret (if needs_archive bc height then a else s, st).
Proof.
  unfold needs_archive.
  destruct bc as [[[[[n|] hash]|] t]|]; cbn [BlockId BlockNumber Type_]; try done;
    try (case_bool_decide; done).
  case_bool_decide as Et; [by rewrite bool_decide_eq_false_2|].
  rewrite bool_decide_eq_true_2 by done. cbn [andb].
  destruct (n =? LatestBlockNumber), (n =? PendingBlockNumber); try done.
  destruct height as [h|]; [|done]. cbn [orb negb andb]. rewrite Z.ltb_antisym.
  by destruct (h - 64 <=? n).
Qed.

Lemma PickNodes_table h get (st : St) height a s n fa fn :
  (base a < h)%nat → (base s < h)%nat →
  base a ≠ base s ∨ elems a = [] ∨ elems s = [] →
  (let! '(r, st) := PickNodes h get st height a s n fa fn in Ret (elems r, st)) =
  let! '(bc, st) := if consults (elems a) (elems s) fa fn then consult get st else Ret (None, st) in
  Ret (pick bc height (elems a) (elems s) (elems n) fa fn, st).
Proof.
  intros Ha Hs Hne. unfold PickNodes, consults, pick.
  pose proof (prefer_distinct h a s) as Hd.
  pose proof (preferAvailableNodes_spec h a) as H1.
  destruct (preferAvailableNodes h a) as [h1 a']. destruct H1 as (Ea & _ & _).
  pose proof (preferAvailableNodes_spec h1 s) as H2.
  destruct (preferAvailableNodes h1 s) as [h2 s']. destruct H2 as (Es & _ & _).
  pose proof (preferAvailableNodes_spec h2 n) as H3.
  destruct (preferAvailableNodes h2 n) as [h3 n']. destruct H3 as (En & _ & _).
  destruct fn; [by rewrite <- En|]. destruct fa; [by rewrite <- Ea|]. cbn [negb andb].
  rewrite <- Ea, <- Es.
  assert (∀ x y, elems x = prefer (elems y) →
    bool_decide (elems x = []) = bool_decide (elems y = [])) as Hnil.
  { intros x y E. apply bool_decide_ext. by rewrite E, prefer_nil. }
  rewrite (Hnil s' s), (Hnil a' a) by done.
  destruct (decide (elems s = [])) as [Es0|Es0].
  { rewrite (bool_decide_eq_true_2 _ Es0).
    rewrite (bool_decide_eq_false_2 (elems s ≠ [])) by tauto. rewrite andb_false_r. cbn [go_bind].
    assert ((if bool_decide (elems a = []) then a' else a') = a') as -> by by case_bool_decide.
    rewrite (bool_decide_eq_true_2 (_ = _)) by done. unfold same_array.
    rewrite (bool_decide_eq_true_2 (base a' = base a')) by done. rewrite orb_true_r. done. }
  rewrite (bool_decide_eq_false_2 _ Es0), (bool_decide_eq_true_2 (elems s ≠ []) Es0).
  destruct (decide (elems a = [])) as [Ea0|Ea0].
  { rewrite (bool_decide_eq_true_2 _ Ea0).
    rewrite (bool_decide_eq_false_2 (elems a ≠ [])) by tauto. cbn [andb go_bind].
    rewrite (bool_decide_eq_true_2 (_ = _)) by done. unfold same_array.
    rewrite (bool_decide_eq_true_2 (base s' = base s')) by done. rewrite orb_true_r. done. }
  rewrite (bool_decide_eq_false_2 _ Ea0), (bool_decide_eq_true_2 (elems a ≠ []) Ea0).
  assert (base a' ≠ base s') as Hb by (apply Hd; naive_solver).
  assert (bool_decide (elems s' = []) || same_array s' a' = false) as ->.
  { unfold same_array. rewrite (Hnil s' s), (bool_decide_eq_false_2 _ Es0) by done.
    by rewrite bool_decide_eq_false_2 by congruence. }
  rewrite andb_false_r. cbn [andb]. unfold consult.
  destruct (match get with Some get => get st | None => Ret (None, st) end) as [[bc st']| |];
    [|done|done]. cbn [go_bind]. rewrite route_by_context. cbn [go_bind].
  by destruct (needs_archive bc height).
Qed.
End PickSpec.

(** ** Properties *)

(** C10: [PickNodes] computes the decision table: native and archive on demand, otherwise
    the pool that exists, and with both pools the archive only for a request pinned to a
    block number older than the 64 blocks the state nodes keep (or of unknown age); in each
    pool the available nodes, or all of them when none is.  The block context is obtained
    exactly when both pools exist and none is forced. *)
Theorem PickNodes_decides `{GoEthereum} {St : Type} h get (st : St) height a s n fa fn :
  (base a < h)%nat → (base s < h)%nat →
  base a ≠ base s ∨ elems a = [] ∨ elems s = [] →
  (let! '(r, st) := PickNodes h get st height a s n fa fn in Ret (elems r, st)) =
  let! '(bc, st) := if consults (elems a) (elems s) fa fn then consult get st else Ret (None, st) in
  Ret (pick bc height (elems a) (elems s) (elems n) fa fn, st).
Proof. apply PickNodes_table. Qed.

Definition pool1 : nslice := mkSlice 0 [example_node "a" "10.0.0.1" 1 0; example_node "b" "10.0.0.2" 2 1].
Definition pool2 : nslice := mkSlice 1 [example_node "c" "10.0.0.3" 3 2].

Definition pick_eth : GoEthereum := {|
  LatestBlockNumber := -2; PendingBlockNumber := -1; EarliestBlockNumber := 0;
  FinalizedBlockNumber := -3; SafeBlockNumber := -4;
  DecodeUint64 := λ _, None; HashUnmarshalText := λ _, None |}.

Lemma PickNodes_decides_witness :
  let ctx := mkBlockContext (Some (mkBlockNumberOrHash (Some 100) None)) "Equals" in
  (let! '(r, st) := @PickNodes pick_eth nat 9%nat (Some (λ k, Ret (Some ctx, S k))) 0%nat (Some 1000)
     pool1 pool2 (mkSlice 2 []) false false in Ret (elems r, st)) =
  Ret ([example_node "a" "10.0.0.1" 1 0], 1%nat).
Proof.
  intros ctx.
  rewrite (@PickNodes_decides pick_eth nat 9%nat (Some (λ k, Ret (Some ctx, S k))) 0%nat (Some 1000)
    pool1 pool2 (mkSlice 2 []) false false); [reflexivity|simpl; lia|simpl; lia|by left].
Defined.

(** A pool that has nodes is never emptied by the choice: whenever the chain has a node
    of the demanded kind (any archive or state node, if nothing is forced), some node is
    offered, and every node offered is one of the pools'. *)
Theorem pick_offers `{GoEthereum} bc height a s n fa fn :
  (pick bc height a s n fa fn = [] ↔
   if fn then n = [] else if fa then a = [] else a = [] ∧ s = []) ∧
  ∀ x, x ∈ pick bc height a s n fa fn → x ∈ a ∨ x ∈ s ∨ x ∈ n.
Proof.
  assert (∀ l x, x ∈ prefer l → x ∈ l) as Hp.
  { intros l x Hx. eapply sublist_subseteq; [apply prefer_sublist|done]. }
  unfold pick. split.
  - repeat case_match; rewrite ?prefer_nil; naive_solver.
  - intros x. repeat case_match; intros Hx%Hp; auto.
Qed.
