(* ===== verification/Selector.v ===== *)
(** * The random selector

    [lb/selector/random/random.go], [utils/rangerandom.go] and [utils/errors.go]:
    the node pools of every chain and the weighted choice among the nodes a request
    may use.  The choice is proved against the gateway interface of [Gateway]. *)

From stdpp Require Import sorting.
From S2P Require Import Prelude GoStrings Types LbNode Gateway PickNodes.
Local Open Scope Z_scope.

Record NoAvailableNodeError := mkNoAvailableNodeError { nan_ChainId : string; nan_Reason : string }.

Definition NoAvailableNodeError_Error (e : NoAvailableNodeError) : string :=
  if bool_decide (nan_ChainId e ≠ "") then
    "no available node for chain " +:+ nan_ChainId e +:+ ": " +:+ nan_Reason e
  else "no available node: " +:+ nan_Reason e.

(** Each pool of each chain is a slice of its own. *)
Record Random (G : Type) := mkRandom {
  archiveNodes : gmap string (list Node);
  stateNodes : gmap string (list Node);
  nativeNodes : gmap string (list Node);
  chainHeight : gmap string (option Z);
  gateway : option G }.
Arguments mkRandom {G} _ _ _ _ _.
Arguments archiveNodes {G} _.
Arguments stateNodes {G} _.
Arguments nativeNodes {G} _.
Arguments chainHeight {G} _.
Arguments gateway {G} _.

#[export] Instance Random_expands {G} : Expands (Random G) := λ r,
  mkRandom (archiveNodes r) (stateNodes r) (nativeNodes r) (chainHeight r) (gateway r).

Definition NewRandom {G} (g : option G) : Random G := mkRandom ∅ ∅ ∅ ∅ g.

(** [rand.Int63n] panics unless its argument is positive; [Int63n] is the number
    it draws. *)
Definition RangeRandom (Int63n : Z → Z) (min max : Z) : go Z :=
  let n := wrap_int64 (max - min) in
  if n <=? 0 then Panic else Ret (wrap_int64 (Int63n n + min)).

Definition pool (m : gmap string (list Node)) (chainId : string) : list Node :=
  default [] (m !! chainId).

(** The last loop of [GetNode]. *)
Fixpoint chooseWeighted (weights : gmap string Z) (targetWeight curWeight : Z) (nodes : list Node)
    : option Node :=
  match nodes with
  | [] => None
  | node :: nodes =>
      let curWeight := wrap_int64 (curWeight + nodeWeight weights (Key node)) in
      if targetWeight <? curWeight then Some node
      else chooseWeighted weights targetWeight curWeight nodes
  end.

Definition weightSum (weights : gmap string Z) (nodes : list Node) : Z :=
  foldl (λ sum n, wrap_int64 (sum + nodeWeight weights (Key n))) 0 nodes.

Section GetNode.
Context `{GoEthereum} {G : Type} `{GatewayStrategy G}.
Context (Int63n : Z → Z).

(** From the picked nodes on. *)
Definition selectNode (g : option G) (ctx : RequestContext) (nodes : list Node)
    : go (NoAvailableNodeError + Node) :=
  let chainId := ChainId ctx in
  let fail reason := Ret (inl (mkNoAvailableNodeError chainId reason)) in
  if bool_decide (nodes = []) then fail "no nodes available after picking" else
  let nodes := match g with
               | Some g => if rc_IsBatch ctx then nodes
                           else filter_nodes g chainId (Method ctx) nodes
               | None => nodes
               end in
  if bool_decide (nodes = []) then
    fail ("no nodes available after method filter for method " +:+ Method ctx) else
  let weights := match g with Some g => chain_weights g chainId | None => ∅ end in
  let weightSum := weightSum weights nodes in
  if weightSum =? 0 then fail "weight sum is zero, all nodes have zero weight" else
  let! targetWeight := RangeRandom Int63n 0 weightSum in
  match chooseWeighted weights targetWeight 0 nodes with
  | Some node => Ret (inr node)
  | None => fail "failed to select node after weight calculation"
  end.

(** The block context is memoized in the request context on the way. *)
Definition GetNode (r : Random G) (ctx : RequestContext) (requestKey : string)
    : go ((NoAvailableNodeError + Node) * RequestContext) :=
  let chainId := ChainId ctx in
  let forceNative := bool_decide (requestKey = "native") in
  let! '(nodes, ctx) :=
    PickNodes 3%nat (Some GetBlockContext) ctx (default None (chainHeight r !! chainId))
      (mkSlice 0%nat (pool (archiveNodes r) chainId)) (mkSlice 1%nat (pool (stateNodes r) chainId))
      (mkSlice 2%nat (pool (nativeNodes r) chainId)) (Archive ctx) forceNative in
  let! res := selectNode (gateway r) ctx (elems nodes) in
  Ret (res, ctx).
End GetNode.

(** [sort.Strings] orders by bytes. *)
Definition bytes_le (a b : string) : Prop := String.leb a b = true.
#[export] Instance bytes_le_dec : RelDecision bytes_le.
Proof. intros a b. unfold bytes_le. apply _. Defined.

Section Pools.
Context {G : Type}.

Definition upsert_pool (m : gmap string (list Node)) (chainId : string) (node : Node) :=
  <[chainId := UpsertInto (pool m chainId) node]> m.

Definition remove_pool (m : gmap string (list Node)) (chainId : string) (node : Node) :=
  match m !! chainId with
  | None => m
  | Some nodes =>
      if bool_decide (Key node ∈ keys nodes) then <[chainId := RemoveKey nodes (Key node)]> m
      else m
  end.

Definition UpsertNode (r : Random G) (chainId : string) (role : Z) (node : Node) : Random G :=
  if bool_decide (Source node = "native") then
    r <| nativeNodes := upsert_pool (nativeNodes r) chainId node |>
  else if role =? NodeTypeArchive then
    r <| archiveNodes := upsert_pool (archiveNodes r) chainId node |>
  else
    r <| stateNodes := upsert_pool (stateNodes r) chainId node |>.

Definition RemoveNode (r : Random G) (chainId : string) (role : Z) (node : Node) : Random G :=
  if bool_decide (Source node = "native") then
    r <| nativeNodes := remove_pool (nativeNodes r) chainId node |>
  else if role =? NodeTypeArchive then
    r <| archiveNodes := remove_pool (archiveNodes r) chainId node |>
  else
    r <| stateNodes := remove_pool (stateNodes r) chainId node |>.

Definition UpdateChainHeight (r : Random G) (chainId : string) (height : option Z) : Random G :=
  r <| chainHeight := <[chainId := height]> (chainHeight r) |>.

Definition GetAllNodes (r : Random G) (chainId : string) : list Node * bool :=
  let nodes := pool (archiveNodes r) chainId ++ pool (stateNodes r) chainId
               ++ pool (nativeNodes r) chainId in
  (nodes, bool_decide (nodes ≠ [])).

Definition GetArchiveNodes (r : Random G) (chainId : string) : list Node * bool :=
  (pool (archiveNodes r) chainId, bool_decide (is_Some (archiveNodes r !! chainId))).
Definition GetStateNodes (r : Random G) (chainId : string) : list Node * bool :=
  (pool (stateNodes r) chainId, bool_decide (is_Some (stateNodes r !! chainId))).
Definition GetNativeNodes (r : Random G) (chainId : string) : list Node * bool :=
  (pool (nativeNodes r) chainId, bool_decide (is_Some (nativeNodes r !! chainId))).

Definition GetAllChainsIDs (r : Random G) : list string :=
  merge_sort bytes_le
    (elements (dom (archiveNodes r) ∪ dom (stateNodes r) ∪ dom (nativeNodes r) : gset string)).
End Pools.

#[export] Instance NoAvailableNodeError_eq_dec : EqDecision NoAvailableNodeError.
Proof. solve_decision. Defined.

(** ** The weighted choice *)

(** The unbounded sum of the nodes' weights. *)
Fixpoint total (weights : gmap string Z) (nodes : list Node) : Z :=
  match nodes with
  | [] => 0
  | n :: nodes => nodeWeight weights (Key n) + total weights nodes
  end.

Lemma total_app weights a b : total weights (a ++ b) = total weights a + total weights b.
Proof. induction a as [|n a IH]; simpl; [done|]. rewrite IH. lia. Qed.

(** Weights as the gateway is meant to publish them: none negative, and a sum
    that fits the machine integer. *)
Definition good_weights (weights : gmap string Z) (nodes : list Node) : Prop :=
  Forall (λ n, 0 ≤ nodeWeight weights (Key n)) nodes ∧ total weights nodes ≤ max_int64.

Lemma total_nonneg weights nodes :
  Forall (λ n, 0 ≤ nodeWeight weights (Key n)) nodes → 0 ≤ total weights nodes.
Proof. induction 1; simpl; lia. Qed.

Lemma weightSum_from weights nodes s :
  Forall (λ n, 0 ≤ nodeWeight weights (Key n)) nodes → 0 ≤ s → s + total weights nodes ≤ max_int64 →
  foldl (λ sum n, wrap_int64 (sum + nodeWeight weights (Key n))) s nodes = s + total weights nodes.
Proof.
  intros Hw. revert s. induction Hw as [|n nodes Hn Hw IH]; intros s Hs Hm; simpl in *; [lia|].
  pose proof (total_nonneg _ _ Hw). rewrite wrap_int64_id by (unfold in_int64, min_int64; lia).
  rewrite IH; lia.
Qed.

Lemma weightSum_total weights nodes :
  good_weights weights nodes → weightSum weights nodes = total weights nodes.
Proof. intros [Hw Hm]. unfold weightSum. rewrite weightSum_from; [lia|done|lia|lia]. Qed.

Lemma chooseWeighted_spec weights nodes t cur :
  Forall (λ n, 0 ≤ nodeWeight weights (Key n)) nodes → 0 ≤ cur ≤ t →
  t < cur + total weights nodes ≤ max_int64 →
  ∃ a n b, nodes = a ++ n :: b ∧ chooseWeighted weights t cur nodes = Some n ∧
    cur + total weights a ≤ t < cur + total weights a + nodeWeight weights (Key n).
Proof.
  intros Hw. revert cur. induction Hw as [|n nodes Hn Hw IH]; intros cur Hc Ht; simpl in *; [lia|].
  pose proof (total_nonneg _ _ Hw). rewrite wrap_int64_id by (unfold in_int64, min_int64; lia).
  destruct (t <? _) eqn:E; b2p.
  - exists [], n, nodes. simpl. repeat split; lia.
  - destruct (IH (cur + nodeWeight weights (Key n))) as (a & n' & b & -> & Hch & Hr); [lia|lia|].
    exists (n :: a), n', b. simpl. split_and!; [done|done|lia|lia].
Qed.

Lemma split_unique {A : Type} (x : A) a b a' b' :
  NoDup (a ++ x :: b) → a ++ x :: b = a' ++ x :: b' → a = a'.
Proof.
  revert a'. induction a as [|y a IH]; intros [|y' a'] Hnd E; simplify_eq/=; [done| | |].
  - apply NoDup_cons in Hnd as [Hn _]. set_solver.
  - apply NoDup_cons in Hnd as [Hn _]. set_solver.
  - apply NoDup_cons in Hnd as [_ Hnd]. f_equal. by apply IH.
Qed.

Lemma chooseWeighted_own weights a n b t cur :
  Forall (λ n, 0 ≤ nodeWeight weights (Key n)) (a ++ n :: b) → 0 ≤ cur →
  cur + total weights (a ++ n :: b) ≤ max_int64 →
  cur + total weights a ≤ t < cur + total weights a + nodeWeight weights (Key n) →
  chooseWeighted weights t cur (a ++ n :: b) = Some n.
Proof.
  revert cur. induction a as [|x a IH]; intros cur Hw Hc Hm Ht; simpl in *;
    apply Forall_cons in Hw as [Hx Hw]; pose proof (total_nonneg _ _ Hw).
  - rewrite wrap_int64_id by (unfold in_int64, min_int64; lia).
    by rewrite (proj2 (Z.ltb_lt _ _)) by lia.
  - assert (0 ≤ total weights a).
    { apply total_nonneg. by apply Forall_app in Hw as [? _]. }
    rewrite wrap_int64_id by (unfold in_int64, min_int64; lia).
    rewrite (proj2 (Z.ltb_ge _ _)) by lia. apply IH; [done|lia|lia|lia].
Qed.

(** A node owns the draws of a half-open interval as long as its weight. *)
Lemma chooseWeighted_interval weights a n b t :
  good_weights weights (a ++ n :: b) → NoDup (a ++ n :: b) →
  0 ≤ t < total weights (a ++ n :: b) →
  chooseWeighted weights t 0 (a ++ n :: b) = Some n ↔
  total weights a ≤ t < total weights a + nodeWeight weights (Key n).
Proof.
  intros [Hw Hm] Hnd Ht. split.
  - destruct (chooseWeighted_spec weights (a ++ n :: b) t 0 Hw) as (a' & n' & b' & E' & -> & Hr);
      [lia|lia|]. intros [= ->]. apply split_unique in E'; [subst a'; lia|done].
  - intros Hr. apply chooseWeighted_own; [done|lia|lia|lia].
Qed.

Lemma count_interval (P : Z → Prop) `{∀ t, Decision (P t)} m lo hi :
  0 ≤ lo ≤ hi → hi ≤ m → (∀ t, 0 ≤ t < m → P t ↔ lo ≤ t < hi) →
  length (filter P (seqZ 0 m)) = Z.to_nat (hi - lo).
Proof.
  intros Hl Hh HP. rewrite <- (length_seqZ lo (hi - lo)). apply Permutation_length, NoDup_Permutation.
  - apply NoDup_filter, NoDup_seqZ.
  - apply NoDup_seqZ.
  - intros t. rewrite list_elem_of_filter, !elem_of_seqZ. split.
    + intros [Ht Hr]. apply HP in Ht; lia.
    + intros Hr. rewrite HP; lia.
Qed.

Section Choice.
Context {G : Type} `{GatewayStrategy G}.

(** The nodes left after method routing, and the weights they are drawn with. *)
Definition candidates (g : option G) (ctx : RequestContext) (nodes : list Node) : list Node :=
  match g with
  | Some g => if rc_IsBatch ctx then nodes else filter_nodes g (ChainId ctx) (Method ctx) nodes
  | None => nodes
  end.
Definition weights_for (g : option G) (ctx : RequestContext) : gmap string Z :=
  match g with Some g => chain_weights g (ChainId ctx) | None => ∅ end.

(** [selectNode] when there is something to choose from. *)
Lemma selectNode_draw Int63n g ctx nodes :
  let ns := candidates g ctx nodes in
  let ws := weights_for g ctx in
  nodes ≠ [] → good_weights ws ns → 0 < total ws ns →
  0 ≤ Int63n (total ws ns) < total ws ns →
  selectNode Int63n g ctx nodes =
  match chooseWeighted ws (Int63n (total ws ns)) 0 ns with
  | Some n => Ret (inr n)
  | None => Ret (inl (mkNoAvailableNodeError (ChainId ctx)
                        "failed to select node after weight calculation"))
  end.
Proof.
  intros ns ws Hne Hw Hpos Hr. unfold selectNode. fold (candidates g ctx nodes) ns.
  fold (weights_for g ctx) ws. rewrite bool_decide_eq_false_2 by done.
  assert (ns ≠ []) by (intros E; rewrite E in Hpos; simpl in Hpos; lia).
  rewrite bool_decide_eq_false_2 by done. rewrite weightSum_total by done.
  rewrite (proj2 (Z.eqb_neq _ _)) by lia. destruct Hw as [_ Hm].
  unfold RangeRandom. rewrite Z.sub_0_r, Z.add_0_r.
  rewrite !wrap_int64_id by (unfold in_int64, min_int64; lia).
  rewrite (proj2 (Z.leb_gt _ _)) by lia. cbn [go_bind]. done.
Qed.

Lemma selectNode_owner Int63n g ctx nodes :
  let ns := candidates g ctx nodes in
  let ws := weights_for g ctx in
  nodes ≠ [] → good_weights ws ns → 0 < total ws ns →
  0 ≤ Int63n (total ws ns) < total ws ns →
  ∃ a n b, ns = a ++ n :: b ∧ selectNode Int63n g ctx nodes = Ret (inr n) ∧
    total ws a ≤ Int63n (total ws ns) < total ws a + nodeWeight ws (Key n).
Proof.
  intros ns ws Hne Hw Hpos Hr. rewrite selectNode_draw by done. fold ns ws.
  destruct (chooseWeighted_spec ws ns (Int63n (total ws ns)) 0) as (a & n & b & E & -> & Hi);
    [apply Hw|lia|destruct Hw; lia|]. exists a, n, b. split_and!; [done|done|lia|lia].
Qed.

Lemma candidates_sublist `{!GatewayLaws G} g ctx nodes : candidates g ctx nodes `sublist_of` nodes.
Proof.
  unfold candidates. destruct g as [g|]; [|done]. destruct (rc_IsBatch ctx); [done|].
  apply filter_nodes_sublist.
Qed.

(** The pool choice, in terms of the decision table. *)
Lemma GetNode_pick `{GoEthereum} Int63n (r : Random G) ctx key :
  let a := pool (archiveNodes r) (ChainId ctx) in
  let s := pool (stateNodes r) (ChainId ctx) in
  let n := pool (nativeNodes r) (ChainId ctx) in
  let native := bool_decide (key = "native") in
  GetNode Int63n r ctx key =
  let! '(bc, ctx') := if consults a s (Archive ctx) native then GetBlockContext ctx
                      else Ret (None, ctx) in
  let! res := selectNode Int63n (gateway r) ctx'
    (pick bc (default None (chainHeight r !! ChainId ctx)) a s n (Archive ctx) native) in
  Ret (res, ctx').
Proof.
  intros a s n native. unfold GetNode. fold a s n native.
  pose proof (PickNodes_table 3%nat (Some GetBlockContext) ctx
    (default None (chainHeight r !! ChainId ctx)) (mkSlice 0%nat a) (mkSlice 1%nat s) (mkSlice 2%nat n)
    (Archive ctx) native) as HT.
  simpl in HT. specialize (HT ltac:(lia) ltac:(lia) ltac:(left; done)).
  destruct (PickNodes _ _ _ _ _ _ _ _ _) as [[sl ctx1]| |]; simpl in HT |- *;
    destruct (if consults _ _ _ _ then _ else _) as [[bc ctx2]| |]; simpl in HT |- *; try done;
    injection HT as HT1 HT2; by rewrite HT1, HT2.
Qed.
End Choice.

(** ** The pools *)

Section PoolLemmas.
Context {G : Type}.

Lemma pool_upsert m c n c' :
  pool (upsert_pool m c n) c' = if decide (c' = c) then UpsertInto (pool m c) n else pool m c'.
Proof.
  unfold pool, upsert_pool. destruct (decide (c' = c)) as [->|Hne];
    [by rewrite lookup_insert_eq|by rewrite lookup_insert_ne].
Qed.

Lemma RemoveKey_absent l k : k ∉ keys l → RemoveKey l k = l.
Proof.
  induction l as [|n l IH]; simpl; [done|]. intros Hk. rewrite bool_decide_eq_false_2 by set_solver.
  rewrite IH; set_solver.
Qed.

Lemma pool_remove m c n c' :
  pool (remove_pool m c n) c' =
  if decide (c' = c) then RemoveKey (pool m c) (Key n) else pool m c'.
Proof.
  unfold remove_pool, pool. destruct (m !! c) as [l|] eqn:El; [case_bool_decide|];
    destruct (decide (c' = c)) as [->|Hne];
    rewrite ?El, ?lookup_insert_eq, ?lookup_insert_ne by done; simpl; try done.
  by rewrite RemoveKey_absent.
Qed.

(** Keys are unique in every pool, and exactly the native pools hold native
    nodes. *)
Definition pool_ok (P : Node → Prop) (l : list Node) : Prop := NoDup (keys l) ∧ Forall P l.

Definition selector_ok (r : Random G) : Prop := ∀ c,
  pool_ok (λ n, Source n ≠ "native" ∧ NodeType n = NodeTypeArchive) (pool (archiveNodes r) c) ∧
  pool_ok (λ n, Source n ≠ "native" ∧ NodeType n ≠ NodeTypeArchive) (pool (stateNodes r) c) ∧
  pool_ok (λ n, Source n = "native") (pool (nativeNodes r) c).

Lemma UpsertInto_Forall (P : Node → Prop) l n :
  (∀ e o, P e → P (UpdateFrom e o)) → P n → Forall P l → Forall P (UpsertInto l n).
Proof.
  intros HU Hn. induction 1 as [|e l He Hl IH]; simpl; [by constructor|].
  case_bool_decide; [constructor; [case_match; auto|done]|by constructor].
Qed.

Lemma pool_ok_upsert P l n :
  (∀ e o, P e → P (UpdateFrom e o)) → P n → pool_ok P l → pool_ok P (UpsertInto l n).
Proof. intros HU Hn [Hnd Hf]. split; [auto with go|by apply UpsertInto_Forall]. Qed.

Lemma pool_ok_remove P l k : pool_ok P l → pool_ok P (RemoveKey l k).
Proof.
  intros [Hnd Hf]. split; [auto with go|]. rewrite Forall_forall in *. intros x Hx.
  eapply Hf, sublist_subseteq; [apply RemoveKey_sublist|done].
Qed.

Lemma UpsertNode_ok r c role n :
  NodeType n = role → selector_ok r → selector_ok (UpsertNode r c role n).
Proof.
  intros <- Hr c'. specialize (Hr c') as (Ha & Hs & Hn). unfold UpsertNode.
  case_bool_decide as Esrc; [|destruct (NodeType n =? NodeTypeArchive) eqn:Et; b2p]; simpl;
    rewrite pool_upsert; case_decide; subst; try done; split_and!; try done;
    by apply pool_ok_upsert.
Qed.

Lemma RemoveNode_ok r c role n : selector_ok r → selector_ok (RemoveNode r c role n).
Proof.
  intros Hr c'. specialize (Hr c') as (Ha & Hs & Hn). unfold RemoveNode.
  case_bool_decide as Esrc; [|destruct (role =? NodeTypeArchive) eqn:Et; b2p]; simpl;
    rewrite pool_remove; case_decide; subst; try done; split_and!; try done;
    by apply pool_ok_remove.
Qed.

Lemma NewRandom_ok g : selector_ok (NewRandom g : Random G).
Proof.
  intros c. unfold NewRandom, pool. simpl. rewrite !lookup_empty. simpl.
  repeat split; constructor.
Qed.
End PoolLemmas.

Lemma pick_irrelevant `{GoEthereum} bc bc' h a s n fa fn :
  consults a s fa fn = false → pick bc h a s n fa fn = pick bc' h a s n fa fn.
Proof.
  unfold consults, pick. destruct fn; [done|]. destruct fa; [done|]. simpl.
  repeat case_decide; try done. rewrite !bool_decide_eq_true_2 by done. done.
Qed.

(** ** Properties *)

(** C7: the choice is exactly weight-proportional: of the [total] equally likely draws,
    precisely [weight n] select node [n]; in particular a node of weight zero is never
    selected. *)
Theorem selection_distribution {G : Type} `{GatewayStrategy G}
    (g : option G) ctx nodes n :
  let ns := candidates g ctx nodes in
  let ws := weights_for g ctx in
  nodes ≠ [] → NoDup (keys ns) → good_weights ws ns → n ∈ ns → 0 < total ws ns →
  length (filter (λ t, selectNode (λ _, t) g ctx nodes = Ret (inr n)) (seqZ 0 (total ws ns)))
  = Z.to_nat (nodeWeight ws (Key n)).
Proof.
  intros ns ws Hne Hnd Hw Hin Hpos.
  apply list_elem_of_split in Hin as (a & b & E). pose proof Hw as [Hall _]. rewrite E in Hall.
  apply Forall_app in Hall as [Ha [Hn Hb]%Forall_cons].
  pose proof (total_nonneg _ _ Ha). pose proof (total_nonneg _ _ Hb).
  assert (total ws ns = total ws a + nodeWeight ws (Key n) + total ws b) as Et
    by (rewrite E, total_app; simpl; lia).
  rewrite (count_interval _ _ (total ws a) (total ws a + nodeWeight ws (Key n))); [f_equal; lia|lia|lia|].
  intros t Ht. rewrite selectNode_draw by done. fold ns ws.
  rewrite <- (chooseWeighted_interval ws a n b t); rewrite <- ?E; [|done|by eapply NoDup_fmap_1|done].
  destruct (chooseWeighted ws t 0 ns); naive_solver.
Qed.

Definition example_ctx : RequestContext :=
  mkRequestContext "" "" "" "" "" "" "" false None "" [] "eth_call" false None 0 0 None
    None false "1" "" "1" "" false false false false.
Definition example_gateway : gatewayStrategy :=
  UpdateGateway NewGatewayStrategy "1"
    (mkGateway "1" ChainId.EVENT_PUT [mkWeightInfo "a" 0; mkWeightInfo "b" 3] ∅).

Lemma selection_distribution_witness :
  let g := Some example_gateway in
  let n := example_node "b" "10.0.0.2" 2 1 in
  let ws := weights_for g example_ctx in
  let ns := candidates g example_ctx (elems pool1) in
  (total ws ns = 3 ∧ nodeWeight ws (Key n) = 3) ∧
  length (filter (λ t, selectNode (λ _, t) g example_ctx (elems pool1) = Ret (inr n))
            (seqZ 0 (total ws ns))) = Z.to_nat (nodeWeight ws (Key n)).
Proof.
  intros g n ws ns. split; [vm_compute; done|].
  apply (@selection_distribution gatewayStrategy _ g example_ctx (elems pool1) n); [done| | | |].
  - change (NoDup ["a"; "b"]). apply NoDup_cons. split; [set_solver|apply NoDup_singleton].
  - split; [repeat constructor; done|vm_compute; done].
  - right. by left.
  - vm_compute. done.
Defined.

(** C29: whenever the decision table and the method routes leave a node of positive weight,
    [GetNode] returns one of them (never an error, a panic or a node outside the pools),
    namely the node whose weight interval the draw falls into. *)
Theorem GetNode_serves `{GoEthereum} {G : Type} `{GatewayLaws G} Int63n (r : Random G) ctx key bc ctx' :
  let c := ChainId ctx in
  let picked := pick bc (default None (chainHeight r !! c)) (pool (archiveNodes r) c)
    (pool (stateNodes r) c) (pool (nativeNodes r) c) (Archive ctx) (bool_decide (key = "native")) in
  let ns := candidates (gateway r) ctx picked in
  let ws := weights_for (gateway r) ctx in
  GetBlockContext ctx = Ret (bc, ctx') → good_weights ws ns → 0 < total ws ns →
  0 ≤ Int63n (total ws ns) < total ws ns →
  ∃ a n b ctx2, ns = a ++ n :: b ∧ GetNode Int63n r ctx key = Ret (inr n, ctx2) ∧
    total ws a ≤ Int63n (total ws ns) < total ws a + nodeWeight ws (Key n) ∧ n ∈ picked.
Proof.
  intros c picked ns ws Hbc Hw Hpos Hr.
  assert (picked ≠ []) as Hne.
  { intros E. unfold ns in Hpos. rewrite E in Hpos.
    pose proof (candidates_sublist (gateway r) ctx []) as Hs. apply sublist_nil_r in Hs.
    rewrite Hs in Hpos. simpl in Hpos. lia. }
  destruct (selectNode_owner Int63n (gateway r) ctx picked Hne Hw Hpos Hr) as (a & n & b & E & Hsel & Hi).
  assert (n ∈ picked) as Hin.
  { eapply sublist_subseteq; [apply candidates_sublist|]. rewrite E. set_solver. }
  exists a, n, b. rewrite GetNode_pick. fold c.
  destruct (consults _ _ _ _) eqn:Ec; simpl.
  - rewrite Hbc. simpl. fold picked. exists ctx'. split_and!; [done| |apply Hi|apply Hi|done].
    assert (selectNode Int63n (gateway r) ctx' picked = selectNode Int63n (gateway r) ctx picked) as ->.
    { unfold GetBlockContext in Hbc. destruct (rc_BlockContext ctx) eqn:Eb; [by simplify_eq|].
      destruct (blockContextDone ctx); [by simplify_eq|].
      destruct (blockContextFn ctx) as [[x| |]|]; simplify_eq/=; done. }
    by rewrite Hsel.
  - exists ctx. rewrite (pick_irrelevant None bc) by done. fold picked. rewrite Hsel. done.
Qed.

Lemma GetNode_serves_witness :
  let r := UpsertNode (NewRandom (Some example_gateway)) "1" NodeTypeState
             (example_node "b" "10.0.0.2" 1 1) in
  ∃ n ctx2, @GetNode pick_eth gatewayStrategy _ (λ _, 2) r example_ctx "" = Ret (inr n, ctx2).
Proof.
  intros r.
  destruct (@GetNode_serves pick_eth gatewayStrategy _ _ (λ _, 2) r example_ctx "" None example_ctx)
    as (a & n & b & ctx2 & _ & E & _); [reflexivity| |vm_compute; done|vm_compute; done|by exists n, ctx2].
  split; [repeat constructor; done|vm_compute; done].
Defined.

(** C35: whatever sequence of upserts and removals the pools go through, no pool lists a key
    twice, native nodes are only in native pools, and archive nodes only in archive pools. *)
Theorem pools_invariant {G : Type} (g : option G)
    (ops : list (bool * string * Node)) :
  selector_ok (foldl (λ r '(up, c, n), if up : bool then UpsertNode r c (NodeType n) n
                                       else RemoveNode r c (NodeType n) n) (NewRandom g) ops).
Proof.
  assert (∀ r : Random G, selector_ok r →
    selector_ok (foldl (λ r '(up, c, n), if up : bool then UpsertNode r c (NodeType n) n
                                         else RemoveNode r c (NodeType n) n) r ops)) as Hg;
    [|apply Hg, NewRandom_ok].
  induction ops as [|[[up c] n] ops IH]; intros r Hr; [done|]. simpl. apply IH.
  destruct up; [by apply UpsertNode_ok|by apply RemoveNode_ok].
Qed.

(** A node whose discovery record changes role from state to archive is added to the
    archive pool but not taken out of the state pool, and deleting the record afterwards
    (with its last role) removes it from the archive pool only: the state pool keeps
    serving the node under that key. *)
Theorem role_change_leaves_node {G : Type} (r : Random G) c (n n' : Node) :
  Source n ≠ "native" → Source n' ≠ "native" → Key n' = Key n →
  let r' := RemoveNode (UpsertNode (UpsertNode r c NodeTypeState n) c NodeTypeArchive n')
              c NodeTypeArchive n' in
  ∃ stale, find_key (pool (stateNodes r') c) (Key n) = Some stale ∧ Addr stale = Addr n.
Proof.
  intros Hn Hn' Hk r'. unfold r', RemoveNode, UpsertNode.
  rewrite !(bool_decide_eq_false_2 (_ = "native")) by done. simpl.
  rewrite pool_upsert, decide_True by done. rewrite UpsertInto_find, bool_decide_eq_true_2 by done.
  eexists. split; [done|]. unfold merge. destruct (find_key _ _) as [e|]; [|done].
  destruct (same_identity e n) eqn:E; [|done]. unfold same_identity in E. b2p. done.
Qed.

Lemma role_change_leaves_node_witness :
  let n := example_node "a" "10.0.0.1" 1 0 in
  let r' := RemoveNode (UpsertNode (UpsertNode (NewRandom (Some example_gateway)) "1" NodeTypeState n)
              "1" NodeTypeArchive n) "1" NodeTypeArchive n in
  ∃ stale, find_key (pool (stateNodes r') "1") "a" = Some stale ∧ Addr stale = Addr n.
Proof.
  intros n. apply (role_change_leaves_node (NewRandom (Some example_gateway)) "1" n n); done.
Defined.
