(* ===== verification/Mirror.v ===== *)
(** * Heights, mirror targets and mirror rate limits

    [lb/jsonrpc/height_map.go], [lb/jsonrpc/mirror_map.go],
    [lb/jsonrpc/mirror_limiter.go] and the mirror target of
    [discovery/discovery.go]. *)

From S2P Require Import Prelude GoStrings.
Local Open Scope Z_scope.

(** ** Heights *)

(** [*hexutil.Big] values may be nil. *)
Abbreviation HeightMap := (gmap string (option Z)) (only parsing).
Definition NewHeightMap : HeightMap := ∅.
Definition SetHeight (hm : HeightMap) (chainId : string) (height : option Z) : HeightMap :=
  <[chainId := height]> hm.
Definition GetHeight (hm : HeightMap) (chainId : string) : option Z := default None (hm !! chainId).

(** ** Mirror targets *)

Record MirrorTarget := mkMirrorTarget {
  mt_ChainId : string; mt_AddrKey : string; mt_Address : string; mt_Port : Z;
  mt_RateLimit : option Z; mt_Deleted : bool }.

Definition URL (m : MirrorTarget) : string :=
  "http://" +:+ mt_Address m +:+ ":" +:+ Itoa (mt_Port m).

Abbreviation mirrorMap := (gmap string (gmap string MirrorTarget)) (only parsing).
Definition NewMirrorMap : mirrorMap := ∅.

Definition AddMirrorTarget (m : mirrorMap) (chainId addrKey : string) (target : MirrorTarget)
    : mirrorMap :=
  <[chainId := <[addrKey := target]> (default ∅ (m !! chainId))]> m.

Definition DeleteMirrorTarget (m : mirrorMap) (chainId addrKey : string) : mirrorMap :=
  match m !! chainId with
  | None => m
  | Some targets =>
      let targets := delete addrKey targets in
      if bool_decide (size targets = 0%nat) then delete chainId m else <[chainId := targets]> m
  end.

(** The order of the targets is the map's iteration order. *)
Definition GetMirrorTargets (m : mirrorMap) (chainId : string) : list MirrorTarget :=
  match m !! chainId with Some targets => (map_to_list targets).*2 | None => [] end.

Definition GetMirrorURLs (m : mirrorMap) (chainId : string) : list string :=
  URL <$> GetMirrorTargets m chainId.

Definition DeleteChainMirrors (m : mirrorMap) (chainId : string) : mirrorMap := delete chainId m.

Definition GetAllMirrors (m : mirrorMap) : gmap string (list MirrorTarget) :=
  omap (λ targets, if bool_decide (size targets = 0%nat) then None
                   else Some ((map_to_list targets).*2)) m.

(** ** Rate limits *)

(** The token-bucket limiter of [golang.org/x/time/rate]: [Allow] answers at a
    time and updates the bucket. *)
Class RateLimiter := {
  Limiter : Type;
  NewLimiter : Z → Z → Limiter;
  Limiter_Allow : Limiter → Z → bool * Limiter }.

Section Limits.
Context `{RateLimiter}.

Definition mirrorLimiter : Type := gmap string Limiter.
Definition NewMirrorLimiter : mirrorLimiter := ∅.

Definition makeKey (chainId mirrorURL : string) : string := chainId +:+ ":" +:+ mirrorURL.

Definition UpdateLimit (ml : mirrorLimiter) (chainId mirrorURL : string) (rps : Z)
    : bool * mirrorLimiter :=
  if bool_decide (chainId = "") || bool_decide (mirrorURL = "") || (rps <? 0) then (false, ml) else
  let key := makeKey chainId mirrorURL in
  if rps =? 0 then (true, delete key ml) else (true, <[key := NewLimiter rps rps]> ml).

Definition RemoveLimit (ml : mirrorLimiter) (chainId mirrorURL : string) : mirrorLimiter :=
  delete (makeKey chainId mirrorURL) ml.

Definition Allow (ml : mirrorLimiter) (now : Z) (chainId mirrorURL : string)
    : bool * mirrorLimiter :=
  let key := makeKey chainId mirrorURL in
  match ml !! key with
  | None => (true, ml)
  | Some limiter =>
      let '(ok, limiter) := Limiter_Allow limiter now in (ok, <[key := limiter]> ml)
  end.

(** The mirror branch of the refresh loop. *)
Definition handleMirror (m : mirrorMap) (ml : mirrorLimiter) (mirror : MirrorTarget)
    : mirrorMap * mirrorLimiter :=
  if mt_Deleted mirror then
    (DeleteMirrorTarget m (mt_ChainId mirror) (mt_AddrKey mirror),
     RemoveLimit ml (mt_ChainId mirror) (URL mirror))
  else
    (AddMirrorTarget m (mt_ChainId mirror) (mt_AddrKey mirror) mirror,
     match mt_RateLimit mirror with
     | Some l => if 0 <? l then (UpdateLimit ml (mt_ChainId mirror) (URL mirror) l).2 else ml
     | None => ml
     end).
End Limits.

(** ** The mirror map as a table of targets *)

Definition mirror_lookup (m : mirrorMap) (c k : string) : option MirrorTarget :=
  m !! c ≫= lookup k.

(** No chain is kept with an empty table. *)
Definition mirrors_ok (m : mirrorMap) : Prop := ∀ c t, m !! c = Some t → t ≠ ∅.

Lemma mirror_lookup_add m c k t c' k' :
  mirror_lookup (AddMirrorTarget m c k t) c' k' =
  if decide (c' = c ∧ k' = k) then Some t else mirror_lookup m c' k'.
Proof.
  unfold mirror_lookup, AddMirrorTarget. destruct (decide (c' = c)) as [->|Hc].
  - rewrite lookup_insert_eq. simpl. destruct (decide (k' = k)) as [->|Hk].
    + rewrite lookup_insert_eq. by rewrite decide_True.
    + rewrite lookup_insert_ne, decide_False by naive_solver.
      by destruct (m !! c); simpl; rewrite ?lookup_empty.
  - rewrite lookup_insert_ne by done. by rewrite decide_False by naive_solver.
Qed.

Lemma mirror_lookup_delete m c k c' k' :
  mirror_lookup (DeleteMirrorTarget m c k) c' k' =
  if decide (c' = c ∧ k' = k) then None else mirror_lookup m c' k'.
Proof.
  unfold mirror_lookup, DeleteMirrorTarget. destruct (m !! c) as [t|] eqn:Et.
  - case_bool_decide as Es.
    + apply map_size_empty_iff in Es. destruct (decide (c' = c)) as [->|Hc].
      * rewrite lookup_delete_eq, Et. simpl. case_decide as Hk; [done|].
        assert (k' ≠ k) by naive_solver. rewrite <- (lookup_delete_ne t k k') by done.
        by rewrite Es, lookup_empty.
      * rewrite lookup_delete_ne by done. by rewrite decide_False by naive_solver.
    + destruct (decide (c' = c)) as [->|Hc].
      * rewrite lookup_insert_eq, Et. simpl. destruct (decide (k' = k)) as [->|Hk].
        -- by rewrite lookup_delete_eq, decide_True.
        -- by rewrite lookup_delete_ne, decide_False by naive_solver.
      * rewrite lookup_insert_ne by done. by rewrite decide_False by naive_solver.
  - case_decide as Hd; [|done]. destruct Hd as [-> ->]. by rewrite Et.
Qed.

Lemma mirrors_ok_add m c k t : mirrors_ok m → mirrors_ok (AddMirrorTarget m c k t).
Proof.
  intros Hm c' t' Ht. unfold AddMirrorTarget in Ht. apply lookup_insert_Some in Ht as [[<- <-]|[_ Ht]].
  - apply insert_non_empty.
  - by eapply Hm.
Qed.

Lemma mirrors_ok_delete m c k : mirrors_ok m → mirrors_ok (DeleteMirrorTarget m c k).
Proof.
  intros Hm c' t' Ht. unfold DeleteMirrorTarget in Ht. destruct (m !! c) as [t|]; [|by eapply Hm].
  case_bool_decide as Es.
  - apply lookup_delete_Some in Ht as [_ Ht]. by eapply Hm.
  - apply lookup_insert_Some in Ht as [[<- <-]|[_ Ht]]; [|by eapply Hm].
    intros E. apply Es. by rewrite E.
Qed.

(** ** Properties *)

(** After any sequence of discovery events the mirror table holds, for each chain and
    address key, exactly the last target published and not deleted since; a chain is listed
    only while it has a target, and its URLs are those of its targets. *)
Theorem mirror_table `{RateLimiter} (ml : mirrorLimiter) (evs : list MirrorTarget) c :
  let m := (foldl (λ s e, handleMirror s.1 s.2 e) (NewMirrorMap, ml) evs).1 in
  let spec := foldl (λ (f : string → string → option MirrorTarget) e c k,
      if decide (c = mt_ChainId e ∧ k = mt_AddrKey e)
      then (if mt_Deleted e then None else Some e) else f c k) (λ _ _, None) evs in
  mirrors_ok m ∧ (∀ k, mirror_lookup m c k = spec c k) ∧
  ∀ u, u ∈ GetMirrorURLs m c ↔ ∃ k t, mirror_lookup m c k = Some t ∧ u = URL t.
Proof.
  intros m spec.
  assert (mirrors_ok m ∧ ∀ c k, mirror_lookup m c k = spec c k) as [Hok Hsp].
  { unfold m, spec.
    assert (mirrors_ok NewMirrorMap ∧ ∀ c k, mirror_lookup NewMirrorMap c k =
      (λ _ _ : string, @None MirrorTarget) c k) as H0.
    { split; [|intros; unfold mirror_lookup, NewMirrorMap; by rewrite lookup_empty].
      intros c0 t Ht. unfold NewMirrorMap in Ht. by rewrite lookup_empty in Ht. }
    revert H0. generalize (λ _ _ : string, @None MirrorTarget). generalize NewMirrorMap ml.
    induction evs as [|e evs IH]; intros m0 l0 f0 [Hm Hf]; [done|]. simpl.
    destruct (handleMirror m0 l0 e) as [m1 l1] eqn:E. apply IH. unfold handleMirror in E.
    destruct (mt_Deleted e); simplify_eq.
    - split; [by apply mirrors_ok_delete|]. intros c' k'. rewrite mirror_lookup_delete, Hf. done.
    - split; [by apply mirrors_ok_add|]. intros c' k'. rewrite mirror_lookup_add, Hf. done. }
  split; [done|]. split; [done|]. intros u. unfold GetMirrorURLs, GetMirrorTargets, mirror_lookup.
  destruct (m !! c) as [t|]; simpl.
  - rewrite list_elem_of_fmap. setoid_rewrite list_elem_of_fmap. split.
    + intros (x & -> & [k y] & -> & Hin%elem_of_map_to_list). eauto.
    + intros (k & x & Hk & ->). exists x. split; [done|]. exists (k, x).
      split; [done|]. by apply elem_of_map_to_list.
  - split; [set_solver|]. by intros (k & x & Hk & _).
Qed.
