(* ===== verification/Refresh.v ===== *)
(** * Keeping the pools up to date

    [lb/node_generation.go], [lb/node_health.go] and the event loop of [lb/lb.go]
    ([BackgroundRefreshNode], [nodeInPool], [applyNodeState]).  The loop handles
    discovery events one at a time; a health check it starts runs beside it and
    publishes its result when it ends, at any later point. *)

From S2P Require Import Prelude GoStrings ChainId LbNode Gateway PickNodes Selector Mirror.
Local Open Scope Z_scope.

(** ** Generations ([lb/node_generation.go]) *)

(** [(chainId, nodeKey, native)] *)
Definition nodeIdentity : Type := string * string * bool.

Record nodeGenerations := mkGens { seq : Z; gens : gmap nodeIdentity Z }.

Definition newNodeGenerations : nodeGenerations := mkGens 0 ∅.

Definition Bump (n : nodeGenerations) (id : nodeIdentity) : Z * nodeGenerations :=
  let seq := wrap_uint64 (seq n + 1) in
  (seq, mkGens seq (<[id := seq]> (gens n))).

Definition Forget (n : nodeGenerations) (id : nodeIdentity) : nodeGenerations :=
  mkGens (seq n) (delete id (gens n)).

(** A missing entry reads as 0. *)
Definition current (n : nodeGenerations) (id : nodeIdentity) : Z := default 0 (gens n !! id).

Definition ApplyIfCurrent {A : Type} (n : nodeGenerations) (id : nodeIdentity) (gen : Z)
    (apply : A → A) (a : A) : bool * A :=
  if bool_decide (current n id ≠ gen) then (false, a) else (true, apply a).

(** ** Health checks ([lb/node_health.go]) *)

Record TargetNode := mkTargetNode {
  tn_ChainId : string; tn_StateType : Z; tn_Address : string; tn_Port : Z; tn_NodeType : Z;
  tn_ChangeType : ChangeType; tn_NodeKey : string; tn_Weight : Z; tn_Source : string }.

(** What the node answers to one probe: no response, or a status and a body
    (which may fail to read). *)
Inductive HealthReply := ProbeFailed | Replied (status : Z) (body : option string).

(** [json.Unmarshal] into the probe's response type: whether it has an error
    member, and the raw result. *)
Class HealthJson := { UnmarshalHealth : string → option (bool * string) }.

Definition healthMethod (n : Node) : string :=
  if bool_decide (Source n = "native") then "eth_blockNumber" else "getLatestBlock".

Definition processHealthCheck `{HealthJson} (reply : HealthReply) : bool :=
  match reply with
  | ProbeFailed => false
  | Replied status body =>
      if negb (status =? 200) then false else
      match body with
      | None => false
      | Some body =>
          match UnmarshalHealth body with
          | None => false
          | Some (has_error, result) =>
              if has_error then false else negb (bool_decide (result = ""))
          end
      end
  end.

(** The probe loop.  Each attempt is its reply and the time elapsed since the
    first one started; running out of listed attempts is "still probing". *)
Fixpoint probeLoop `{HealthJson} (maxWaitTime : Z) (n : Node) (attempts : list (HealthReply * Z))
    : go (option Node) :=
  match attempts with
  | [] => NoFuel
  | (reply, elapsed) :: attempts =>
      if processHealthCheck reply then Ret (Some n) else
      if maxWaitTime <=? elapsed then Ret None else probeLoop maxWaitTime n attempts
  end.

Definition CheckNodeHealth `{ProxyLibrary} `{HealthJson} (maxWaitTime : Z) (ref : nat)
    (tempNode : TargetNode) (attempts : list (HealthReply * Z)) : go (option Node) :=
  match New ref (tn_NodeKey tempNode) (tn_Address tempNode) (tn_Port tempNode) (tn_Weight tempNode)
          (tn_NodeType tempNode) [WithSource (tn_Source tempNode)] with
  | None => Ret None
  | Some targetNode => probeLoop maxWaitTime (SetState targetNode (tn_StateType tempNode)) attempts
  end.

(** ** The event loop ([lb/lb.go]) *)

(** A health check in flight: what its goroutine captured. *)
Record check := mkCheck {
  ck_id : nodeIdentity; ck_chain : string; ck_role : Z; ck_node : TargetNode; ck_gen : Z }.

Record ChainHeight := mkChainHeight { ch_ChainId : string; ch_LatestBlockNumber : option Z }.

Section Loop.
Context `{ProxyLibrary} `{RateLimiter}.

(** The gateway strategy is shared with the selector, which holds it here;
    [next_ref] names the next proxy object. *)
Record LoadBalancer := mkLoadBalancer {
  NodeSelector : Random gatewayStrategy;
  nodeGens : nodeGenerations;
  inflight : list check;
  lb_HeightMap : gmap string (option Z);
  lb_MirrorMap : gmap string (gmap string MirrorTarget);
  MirrorLimiter : mirrorLimiter;
  chainVersionRouter : ChainVersionRouter;
  next_ref : nat }.

#[export] Instance LoadBalancer_expands : Expands LoadBalancer := λ lb,
  mkLoadBalancer (NodeSelector lb) (nodeGens lb) (inflight lb) (lb_HeightMap lb) (lb_MirrorMap lb)
    (MirrorLimiter lb) (chainVersionRouter lb) (next_ref lb).

Definition NewLoadBalancer : LoadBalancer :=
  mkLoadBalancer (NewRandom (Some NewGatewayStrategy)) newNodeGenerations [] NewHeightMap
    NewMirrorMap NewMirrorLimiter NewChainVersionRouter 0.

Definition identity_of (tn : TargetNode) : nodeIdentity :=
  (tn_ChainId tn, tn_NodeKey tn, bool_decide (tn_Source tn = "native")).

Definition nodeInPool (lb : LoadBalancer) (id : nodeIdentity) : bool :=
  let '(chainId, nodeKey, native) := id in
  existsb (λ n, bool_decide (Key n = nodeKey)
                && Bool.eqb (bool_decide (Source n = "native")) native)
    (GetAllNodes (NodeSelector lb) chainId).1.

Definition newTargetNode (ref : nat) (tn : TargetNode) (weight : Z) : option Node :=
  n ← New ref (tn_NodeKey tn) (tn_Address tn) (tn_Port tn) weight (tn_NodeType tn)
        [WithSource (tn_Source tn)];
  Some (SetState n (tn_StateType tn)).

Definition applyNodeState (lb : LoadBalancer) (chainId : string) (role : Z) (update : TargetNode)
    : LoadBalancer :=
  match newTargetNode (next_ref lb) update (tn_Weight update) with
  | None => lb
  | Some node =>
      lb <| NodeSelector := UpsertNode (NodeSelector lb) chainId role node |>
         <| next_ref := S (next_ref lb) |>
  end.

(** The node case of the loop. *)
Definition handleNode (lb : LoadBalancer) (tempNode : TargetNode) : LoadBalancer :=
  let chainId := tn_ChainId tempNode in
  let role := tn_NodeType tempNode in
  let nodeId := identity_of tempNode in
  match tn_ChangeType tempNode with
  | EVENT_PUT =>
      let '(gen, gs) := Bump (nodeGens lb) nodeId in
      let lb := lb <| nodeGens := gs |> in
      if bool_decide (tn_StateType tempNode ≠ StateAvailable) && nodeInPool lb nodeId then
        applyNodeState lb chainId role tempNode
      else
        lb <| inflight := inflight lb ++ [mkCheck nodeId chainId role tempNode gen] |>
  | EVENT_DELETE =>
      let lb := lb <| nodeGens := Forget (nodeGens lb) nodeId |> in
      match newTargetNode (next_ref lb) tempNode DefaultWeight with
      | None => lb
      | Some targetNode =>
          lb <| NodeSelector := RemoveNode (NodeSelector lb) chainId role targetNode |>
             <| next_ref := S (next_ref lb) |>
      end
  end.

(** The goroutine's end: check [i] finished with [passed]. *)
Definition finishCheck (lb : LoadBalancer) (i : nat) (passed : bool) : LoadBalancer :=
  match inflight lb !! i with
  | None => lb
  | Some ck =>
      let lb := lb <| inflight := delete i (inflight lb) |> in
      match newTargetNode (next_ref lb) (ck_node ck) (tn_Weight (ck_node ck)) with
      | None => lb
      | Some targetNode =>
          let lb := lb <| next_ref := S (next_ref lb) |> in
          if negb passed then lb else
          let '(_, sel) := ApplyIfCurrent (nodeGens lb) (ck_id ck) (ck_gen ck)
            (λ s, UpsertNode s (ck_chain ck) (ck_role ck) targetNode) (NodeSelector lb) in
          lb <| NodeSelector := sel |>
      end
  end.

Definition handleHeight (lb : LoadBalancer) (h : ChainHeight) : LoadBalancer :=
  lb <| lb_HeightMap := SetHeight (lb_HeightMap lb) (ch_ChainId h) (ch_LatestBlockNumber h) |>
     <| NodeSelector :=
          UpdateChainHeight (NodeSelector lb) (ch_ChainId h) (ch_LatestBlockNumber h) |>.

Definition handleGateway (lb : LoadBalancer) (g : Gateway) : LoadBalancer :=
  let update s := match gw_ChangeType g with
                  | EVENT_PUT => UpdateGateway s (gw_ChainId g) g
                  | EVENT_DELETE => DeleteGateway s (gw_ChainId g)
                  end in
  lb <| NodeSelector :=
       (NodeSelector lb) <| gateway := update <$> gateway (NodeSelector lb) |> |>.

Definition handleMirrorEvent (lb : LoadBalancer) (m : MirrorTarget) : LoadBalancer :=
  let '(mm, ml) := handleMirror (lb_MirrorMap lb) (MirrorLimiter lb) m in
  lb <| lb_MirrorMap := mm |> <| MirrorLimiter := ml |>.

Definition handleVersion (lb : LoadBalancer) (v : option ChainVersion) : LoadBalancer :=
  lb <| chainVersionRouter := handleChainVersionUpdate (chainVersionRouter lb) v |>.

(** What can happen next: the loop takes an event, or a check ends. *)
Inductive action :=
| ANode (tn : TargetNode)
| AHeight (h : ChainHeight)
| AGateway (g : Gateway)
| AMirror (m : MirrorTarget)
| AVersion (v : option ChainVersion)
| ACheck (i : nat) (passed : bool).

Definition BackgroundRefreshNode (lb : LoadBalancer) (a : action) : LoadBalancer :=
  match a with
  | ANode tn => handleNode lb tn
  | AHeight h => handleHeight lb h
  | AGateway g => handleGateway lb g
  | AMirror m => handleMirrorEvent lb m
  | AVersion v => handleVersion lb v
  | ACheck i passed => finishCheck lb i passed
  end.

(** Runs: any interleaving of events and check endings. *)
Inductive run : LoadBalancer → list action → LoadBalancer → Prop :=
| run_nil lb : run lb [] lb
| run_snoc lb acts lb1 a : run lb acts lb1 → run lb (acts ++ [a]) (BackgroundRefreshNode lb1 a).
End Loop.

(** ** Which pool entry an operation touches *)

(** The pool entries of a node's identity: (archive, state), or (native, none). *)
Definition view {G} (r : Random G) (id : nodeIdentity) : option Node * option Node :=
  let '(c, k, native) := id in
  if native : bool then (find_key (pool (nativeNodes r) c) k, None)
  else (find_key (pool (archiveNodes r) c) k, find_key (pool (stateNodes r) c) k).

Definition node_id (c : string) (n : Node) : nodeIdentity :=
  (c, Key n, bool_decide (Source n = "native")).

(** The entry a node of a role is upserted to. *)
Definition entry {G} (r : Random G) (id : nodeIdentity) (role : Z) : option Node :=
  let '(_, _, native) := id in
  if native : bool then (view r id).1
  else if role =? NodeTypeArchive then (view r id).1 else (view r id).2.

Lemma RemoveKey_find_ne nodes key k : k ≠ key → find_key (RemoveKey nodes key) k = find_key nodes k.
Proof.
  intros Hne. induction nodes as [|e nodes IH]; simpl; [done|].
  destruct (bool_decide (Key e = key)) eqn:E; b2p.
  - by rewrite bool_decide_eq_false_2 by congruence.
  - simpl. by rewrite IH.
Qed.

Lemma find_upsert_ne m c n c' k :
  (c, Key n) ≠ (c', k) → find_key (pool (upsert_pool m c n) c') k = find_key (pool m c') k.
Proof.
  intros Hne. rewrite pool_upsert. case_decide as Hc; [|done]. subst c'.
  rewrite UpsertInto_find. by rewrite bool_decide_eq_false_2 by congruence.
Qed.

Lemma find_remove_ne m c n c' k :
  (c, Key n) ≠ (c', k) → find_key (pool (remove_pool m c n) c') k = find_key (pool m c') k.
Proof.
  intros Hne. rewrite pool_remove. case_decide as Hc; [|done]. subst c'.
  apply RemoveKey_find_ne. congruence.
Qed.

Lemma UpsertNode_view {G} (r : Random G) c role n id :
  node_id c n ≠ id → view (UpsertNode r c role n) id = view r id.
Proof.
  unfold view, UpsertNode, node_id. destruct id as [[c' k] native]. intros Hne.
  case_bool_decide; [|destruct (role =? NodeTypeArchive)]; simpl; destruct native; try done;
    rewrite find_upsert_ne by congruence; done.
Qed.

Lemma RemoveNode_view {G} (r : Random G) c role n id :
  node_id c n ≠ id → view (RemoveNode r c role n) id = view r id.
Proof.
  unfold view, RemoveNode, node_id. destruct id as [[c' k] native]. intros Hne.
  case_bool_decide; [|destruct (role =? NodeTypeArchive)]; simpl; destruct native; try done;
    rewrite find_remove_ne by congruence; done.
Qed.

Lemma UpsertNode_entry {G} (r : Random G) c role n :
  entry (UpsertNode r c role n) (node_id c n) role =
  Some (merge (entry r (node_id c n) role) n).
Proof.
  unfold entry, view, UpsertNode, node_id.
  case_bool_decide; [|destruct (role =? NodeTypeArchive)]; simpl;
    rewrite pool_upsert, decide_True by done; rewrite UpsertInto_find, bool_decide_eq_true_2 by done; done.
Qed.

Lemma RemoveNode_entry {G} (r : Random G) c role n :
  selector_ok r → entry (RemoveNode r c role n) (node_id c n) role = None.
Proof.
  intros Hok. destruct (Hok c) as ([Ha _] & [Hs _] & [Hn _]).
  unfold entry, view, RemoveNode, node_id.
  case_bool_decide; [|destruct (role =? NodeTypeArchive)]; simpl;
    rewrite pool_remove, decide_True by done; rewrite RemoveKey_find by done;
    by rewrite bool_decide_eq_true_2 by done.
Qed.

Lemma view_entry {G} (r r' : Random G) id role :
  view r' id = view r id → entry r' id role = entry r id role.
Proof. unfold entry. intros ->. done. Qed.

(** ** Invariants of a run *)

Section Invariants.
Context `{ProxyLibrary} `{RateLimiter}.

Lemma newTargetNode_id ref tn w n :
  newTargetNode ref tn w = Some n →
  node_id (tn_ChainId tn) n = identity_of tn ∧ NodeType n = tn_NodeType tn ∧
  State n = tn_StateType tn.
Proof.
  unfold newTargetNode. intros (m & Hm & Hn)%bind_Some. injection Hn as <-.
  apply foldl_New in Hm as (Hk & _ & Ht & Hs & _). simpl. unfold node_id, identity_of. simpl.
  rewrite Hk, Hs. split_and!; [|done|done]. f_equal. apply bool_decide_ext.
  case_bool_decide as E; [rewrite E; by split|done].
Qed.

(** Generations in use are positive and at most [seq], no two identities share
    one, and a check carries what its event said. *)
Record run_ok (lb : LoadBalancer) : Prop := {
  ok_gens id g : gens (nodeGens lb) !! id = Some g → 1 ≤ g ≤ seq (nodeGens lb);
  ok_checks ck : ck ∈ inflight lb →
    1 ≤ ck_gen ck ≤ seq (nodeGens lb) ∧ ck_id ck = identity_of (ck_node ck) ∧
    ck_chain ck = tn_ChainId (ck_node ck) ∧ ck_role ck = tn_NodeType (ck_node ck);
  ok_seq : 0 ≤ seq (nodeGens lb);
  ok_pools : selector_ok (NodeSelector lb) }.

Definition quiet (id : nodeIdentity) (lb : LoadBalancer) : Prop :=
  ∀ ck, ck ∈ inflight lb → ck_id ck = id → current (nodeGens lb) id ≠ ck_gen ck.

Definition touches (id : nodeIdentity) (a : action) : Prop :=
  match a with ANode tn => identity_of tn = id | _ => False end.

Lemma Bump_other n id id' :
  id' ≠ id → current (Bump n id).2 id' = current n id'.
Proof. intros. unfold current. simpl. by rewrite lookup_insert_ne. Qed.

Lemma Forget_other n id id' : id' ≠ id → current (Forget n id) id' = current n id'.
Proof. intros. unfold current. simpl. by rewrite lookup_delete_ne. Qed.

Lemma applyNodeState_frame lb c role tn :
  nodeGens (applyNodeState lb c role tn) = nodeGens lb ∧
  inflight (applyNodeState lb c role tn) = inflight lb.
Proof. unfold applyNodeState. case_match; done. Qed.

Lemma applyNodeState_view lb tn id :
  identity_of tn ≠ id →
  view (NodeSelector (applyNodeState lb (tn_ChainId tn) (tn_NodeType tn) tn)) id
  = view (NodeSelector lb) id.
Proof.
  intros Hne. unfold applyNodeState. destruct (newTargetNode _ _ _) as [n|] eqn:En; [|done]. simpl.
  apply UpsertNode_view. apply newTargetNode_id in En as [-> _]. done.
Qed.

(** An event of another node. *)
Lemma handleNode_other lb tn id :
  identity_of tn ≠ id →
  view (NodeSelector (handleNode lb tn)) id = view (NodeSelector lb) id ∧
  current (nodeGens (handleNode lb tn)) id = current (nodeGens lb) id ∧
  (∀ ck, ck ∈ inflight (handleNode lb tn) → ck_id ck = id → ck ∈ inflight lb).
Proof.
  intros Hne. unfold handleNode. destruct (tn_ChangeType tn).
  - destruct (Bump _ _) as [gen gs] eqn:Eb.
    assert (current gs id = current (nodeGens lb) id) as Hc.
    { replace gs with (Bump (nodeGens lb) (identity_of tn)).2 by (by rewrite Eb).
      by apply Bump_other. }
    case_match.
    + destruct (applyNodeState_frame (lb <| nodeGens := gs |>) (tn_ChainId tn) (tn_NodeType tn) tn)
        as [-> ->]. rewrite applyNodeState_view by done. done.
    + simpl. split_and!; [done|done|]. intros ck Hck Hid. apply elem_of_app in Hck as [Hck|Hck]; [done|].
      apply list_elem_of_singleton in Hck. subst ck. simpl in Hid. congruence.
  - destruct (newTargetNode _ _ _) as [n|] eqn:En; simpl; split_and!; try done;
      try (by apply Forget_other).
    apply RemoveNode_view. apply newTargetNode_id in En as [-> _]. done.
Qed.

(** A check that ends, for an identity whose pending checks are all stale. *)
Lemma finishCheck_quiet lb i passed id :
  run_ok lb → quiet id lb →
  view (NodeSelector (finishCheck lb i passed)) id = view (NodeSelector lb) id ∧
  current (nodeGens (finishCheck lb i passed)) id = current (nodeGens lb) id ∧
  (∀ ck, ck ∈ inflight (finishCheck lb i passed) → ck ∈ inflight lb).
Proof.
  intros Hok Hq. unfold finishCheck. destruct (inflight lb !! i) as [ck|] eqn:Ei; [|done].
  assert (∀ x, x ∈ delete i (inflight lb) → x ∈ inflight lb) as Hsub.
  { intros x. apply sublist_subseteq, sublist_delete. }
  apply list_elem_of_lookup_2 in Ei.
  destruct (ok_checks lb Hok ck Ei) as (_ & Hid & Hch & Hro).
  destruct (newTargetNode _ _ _) as [n|] eqn:En; [|done]. destruct passed; [|done]. simpl.
  unfold ApplyIfCurrent. case_bool_decide as Ec; [done|]. simpl. split_and!; [|done|done].
  apply UpsertNode_view. apply newTargetNode_id in En as [Hn _]. rewrite Hch, Hn.
  intros E. apply (Hq ck Ei); [congruence|]. rewrite <- E, <- Hid. done.
Qed.

Lemma handleHeight_view lb h id :
  view (NodeSelector (handleHeight lb h)) id = view (NodeSelector lb) id.
Proof. by destruct id as [[c k] []]. Qed.

Lemma handleGateway_view lb g id :
  view (NodeSelector (handleGateway lb g)) id = view (NodeSelector lb) id.
Proof. by destruct id as [[c k] []]. Qed.

(** Every action other than an event of the node itself leaves its entries and
    its generation alone, once no current check is pending for it. *)
Lemma quiet_step lb a id :
  run_ok lb → quiet id lb → ¬ touches id a →
  let lb' := BackgroundRefreshNode lb a in
  quiet id lb' ∧ view (NodeSelector lb') id = view (NodeSelector lb) id.
Proof.
  intros Hok Hq Ha. destruct a as [tn|h|g|m|v|i passed]; simpl in Ha |- *.
  - destruct (handleNode_other lb tn id Ha) as (Hv & Hc & Hi). split; [|done].
    intros ck Hck Hid. rewrite Hc. auto.
  - split; [done|apply handleHeight_view].
  - split; [done|apply handleGateway_view].
  - unfold handleMirrorEvent. destruct (handleMirror _ _ _). done.
  - done.
  - destruct (finishCheck_quiet lb i passed id Hok Hq) as (Hv & Hc & Hi). split; [|done].
    intros ck Hck Hid. rewrite Hc. auto.
Qed.

(** *** The invariant is kept *)

Lemma run_ok_new : run_ok NewLoadBalancer.
Proof.
  constructor; simpl; [|set_solver|done|apply NewRandom_ok].
  intros id g Hg. by rewrite lookup_empty in Hg.
Qed.

Lemma selector_ok_gateway (r : Random gatewayStrategy) f : selector_ok r → selector_ok (r <| gateway := f |>).
Proof. intros Hr c. apply (Hr c). Qed.

Lemma run_ok_same lb lb' :
  nodeGens lb' = nodeGens lb → (∀ ck, ck ∈ inflight lb' → ck ∈ inflight lb) →
  selector_ok (NodeSelector lb') → run_ok lb → run_ok lb'.
Proof.
  intros Hg Hi Hs Hok. constructor; rewrite ?Hg; auto.
  - apply (ok_gens lb Hok).
  - intros ck Hck. apply (ok_checks lb Hok). auto.
  - apply (ok_seq lb Hok).
Qed.

Lemma upsert_target_ok r ref tn w n :
  newTargetNode ref tn w = Some n → selector_ok r →
  selector_ok (UpsertNode r (tn_ChainId tn) (tn_NodeType tn) n : Random gatewayStrategy).
Proof. intros Hn. apply UpsertNode_ok. by apply newTargetNode_id in Hn as (_ & -> & _). Qed.

Lemma run_ok_bump lb id :
  run_ok lb → seq (nodeGens lb) + 1 < 2 ^ 64 →
  let '(gen, gs) := Bump (nodeGens lb) id in
  gen = seq (nodeGens lb) + 1 ∧ run_ok (lb <| nodeGens := gs |>).
Proof.
  intros Hok Hlt. simpl. pose proof (ok_seq lb Hok). rewrite wrap_uint64_id by lia. split; [done|].
  constructor; simpl; [| |lia|apply (ok_pools lb Hok)].
  - intros id' g [[<- <-]|[_ Hg]]%lookup_insert_Some; [lia|].
    pose proof (ok_gens lb Hok id' g Hg). lia.
  - intros ck Hck. destruct (ok_checks lb Hok ck Hck) as (? & ? & ? & ?). split_and!; auto; lia.
Qed.

Lemma run_ok_handleNode lb tn :
  run_ok lb → seq (nodeGens lb) + 1 < 2 ^ 64 →
  run_ok (handleNode lb tn) ∧ seq (nodeGens (handleNode lb tn)) ≤ seq (nodeGens lb) + 1.
Proof.
  intros Hok Hlt. unfold handleNode. destruct (tn_ChangeType tn).
  - pose proof (run_ok_bump lb (identity_of tn) Hok Hlt) as Hb.
    destruct (Bump (nodeGens lb) (identity_of tn)) as [gen gs] eqn:Eb. destruct Hb as [Hgen Hb].
    assert (seq gs = gen) as Hseq by (injection Eb as <- <-; done).
    destruct (bool_decide _ && nodeInPool _ _).
    + destruct (applyNodeState_frame (lb <| nodeGens := gs |>) (tn_ChainId tn) (tn_NodeType tn) tn)
        as [Eg Ei]. split; [|rewrite Eg; simpl; lia].
      eapply run_ok_same; [exact Eg|by rewrite Ei| |done]. unfold applyNodeState.
      destruct (newTargetNode _ _ _) as [n|] eqn:En; [|apply (ok_pools lb Hok)].
      eapply upsert_target_ok; [exact En|apply (ok_pools lb Hok)].
    + split; [|simpl; lia]. constructor; simpl; [apply (ok_gens _ Hb)| |apply (ok_seq _ Hb)|apply (ok_pools lb Hok)].
      intros ck [Hck|Hck]%elem_of_app; [by apply (ok_checks _ Hb)|].
      apply list_elem_of_singleton in Hck as ->. simpl. pose proof (ok_seq lb Hok).
      split_and!; [lia|lia|done|done|done].
  - assert (run_ok (lb <| nodeGens := Forget (nodeGens lb) (identity_of tn) |>)) as Hf.
    { constructor; simpl; [|apply (ok_checks lb Hok)|apply (ok_seq lb Hok)|apply (ok_pools lb Hok)].
      intros id g [_ Hg]%lookup_delete_Some. by apply (ok_gens lb Hok id). }
    destruct (newTargetNode _ _ _) as [n|]; simpl; (split; [|lia]); [|exact Hf].
    eapply run_ok_same; [| | |exact Hf]; simpl; [done|done|]. apply RemoveNode_ok, (ok_pools lb Hok).
Qed.

Lemma run_ok_finishCheck lb i passed :
  run_ok lb → run_ok (finishCheck lb i passed) ∧
  seq (nodeGens (finishCheck lb i passed)) = seq (nodeGens lb).
Proof.
  intros Hok. unfold finishCheck. destruct (inflight lb !! i) as [ck|] eqn:Ei; [|done].
  assert (∀ x, x ∈ delete i (inflight lb) → x ∈ inflight lb) as Hsub.
  { intros x. apply sublist_subseteq, sublist_delete. }
  apply list_elem_of_lookup_2 in Ei. destruct (ok_checks lb Hok ck Ei) as (_ & _ & Hch & Hro).
  pose proof (ok_pools lb Hok) as Hp.
  destruct (newTargetNode _ _ _) as [n|] eqn:En;
    [destruct passed; cbn [negb]|]; [unfold ApplyIfCurrent; case_bool_decide| |];
    (split; [eapply run_ok_same; [| | |exact Hok]; simpl; try done|done]).
  rewrite Hch, Hro. eapply upsert_target_ok; done.
Qed.

Lemma run_ok_step lb a :
  run_ok lb → seq (nodeGens lb) + 1 < 2 ^ 64 →
  run_ok (BackgroundRefreshNode lb a) ∧
  seq (nodeGens (BackgroundRefreshNode lb a)) ≤ seq (nodeGens lb) + 1.
Proof.
  intros Hok Hlt. destruct a as [tn|h|g|m|v|i passed]; simpl.
  - by apply run_ok_handleNode.
  - split; [|lia]. eapply run_ok_same; [| | |exact Hok]; try done. intros c. apply (ok_pools lb Hok c).
  - split; [|lia]. eapply run_ok_same; [| | |exact Hok]; try done. intros c. apply (ok_pools lb Hok c).
  - unfold handleMirrorEvent. destruct (handleMirror _ _ _). split; [|simpl; lia].
    eapply run_ok_same; [| | |exact Hok]; try done. intros c. apply (ok_pools lb Hok c).
  - split; [|simpl; lia]. eapply run_ok_same; [| | |exact Hok]; try done. intros c. apply (ok_pools lb Hok c).
  - destruct (run_ok_finishCheck lb i passed Hok) as [? ->]. split; [done|lia].
Qed.

(** Fewer events than generations: the counter does not wrap. *)
Lemma run_ok_run lb0 acts lb :
  run lb0 acts lb → run_ok lb0 → seq (nodeGens lb0) + Z.of_nat (length acts) < 2 ^ 64 →
  run_ok lb ∧ seq (nodeGens lb) ≤ seq (nodeGens lb0) + Z.of_nat (length acts).
Proof.
  induction 1 as [lb|lb0 acts lb1 a Hrun IH]; intros Hok Hlt; [split; [done|simpl; lia]|].
  rewrite length_app in *. simpl in *. destruct IH as [Hok1 Hs1]; [done|lia|].
  destruct (run_ok_step lb1 a Hok1) as [Hok2 Hs2]; [lia|]. split; [done|lia].
Qed.

Lemma quiet_run lb0 acts lb id :
  run lb0 acts lb → run_ok lb0 → seq (nodeGens lb0) + Z.of_nat (length acts) < 2 ^ 64 →
  quiet id lb0 → Forall (λ a, ¬ touches id a) acts →
  quiet id lb ∧ view (NodeSelector lb) id = view (NodeSelector lb0) id.
Proof.
  induction 1 as [lb|lb0 acts lb1 a Hrun IH]; intros Hok Hlt Hq Hall; [done|].
  rewrite length_app in Hlt. simpl in Hlt. apply Forall_app in Hall as [Hall [Ha _]%Forall_cons].
  destruct IH as [Hq1 Hv1]; [done|lia|done|done|].
  destruct (run_ok_run _ _ _ Hrun Hok) as [Hok1 _]; [lia|].
  destruct (quiet_step lb1 a id Hok1 Hq1 Ha) as [Hq2 Hv2]. split; [done|]. by rewrite Hv2.
Qed.

(** *** Checks belong to the latest event *)

Definition event_of (id : nodeIdentity) (a : action) : option TargetNode :=
  match a with
  | ANode tn => if decide (identity_of tn = id) then Some tn else None
  | _ => None
  end.

(** The last discovery event of a node in a run. *)
Definition last_event (id : nodeIdentity) (acts : list action) : option TargetNode :=
  last (omap (event_of id) acts).

Lemma last_event_snoc id acts a :
  last_event id (acts ++ [a]) =
  match event_of id a with Some tn => Some tn | None => last_event id acts end.
Proof.
  unfold last_event. rewrite omap_app, last_app. simpl. destruct (event_of id a); done.
Qed.

Lemma handleNode_current lb tn :
  run_ok lb → seq (nodeGens lb) + 1 < 2 ^ 64 →
  ∀ ck, ck ∈ inflight (handleNode lb tn) → ck_id ck = identity_of tn →
  current (nodeGens (handleNode lb tn)) (identity_of tn) = ck_gen ck →
  ck_node ck = tn ∧ tn_ChangeType tn = EVENT_PUT.
Proof.
  intros Hok Hlt ck. pose proof (ok_checks lb Hok ck) as Hck. unfold handleNode.
  destruct (tn_ChangeType tn).
  - destruct (Bump _ _) as [gen gs] eqn:Eb. injection Eb as Hgen Hgs.
    pose proof (ok_seq lb Hok). rewrite wrap_uint64_id in Hgen, Hgs by lia.
    assert (current gs (identity_of tn) = gen) as Hcur.
    { subst gs. unfold current. simpl. rewrite lookup_insert_eq. simpl. done. }
    destruct (bool_decide _ && nodeInPool _ _).
    + destruct (applyNodeState_frame (lb <| nodeGens := gs |>) (tn_ChainId tn) (tn_NodeType tn) tn)
        as [-> ->]. simpl. rewrite Hcur. intros Hin _ Hg. destruct (Hck Hin) as [? _]. lia.
    + simpl. rewrite Hcur. intros [Hin|Hin]%elem_of_app _ Hg; [destruct (Hck Hin) as [? _]; lia|].
      apply list_elem_of_singleton in Hin as ->. done.
  - assert (current (Forget (nodeGens lb) (identity_of tn)) (identity_of tn) = 0) as Hcur.
    { unfold current. simpl. by rewrite lookup_delete_eq. }
    destruct (newTargetNode _ _ _); simpl; rewrite Hcur; intros Hin _ Hg;
      destruct (Hck Hin) as [? _]; lia.
Qed.

(** A downgrade of a pooled node leaves no current check behind. *)
Lemma handleNode_downgrade lb tn :
  run_ok lb → seq (nodeGens lb) + 1 < 2 ^ 64 → tn_ChangeType tn = EVENT_PUT →
  tn_StateType tn ≠ StateAvailable → nodeInPool lb (identity_of tn) = true →
  quiet (identity_of tn) (handleNode lb tn) ∧
  ∃ gs, handleNode lb tn =
        applyNodeState (lb <| nodeGens := gs |>) (tn_ChainId tn) (tn_NodeType tn) tn.
Proof.
  intros Hok Hlt Hput Hst Hin.
  set (gs := (Bump (nodeGens lb) (identity_of tn)).2).
  assert (handleNode lb tn =
    applyNodeState (lb <| nodeGens := gs |>) (tn_ChainId tn) (tn_NodeType tn) tn) as Eh.
  { unfold handleNode, gs. rewrite Hput, bool_decide_eq_true_2 by done. cbn [Bump snd andb].
    change (nodeInPool (lb <| nodeGens := _ |>) (identity_of tn)) with (nodeInPool lb (identity_of tn)).
    by rewrite Hin. }
  split; [|eauto]. rewrite Eh. intros ck Hck _ Hcur.
  destruct (applyNodeState_frame (lb <| nodeGens := gs |>) (tn_ChainId tn) (tn_NodeType tn) tn)
    as [Eg Ei]. rewrite Ei in Hck. rewrite Eg in Hcur. simpl in Hck, Hcur.
  destruct (ok_checks lb Hok ck Hck) as [Hb _]. pose proof (ok_seq lb Hok).
  revert Hcur. unfold gs, current. simpl. rewrite wrap_uint64_id, lookup_insert_eq by lia. simpl. lia.
Qed.

Lemma current_latest acts lb :
  run NewLoadBalancer acts lb → Z.of_nat (length acts) < 2 ^ 64 →
  ∀ ck, ck ∈ inflight lb → current (nodeGens lb) (ck_id ck) = ck_gen ck →
  last_event (ck_id ck) acts = Some (ck_node ck) ∧ tn_ChangeType (ck_node ck) = EVENT_PUT.
Proof.
  remember NewLoadBalancer as lb0 eqn:E0. induction 1 as [lb|lb0 acts lb1 a Hrun IH];
    intros Hlt ck Hck Hcur; subst; [by apply not_elem_of_nil in Hck|].
  rewrite length_app in Hlt. simpl in Hlt. specialize (IH eq_refl ltac:(lia)).
  destruct (run_ok_run _ _ _ Hrun run_ok_new) as [Hok1 Hs1]; [simpl; lia|]. simpl in Hs1.
  rewrite last_event_snoc. destruct a as [tn|h|g|m|v|i passed]; simpl in Hck, Hcur |- *; try by apply IH.
  - case_decide as Eid.
    + destruct (handleNode_current lb1 tn Hok1 ltac:(lia) ck Hck) as [-> Hp]; [done|congruence|done].
    + destruct (handleNode_other lb1 tn _ Eid) as (_ & Hc & Hi). apply IH; [by apply Hi|congruence].
  - unfold handleMirrorEvent in Hck, Hcur. destruct (handleMirror _ _ _). by apply IH.
  - assert (nodeGens (finishCheck lb1 i passed) = nodeGens lb1 ∧
            ck ∈ inflight lb1) as [Eg Hin].
    { revert Hck. unfold finishCheck, ApplyIfCurrent.
      destruct (inflight lb1 !! i); [|done].
      assert (∀ x, x ∈ delete i (inflight lb1) → x ∈ inflight lb1)
        by (intros x; apply sublist_subseteq, sublist_delete).
      destruct (newTargetNode _ _ _), passed; simpl; try case_bool_decide; simpl; auto. }
    apply IH; [done|congruence].
Qed.
(** *** A current check stays current *)

Lemma run_trans lb0 acts lb acts' lb' :
  run lb0 acts lb → run lb acts' lb' → run lb0 (acts ++ acts') lb'.
Proof.
  intros H1 H2. induction H2 as [lb|lb acts' lb1 a _ IH]; [by rewrite (right_id_L [] (++))|].
  rewrite (assoc_L (++)). apply run_snoc. auto.
Qed.

Lemma run_exec lb acts : run lb acts (foldl BackgroundRefreshNode lb acts).
Proof.
  induction acts as [|a acts IH] using rev_ind; [constructor|].
  rewrite foldl_app. simpl. by constructor.
Qed.

Lemma finishCheck_gens lb i passed : nodeGens (finishCheck lb i passed) = nodeGens lb.
Proof.
  unfold finishCheck, ApplyIfCurrent. destruct (inflight lb !! i); [|done].
  destruct (newTargetNode _ _ _), passed; simpl; try case_bool_decide; done.
Qed.

Lemma current_run lb0 acts lb id :
  run lb0 acts lb → Forall (λ a, ¬ touches id a) acts →
  current (nodeGens lb) id = current (nodeGens lb0) id.
Proof.
  induction 1 as [lb|lb0 acts lb1 a Hrun IH]; intros Hall; [done|].
  apply Forall_app in Hall as [Hall [Ha _]%Forall_cons]. rewrite <- (IH Hall).
  destruct a as [tn|h|g|m|v|i passed]; simpl in Ha |- *; try done.
  - by apply handleNode_other.
  - unfold handleMirrorEvent. by destruct (handleMirror _ _ _).
  - by rewrite finishCheck_gens.
Qed.

Lemma last_event_quiet id acts acts' :
  Forall (λ a, ¬ touches id a) acts' → last_event id (acts ++ acts') = last_event id acts.
Proof.
  intros Hall. unfold last_event. rewrite omap_app.
  assert (omap (event_of id) acts' = []) as ->; [|by rewrite (right_id_L [] (++))].
  induction Hall as [|a acts' Ha _ IH]; [done|]. simpl.
  destruct a as [tn|h|g|m|v|i passed]; simpl in *; try done. by rewrite decide_False.
Qed.

Lemma finishCheck_current lb i ck n :
  run_ok lb → inflight lb !! i = Some ck → current (nodeGens lb) (ck_id ck) = ck_gen ck →
  newTargetNode (next_ref lb) (ck_node ck) (tn_Weight (ck_node ck)) = Some n →
  entry (NodeSelector (finishCheck lb i true)) (ck_id ck) (ck_role ck) =
  Some (merge (entry (NodeSelector lb) (ck_id ck) (ck_role ck)) n).
Proof.
  intros Hok Hi Hcur Hn. unfold finishCheck. rewrite Hi.
  destruct (ok_checks lb Hok ck) as (_ & Hid & Hch & Hro); [by eapply list_elem_of_lookup_2|].
  change (next_ref (lb <| inflight := _ |>)) with (next_ref lb). rewrite Hn. cbn [negb].
  unfold ApplyIfCurrent. rewrite bool_decide_eq_false_2 by (simpl; tauto). simpl.
  destruct (newTargetNode_id _ _ _ _ Hn) as [Hnid _]. rewrite Hid, <- Hnid, <- Hch.
  apply UpsertNode_entry.
Qed.
End Invariants.

(** ** Properties *)

(** C2: no stale publication: in any interleaving of discovery events and health checks, a
    check that changes the pools when it ends carries the node's latest event, and that
    event is a PUT; a check started for an event that a newer PUT or DELETE has superseded
    is discarded. *)
Theorem check_applies_latest `{ProxyLibrary} `{RateLimiter} acts lb i passed ck :
  run NewLoadBalancer acts lb → Z.of_nat (length acts) < 2 ^ 64 →
  inflight lb !! i = Some ck →
  NodeSelector (finishCheck lb i passed) ≠ NodeSelector lb →
  last_event (ck_id ck) acts = Some (ck_node ck) ∧ tn_ChangeType (ck_node ck) = EVENT_PUT.
Proof.
  intros Hrun Hlt Hi Hch. apply (current_latest acts lb Hrun Hlt ck); [by eapply list_elem_of_lookup_2|].
  revert Hch. unfold finishCheck, ApplyIfCurrent. rewrite Hi.
  destruct (newTargetNode _ _ _), passed; simpl; try done. case_bool_decide; done.
Qed.

Lemma deleted_gone `{ProxyLibrary} `{RateLimiter} acts lb tn acts' lb' :
  run NewLoadBalancer acts lb → tn_ChangeType tn = EVENT_DELETE →
  newTargetNode (next_ref lb) tn DefaultWeight ≠ None →
  run (handleNode lb tn) acts' lb' → Forall (λ a, ¬ touches (identity_of tn) a) acts' →
  Z.of_nat (length acts) + 1 + Z.of_nat (length acts') < 2 ^ 64 →
  entry (NodeSelector lb') (identity_of tn) (tn_NodeType tn) = None.
Proof.
  intros Hrun Hdel Hnew Hrun' Hall Hlt.
  destruct (run_ok_run _ _ _ Hrun run_ok_new) as [Hok Hs]; [simpl; lia|]. simpl in Hs.
  destruct (run_ok_handleNode lb tn Hok) as [Hok1 Hs1]; [lia|].
  assert (quiet (identity_of tn) (handleNode lb tn)) as Hq.
  { intros ck Hck Hid Hcur.
    destruct (handleNode_current lb tn Hok ltac:(lia) ck Hck Hid Hcur) as [_ Hp]. congruence. }
  destruct (quiet_run _ _ _ _ Hrun' Hok1 ltac:(lia) Hq Hall) as [_ Hv].
  rewrite (view_entry _ _ _ _ Hv). unfold handleNode. rewrite Hdel.
  set (lb1 := lb <| nodeGens := _ |>). change (next_ref lb1) with (next_ref lb).
  destruct (newTargetNode (next_ref lb) tn DefaultWeight) as [n|] eqn:En; [|done].
  cbn [NodeSelector]. destruct (newTargetNode_id _ _ _ _ En) as [<- _]. apply RemoveNode_entry, (ok_pools lb Hok).
Qed.

(** A run through a given action. *)
Lemma run_last `{ProxyLibrary} `{RateLimiter} lb0 acts a lb :
  run lb0 (acts ++ [a]) lb → ∃ lb1, run lb0 acts lb1 ∧ lb = BackgroundRefreshNode lb1 a.
Proof.
  intros Hrun. remember (acts ++ [a]) as l eqn:E. destruct Hrun as [lb|lb0 acts1 lb1 a1 Hr]; [by destruct acts|].
  apply app_inj_tail in E as [-> ->]. by exists lb1.
Qed.

Lemma run_split `{ProxyLibrary} `{RateLimiter} lb0 acts a acts' lb :
  run lb0 (acts ++ a :: acts') lb →
  ∃ lb1, run lb0 acts lb1 ∧ run (BackgroundRefreshNode lb1 a) acts' lb.
Proof.
  revert lb. induction acts' as [|x acts' IH] using rev_ind; intros lb Hrun.
  - apply run_last in Hrun as (lb1 & Hr & ->). exists lb1. split; [done|constructor].
  - rewrite app_comm_cons, (assoc_L (++)) in Hrun. apply run_last in Hrun as (lb1 & Hr & ->).
    destruct (IH lb1 Hr) as (lb2 & H1 & H2). exists lb2. split; [done|by constructor].
Qed.

(** C13: no resurrection: once a DELETE of a node has been handled, its pool entry is gone
    and stays gone, whatever other events arrive and whichever health checks end (also
    those started before the DELETE), until an event of that node itself arrives. *)
Theorem deleted_stays_deleted `{ProxyLibrary} `{RateLimiter} acts lb tn acts' lb' :
  run NewLoadBalancer acts lb → tn_ChangeType tn = EVENT_DELETE →
  newTargetNode (next_ref lb) tn DefaultWeight ≠ None →
  run (handleNode lb tn) acts' lb' → Forall (λ a, ¬ touches (identity_of tn) a) acts' →
  Z.of_nat (length acts) + 1 + Z.of_nat (length acts') < 2 ^ 64 →
  entry (NodeSelector lb') (identity_of tn) (tn_NodeType tn) = None.
Proof. apply deleted_gone. Qed.

(** C28: a downgrade takes effect at once and holds: after a PUT that reports a pooled node
    as not available, its entry carries that state no matter which other events arrive and
    which health checks end, until the node's next event. *)
Theorem downgrade_sticks `{ProxyLibrary} `{RateLimiter} acts lb tn acts' lb' :
  run NewLoadBalancer acts lb → tn_ChangeType tn = EVENT_PUT →
  tn_StateType tn ≠ StateAvailable → nodeInPool lb (identity_of tn) = true →
  newTargetNode (next_ref lb) tn (tn_Weight tn) ≠ None →
  run (handleNode lb tn) acts' lb' → Forall (λ a, ¬ touches (identity_of tn) a) acts' →
  Z.of_nat (length acts) + 1 + Z.of_nat (length acts') < 2 ^ 64 →
  ∃ n, entry (NodeSelector lb') (identity_of tn) (tn_NodeType tn) = Some n ∧
       State n = tn_StateType tn ∧ Available n = false.
Proof.
  intros Hrun Hput Hst Hin Hnew Hrun' Hall Hlt.
  destruct (run_ok_run _ _ _ Hrun run_ok_new) as [Hok Hs]; [simpl; lia|]. simpl in Hs.
  destruct (run_ok_handleNode lb tn Hok) as [Hok1 Hs1]; [lia|].
  destruct (handleNode_downgrade lb tn Hok ltac:(lia) Hput Hst Hin) as (Hq & gs & Eh).
  destruct (quiet_run _ _ _ _ Hrun' Hok1 ltac:(lia) Hq Hall) as [_ Hv].
  rewrite (view_entry _ _ _ _ Hv), Eh. unfold applyNodeState.
  change (next_ref (lb <| nodeGens := gs |>)) with (next_ref lb).
  destruct (newTargetNode (next_ref lb) tn (tn_Weight tn)) as [n|] eqn:En; [|done].
  cbn [NodeSelector]. simpl (NodeSelector _).
  destruct (newTargetNode_id _ _ _ _ En) as (Hid & _ & Hstn). rewrite <- Hid.
  rewrite UpsertNode_entry. eexists. split; [done|].
  destruct (merge_fields (entry (NodeSelector lb) (node_id (tn_ChainId tn) n) (tn_NodeType tn)) n)
    as (Hm & _). rewrite Hstn in Hm.
  split; [done|]. unfold Available. rewrite Hm. by apply Z.eqb_neq.
Qed.

(** The check of a node's last event, when it passes, puts the node in its pool. *)
Lemma current_check_entry `{ProxyLibrary} `{RateLimiter} acts lb tn i ck n :
  run NewLoadBalancer acts lb → Z.of_nat (length acts) < 2 ^ 64 →
  last_event (identity_of tn) acts = Some tn →
  inflight lb !! i = Some ck → ck_id ck = identity_of tn →
  current (nodeGens lb) (identity_of tn) = ck_gen ck →
  newTargetNode (next_ref lb) tn (tn_Weight tn) = Some n →
  ∃ e, entry (NodeSelector (finishCheck lb i true)) (identity_of tn) (tn_NodeType tn) = Some e ∧
       State e = tn_StateType tn ∧ Weight e = Weight n ∧ Addr e = Addr n.
Proof.
  intros Hrun Hlen Hlast Hi Hid Hcur Hn. pose proof (list_elem_of_lookup_2 _ _ _ Hi) as Hin.
  destruct (current_latest _ _ Hrun Hlen ck Hin) as [Hck _]; [by rewrite Hid|].
  rewrite Hid, Hlast in Hck. injection Hck as Hck.
  destruct (run_ok_run _ _ _ Hrun run_ok_new) as [Hok _]; [simpl; lia|].
  destruct (ok_checks lb Hok ck Hin) as (_ & _ & _ & Hro). rewrite <- Hck in Hro.
  pose proof (finishCheck_current lb i ck n Hok Hi) as Hf. rewrite Hid, Hro, <- Hck in Hf.
  rewrite Hf by (congruence || done). eexists. split; [done|].
  destruct (newTargetNode_id _ _ _ _ Hn) as (_ & _ & <-). apply merge_fields.
Qed.

(** A published node gets served: after a PUT of an available node, whatever other
    events and check endings happen in between, when the check that PUT started passes, the
    node's entry is there with the published state, weight and address. *)
Theorem passed_check_published `{ProxyLibrary} `{RateLimiter} acts lb tn acts' lb' i ck n :
  run NewLoadBalancer acts lb → tn_ChangeType tn = EVENT_PUT →
  run (handleNode lb tn) acts' lb' → Forall (λ a, ¬ touches (identity_of tn) a) acts' →
  Z.of_nat (length acts) + 1 + Z.of_nat (length acts') < 2 ^ 64 →
  inflight lb' !! i = Some ck → ck_id ck = identity_of tn →
  ck_gen ck = current (nodeGens (handleNode lb tn)) (identity_of tn) →
  newTargetNode (next_ref lb') tn (tn_Weight tn) = Some n →
  ∃ e, entry (NodeSelector (finishCheck lb' i true)) (identity_of tn) (tn_NodeType tn) = Some e ∧
       State e = tn_StateType tn ∧ Weight e = Weight n ∧ Addr e = Addr n.
Proof.
  intros Hrun Hput Hrun' Hall Hlt Hi Hid Hgen Hn.
  pose proof (current_run _ _ _ _ Hrun' Hall) as Hcur.
  assert (run NewLoadBalancer ((acts ++ [ANode tn]) ++ acts') lb') as Hfull.
  { eapply run_trans; [|exact Hrun']. by apply (run_snoc _ _ _ (ANode tn)). }
  assert (Z.of_nat (length ((acts ++ [ANode tn]) ++ acts')) < 2 ^ 64) as Hlen
    by (rewrite !length_app; simpl; lia).
  apply (current_check_entry _ _ _ _ ck _ Hfull Hlen); try done; [|congruence].
  rewrite last_event_quiet, last_event_snoc by done. simpl. by rewrite decide_True.
Qed.

(** ** Examples *)

Definition ex_proxy : ProxyLibrary := {|
  NewSingleHostReverseProxy_ok := λ _, true; SharedClient_ok := true |}.
Definition ex_rate : RateLimiter := {|
  Limiter := unit; NewLimiter := λ _ _, tt; Limiter_Allow := λ l _, (true, l) |}.
Definition ex_target (ct : ChangeType) (state : Z) : TargetNode :=
  mkTargetNode "1" state "10.0.0.1" 8545 NodeTypeState ct "a" 1 "".

Definition ex_new : @LoadBalancer ex_rate := @NewLoadBalancer ex_rate.
Definition ex_step := @BackgroundRefreshNode ex_proxy ex_rate.

(** One PUT, its check pending. *)
Definition ex_pending := ex_step ex_new (ANode (ex_target EVENT_PUT 1)).
(** The same, with the node added and a second PUT's check pending. *)
Definition ex_racing :=
  foldl ex_step ex_new [ANode (ex_target EVENT_PUT 1); ACheck 0 true; ANode (ex_target EVENT_PUT 1)].

Lemma check_applies_latest_witness :
  last_event ("1", "a", false) [ANode (ex_target EVENT_PUT 1)] = Some (ex_target EVENT_PUT 1)
  ∧ EVENT_PUT = EVENT_PUT.
Proof.
  apply (@check_applies_latest ex_proxy ex_rate [ANode (ex_target EVENT_PUT 1)] ex_pending 0 true
    (mkCheck ("1", "a", false) "1" NodeTypeState (ex_target EVENT_PUT 1) 1));
    [apply (@run_exec ex_proxy ex_rate)|simpl; lia|vm_compute; reflexivity|].
  intros E. apply (f_equal (λ r, find_key (pool (stateNodes r) "1") "a")) in E.
  vm_compute in E. discriminate.
Defined.

Lemma deleted_stays_deleted_witness :
  let lb := @handleNode ex_proxy ex_rate ex_racing (ex_target EVENT_DELETE 1) in
  entry (NodeSelector (ex_step lb (ACheck 0 true))) ("1", "a", false) NodeTypeState = None.
Proof.
  intros lb.
  apply (@deleted_stays_deleted ex_proxy ex_rate
    [ANode (ex_target EVENT_PUT 1); ACheck 0 true; ANode (ex_target EVENT_PUT 1)] ex_racing
    (ex_target EVENT_DELETE 1) [ACheck 0 true]); try done;
    [apply (@run_exec ex_proxy ex_rate)|apply (@run_exec ex_proxy ex_rate lb [ACheck 0 true])|].
  repeat constructor. intros [].
Defined.

Lemma downgrade_sticks_witness :
  let lb := @handleNode ex_proxy ex_rate ex_racing (ex_target EVENT_PUT 3) in
  ∃ n, entry (NodeSelector (ex_step lb (ACheck 0 true))) ("1", "a", false) NodeTypeState = Some n ∧
       State n = 3 ∧ Available n = false.
Proof.
  intros lb.
  apply (@downgrade_sticks ex_proxy ex_rate
    [ANode (ex_target EVENT_PUT 1); ACheck 0 true; ANode (ex_target EVENT_PUT 1)] ex_racing
    (ex_target EVENT_PUT 3) [ACheck 0 true]); try done;
    [apply (@run_exec ex_proxy ex_rate)|apply (@run_exec ex_proxy ex_rate lb [ACheck 0 true])|].
  repeat constructor. intros [].
Defined.

Lemma passed_check_published_witness :
  ∃ e, entry (NodeSelector (@finishCheck ex_proxy ex_rate ex_pending 0 true)) ("1", "a", false)
         NodeTypeState = Some e ∧ State e = 1 ∧ Weight e = 1 ∧ Addr e = "10.0.0.1:8545".
Proof.
  apply (@passed_check_published ex_proxy ex_rate [] ex_new (ex_target EVENT_PUT 1) [] ex_pending 0
    (mkCheck ("1", "a", false) "1" NodeTypeState (ex_target EVENT_PUT 1) 1)
    (mkNode "a" "10.0.0.1" 8545 "10.0.0.1:8545" "official" 1 1 NodeTypeState (Some 0%nat)));
    try done; try (vm_compute; reflexivity); try constructor.
Defined.

(** The health check ends with the first probe that passes or that comes back after the
    maximum waiting time, and reports the node, built from the discovery record, exactly in
    the first case. *)
Theorem CheckNodeHealth_verdict `{ProxyLibrary} `{HealthJson} maxWait ref tn before reply elapsed after :
  Forall (λ a, processHealthCheck a.1 = false ∧ a.2 < maxWait) before →
  processHealthCheck reply = true ∨ maxWait ≤ elapsed →
  CheckNodeHealth maxWait ref tn (before ++ (reply, elapsed) :: after) =
  Ret (if processHealthCheck reply then newTargetNode ref tn (tn_Weight tn) else None).
Proof.
  intros Hb Hr. unfold CheckNodeHealth, newTargetNode.
  destruct (New _ _ _ _ _ _ _) as [n|]; [|by destruct (processHealthCheck reply)]. simpl.
  induction Hb as [|[r e] before [Hf He] _ IH]; simpl in *.
  - destruct (processHealthCheck reply); [done|]. destruct Hr as [|Hr]; [done|].
    by rewrite (proj2 (Z.leb_le _ _) Hr).
  - by rewrite Hf, (proj2 (Z.leb_gt _ _) He).
Qed.

Definition ex_health : HealthJson := {| UnmarshalHealth := λ b, Some (bool_decide (b = "err"), b) |}.

Lemma CheckNodeHealth_verdict_witness :
  @CheckNodeHealth ex_proxy ex_health 300 7 (ex_target EVENT_PUT 1)
    ([(ProbeFailed, 5); (Replied 200 (Some "err"), 10)] ++ (Replied 200 (Some "0x1"), 15) :: [])
  = Ret (@newTargetNode ex_proxy 7 (ex_target EVENT_PUT 1) 1).
Proof.
  apply (@CheckNodeHealth_verdict ex_proxy ex_health); [by repeat constructor|by left].
Defined.
