(* ===== verification/DiscoveryKeys.v ===== *)
(** * The keys of etcd

    The regular expressions of [discovery/etcd/discovery.go] and [parseKey]: which document a
    key names, and of which chain. *)

From S2P Require Import Prelude GoStrings ChainId.
Local Open Scope Z_scope.

(** ** The key patterns

    The patterns are sequences of lazy groups [(.*?)] and literals between [^] and [$].  Go's
    matcher prefers, group by group, the shortest text that lets the rest match; a dot does
    not match a newline. *)

Inductive item := Group | Lit (s : string).
Definition Regexp : Type := list item.

Fixpoint lazy_group (rest : string → option (list string)) (s : string) : option (list string) :=
  match rest s with
  | Some groups => Some ("" :: groups)
  | None =>
      match s with
      | "" => None
      | String c s' =>
          if bool_decide (c = newline) then None else
          match lazy_group rest s' with
          | Some (g :: groups) => Some (String c g :: groups)
          | _ => None
          end
      end
  end.

Fixpoint FindStringSubmatch (p : Regexp) (s : string) : option (list string) :=
  match p with
  | [] => if bool_decide (s = "") then Some [] else None
  | Lit l :: p => if HasPrefix s l then FindStringSubmatch p (drop_str (len l) s) else None
  | Group :: p => lazy_group (FindStringSubmatch p) s
  end.

Definition lastBlockPattern : Regexp := [Group; Lit "/lastBlockNumber"].
Definition nodesPattern : Regexp := [Group; Lit "/nodes/"; Group].
Definition nativeNodesPattern : Regexp := [Group; Lit "/nativeNodes/"; Group].
Definition gateWayPattern : Regexp := [Group; Lit "/gateway"].
Definition mirrorPattern : Regexp := [Group; Lit "/mirror/"; Group].
Definition versionPattern : Regexp := [Group; Lit "/version"].

Inductive keyKind :=
  keyUnknown | keyNode | keyNativeNode | keyHeight | keyGateway | keyMirror | keyVersion.
#[export] Instance keyKind_eq_dec : EqDecision keyKind.
Proof. solve_decision. Defined.

Definition normalizeMultiVersionChainID (raw : string) : string :=
  let raw := TrimByte raw "/" in
  if bool_decide (raw = "") then raw else ReplaceByte raw "/" "-".

(** The table [parseKey] goes through; the first group is the chain, the second, where
    there is one, the node or address key. *)
Definition keyTable : list (keyKind * Regexp) :=
  [(keyNode, nodesPattern); (keyNativeNode, nativeNodesPattern); (keyHeight, lastBlockPattern);
   (keyGateway, gateWayPattern); (keyMirror, mirrorPattern); (keyVersion, versionPattern)].

Fixpoint parseKeyIn (table : list (keyKind * Regexp)) (key : string) : keyKind * string * string :=
  match table with
  | [] => (keyUnknown, "", "")
  | (kind, pattern) :: table =>
      match FindStringSubmatch pattern key with
      | None => parseKeyIn table key
      | Some groups =>
          (kind, normalizeMultiVersionChainID (nth 0 groups ""), nth 1 groups "")
      end
  end.

Definition parseKey (key : string) : keyKind * string * string := parseKeyIn keyTable key.

Example parse_node : parseKey "1/v2/nodes/a/nodes/b" = (keyNode, "1-v2", "a/nodes/b").
Proof. vm_compute. reflexivity. Qed.
Example parse_height : parseKey "/56/lastBlockNumber" = (keyHeight, "56", "").
Proof. vm_compute. reflexivity. Qed.
Example parse_other : parseKey "1/writers/leader" = (keyUnknown, "", "").
Proof. vm_compute. reflexivity. Qed.

(** ** Reading back a key *)

(** The key of a document, as the writers of etcd build it. *)
Definition build_key (kind : keyKind) (chain sub : string) : string :=
  match kind with
  | keyNode => chain +:+ "/nodes/" +:+ sub
  | keyNativeNode => chain +:+ "/nativeNodes/" +:+ sub
  | keyHeight => chain +:+ "/lastBlockNumber"
  | keyGateway => chain +:+ "/gateway"
  | keyMirror => chain +:+ "/mirror/" +:+ sub
  | keyVersion => chain +:+ "/version"
  | keyUnknown => chain
  end.

Definition has_sub (kind : keyKind) : bool :=
  match kind with keyNode | keyNativeNode | keyMirror => true | _ => false end.

(** A name without slashes and newlines. *)
Definition plain_name (s : string) : bool := negb (has_byte s "/") && negb (has_byte s newline).

Definition prepend (w : string) (o : option (list string)) : option (list string) :=
  match o with Some (g :: gs) => Some ((w +:+ g) :: gs) | _ => None end.

Lemma prepend_app a b o : prepend a (prepend b o) = prepend (a +:+ b) o.
Proof. destruct o as [[|g gs]|]; simpl; by rewrite ?app_assoc. Qed.

Lemma plain_name_cons c w :
  plain_name (String c w) = true → c ≠ "/"%char ∧ c ≠ newline ∧ plain_name w = true.
Proof.
  unfold plain_name. rewrite !has_byte_cons.
  intros [[A1 B1]%negb_true_iff%orb_false_iff [A2 B2]%negb_true_iff%orb_false_iff]%andb_true_iff.
  apply bool_decide_eq_false in A1, A2. repeat split; try done. by rewrite B1, B2.
Qed.

Lemma lazy_step rest c s :
  rest (String c s) = None → c ≠ newline →
  lazy_group rest (String c s) = prepend (String c "") (lazy_group rest s).
Proof.
  intros Hr Hc. cbn [lazy_group]. rewrite Hr, bool_decide_eq_false_2 by done.
  by destruct (lazy_group rest s) as [[|g gs]|].
Qed.

Section Slash.
Context (l : string) (p : Regexp).
Local Abbreviation tail := (FindStringSubmatch (Lit (String "/" l) :: p)).

Lemma tail_not_slash c s : c ≠ "/"%char → tail (String c s) = None.
Proof.
  intros Hc. cbn [FindStringSubmatch]. unfold HasPrefix. cbn [String.prefix].
  by destruct (ascii_dec "/" c) as [E|E]; [congruence|].
Qed.

Lemma skip_word w t :
  plain_name w = true → lazy_group tail (w +:+ t) = prepend w (lazy_group tail t).
Proof.
  induction w as [|c w IH]; intros Hw.
  { rewrite app_nil_l. destruct (lazy_group tail t) as [[|g gs]|] eqn:E; [|done|done].
    exfalso. revert E. destruct t; simpl; repeat case_match; congruence. }
  apply plain_name_cons in Hw as (H1 & H2 & Hw). rewrite app_cons.
  rewrite lazy_step by (done || by apply tail_not_slash). rewrite IH by done. by rewrite prepend_app.
Qed.

Lemma no_slash w : plain_name w = true → lazy_group tail w = None.
Proof. intros Hw. rewrite <- (app_nil_r w), skip_word by done. done. Qed.

Lemma skip_slash t :
  tail (String "/" t) = None → lazy_group tail (String "/" t) = prepend "/" (lazy_group tail t).
Proof. intros Ht. by apply lazy_step. Qed.
End Slash.

Lemma lazy_rest s : has_byte s newline = false → lazy_group (FindStringSubmatch []) s = Some [s].
Proof.
  induction s as [|c s IH]; [done|]. rewrite has_byte_cons. intros [Hc Hs]%orb_false_iff. b2p.
  rewrite lazy_step by done. by rewrite IH.
Qed.

Lemma plain_has_prefix s p : plain_name s = true → has_byte p "/" = true → HasPrefix s p = false.
Proof.
  intros Hs Hp. destruct (HasPrefix s p) eqn:E; [|done]. apply HasPrefix_spec in E as [r ->].
  unfold plain_name in Hs. rewrite has_byte_app, Hp in Hs. done.
Qed.

Lemma find_group p s : FindStringSubmatch (Group :: p) s = lazy_group (FindStringSubmatch p) s.
Proof. done. Qed.

Lemma find_lit l p s :
  FindStringSubmatch (Lit l :: p) s =
  if HasPrefix s l then FindStringSubmatch p (drop_str (len l) s) else None.
Proof. done. Qed.

Lemma lazy_hit rest s gs : rest s = Some gs → lazy_group rest s = Some ("" :: gs).
Proof. intros Hr. destruct s; simpl; by rewrite Hr. Qed.

Lemma has_byte_rev s c : has_byte (String.rev s) c = has_byte s c.
Proof.
  induction s as [|a s IH]; [done|]. rewrite rev_cons, has_byte_app, IH, !has_byte_cons.
  rewrite orb_comm. by rewrite (orb_false_r (bool_decide _)).
Qed.

Lemma hit_infix l w sub :
  plain_name w = true → has_byte sub newline = false →
  FindStringSubmatch [Group; Lit (String "/" l); Group] (w +:+ String "/" l +:+ sub) = Some [w; sub].
Proof.
  intros Hw Hs. rewrite find_group, skip_word by done. rewrite (lazy_hit _ _ [sub]).
  - simpl. by rewrite app_nil_r.
  - rewrite find_lit, HasPrefix_app, drop_str_app. by apply lazy_rest.
Qed.

Lemma hit_suffix l w :
  plain_name w = true → FindStringSubmatch [Group; Lit (String "/" l)] (w +:+ String "/" l) = Some [w].
Proof.
  intros Hw. rewrite find_group, skip_word by done. rewrite (lazy_hit _ _ []).
  - simpl. by rewrite app_nil_r.
  - pose proof (HasPrefix_app (String "/" l) "") as Hp. pose proof (drop_str_app (String "/" l) "") as Hd.
    rewrite app_nil_r in Hp, Hd. by rewrite find_lit, Hp, Hd.
Qed.

Lemma miss_word l p w word :
  FindStringSubmatch (Lit (String "/" l) :: p) (String "/" word) = None →
  plain_name w = true → plain_name word = true →
  FindStringSubmatch (Group :: Lit (String "/" l) :: p) (w +:+ String "/" word) = None.
Proof.
  intros H1 Hw Hword. rewrite find_group, skip_word, skip_slash by done. by rewrite no_slash.
Qed.

Lemma miss_words l p w word sub :
  FindStringSubmatch (Lit (String "/" l) :: p) (String "/" (word +:+ String "/" sub)) = None →
  FindStringSubmatch (Lit (String "/" l) :: p) (String "/" sub) = None →
  plain_name w = true → plain_name word = true → plain_name sub = true →
  FindStringSubmatch (Group :: Lit (String "/" l) :: p) (w +:+ String "/" (word +:+ String "/" sub)) = None.
Proof.
  intros H1 H2 Hw Hword Hsub. rewrite find_group, skip_word, skip_slash by done.
  rewrite skip_word, skip_slash by done. by rewrite no_slash.
Qed.

Lemma normalize_plain w : plain_name w = true → normalizeMultiVersionChainID w = w.
Proof.
  intros [Hw _]%andb_true_iff. apply negb_true_iff in Hw. unfold normalizeMultiVersionChainID.
  assert (∀ t, has_byte t "/" = false → trim_byte_left "/" t = t) as Htrim.
  { intros [|c t]; [done|]. rewrite has_byte_cons. intros [Hc _]%orb_false_iff. simpl. by rewrite Hc. }
  unfold TrimByte. rewrite (Htrim w), Htrim, rev_involutive by by rewrite ?has_byte_rev.
  case_bool_decide; [done|]. by apply ReplaceByte_id.
Qed.

Lemma parseKey_hit kind pattern pre post key c gs :
  keyTable = pre ++ (kind, pattern) :: post →
  Forall (λ kp, FindStringSubmatch kp.2 key = None) pre →
  FindStringSubmatch pattern key = Some (c :: gs) →
  parseKey key = (kind, normalizeMultiVersionChainID c, nth 0 gs "").
Proof.
  unfold parseKey. intros -> Hpre Hhit. induction Hpre as [|[k q] pre Hq _ IH]; simpl.
  - by rewrite Hhit.
  - simpl in Hq. by rewrite Hq.
Qed.

(** Names that a mirror's address key must not be: the patterns of heights and gateways are
    tried before the mirrors' and would match. *)
Definition reserved (sub : string) : bool :=
  bool_decide (sub = "lastBlockNumber") || bool_decide (sub = "gateway").

Lemma lit_suffix_miss word sub :
  sub ≠ word → FindStringSubmatch [Lit (String "/" word)] (String "/" sub) = None.
Proof.
  intros Hne. rewrite find_lit. destruct (HasPrefix _ _) eqn:E; [|done].
  apply HasPrefix_spec in E as [r E]. rewrite app_cons in E. injection E as ->.
  change (String "/" (word +:+ r)) with (String "/" word +:+ r). rewrite drop_str_app. simpl.
  case_bool_decide; [|done]. subst r. by rewrite app_nil_r in Hne.
Qed.

Lemma lit_infix_miss l sub :
  plain_name sub = true → has_byte l "/" = true →
  FindStringSubmatch [Lit (String "/" l); Group] (String "/" sub) = None.
Proof.
  intros Hs Hl. rewrite find_lit.
  assert (HasPrefix (String "/" sub) (String "/" l) = false) as ->; [|done].
  unfold HasPrefix. cbn [String.prefix]. destruct (ascii_dec "/" "/"); [|done].
  by apply plain_has_prefix.
Qed.

Lemma parseKey_roundtrip kind chain sub :
  kind ≠ keyUnknown → plain_name chain = true → plain_name sub = true →
  (if has_sub kind then kind = keyMirror → reserved sub = false else sub = "") →
  parseKey (build_key kind chain sub) = (kind, chain, sub).
Proof.
  intros Hk Hc Hs Hsub.
  assert (has_byte sub newline = false) as Hnl by (apply andb_true_iff in Hs as [_ Hs]; by b2p).
  rewrite <- (normalize_plain chain Hc) at 2.
  destruct kind; simpl in *; try done; subst.
  - by apply (parseKey_hit _ nodesPattern [] (drop 1 keyTable) _ chain [sub]); [|constructor|apply hit_infix].
  - apply (parseKey_hit _ nativeNodesPattern (take 1 keyTable) (drop 2 keyTable) _ chain [sub]); [done| |by apply hit_infix].
    repeat constructor. apply (miss_words "nodes/" [Group] chain "nativeNodes" sub); try done. by apply lit_infix_miss.
  - apply (parseKey_hit _ lastBlockPattern (take 2 keyTable) (drop 3 keyTable) _ chain []); [done| |by apply hit_suffix].
    repeat constructor; by apply miss_word.
  - apply (parseKey_hit _ gateWayPattern (take 3 keyTable) (drop 4 keyTable) _ chain []); [done| |by apply hit_suffix].
    repeat constructor; by apply miss_word.
  - specialize (Hsub eq_refl). apply orb_false_iff in Hsub as [H1 H2]. b2p.
    apply (parseKey_hit _ mirrorPattern (take 4 keyTable) (drop 5 keyTable) _ chain [sub]); [done| |by apply hit_infix].
    repeat constructor; apply (miss_words _ _ chain "mirror" sub); try done;
      (by apply lit_infix_miss) || (by apply lit_suffix_miss).
  - apply (parseKey_hit _ versionPattern (take 5 keyTable) (drop 6 keyTable) _ chain []); [done| |by apply hit_suffix].
    repeat constructor; by apply miss_word.
Qed.

(** ** Directories of versions *)

(** [/w1/w2...] *)
Definition dirs (ws : list string) : string := foldr (λ w s, String "/" (w +:+ s)) "" ws.

Lemma tail_dir w t :
  plain_name w = true → w ≠ "nodes" →
  FindStringSubmatch [Lit "/nodes/"; Group] (String "/" (w +:+ String "/" t)) = None.
Proof.
  intros Hw Hne. rewrite find_lit. destruct (HasPrefix _ _) eqn:E; [|done]. exfalso.
  apply HasPrefix_spec in E as [r E]. injection E as E.
  apply andb_true_iff in Hw as [Hw _]. apply negb_true_iff in Hw.
  pose proof (SplitN2_app w t "/" Hw) as H1. rewrite E in H1.
  change ("nodes/" +:+ r) with ("nodes" +:+ String "/" r) in H1.
  rewrite SplitN2_app in H1 by done. congruence.
Qed.

Lemma dirs_hit ws sub :
  Forall (λ w, plain_name w = true ∧ w ≠ "nodes") ws → has_byte sub newline = false →
  lazy_group (FindStringSubmatch [Lit "/nodes/"; Group]) (dirs ws +:+ "/nodes/" +:+ sub)
  = Some [dirs ws; sub].
Proof.
  intros Hws Hs. induction Hws as [|w ws [Hw Hne] _ IH]; cbn [dirs foldr].
  - rewrite app_nil_l. apply lazy_hit. rewrite find_lit, HasPrefix_app, drop_str_app. by apply lazy_rest.
  - fold (dirs ws). rewrite app_cons, app_assoc.
    assert (∃ t, dirs ws +:+ "/nodes/" +:+ sub = String "/" t) as [t Ht]
      by (destruct ws as [|w' ws']; simpl; eexists; done).
    rewrite skip_slash by (rewrite Ht; by apply tail_dir).
    rewrite skip_word by done. rewrite IH. done.
Qed.

Lemma ReplaceByte_app a b old new :
  ReplaceByte (a +:+ b) old new = ReplaceByte a old new +:+ ReplaceByte b old new.
Proof. induction a as [|c a IH]; [done|]. rewrite app_cons. simpl. by rewrite IH. Qed.

Lemma trim_none c s : plain_name (String c "") = true → trim_byte_left "/" (String c s) = String c s.
Proof. intros (Hc & _)%plain_name_cons. simpl. by rewrite bool_decide_eq_false_2. Qed.

Lemma normalize_ends a b c s :
  plain_name (String a "") = true → plain_name (String b "") = true →
  String a s = c +:+ String b "" →
  normalizeMultiVersionChainID (String a s) = ReplaceByte (String a s) "/" "-".
Proof.
  intros Ha Hb E. unfold normalizeMultiVersionChainID.
  assert (String.rev (String a s) = String b (String.rev c)) as Hr by by rewrite E, rev_app_distr.
  assert (TrimByte (String a s) "/" = String a s) as ->; [|done].
  unfold TrimByte. rewrite trim_none by done. rewrite Hr, trim_none by done.
  by rewrite <- Hr, rev_involutive.
Qed.

Lemma string_last s : s ≠ "" → ∃ c b, s = c +:+ String b "".
Proof.
  induction s as [|a s IH]; [done|]. intros _. destruct (decide (s = "")) as [->|Hs]; [by exists "", a|].
  destruct (IH Hs) as (c & b & ->). by exists (String a c), b.
Qed.

Lemma plain_name_app a b : plain_name (a +:+ b) = plain_name a && plain_name b.
Proof.
  unfold plain_name. rewrite !has_byte_app, !negb_orb. 
  destruct (has_byte a "/"), (has_byte b "/"), (has_byte a newline), (has_byte b newline); done.
Qed.

(** The version [w1/w2...] of a chain. *)
Definition version_path (ws : list string) : string :=
  match ws with [] => "" | w :: ws => w +:+ dirs ws end.

Lemma normalize_versioned base ws :
  plain_name base = true → base ≠ "" → Forall (λ w, plain_name w = true ∧ w ≠ "") ws →
  normalizeMultiVersionChainID (base +:+ dirs ws) = base +:+ ReplaceByte (dirs ws) "/" "-".
Proof.
  intros Hb Hne Hws. rewrite <- (ReplaceByte_id base "/" "-") at 2
    by (apply andb_true_iff in Hb as [Hb _]; by apply negb_true_iff).
  rewrite <- ReplaceByte_app.
  assert (∃ c b, base +:+ dirs ws = c +:+ String b "" ∧ plain_name (String b "") = true) as (c & b & E & Hlast).
  { destruct ws as [|w ws _] using rev_ind.
    - destruct (string_last base Hne) as (c & b & ->). exists c, b. simpl. rewrite app_nil_r.
      rewrite plain_name_app in Hb. by apply andb_true_iff in Hb as [_ Hb].
    - apply Forall_app in Hws as [_ [[Hw Hwn] _]%Forall_cons].
      destruct (string_last w Hwn) as (c & b & ->). rewrite plain_name_app in Hw.
      apply andb_true_iff in Hw as [_ Hw]. exists (base +:+ dirs ws +:+ String "/" c), b. split; [|done].
      rewrite !app_assoc. f_equal. induction ws as [|w ws IH]; simpl; [by rewrite app_nil_r|].
      rewrite app_cons, app_assoc. do 2 f_equal. apply IH. }
  destruct base as [|a base]; [done|]. rewrite app_cons in *.
  apply (normalize_ends a b c); [|done|done].
  change (String a base) with (String a "" +:+ base) in Hb. rewrite plain_name_app in Hb.
  by apply andb_true_iff in Hb as [Hb _].
Qed.

Lemma versioned_nodes_key base ws sub :
  plain_name base = true → base ≠ "" → ws ≠ [] →
  Forall (λ w, plain_name w = true ∧ w ≠ "" ∧ w ≠ "nodes") ws → has_byte sub newline = false →
  parseKey (base +:+ "/" +:+ version_path ws +:+ "/nodes/" +:+ sub)
  = (keyNode, target base (version_path ws), sub).
Proof.
  intros Hb Hne Hws Hall Hs. destruct ws as [|w ws]; [done|].
  assert (base +:+ "/" +:+ version_path (w :: ws) +:+ "/nodes/" +:+ sub
          = (base +:+ dirs (w :: ws)) +:+ "/nodes/" +:+ sub) as ->
    by (by rewrite app_assoc).
  rewrite (parseKey_hit keyNode nodesPattern [] (drop 1 keyTable) _ (base +:+ dirs (w :: ws)) [sub]); [|done|done|].
  - rewrite normalize_versioned by (done || (eapply Forall_impl; [done|naive_solver])).
    done.
  - unfold nodesPattern. rewrite app_assoc, find_group, skip_word by done. rewrite dirs_hit; [done| |done].
    eapply Forall_impl; [done|naive_solver].
Qed.

(** ** Properties *)

(** C39: keys are read back. The key of a document whose names have no slash is classified as
    written, with its chain and name (a mirror's name may not be one of the two reserved
    words), and the nodes stored in the directory of a chain's version are nodes of exactly
    the chain that requests are routed to when that version is published. *)
Theorem parseKey_reads_back kind chain sub ws :
  kind ≠ keyUnknown → plain_name chain = true → chain ≠ "" → plain_name sub = true →
  (if has_sub kind then kind = keyMirror → reserved sub = false else sub = "") →
  ws ≠ [] → Forall (λ w, plain_name w = true ∧ w ≠ "" ∧ w ≠ "nodes") ws →
  parseKey (build_key kind chain sub) = (kind, chain, sub) ∧
  parseKey (chain +:+ "/" +:+ version_path ws +:+ "/nodes/" +:+ sub)
  = (keyNode, target chain (version_path ws), sub).
Proof.
  intros. split; [by apply parseKey_roundtrip|]. apply versioned_nodes_key; try done.
  apply andb_true_iff in H2 as [_ ?]. by b2p.
Qed.

Lemma parseKey_reads_back_witness :
  parseKey "56/gateway" = (keyGateway, "56", "") ∧
  parseKey "56/v/2/nodes/" = (keyNode, "56-v-2", "").
Proof.
  apply (parseKey_reads_back keyGateway "56" "" ["v"; "2"]); try done; repeat constructor; done.
Defined.

(** A configured key prefix is not taken off: under the prefix [/prefix/] a node of chain
    [chain] is read as a node of the chain [prefix-chain], which is not the chain that
    requests for [chain] are served from. *)
Theorem prefix_joins_chain prefix chain sub :
  Forall (λ w, plain_name w = true ∧ w ≠ "" ∧ w ≠ "nodes") [prefix; chain] →
  has_byte sub newline = false →
  parseKey ("/" +:+ prefix +:+ "/" +:+ chain +:+ "/nodes/" +:+ sub) = (keyNode, prefix +:+ "-" +:+ chain, sub) ∧
  prefix +:+ "-" +:+ chain ≠ chain.
Proof.
  intros Hall Hs. split.
  - assert ("/" +:+ prefix +:+ "/" +:+ chain +:+ "/nodes/" +:+ sub
            = dirs [prefix; chain] +:+ "/nodes/" +:+ sub) as ->.
    { unfold dirs. cbn [foldr]. rewrite app_nil_r, !app_cons, app_assoc. by rewrite app_cons. }
    rewrite (parseKey_hit keyNode nodesPattern [] (drop 1 keyTable) _ (dirs [prefix; chain]) [sub]); [|done|done|].
    + assert (normalizeMultiVersionChainID (dirs [prefix; chain])
              = normalizeMultiVersionChainID (prefix +:+ dirs [chain])) as -> by done.
      apply Forall_cons in Hall as [(H1 & H2 & H3) Hall].
      rewrite normalize_versioned by (done || (eapply Forall_impl; [done|naive_solver])).
      simpl. rewrite app_nil_r. do 3 f_equal. apply Forall_cons in Hall as [(H4 & _) _].
      rewrite ReplaceByte_id; [done|]. apply andb_true_iff in H4 as [H4 _]. by apply negb_true_iff.
    + unfold nodesPattern. rewrite find_group, dirs_hit; [done| |done].
      eapply Forall_impl; [done|naive_solver].
  - intros E. apply (f_equal len) in E. rewrite !len_app in E. simpl in E. lia.
Qed.

Lemma prefix_joins_chain_witness :
  parseKey "/myprefix/1/nodes/node1" = (keyNode, "myprefix-1", "node1").
Proof. apply (prefix_joins_chain "myprefix" "1" "node1"); repeat constructor; done. Defined.
