(* ===== verification/Discovery.v ===== *)
(** * etcd discovery

    [discovery/etcd/discovery.go] but for the keys ([DiscoveryKeys]): a snapshot
    and then a watch are turned into events on five channels, and a watch that lost its
    revision to compaction is repaired by comparing a new snapshot with the keys already
    delivered.  The decoders are parameters; what etcd answers is in [EtcdWatch]. *)

From S2P Require Import Prelude GoStrings ChainId DiscoveryKeys LbNode Gateway PickNodes Selector Mirror Refresh.
Local Open Scope Z_scope.

(** ** Documents *)

(** A byte slice; [None] is nil.  etcd's client leaves an empty value nil. *)
Abbreviation bytes := (option string) (only parsing).
Definition contents (b : bytes) : string := default "" b.

(** sonic's decoders: the value as far as it was decoded, and whether there was no error. *)
Class DiscoveryJson := {
  UnmarshalTargetNode : string → TargetNode * bool;
  UnmarshalChainHeight : string → ChainHeight * bool;
  UnmarshalGateway : string → Gateway * bool;
  UnmarshalMirrorTarget : string → MirrorTarget * bool;
  UnmarshalVersion : string → string * bool;
  UnmarshalString : string → string * bool }.

(** The fields tagged [json:"-"] are not decoded, and an empty input is an error. *)
Class DiscoveryJsonLaws `{DiscoveryJson} := {
  Deleted_not_decoded v : mt_Deleted (UnmarshalMirrorTarget v).1 = false;
  empty_not_node : (UnmarshalTargetNode "").2 = false;
  empty_not_mirror : (UnmarshalMirrorTarget "").2 = false }.

#[export] Instance TargetNode_expands : Expands TargetNode := λ n,
  mkTargetNode (tn_ChainId n) (tn_StateType n) (tn_Address n) (tn_Port n) (tn_NodeType n)
    (tn_ChangeType n) (tn_NodeKey n) (tn_Weight n) (tn_Source n).
#[export] Instance ChainHeight_expands : Expands ChainHeight := λ h,
  mkChainHeight (ch_ChainId h) (ch_LatestBlockNumber h).
#[export] Instance MirrorTarget_expands : Expands MirrorTarget := λ m,
  mkMirrorTarget (mt_ChainId m) (mt_AddrKey m) (mt_Address m) (mt_Port m) (mt_RateLimit m)
    (mt_Deleted m).

(** The zero values. *)
Definition zeroTargetNode : TargetNode := mkTargetNode "" 0 "" 0 0 EVENT_PUT "" 0 "".
Definition zeroMirrorTarget : MirrorTarget := mkMirrorTarget "" "" "" 0 None false.

Definition parseVersionValue `{DiscoveryJson} (value : bytes) : string :=
  if bool_decide (len (contents value) = 0%nat) then "" else
  let trimmed := TrimSpace (contents value) in
  if bool_decide (trimmed = "") then "" else
  let '(objVersion, objOk) := UnmarshalVersion (contents value) in
  if objOk && negb (bool_decide (TrimSpace objVersion = "")) then TrimSpace objVersion else
  let '(plain, plainOk) := UnmarshalString (contents value) in
  if plainOk && negb (bool_decide (TrimSpace plain = "")) then TrimSpace plain else
  TrimByte trimmed dquote.

(** ** The watcher *)

Inductive event :=
| ENode (n : TargetNode)
| EHeight (h : ChainHeight)
| EGateway (g : Gateway)
| EMirror (m : MirrorTarget)
| EVersion (v : ChainVersion).

(** [sent] lists the sends on the five channels in order, each with the key it is about (a
    record for the theorems; the code does not keep it).  [drained] says that the channels
    have a receiver: [main] starts it with the channels that [Init] returned ([served]). *)
Record Discover := mkDiscover {
  keyPrefix : string; watchRevision : Z; knownKeys : gmap string bytes;
  drained : bool; sent : list (string * event) }.

#[export] Instance Discover_expands : Expands Discover := λ r,
  mkDiscover (keyPrefix r) (watchRevision r) (knownKeys r) (drained r) (sent r).

Definition NewDiscover (keyPrefix : string) : Discover := mkDiscover keyPrefix 0 ∅ false [].

Definition channel (e : event) : nat :=
  match e with
  | ENode _ => 0%nat | EHeight _ => 1%nat | EGateway _ => 2%nat | EMirror _ => 3%nat
  | EVersion _ => 4%nat
  end.

(** [main] starts the event loop, which receives from all five channels. *)
Definition served (r : Discover) : Discover := r <| drained := true |>.

(** The buffer of each channel. *)
Definition channelCap : nat := 1000.

Definition buffered (r : Discover) (ch : nat) : nat :=
  length (filter (λ ke, channel ke.2 = ch) (sent r)).

(** A send on a full buffer waits for the receiver; without one it never returns. *)
Definition send (r : Discover) (key : string) (e : event) : go Discover :=
  if drained r || (buffered r (channel e) <? channelCap)%nat
  then Ret (r <| sent := sent r ++ [(key, e)] |>) else NoFuel.

Section Dispatch.
Context `{DiscoveryJson}.

Definition dispatchPut (r : Discover) (key : string) (value : bytes) : go Discover :=
  let '(kind, chainId, sub) := parseKey key in
  let known := r <| knownKeys := <[key := value]> (knownKeys r) |> in
  match kind with
  | keyNode | keyNativeNode =>
      let '(node, ok) := UnmarshalTargetNode (contents value) in
      if negb ok then Ret r else
      let node := node <| tn_NodeKey := sub |> <| tn_ChangeType := EVENT_PUT |>
                       <| tn_ChainId := chainId |> in
      let node := if bool_decide (kind = keyNativeNode) then node <| tn_Source := "native" |>
                  else node in
      send known key (ENode node)
  | keyHeight =>
      let '(height, ok) := UnmarshalChainHeight (contents value) in
      if negb ok then Ret r else
      send r key (EHeight (height <| ch_ChainId := chainId |>))
  | keyGateway =>
      let '(gateway, ok) := UnmarshalGateway (contents value) in
      if negb ok then Ret r else
      send known key
        (EGateway (gateway <| gw_ChainId := chainId |> <| gw_ChangeType := EVENT_PUT |>))
  | keyMirror =>
      let '(mirror, ok) := UnmarshalMirrorTarget (contents value) in
      if negb ok then Ret r else
      send known key (EMirror (mirror <| mt_ChainId := chainId |> <| mt_AddrKey := sub |>))
  | keyVersion =>
      send known key
        (EVersion {| cv_ChainId := chainId; cv_Version := parseVersionValue value;
                     cv_ChangeType := EVENT_PUT |})
  | keyUnknown => Ret r
  end.

Definition dispatchDelete (r : Discover) (key : string) (prevValue : bytes) : go Discover :=
  let prevValue := match prevValue with
                   | None => default None (knownKeys r !! key)
                   | Some _ => prevValue
                   end in
  let r := r <| knownKeys := delete key (knownKeys r) |> in
  let '(kind, chainId, sub) := parseKey key in
  match kind with
  | keyNode | keyNativeNode =>
      let node := match prevValue with
                  | Some v => (UnmarshalTargetNode v).1
                  | None => zeroTargetNode
                  end in
      let node := node <| tn_NodeKey := sub |> <| tn_ChangeType := EVENT_DELETE |>
                       <| tn_ChainId := chainId |> in
      let node := if bool_decide (kind = keyNativeNode) then node <| tn_Source := "native" |>
                  else node in
      send r key (ENode node)
  | keyGateway => send r key (EGateway (mkGateway chainId EVENT_DELETE [] ∅))
  | keyMirror =>
      let mirror := match prevValue with
                    | Some v => (UnmarshalMirrorTarget v).1
                    | None => zeroMirrorTarget
                    end in
      send r key (EMirror (mirror <| mt_ChainId := chainId |> <| mt_AddrKey := sub |>
                                  <| mt_Deleted := true |>))
  | keyVersion =>
      send r key
        (EVersion {| cv_ChainId := chainId; cv_Version := parseVersionValue prevValue;
                     cv_ChangeType := EVENT_DELETE |})
  | keyHeight | keyUnknown => Ret r
  end.

(** What [kv.Get] returns: the keys under the prefix with their values, and the revision. *)
Record GetResponse := mkGetResponse { Kvs : list (string * bytes); gr_Revision : Z }.

Fixpoint dispatchPuts (r : Discover) (kvs : list (string * bytes)) : go Discover :=
  match kvs with
  | [] => Ret r
  | (key, value) :: kvs => let! r := dispatchPut r key value in dispatchPuts r kvs
  end.

(** [None] is the error of a failed [Get]. *)
Definition Init (r : Discover) (resp : option GetResponse) : go (option Discover) :=
  match resp with
  | None => Ret None
  | Some resp =>
      let! r := dispatchPuts r (Kvs resp) in
      Ret (Some (r <| watchRevision := gr_Revision resp |>))
  end.

(** The two loops of [resync]; [order] is the order in which Go ranges over [knownKeys]. *)
Fixpoint deleteVanished (live : gset string) (r : Discover) (order : list (string * bytes))
    : go Discover :=
  match order with
  | [] => Ret r
  | (key, lastValue) :: order =>
      if bool_decide (key ∈ live) then deleteVanished live r order else
      let! r := dispatchDelete r key lastValue in deleteVanished live r order
  end.

Fixpoint putChanged (r : Discover) (kvs : list (string * bytes)) : go Discover :=
  match kvs with
  | [] => Ret r
  | (key, value) :: kvs =>
      if bool_decide (contents <$> knownKeys r !! key = Some (contents value))
      then putChanged r kvs
      else let! r := dispatchPut r key value in putChanged r kvs
  end.

Definition resync (r : Discover) (order : list (string * bytes)) (resp : option GetResponse)
    : go (Discover * bool) :=
  match resp with
  | None => Ret (r, false)
  | Some resp =>
      let liveKeys : gset string := list_to_set (Kvs resp).*1 in
      let! r := deleteVanished liveKeys r order in
      let! r := putChanged r (Kvs resp) in
      Ret (r <| watchRevision := gr_Revision resp |>, true)
  end.

(** A change etcd reports; [ev_PrevKv] is there only when etcd still has it. *)
Record Event := mkEvent {
  ev_Put : bool; ev_Key : string; ev_Value : bytes; ev_PrevKv : option bytes }.

Inductive respErr := ErrCompacted | ErrOther.
Record WatchResponse := mkWatchResponse {
  CompactRevision : Z; wr_Err : option respErr; Canceled : bool;
  Events : list Event; wr_Revision : Z }.

Inductive watchErr := errClosed | errWatchCompacted | errResponse | errCanceled.
#[export] Instance watchErr_eq_dec : EqDecision watchErr.
Proof. solve_decision. Defined.

Fixpoint dispatchEvents (r : Discover) (events : list Event) : go Discover :=
  match events with
  | [] => Ret r
  | event :: events =>
      let! r := if ev_Put event then dispatchPut r (ev_Key event) (ev_Value event)
                else dispatchDelete r (ev_Key event) (default None (ev_PrevKv event)) in
      dispatchEvents r events
  end.

(** One iteration of [processWatchEvents] on a response it received. *)
Definition processWatchResponse (r : Discover) (watchResp : WatchResponse)
    : go (Discover * option watchErr) :=
  if negb (CompactRevision watchResp =? 0) then Ret (r, Some errWatchCompacted) else
  match wr_Err watchResp with
  | Some ErrCompacted => Ret (r, Some errWatchCompacted)
  | Some ErrOther => Ret (r, Some errResponse)
  | None =>
      if Canceled watchResp then Ret (r, Some errCanceled) else
      let! r := dispatchEvents r (Events watchResp) in
      Ret (r <| watchRevision := wr_Revision watchResp |>, None)
  end.

(** The watch goroutine: it watches, or its watch broke and it waits to reconnect, or it
    has returned.  Something happens to it: the quit channel closes, the watch channel
    closes or yields a response, or the second of waiting is over ([Get] then answers,
    should it be asked, and [knownKeys] is ranged over in some order). *)
Inductive phase := Watching | Broken (err : watchErr) | Stopped.
Inductive watchInput :=
| InQuit
| InClosed
| InResponse (resp : WatchResponse)
| InTimer (order : list (string * bytes)) (resp : option GetResponse).

(** [processWatchEvents], one receive at a time. *)
Definition processWatchEvents (r : Discover) (i : watchInput) : go (Discover * phase) :=
  match i with
  | InQuit => Ret (r, Stopped)
  | InClosed => Ret (r, Broken errClosed)
  | InResponse resp =>
      let! '(r, err) := processWatchResponse r resp in
      Ret (r, match err with Some e => Broken e | None => Watching end)
  | InTimer _ _ => Ret (r, Watching)
  end.

Definition watchStep (s : Discover * phase) (i : watchInput) : go (Discover * phase) :=
  let '(r, ph) := s in
  match ph with
  | Watching => processWatchEvents r i
  | Broken err =>
      match i with
      | InQuit => Ret (r, Stopped)
      | InTimer order resp =>
          match err with
          | errWatchCompacted => let! '(r, _) := resync r order resp in Ret (r, Watching)
          | _ => Ret (r, Watching)
          end
      | _ => Ret (r, Broken err)
      end
  | Stopped => Ret (r, Stopped)
  end.

Fixpoint watchConfig (s : Discover * phase) (inputs : list watchInput) : go (Discover * phase) :=
  match inputs with
  | [] => Ret s
  | i :: inputs => let! s := watchStep s i in watchConfig s inputs
  end.

(** The revision the next watch is asked to start from ([clientv3.WithRev]). *)
Definition watchFrom (r : Discover) : Z := wrap_int64 (watchRevision r + 1).
End Dispatch.

(** ** The events of a key *)

(** Heights are delivered but not recorded. *)
Definition tracked (key : string) : bool :=
  match (parseKey key).1.1 with keyHeight | keyUnknown => false | _ => true end.

Definition is_delete (e : event) : bool :=
  match e with
  | ENode n => match tn_ChangeType n with EVENT_DELETE => true | EVENT_PUT => false end
  | EHeight _ => false
  | EGateway g => match gw_ChangeType g with EVENT_DELETE => true | EVENT_PUT => false end
  | EMirror m => mt_Deleted m
  | EVersion v => match cv_ChangeType v with EVENT_DELETE => true | EVENT_PUT => false end
  end.

Section Events.
Context `{DiscoveryJson}.

(** The event that announces a key's value, when the value decodes. *)
Definition document (key value : string) : option event :=
  let '(kind, chainId, sub) := parseKey key in
  match kind with
  | keyNode | keyNativeNode =>
      let '(node, ok) := UnmarshalTargetNode value in
      if ok then Some (ENode (mkTargetNode chainId (tn_StateType node) (tn_Address node)
        (tn_Port node) (tn_NodeType node) EVENT_PUT sub (tn_Weight node)
        (if bool_decide (kind = keyNativeNode) then "native" else tn_Source node))) else None
  | keyHeight =>
      let '(height, ok) := UnmarshalChainHeight value in
      if ok then Some (EHeight (mkChainHeight chainId (ch_LatestBlockNumber height))) else None
  | keyGateway =>
      let '(gateway, ok) := UnmarshalGateway value in
      if ok then Some (EGateway (mkGateway chainId EVENT_PUT (Weights gateway) (MethodRoutes gateway)))
      else None
  | keyMirror =>
      let '(mirror, ok) := UnmarshalMirrorTarget value in
      if ok then Some (EMirror (mkMirrorTarget chainId sub (mt_Address mirror) (mt_Port mirror)
        (mt_RateLimit mirror) (mt_Deleted mirror))) else None
  | keyVersion =>
      Some (EVersion {| cv_ChainId := chainId; cv_Version := parseVersionValue (Some value);
                        cv_ChangeType := EVENT_PUT |})
  | keyUnknown => None
  end.

Lemma parseVersionValue_contents v : parseVersionValue v = parseVersionValue (Some (contents v)).
Proof. by destruct v. Qed.

Lemma dispatchPut_document r key value :
  dispatchPut r key value =
  match document key (contents value) with
  | None => Ret r
  | Some e =>
      send (if tracked key then r <| knownKeys := <[key := value]> (knownKeys r) |> else r) key e
  end.
Proof.
  unfold dispatchPut, document, tracked. destruct (parseKey key) as [[kind c] s]. simpl.
  rewrite parseVersionValue_contents.
  destruct kind; simpl; try done;
    [destruct (UnmarshalTargetNode _) as [n []] | destruct (UnmarshalTargetNode _) as [n []]
    |destruct (UnmarshalChainHeight _) as [n []] | destruct (UnmarshalGateway _) as [n []]
    |destruct (UnmarshalMirrorTarget _) as [n []]]; done.
Qed.

(** The event that withdraws a key whose last value was [prev]. *)
Definition removal (key : string) (prev : bytes) : option event :=
  let '(kind, chainId, sub) := parseKey key in
  match kind with
  | keyNode | keyNativeNode =>
      let node := match prev with Some v => (UnmarshalTargetNode v).1 | None => zeroTargetNode end in
      Some (ENode (mkTargetNode chainId (tn_StateType node) (tn_Address node) (tn_Port node)
        (tn_NodeType node) EVENT_DELETE sub (tn_Weight node)
        (if bool_decide (kind = keyNativeNode) then "native" else tn_Source node)))
  | keyGateway => Some (EGateway (mkGateway chainId EVENT_DELETE [] ∅))
  | keyMirror =>
      let mirror := match prev with Some v => (UnmarshalMirrorTarget v).1 | None => zeroMirrorTarget end in
      Some (EMirror (mkMirrorTarget chainId sub (mt_Address mirror) (mt_Port mirror)
        (mt_RateLimit mirror) true))
  | keyVersion =>
      Some (EVersion {| cv_ChainId := chainId; cv_Version := parseVersionValue prev;
                        cv_ChangeType := EVENT_DELETE |})
  | keyHeight | keyUnknown => None
  end.

Definition last_value (r : Discover) (key : string) (prev : bytes) : bytes :=
  match prev with Some _ => prev | None => default None (knownKeys r !! key) end.

Lemma dispatchDelete_removal r key prev :
  dispatchDelete r key prev =
  match removal key (last_value r key prev) with
  | None => Ret (r <| knownKeys := delete key (knownKeys r) |>)
  | Some e => send (r <| knownKeys := delete key (knownKeys r) |>) key e
  end.
Proof.
  unfold dispatchDelete, removal, last_value.
  destruct (parseKey key) as [[kind c] s]. by destruct kind.
Qed.

Lemma removal_tracked key prev : is_Some (removal key prev) ↔ tracked key = true.
Proof.
  unfold removal, tracked. destruct (parseKey key) as [[[] c] s]; simpl;
    split; intros Hx; try done; try (by eexists); by destruct Hx.
Qed.

Lemma removal_is_delete key prev e : removal key prev = Some e → is_delete e = true.
Proof. unfold removal. destruct (parseKey key) as [[[] c] s]; intros; by simplify_eq. Qed.

Lemma document_is_put `{!DiscoveryJsonLaws} key v e : document key v = Some e → is_delete e = false.
Proof.
  unfold document. pose proof (Deleted_not_decoded v) as Hd.
  destruct (parseKey key) as [[[] c] s]; repeat case_match; intros; simplify_eq; done.
Qed.

(** ** What a dispatch does to the state *)

Definition sends (r : Discover) (key : string) (e : event) : Discover :=
  r <| sent := sent r ++ [(key, e)] |>.

Definition put_state (r : Discover) (key : string) (value : bytes) : Discover :=
  match document key (contents value) with
  | None => r
  | Some e =>
      sends (if tracked key then r <| knownKeys := <[key := value]> (knownKeys r) |> else r) key e
  end.

Definition delete_state (r : Discover) (key : string) (prev : bytes) : Discover :=
  let r' := r <| knownKeys := delete key (knownKeys r) |> in
  match removal key (last_value r key prev) with None => r' | Some e => sends r' key e end.

Lemma send_ensures r key e : ensures (send r key e) (λ r', r' = sends r key e).
Proof. unfold send. by case_match. Qed.

Lemma send_drained r key e : drained r = true → send r key e = Ret (sends r key e).
Proof. unfold send. by intros ->. Qed.

Lemma dispatchPut_ensures r key value :
  ensures (dispatchPut r key value) (λ r', r' = put_state r key value).
Proof.
  rewrite dispatchPut_document. unfold put_state. case_match; [|done]. apply send_ensures.
Qed.

Lemma dispatchDelete_ensures r key prev :
  ensures (dispatchDelete r key prev) (λ r', r' = delete_state r key prev).
Proof.
  rewrite dispatchDelete_removal. unfold delete_state. case_match; [|done]. apply send_ensures.
Qed.

Lemma dispatchPut_drained r key value :
  drained r = true → dispatchPut r key value = Ret (put_state r key value).
Proof.
  intros Hd. rewrite dispatchPut_document. unfold put_state. case_match; [|done].
  apply send_drained. by destruct (tracked key).
Qed.

Lemma dispatchDelete_drained r key prev :
  drained r = true → dispatchDelete r key prev = Ret (delete_state r key prev).
Proof.
  intros Hd. rewrite dispatchDelete_removal. unfold delete_state. case_match; [|done].
  by apply send_drained.
Qed.

Lemma put_state_drained r key value : drained (put_state r key value) = drained r.
Proof. unfold put_state. case_match; [|done]. by destruct (tracked key). Qed.

Lemma delete_state_drained r key prev : drained (delete_state r key prev) = drained r.
Proof. unfold delete_state. by case_match. Qed.

(** ** What a consumer knows

    For each key, the last event sent about it, forgotten once it is a deletion. *)

Definition observe (m : gmap string event) (ke : string * event) : gmap string event :=
  if is_delete ke.2 then delete ke.1 m else <[ke.1 := ke.2]> m.

Definition view (log : list (string * event)) : gmap string event := foldl observe ∅ log.

Lemma view_snoc log ke : view (log ++ [ke]) = observe (view log) ke.
Proof. unfold view. by rewrite foldl_app. Qed.

(** [knownKeys] holds tracked keys with decodable values, and is what was sent. *)
Record consistent (r : Discover) : Prop := {
  c_known k v : knownKeys r !! k = Some v →
    tracked k = true ∧ ∃ e, document k (contents v) = Some e ∧ view (sent r) !! k = Some e;
  c_view k : tracked k = true → knownKeys r !! k = None → view (sent r) !! k = None }.

Context `{!DiscoveryJsonLaws}.

Lemma put_state_log r key value :
  sent (put_state r key value) =
  sent r ++ match document key (contents value) with Some e => [(key, e)] | None => [] end.
Proof.
  unfold put_state. destruct (document _ _); [by destruct (tracked key)|by rewrite (right_id_L [] (++))].
Qed.

Lemma put_state_view r key value k :
  view (sent (put_state r key value)) !! k =
  match document key (contents value) with
  | Some e => if bool_decide (k = key) then Some e else view (sent r) !! k
  | None => view (sent r) !! k
  end.
Proof.
  rewrite put_state_log. destruct (document key (contents value)) as [e|] eqn:E;
    [|by rewrite (right_id_L [] (++))].
  rewrite view_snoc. unfold observe. simpl. rewrite (document_is_put _ _ _ E).
  rewrite lookup_insert. repeat case_decide; repeat case_bool_decide; congruence.
Qed.

Lemma put_state_known r key value k :
  knownKeys (put_state r key value) !! k =
  if bool_decide (k = key ∧ tracked key = true ∧ is_Some (document key (contents value)))
  then Some value else knownKeys r !! k.
Proof.
  unfold put_state. destruct (document key (contents value)) as [e|] eqn:E.
  - destruct (tracked key) eqn:T; simpl.
    + rewrite lookup_insert. case_decide; case_bool_decide; naive_solver.
    + rewrite bool_decide_eq_false_2; naive_solver.
  - rewrite bool_decide_eq_false_2; [done|]. intros (_ & _ & [? ?]). done.
Qed.

Lemma delete_state_known r key prev k :
  knownKeys (delete_state r key prev) !! k = if bool_decide (k = key) then None else knownKeys r !! k.
Proof.
  unfold delete_state. case_match; simpl; rewrite lookup_delete;
    case_decide; case_bool_decide; congruence.
Qed.

Lemma delete_state_view r key prev k :
  tracked k = true →
  view (sent (delete_state r key prev)) !! k =
  if bool_decide (k = key) then None else view (sent r) !! k.
Proof.
  intros Ht. unfold delete_state. destruct (removal _ _) as [e|] eqn:E; simpl.
  - rewrite view_snoc. unfold observe. simpl. rewrite (removal_is_delete _ _ _ E), lookup_delete.
    case_decide; case_bool_decide; congruence.
  - rewrite bool_decide_eq_false_2; [done|]. intros ->.
    apply (removal_tracked key (last_value r key prev)) in Ht as [? ?]. congruence.
Qed.

Lemma delete_state_view_untracked r key prev k :
  tracked k = false → view (sent (delete_state r key prev)) !! k = view (sent r) !! k.
Proof.
  intros Ht. unfold delete_state. destruct (removal _ _) as [e|] eqn:E; simpl; [|done].
  assert (k ≠ key).
  { intros ->. assert (tracked key = true) by (eapply removal_tracked; eauto). congruence. }
  rewrite view_snoc. unfold observe. simpl. rewrite (removal_is_delete _ _ _ E).
  by rewrite lookup_delete_ne.
Qed.

Lemma consistent_put r key value : consistent r → consistent (put_state r key value).
Proof.
  intros [Hk Hv]. constructor.
  - intros k v. rewrite put_state_known, put_state_view.
    case_bool_decide as Hc.
    + destruct Hc as (-> & Ht & e & He). intros [= <-]. rewrite He, bool_decide_eq_true_2 by done.
      eauto.
    + intros Hl. destruct (Hk _ _ Hl) as (Ht & e & He & Hs). split; [done|]. exists e. split; [done|].
      destruct (document key (contents value)) as [e'|] eqn:E; [|done].
      case_bool_decide; [|done]. subst k. destruct Hc. eauto.
  - intros k Ht. rewrite put_state_known, put_state_view. case_bool_decide as Hc; [done|].
    intros Hl. destruct (document key (contents value)) as [e'|] eqn:E; [|auto].
    case_bool_decide; [|auto]. subst k. destruct Hc. eauto.
Qed.

Lemma consistent_delete r key prev : consistent r → consistent (delete_state r key prev).
Proof.
  intros [Hk Hv]. constructor.
  - intros k v. rewrite delete_state_known. case_bool_decide as Hc; [done|]. intros Hl.
    destruct (Hk _ _ Hl) as (Ht & e & He & Hs). split; [done|]. exists e.
    by rewrite delete_state_view, bool_decide_eq_false_2.
  - intros k Ht. rewrite delete_state_known, delete_state_view by done.
    case_bool_decide; [done|auto].
Qed.

(** ** Keeping up with the store *)

(** [r] reflects the store [db]: what decodes has been announced, what is gone has been
    withdrawn. *)
Record synced (db : gmap string bytes) (r : Discover) : Prop := {
  s_live k v e : db !! k = Some v → document k (contents v) = Some e →
    view (sent r) !! k = Some e ∧ (tracked k = true → contents <$> knownKeys r !! k = Some (contents v));
  s_gone k : db !! k = None → tracked k = true → knownKeys r !! k = None }.

Lemma synced_put db r key value :
  synced db r → synced (<[key := value]> db) (put_state r key value).
Proof.
  intros [Hl Hg]. constructor.
  - intros k v e Hdb He. rewrite put_state_known, put_state_view.
    destruct (decide (k = key)) as [->|Hne].
    + rewrite lookup_insert_eq in Hdb. injection Hdb as <-. rewrite He.
      rewrite bool_decide_eq_true_2 by done. split; [done|]. intros Ht.
      by rewrite bool_decide_eq_true_2 by eauto.
    + rewrite lookup_insert_ne in Hdb by done. rewrite !bool_decide_eq_false_2 by naive_solver.
      destruct (Hl _ _ _ Hdb He). by destruct (document key (contents value)).
  - intros k Hdb Ht. apply lookup_insert_None in Hdb as [Hdb Hne].
    rewrite put_state_known, bool_decide_eq_false_2 by naive_solver. auto.
Qed.

Lemma synced_delete db r key prev :
  synced db r → synced (delete key db) (delete_state r key prev).
Proof.
  intros [Hl Hg]. constructor.
  - intros k v e Hdb He. apply lookup_delete_Some in Hdb as [Hne Hdb].
    destruct (Hl _ _ _ Hdb He) as [Hv Hk]. rewrite delete_state_known, bool_decide_eq_false_2 by done.
    split; [|done]. destruct (tracked k) eqn:Ht.
    + by rewrite delete_state_view, bool_decide_eq_false_2.
    + by rewrite delete_state_view_untracked.
  - intros k Hdb Ht. rewrite delete_state_known. case_bool_decide; [done|].
    rewrite lookup_delete_ne in Hdb by done. auto.
Qed.

(** The events of one key in a stretch of the log. *)
Definition events_of (k : string) (log : list (string * event)) : list event :=
  (filter (λ ke, ke.1 = k) log).*2.

Lemma events_of_app k a b : events_of k (a ++ b) = events_of k a ++ events_of k b.
Proof. unfold events_of. by rewrite filter_app, fmap_app. Qed.

Lemma events_of_one k key e : events_of k [(key, e)] = if bool_decide (key = k) then [e] else [].
Proof. unfold events_of. rewrite filter_cons. simpl. case_decide; case_bool_decide; done. Qed.

Lemma view_other log new k : events_of k new = [] → view (log ++ new) !! k = view log !! k.
Proof.
  induction new as [|[key e] new IH] using rev_ind; [by rewrite (right_id_L [] (++))|].
  rewrite events_of_app, events_of_one, (assoc_L (++)), view_snoc. intros [Hn Ho]%app_nil.
  revert Ho. case_bool_decide as Hk; [done|]. intros _. rewrite <- IH by done. unfold observe. simpl.
  destruct (is_delete e); [by rewrite lookup_delete_ne|by rewrite lookup_insert_ne].
Qed.

Lemma put_state_sent r key value :
  ∃ new, sent (put_state r key value) = sent r ++ new ∧
  ∀ k, events_of k new =
       if bool_decide (key = k) then option_list (document key (contents value)) else [].
Proof.
  rewrite put_state_log. eexists. split; [done|]. intros k.
  destruct (document key (contents value)) as [e|]; [apply events_of_one|by case_bool_decide].
Qed.

Lemma delete_state_sent r key prev :
  ∃ new, sent (delete_state r key prev) = sent r ++ new ∧
  ∀ k, events_of k new =
       if bool_decide (key = k) then option_list (removal key (last_value r key prev)) else [].
Proof.
  unfold delete_state. destruct (removal _ _) as [e|]; simpl.
  - exists [(key, e)]. split; [done|]. intros k. apply events_of_one.
  - exists []. rewrite (right_id_L [] (++)). split; [done|]. intros k. by case_bool_decide.
Qed.

(** ** Resynchronising *)

Definition lookup_list (l : list (string * bytes)) (k : string) : option bytes :=
  (list_to_map l : gmap string bytes) !! k.

Lemma lookup_list_cons k' v l k :
  lookup_list ((k', v) :: l) k = if decide (k' = k) then Some v else lookup_list l k.
Proof.
  unfold lookup_list. simpl. by rewrite lookup_insert.
Qed.

(** What the two loops send for a key. *)
Definition vanish_events (live : gset string) (order : list (string * bytes)) (k : string) : list event :=
  match lookup_list order k with
  | Some lv => if bool_decide (k ∈ live) then [] else option_list (removal k lv)
  | None => []
  end.

Definition change_events (known : gmap string bytes) (kvs : list (string * bytes)) (k : string)
    : list event :=
  match lookup_list kvs k with
  | Some v => if bool_decide (contents <$> known !! k = Some (contents v)) then []
              else option_list (document k (contents v))
  | None => []
  end.

Lemma not_listed (l : list (string * bytes)) k : k ∉ l.*1 → lookup_list l k = None.
Proof. apply not_elem_of_list_to_map_1. Qed.

Lemma deleteVanished_spec live order r :
  drained r = true → consistent r → NoDup order.*1 →
  (∀ k lv, (k, lv) ∈ order → knownKeys r !! k = Some lv) →
  returns (deleteVanished live r order) (λ r',
    drained r' = true ∧ consistent r' ∧
    (∀ k, knownKeys r' !! k =
          if bool_decide (is_Some (lookup_list order k) ∧ k ∉ live) then None else knownKeys r !! k) ∧
    ∃ new, sent r' = sent r ++ new ∧ ∀ k, events_of k new = vanish_events live order k).
Proof.
  revert r. induction order as [|[key lv] order IH]; intros r Hd Hc Hnd Hord; simpl.
  { split_and!; [done|done| |].
    - intros k. rewrite bool_decide_eq_false_2; [done|]. intros [[? Hx] _]. by unfold lookup_list in Hx.
    - exists []. by rewrite (right_id_L [] (++)). }
  apply NoDup_cons in Hnd as [Hni Hnd]. fold (fmap (M:=list) (@fst string bytes)) in *.
  assert (∀ k lv, (k, lv) ∈ order → knownKeys r !! k = Some lv) as Hord'
    by (intros; apply Hord; by right).
  case_bool_decide as Hlive.
  - eapply returns_mono; [by apply IH|]. intros r' (Hd' & Hc' & Hk & new & Hs & He).
    split_and!; [done|done| |].
    + intros k. rewrite Hk, lookup_list_cons. apply (f_equal (λ b : bool, if b then None else _)).
      apply bool_decide_ext. case_decide as E; [|done]. subst k.
      rewrite not_listed by done. split; [by intros [[? ?] _]|]. by intros [_ ?].
    + exists new. split; [done|]. intros k. rewrite He. unfold vanish_events.
      rewrite lookup_list_cons. case_decide as E; [|done]. subst k.
      rewrite not_listed by done. by rewrite bool_decide_eq_true_2.
  - rewrite dispatchDelete_drained by done. simpl.
    eapply returns_mono; [apply IH|].
    { by rewrite delete_state_drained. } { by apply consistent_delete. } { done. }
    { intros k v Hin. rewrite delete_state_known. case_bool_decide as E; [|by apply Hord'].
      subst k. exfalso. apply Hni. apply list_elem_of_fmap. by exists (key, v). }
    intros r' (Hd' & Hc' & Hk & new & Hs & He). split_and!; [done|done| |].
    + intros k. rewrite Hk, delete_state_known, lookup_list_cons.
      destruct (decide (key = k)) as [<-|Hne].
      * rewrite (bool_decide_eq_true_2 (key = key)) by done.
        rewrite (bool_decide_eq_true_2 (is_Some (Some lv) ∧ _)) by eauto. by case_bool_decide.
      * by rewrite (bool_decide_eq_false_2 (k = key)) by done.
    + destruct (delete_state_sent r key lv) as (new1 & Hs1 & He1).
      exists (new1 ++ new). split; [by rewrite Hs, Hs1, (assoc_L (++))|]. intros k.
      rewrite events_of_app, He1, He. unfold vanish_events. rewrite lookup_list_cons.
      case_decide as E; [subst k|by rewrite bool_decide_eq_false_2].
      rewrite not_listed, bool_decide_eq_true_2, bool_decide_eq_false_2, (right_id_L [] (++)) by done.
      unfold last_value. rewrite (Hord key lv) by (by left). by destruct lv.
Qed.

Lemma putChanged_spec kvs r :
  drained r = true → consistent r → NoDup kvs.*1 →
  returns (putChanged r kvs) (λ r',
    drained r' = true ∧ consistent r' ∧
    (∀ k, lookup_list kvs k = None → knownKeys r' !! k = knownKeys r !! k) ∧
    (∀ k v e, lookup_list kvs k = Some v → document k (contents v) = Some e →
       view (sent r') !! k = Some e ∧
       (tracked k = true → contents <$> knownKeys r' !! k = Some (contents v))) ∧
    ∃ new, sent r' = sent r ++ new ∧ ∀ k, events_of k new = change_events (knownKeys r) kvs k).
Proof.
  revert r. induction kvs as [|[key value] kvs IH]; intros r Hd Hc Hnd; simpl.
  { split_and!; try done. exists []. by rewrite (right_id_L [] (++)). }
  apply NoDup_cons in Hnd as [Hni Hnd]. fold (fmap (M:=list) (@fst string bytes)) in *.
  case_bool_decide as Hsame.
  - eapply returns_mono; [by apply IH|]. intros r' (Hd' & Hc' & Hk & Hl & new & Hs & He).
    split_and!; [done|done| | |].
    + intros k. rewrite lookup_list_cons. case_decide; [done|]. apply Hk.
    + intros k v e. rewrite lookup_list_cons. case_decide as E; [|apply Hl]. subst k.
      intros [= <-] Hdoc. rewrite <- (Hk key) in Hsame by by apply not_listed.
      split; [|done]. destruct (knownKeys r' !! key) as [v'|] eqn:Ev; [|done].
      destruct (c_known _ Hc' _ _ Ev) as (_ & e' & He' & Hv'). simpl in Hsame.
      injection Hsame as Hsame. rewrite Hsame in He'. congruence.
    + exists new. split; [done|]. intros k. rewrite He. unfold change_events.
      rewrite lookup_list_cons. case_decide as E; [|done]. subst k.
      rewrite not_listed by done. by rewrite bool_decide_eq_true_2.
  - rewrite dispatchPut_drained by done. simpl.
    eapply returns_mono; [apply IH|].
    { by rewrite put_state_drained. } { by apply consistent_put. } { done. }
    intros r' (Hd' & Hc' & Hk & Hl & new & Hs & He). split_and!; [done|done| | |].
    + intros k. rewrite lookup_list_cons. case_decide as E; [done|]. intros Hn. rewrite Hk by done.
      rewrite put_state_known, bool_decide_eq_false_2 by (intros [? _]; congruence). done.
    + intros k v e. rewrite lookup_list_cons. case_decide as E; [|apply Hl]. subst k.
      intros [= <-] Hdoc.
      assert (lookup_list kvs key = None) as Hnone by by apply not_listed.
      assert (view (sent r') !! key = Some e) as Hview.
      { rewrite Hs, view_other by (rewrite He; unfold change_events; by rewrite Hnone).
        by rewrite put_state_view, Hdoc, bool_decide_eq_true_2. }
      split; [done|]. intros Ht. rewrite (Hk key Hnone), put_state_known.
      by rewrite bool_decide_eq_true_2 by eauto.
    + destruct (put_state_sent r key value) as (new1 & Hs1 & He1).
      exists (new1 ++ new). split; [by rewrite Hs, Hs1, (assoc_L (++))|]. intros k.
      rewrite events_of_app, He1, He. unfold change_events. rewrite lookup_list_cons.
      case_decide as E.
      * subst k. rewrite not_listed, bool_decide_eq_true_2, (right_id_L [] (++)) by done.
        by rewrite bool_decide_eq_false_2.
      * rewrite bool_decide_eq_false_2 by done. destruct (lookup_list kvs k) as [v|]; [|done]. simpl.
        by rewrite put_state_known, (bool_decide_eq_false_2 (k = key ∧ _)) by (intros [? _]; congruence).
Qed.

(** What [resync] owes the consumer of a key, from what was known and what is stored. *)
Definition resync_events (known live : gmap string bytes) (k : string) : list event :=
  match live !! k with
  | Some v => if bool_decide (contents <$> known !! k = Some (contents v)) then []
              else option_list (document k (contents v))
  | None => match known !! k with Some lv => option_list (removal k lv) | None => [] end
  end.

Lemma resync_ok r order resp :
  drained r = true → consistent r → order ≡ₚ map_to_list (knownKeys r) → NoDup (Kvs resp).*1 →
  returns (resync r order (Some resp)) (λ '(r', ok),
    ok = true ∧ drained r' = true ∧ consistent r' ∧ watchRevision r' = gr_Revision resp ∧
    synced (list_to_map (Kvs resp)) r' ∧
    ∃ new, sent r' = sent r ++ new ∧
           ∀ k, events_of k new = resync_events (knownKeys r) (list_to_map (Kvs resp)) k).
Proof.
  intros Hd Hc Hord Hnd. simpl. set (live := list_to_set _ : gset string).
  assert (∀ k, k ∈ live ↔ is_Some (lookup_list (Kvs resp) k)) as Hlive.
  { intros k. unfold live, lookup_list. rewrite elem_of_list_to_set. split.
    - intros Hin. destruct (_ !! k) eqn:E; [done|]. by apply not_elem_of_list_to_map_2 in E.
    - intros [v Hv]. apply elem_of_list_to_map_2 in Hv. apply list_elem_of_fmap. by exists (k, v). }
  assert (NoDup order.*1) as Hndo by (rewrite Hord; apply NoDup_fst_map_to_list).
  assert (list_to_map order = knownKeys r) as Hmap by (symmetry; by apply list_to_map_flip).
  eapply returns_seq; [apply (deleteVanished_spec live order); try done|].
  { intros k lv. rewrite Hord. apply elem_of_map_to_list. }
  intros r1 (Hd1 & Hc1 & Hk1 & new1 & Hs1 & He1).
  eapply returns_seq; [by apply putChanged_spec|].
  intros r2 (Hd2 & Hc2 & Hk2 & Hl2 & new2 & Hs2 & He2). simpl. split_and!; try done.
  - by destruct Hc2.
  - constructor; [done|]. intros k Hdb Ht. simpl.
    rewrite Hk2, Hk1 by done. unfold lookup_list. rewrite Hmap. case_bool_decide as E; [done|].
    destruct (knownKeys r !! k) eqn:El; [|done]. destruct E. split; [done|]. rewrite Hlive.
    unfold lookup_list. rewrite Hdb. by intros [? ?].
  - exists (new1 ++ new2). split; [by rewrite Hs2, Hs1, (assoc_L (++))|]. intros k.
    rewrite events_of_app, He1, He2. unfold vanish_events, change_events, resync_events.
    rewrite Hk1. unfold lookup_list at 1 2. rewrite Hmap. specialize (Hlive k).
    unfold lookup_list in *. destruct (list_to_map (Kvs resp) !! k) as [v|] eqn:Ev.
    + assert (k ∈ live) as Hin by (apply Hlive; eauto).
      rewrite (bool_decide_eq_true_2 (k ∈ live)) by done.
      rewrite (bool_decide_eq_false_2 (_ ∧ k ∉ live)) by tauto. by destruct (knownKeys r !! k).
    + assert (k ∉ live) as Hnin by (rewrite Hlive; by intros [? ?]).
      rewrite (bool_decide_eq_false_2 (k ∈ live)) by done.
      destruct (knownKeys r !! k); [by rewrite (right_id_L [] (++))|done].
Qed.

(** ** Snapshots and watches *)

Definition apply_event (db : gmap string bytes) (e : Event) : gmap string bytes :=
  if ev_Put e then <[ev_Key e := ev_Value e]> db else delete (ev_Key e) db.

Lemma dispatchPuts_ensures kvs db r :
  consistent r → synced db r →
  ensures (dispatchPuts r kvs) (λ r',
    consistent r' ∧ synced (foldl (λ m kv, <[kv.1 := kv.2]> m) db kvs) r' ∧ drained r' = drained r).
Proof.
  revert db r. induction kvs as [|[key value] kvs IH]; intros db r Hc Hs; simpl; [done|].
  eapply ensures_seq; [apply dispatchPut_ensures|]. intros r' ->.
  eapply ensures_mono; [apply IH; [by apply consistent_put|by apply synced_put]|].
  intros r' (? & ? & ->). by rewrite put_state_drained.
Qed.

Lemma dispatchEvents_ok evs db r :
  drained r = true → consistent r → synced db r →
  returns (dispatchEvents r evs) (λ r',
    drained r' = true ∧ consistent r' ∧ synced (foldl apply_event db evs) r').
Proof.
  revert db r. induction evs as [|ev evs IH]; intros db r Hd Hc Hs; simpl; [done|].
  unfold apply_event at 2. destruct (ev_Put ev).
  - rewrite dispatchPut_drained by done. simpl.
    apply IH; [by rewrite put_state_drained|by apply consistent_put|by apply synced_put].
  - rewrite dispatchDelete_drained by done. simpl.
    apply IH; [by rewrite delete_state_drained|by apply consistent_delete|by apply synced_delete].
Qed.

Lemma foldl_insert_list kvs (db : gmap string bytes) :
  NoDup kvs.*1 → foldl (λ m kv, <[kv.1 := kv.2]> m) db kvs = list_to_map kvs ∪ db.
Proof.
  revert db. induction kvs as [|[k v] kvs IH]; intros db Hnd; simpl; [by rewrite (left_id_L ∅ (∪))|].
  apply NoDup_cons in Hnd as [Hni Hnd]. rewrite IH by done.
  rewrite <- insert_union_r by by apply not_elem_of_list_to_map_1. by rewrite insert_union_l.
Qed.

Lemma consistent_new prefix : consistent (NewDiscover prefix).
Proof. constructor; intros k; simpl; unfold view; simpl; by rewrite ?lookup_empty. Qed.

Lemma synced_new prefix : synced ∅ (NewDiscover prefix).
Proof. constructor; intros k; simpl; by rewrite ?lookup_empty. Qed.

(** ** Starting up *)

(** How many sends on a channel a snapshot takes. *)
Definition announced (kvs : list (string * bytes)) (ch : nat) : nat :=
  length (filter (λ kv, channel <$> document kv.1 (contents kv.2) = Some ch) kvs).

Lemma announced_cons key value kvs ch :
  announced ((key, value) :: kvs) ch =
  ((if bool_decide (channel <$> document key (contents value) = Some ch) then 1 else 0)
   + announced kvs ch)%nat.
Proof. unfold announced. rewrite filter_cons. simpl. case_decide; case_bool_decide; done. Qed.

Lemma buffered_put r key value ch :
  buffered (put_state r key value) ch =
  (buffered r ch + (if bool_decide (channel <$> document key (contents value) = Some ch) then 1 else 0))%nat.
Proof.
  unfold buffered. rewrite put_state_log, filter_app, length_app. f_equal.
  destruct (document key (contents value)) as [e|]; [|done].
  rewrite filter_cons. simpl. case_decide; case_bool_decide; simpl; congruence.
Qed.

Lemma dispatchPut_undrained r key value :
  drained r = false →
  dispatchPut r key value =
  match document key (contents value) with
  | Some e => if (buffered r (channel e) <? channelCap)%nat then Ret (put_state r key value) else NoFuel
  | None => Ret (put_state r key value)
  end.
Proof.
  intros Hd. rewrite dispatchPut_document. unfold put_state.
  destruct (document key (contents value)) as [e|]; [|done]. unfold send, sends.
  destruct (tracked key); simpl; rewrite Hd; done.
Qed.

Lemma dispatchPuts_blocks kvs r :
  drained r = false → (∀ ch, buffered r ch ≤ channelCap)%nat →
  ((∀ ch, buffered r ch + announced kvs ch ≤ channelCap)%nat ∧ ∃ r', dispatchPuts r kvs = Ret r') ∨
  ((∃ ch, channelCap < buffered r ch + announced kvs ch)%nat ∧ dispatchPuts r kvs = NoFuel).
Proof.
  revert r. induction kvs as [|[key value] kvs IH]; intros r Hd Hb; cbn [dispatchPuts].
  { left. split; [|eauto]. intros ch. unfold announced. simpl. specialize (Hb ch). lia. }
  rewrite dispatchPut_undrained by done.
  assert (∀ ch, buffered (put_state r key value) ch + announced kvs ch =
                buffered r ch + announced ((key, value) :: kvs) ch)%nat as Hsum.
  { intros ch. rewrite buffered_put, announced_cons. lia. }
  assert ((∀ ch, buffered (put_state r key value) ch ≤ channelCap)%nat →
    ((∀ ch, buffered r ch + announced ((key, value) :: kvs) ch ≤ channelCap)%nat ∧
       ∃ r', dispatchPuts (put_state r key value) kvs = Ret r') ∨
    ((∃ ch, channelCap < buffered r ch + announced ((key, value) :: kvs) ch)%nat ∧
       dispatchPuts (put_state r key value) kvs = NoFuel)) as Hnext.
  { intros Hb'. destruct (IH (put_state r key value)) as [[Hl Hr]|[[ch Hc] Hr]];
      [by rewrite put_state_drained|done| |].
    - left. split; [|done]. intros ch. rewrite <- Hsum. apply Hl.
    - right. split; [|done]. exists ch. by rewrite <- Hsum. }
  destruct (document key (contents value)) as [e|] eqn:E; simpl.
  - destruct (buffered r (channel e) <? channelCap)%nat eqn:Hlt; b2p; simpl.
    + apply Hnext. intros ch. rewrite buffered_put, E. simpl. specialize (Hb ch).
      case_bool_decide as Hch; [injection Hch as <-|]; lia.
    + right. split; [|done]. exists (channel e). rewrite announced_cons, E. simpl.
      rewrite bool_decide_eq_true_2 by done. lia.
  - apply Hnext. intros ch. rewrite buffered_put, E. simpl. specialize (Hb ch). lia.
Qed.
End Events.

(** ** Properties *)

(** Starting up ends exactly when the snapshot announces at most a thousand documents per
    channel: the channels get their receiver only after [Init] has returned them, so the
    send after the thousandth waits forever. *)
Theorem Init_blocks `{DiscoveryJsonLaws} prefix resp :
  (Init (NewDiscover prefix) (Some resp) = NoFuel ↔
   ∃ ch, (channelCap < announced (Kvs resp) ch)%nat) ∧
  ((∀ ch, (announced (Kvs resp) ch ≤ channelCap)%nat) →
   returns (Init (NewDiscover prefix) (Some resp)) (λ o, is_Some o)).
Proof.
  assert (∀ ch, buffered (NewDiscover prefix) ch = 0%nat) as Hz by done.
  destruct (dispatchPuts_blocks (Kvs resp) (NewDiscover prefix)) as [[Hl [r Hr]]|[[ch Hc] Hr]];
    [done|intros ch; rewrite Hz; unfold channelCap; lia| |];
    unfold Init; rewrite Hr; simpl.
  - split; [|by eexists]. split; [done|]. intros [ch Hc]. specialize (Hl ch). rewrite Hz in Hl. lia.
  - rewrite Hz in Hc. split; [split; [|done]; intros _; by exists ch|]. intros Hle. specialize (Hle ch). lia.
Qed.

(** An update that does not decode and the deletion after it, reported with that update as
    the previous value: the deletion carries what could be decoded of the update, although
    the document the consumers hold is still in [knownKeys]. *)
Theorem bad_update_delete `{DiscoveryJsonLaws} r k good bad node chain sub :
  drained r = true → parseKey k = (keyNode, chain, sub) → knownKeys r !! k = Some good →
  UnmarshalTargetNode bad = (node, false) →
  dispatchEvents r [mkEvent true k (Some bad) None; mkEvent false k None (Some (Some bad))] =
  Ret (r <| knownKeys := delete k (knownKeys r) |>
         <| sent := sent r ++ [(k, ENode (mkTargetNode chain (tn_StateType node) (tn_Address node)
              (tn_Port node) (tn_NodeType node) EVENT_DELETE sub (tn_Weight node) (tn_Source node)))] |>).
Proof.
  intros Hd Hk Hg Hb. simpl. rewrite dispatchPut_drained by done. unfold put_state, document.
  rewrite Hk. simpl. rewrite Hb. simpl. rewrite dispatchDelete_drained by done. simpl.
  unfold delete_state, last_value, removal. rewrite Hk. simpl. by rewrite Hb.
Qed.

(** ** Instances *)

(** Decoders for the examples: a node document is its type. *)
Definition ex_node (t : Z) : TargetNode := mkTargetNode "" 1 "h" 80 t EVENT_PUT "" 100 "manual".
Definition ex_json : DiscoveryJson := {|
  UnmarshalTargetNode v :=
    if bool_decide (v = "state") then (ex_node 1, true) else
    if bool_decide (v = "archive") then (ex_node 2, true) else (zeroTargetNode, false);
  UnmarshalChainHeight v := (mkChainHeight "" (Some (Z.of_nat (len v))), true);
  UnmarshalGateway v := (mkGateway "" EVENT_PUT [mkWeightInfo v 50] ∅, true);
  UnmarshalMirrorTarget v := (zeroMirrorTarget, negb (bool_decide (v = "")));
  UnmarshalVersion v := ("", false);
  UnmarshalString v := (v, true) |}.
Lemma ex_json_laws : @DiscoveryJsonLaws ex_json.
Proof. split; [intros v|..]; done. Defined.

Definition ex_known : Discover :=
  mkDiscover "" 1 {["1/nodes/a" := Some "archive"]} true [].

(** The deletion of an archive node after an update that does not decode says nothing of its type. *)
Lemma bad_update_delete_witness :
  (document (H := ex_json) "1/nodes/a" "archive" =
     Some (ENode (mkTargetNode "1" 1 "h" 80 2 EVENT_PUT "a" 100 "manual"))) ∧
  @dispatchEvents ex_json ex_known
    [mkEvent true "1/nodes/a" (Some "{") None; mkEvent false "1/nodes/a" None (Some (Some "{"))] =
  Ret (ex_known <| knownKeys := delete "1/nodes/a" (knownKeys ex_known) |>
         <| sent := sent ex_known ++ [("1/nodes/a", ENode (mkTargetNode "1" 0 "" 0 0 EVENT_DELETE "a" 0 ""))] |>).
Proof.
  split; [vm_compute; reflexivity|].
  apply (@bad_update_delete ex_json ex_json_laws ex_known "1/nodes/a" (Some "archive") "{" zeroTargetNode "1" "a");
    vm_compute; reflexivity.
Defined.

(** A thousand and one nodes. *)
Definition ex_many : GetResponse := mkGetResponse (replicate 1001 ("1/nodes/a", Some "state")) 1.

Lemma ex_many_announced : (channelCap < @announced ex_json (Kvs ex_many) 0)%nat.
Proof. apply Nat.ltb_lt. vm_compute. reflexivity. Qed.

Lemma Init_blocks_witness : @Init ex_json (NewDiscover "") (Some ex_many) = NoFuel.
Proof.
  exact (proj2 (proj1 (@Init_blocks ex_json ex_json_laws "" ex_many)) (ex_intro _ 0%nat ex_many_announced)).
Defined.
