(* ===== verification/EtcdWatch.v ===== *)
(** * The watcher and etcd

    What etcd promises a client that reads a snapshot and then watches ([kv.Get],
    [watcher.Watch] with [WithPrefix], [WithPrevKV] and [WithRev]), and what the watcher of
    [Discovery] makes of it.  etcd delivers on a watch the changes from the revision the
    watch was asked to start from, in order and whole revisions at a time.  The revision in
    the header of a response is the store's when the response was sent: a watch that lags
    behind gets the changes in batches whose headers are ahead of them. *)

From S2P Require Import Prelude GoStrings ChainId DiscoveryKeys LbNode Gateway PickNodes Selector Mirror Refresh Discovery.
Local Open Scope Z_scope.

(** ** etcd's history and its answers *)

(** The history of the keys under the prefix: what each revision did to them. *)
Definition store (hist : list (list Event)) (rev : Z) : gmap string bytes :=
  foldl apply_event ∅ (concat (take (Z.to_nat rev) hist)).

(** The changes after revision [a] up to revision [b]. *)
Definition changes (hist : list (list Event)) (a b : Z) : list Event :=
  concat (drop (Z.to_nat a) (take (Z.to_nat b) hist)).

Definition latest (hist : list (list Event)) : Z := Z.of_nat (length hist).

(** A response to [Get] is the store at its revision. *)
Definition snapshot_of (hist : list (list Event)) (resp : GetResponse) : Prop :=
  Kvs resp ≡ₚ map_to_list (store hist (gr_Revision resp)) ∧ 0 ≤ gr_Revision resp ≤ latest hist.

(** The watch etcd serves: the revision whose changes it delivers next.  [ws_gap] records that
    revisions were passed over when a watch was opened and no snapshot has been compared
    since, [ws_skips] that revisions were ever passed over. *)
Record stream := mkStream { ws_next : Z; ws_gap : bool; ws_skips : bool }.

#[export] Instance stream_expands : Expands stream := λ st, mkStream (ws_next st) (ws_gap st) (ws_skips st).

(** Where a watch starts: revision 0 asks for the changes after the current one. *)
Definition startRevision (current from : Z) : Z := if from =? 0 then current + 1 else from.

(** A new watch after the one that delivered up to [ws_next st]. *)
Definition reopen (st : stream) (start : Z) : stream :=
  let passed := bool_decide (ws_next st < start) in
  mkStream start (ws_gap st || passed) (ws_skips st || passed).

(** After a snapshot every revision up to its own is accounted for. *)
Definition after_snapshot (rev : Z) (skips : bool) : stream := mkStream (rev + 1) false skips.

(** A response without an error: the next whole revisions, under a header that may be ahead
    of them.  A response without changes reports progress and is not ahead. *)
Record delivers (hist : list (list Event)) (st : stream) (resp : WatchResponse) (upto : Z) : Prop := {
  dl_range : ws_next st - 1 ≤ upto ≤ wr_Revision resp;
  dl_latest : wr_Revision resp ≤ latest hist;
  dl_events : Events resp = changes hist (ws_next st - 1) upto;
  dl_progress : Events resp = [] → upto = wr_Revision resp }.

Definition no_error (resp : WatchResponse) : bool :=
  (CompactRevision resp =? 0) && match wr_Err resp with None => negb (Canceled resp) | _ => false end.

(** What etcd and the clock may do next.  A [Get] is answered at a revision that is not older
    than one the client has seen. *)
Definition answers (hist : list (list Event)) (r : Discover) (ph : phase) (st : stream) (i : watchInput) : Prop :=
  match ph, i with
  | Watching, InResponse resp => no_error resp = true → ∃ upto, delivers hist st resp upto
  | Broken errWatchCompacted, InTimer order (Some resp) =>
      order ≡ₚ map_to_list (knownKeys r) ∧ snapshot_of hist resp ∧ watchRevision r ≤ gr_Revision resp
  | _, _ => True
  end.

(** The watch etcd serves after it, when the watcher has become [r']: a watcher that waited
    long enough opens a watch at [watchFrom r'], with or without a snapshot before it. *)
Inductive etcd_step (hist : list (list Event)) (r' : Discover) (st : stream) : phase → watchInput → stream → Prop :=
| es_events resp upto :
    no_error resp = true → delivers hist st resp upto →
    etcd_step hist r' st Watching (InResponse resp) (st <| ws_next := upto + 1 |>)
| es_error resp :
    no_error resp = false → etcd_step hist r' st Watching (InResponse resp) st
| es_reopen err order resp current :
    err ≠ errWatchCompacted ∨ resp = None → 0 ≤ current ≤ latest hist →
    etcd_step hist r' st (Broken err) (InTimer order resp)
      (reopen st (startRevision current (watchFrom r')))
| es_resync order resp current :
    0 ≤ current ≤ latest hist →
    etcd_step hist r' st (Broken errWatchCompacted) (InTimer order (Some resp))
      (reopen (after_snapshot (gr_Revision resp) (ws_skips st)) (startRevision current (watchFrom r')))
| es_other ph i :
    match ph, i with
    | Watching, InResponse _ | Broken _, InTimer _ _ => False
    | _, _ => True
    end → etcd_step hist r' st ph i st.

(** The states the watcher reaches, once [main] serves its channels, against a history whose
    revisions are 64-bit numbers. *)
Inductive watched `{DiscoveryJson} (hist : list (list Event)) : Discover → phase → stream → Prop :=
| watched_init prefix resp r current :
    latest hist < max_int64 → snapshot_of hist resp → 0 ≤ current ≤ latest hist →
    Init (NewDiscover prefix) (Some resp) = Ret (Some r) →
    watched hist (served r) Watching
      (reopen (after_snapshot (gr_Revision resp) false) (startRevision current (watchFrom r)))
| watched_step r ph st i r' ph' st' :
    watched hist r ph st → answers hist r ph st i → watchStep (r, ph) i = Ret (r', ph') →
    etcd_step hist r' st ph i st' → watched hist r' ph' st'.

(** ** The invariant *)

Lemma snapshot_list hist resp :
  snapshot_of hist resp →
  NoDup (Kvs resp).*1 ∧ list_to_map (Kvs resp) = store hist (gr_Revision resp).
Proof.
  intros [Hs _]. split; [rewrite Hs; apply NoDup_fst_map_to_list|]. symmetry. by apply list_to_map_flip.
Qed.

Lemma store_changes hist a b :
  a ≤ b → foldl apply_event (store hist a) (changes hist a b) = store hist b.
Proof.
  intros Hab. unfold store, changes. rewrite <- foldl_app, <- concat_app. do 2 f_equal.
  rewrite <- (take_drop (Z.to_nat a) (take (Z.to_nat b) hist)) at 2. f_equal.
  rewrite take_take. f_equal. lia.
Qed.

Section Watch.
Context `{DiscoveryJsonLaws}.

(** The watcher never asks for what it was given, and has been told the store as of the
    revisions delivered, unless some were passed over. *)
Record watch_ok (hist : list (list Event)) (r : Discover) (st : stream) : Prop := {
  wo_drained : drained r = true;
  wo_consistent : consistent r;
  wo_next : 1 ≤ ws_next st ≤ watchRevision r + 1;
  wo_latest : 0 ≤ watchRevision r ≤ latest hist;
  wo_width : latest hist < max_int64;
  wo_skips : ws_gap st = true → ws_skips st = true;
  wo_synced : ws_gap st = false → synced (store hist (ws_next st - 1)) r }.

Lemma consistent_fields r r' :
  knownKeys r' = knownKeys r → sent r' = sent r → consistent r → consistent r'.
Proof. intros E1 E2 [Hk Hv]. constructor; rewrite E1, E2; auto. Qed.

Lemma synced_fields db r r' :
  knownKeys r' = knownKeys r → sent r' = sent r → synced db r → synced db r'.
Proof. intros E1 E2 [Hk Hv]. constructor; rewrite E1, ?E2; auto. Qed.

Lemma watchFrom_next r : 0 ≤ watchRevision r < max_int64 → watchFrom r = watchRevision r + 1.
Proof. intros Hr. apply wrap_int64_id. unfold in_int64, min_int64, max_int64 in *. lia. Qed.

(** A watch opened by the watcher starts right after its revision. *)
Lemma startRevision_next r current : 0 ≤ watchRevision r < max_int64 → startRevision current (watchFrom r) = watchRevision r + 1.
Proof.
  intros Hr. unfold startRevision. rewrite watchFrom_next by done. destruct (_ =? 0) eqn:E; [|done]. b2p. lia.
Qed.

Lemma reopen_ok hist r st current :
  watch_ok hist r st → watch_ok hist r (reopen st (startRevision current (watchFrom r))).
Proof.
  intros [Hd Hc Hn Hl Hm Hk Hs]. rewrite startRevision_next by lia. unfold reopen.
  constructor; simpl; try done; [lia| |].
  - intros Hg. apply orb_true_iff in Hg as [Hg|Hg]; [by rewrite Hk|by rewrite Hg, orb_true_r].
  - intros [Hg Hp]%orb_false_iff. b2p. replace (watchRevision r + 1 - 1) with (ws_next st - 1) by lia. auto.
Qed.

Lemma after_snapshot_ok hist r rev skips :
  drained r = true → consistent r → watchRevision r = rev → 0 ≤ rev ≤ latest hist → latest hist < max_int64 →
  synced (store hist rev) r → watch_ok hist r (after_snapshot rev skips).
Proof.
  intros Hd Hc <- Hrev Hl Hs. constructor; simpl; try done; [lia|].
  by replace (watchRevision r + 1 - 1) with (watchRevision r) by lia.
Qed.

Lemma Init_ok hist prefix resp :
  latest hist < max_int64 → snapshot_of hist resp →
  ensures (Init (NewDiscover prefix) (Some resp)) (λ o,
    ∃ r, o = Some r ∧ watch_ok hist (served r) (after_snapshot (gr_Revision resp) false)).
Proof.
  intros Hl Hsnap. destruct (snapshot_list _ _ Hsnap) as [Hnd Hlist]. simpl.
  eapply ensures_seq; [apply dispatchPuts_ensures; [apply consistent_new|apply synced_new]|].
  intros r (Hc & Hs & _). simpl. eexists. split; [done|].
  rewrite foldl_insert_list, (right_id_L ∅ (∪)), Hlist in Hs by done.
  apply after_snapshot_ok; try done; [by apply (consistent_fields r)|apply Hsnap|by apply (synced_fields _ r)].
Qed.

Lemma processWatchResponse_error r resp :
  no_error resp = false → ∃ err, processWatchResponse r resp = Ret (r, Some err).
Proof.
  unfold no_error, processWatchResponse. destruct (CompactRevision resp =? 0); simpl; [|eauto].
  destruct (wr_Err resp) as [[]|]; [eauto|eauto|]. destruct (Canceled resp); simpl; [eauto|done].
Qed.

Lemma processWatchResponse_events r resp :
  no_error resp = true →
  processWatchResponse r resp =
  (let! r := dispatchEvents r (Events resp) in Ret (r <| watchRevision := wr_Revision resp |>, None)).
Proof.
  unfold no_error, processWatchResponse. destruct (CompactRevision resp =? 0); simpl; [|done].
  destruct (wr_Err resp) as [[]|]; [done|done|]. by destruct (Canceled resp).
Qed.

Lemma dispatchEvents_keeps evs r :
  drained r = true → consistent r → returns (dispatchEvents r evs) (λ r', drained r' = true ∧ consistent r').
Proof.
  revert r. induction evs as [|ev evs IH]; intros r Hd Hc; simpl; [done|].
  destruct (ev_Put ev).
  - rewrite dispatchPut_drained by done. simpl. apply IH; [by rewrite put_state_drained|by apply consistent_put].
  - rewrite dispatchDelete_drained by done. simpl. apply IH; [by rewrite delete_state_drained|by apply consistent_delete].
Qed.

Lemma events_ok hist r st resp upto :
  watch_ok hist r st → delivers hist st resp upto → no_error resp = true →
  returns (processWatchResponse r resp) (λ '(r', err), err = None ∧ watch_ok hist r' (st <| ws_next := upto + 1 |>)).
Proof.
  intros [Hd Hc Hn Hl Hm Hk Hs] [Hr Hlat Hev _] Hne. rewrite processWatchResponse_events by done.
  destruct (ws_gap st) eqn:Hg.
  - eapply returns_seq.
    { eapply returns_mono; [apply (dispatchEvents_keeps (Events resp) r Hd Hc)|]. intros r' Hr'. exact Hr'. }
    intros r' [Hd' Hc']. simpl. split; [done|]. constructor; simpl; try done; try lia; [by apply (consistent_fields r')|by intros _; apply Hk|congruence].
  - eapply returns_seq; [apply dispatchEvents_ok; [done|done|by apply Hs]|].
    intros r' (Hd' & Hc' & Hs'). simpl. split; [done|]. constructor; simpl; try done; try lia.
    + by apply (consistent_fields r').
    + congruence.
    + intros _. rewrite Hev, store_changes in Hs' by lia. replace (upto + 1 - 1) with upto by lia.
      by apply (synced_fields _ r').
Qed.

(** The goroutine never gets stuck and keeps the invariant, wherever its next watch starts. *)
Lemma watchStep_ok hist r ph st i :
  watch_ok hist r st → answers hist r ph st i →
  returns (watchStep (r, ph) i) (λ '(r', _), ∀ st', etcd_step hist r' st ph i st' → watch_ok hist r' st').
Proof.
  intros Hok Hi. destruct ph as [|err|].
  - destruct i as [| |resp|order resp]; try (simpl; intros st' Hst; inversion Hst; by simplify_eq).
    destruct (no_error resp) eqn:Hne; simpl.
    + destruct (Hi Hne) as [upto Hu].
      destruct (returns_inv _ _ (events_ok hist r st resp upto Hok Hu Hne)) as ([r' err] & E & _). rewrite E. simpl.
      intros st' Hst. inversion Hst as [resp' u _ Hu'|resp' Hf| | |ph' i' Hf]; simplify_eq; [|congruence|done].
      pose proof (events_ok hist r st resp u Hok Hu' Hne) as Ho. rewrite E in Ho. apply Ho.
    + destruct (processWatchResponse_error r resp Hne) as [err ->]. simpl. intros st' Hst.
      inversion Hst; simplify_eq; congruence || done.
  - destruct i as [| |resp|order resp]; try (destruct err; simpl; intros st' Hst; inversion Hst; by simplify_eq).
    destruct (decide (err = errWatchCompacted ∧ is_Some resp)) as [[-> [snap ->]]|Hno].
    + destruct Hi as (Hord & Hsnap & _). destruct (snapshot_list _ _ Hsnap) as [Hnd Hlist].
      cbn [watchStep]. eapply returns_seq; [apply resync_ok; [apply Hok|apply Hok|done|done]|].
      intros [r' b] (_ & Hd' & Hc' & Hrev & Hs' & _). intros st' Hst.
      inversion Hst as [| |err' order' resp' current Hx|order' resp' current|ph' i' Hf]; simplify_eq; [naive_solver| |done].
      apply reopen_ok, after_snapshot_ok; try done; [apply Hsnap|apply Hok|by rewrite <- Hlist].
    + assert (watchStep (r, Broken err) (InTimer order resp) = Ret (r, Watching)) as ->.
      { simpl. destruct err; try done. destruct resp; [|done]. destruct Hno. by eauto. }
      intros st' Hst.
      inversion Hst as [| |err' order' resp' current Hx|order' resp' current|ph' i' Hf]; simplify_eq; [|by destruct Hno; eauto|done].
      by apply reopen_ok.
  - destruct i; simpl; intros st' Hst; inversion Hst; by simplify_eq.
Qed.

Lemma watched_ok hist r ph st : watched hist r ph st → watch_ok hist r st.
Proof.
  induction 1 as [prefix resp r current Hl Hs Hcur Hi|r ph st i r' ph' st' _ IH Ha Hst He].
  - pose proof (Init_ok hist prefix resp Hl Hs) as Ho. rewrite Hi in Ho. destruct Ho as (? & [= <-] & Ho).
    apply (reopen_ok hist (served r) _ current Ho).
  - pose proof (watchStep_ok hist r ph st i IH Ha) as Ho. rewrite Hst in Ho. by apply Ho.
Qed.

(** etcd always has an answer. *)
Lemma etcd_step_some hist r r' ph st i : answers hist r ph st i → ∃ st', etcd_step hist r' st ph i st'.
Proof.
  assert (0 ≤ 0 ≤ latest hist) as Hz by (unfold latest; lia).
  intros Ha. destruct ph as [|err|]; [| |eexists; by apply es_other].
  - destruct i as [| |resp|order resp]; try (eexists; by apply es_other).
    destruct (no_error resp) eqn:Hne; [|eexists; by apply es_error].
    destruct (Ha Hne) as [upto Hu]. eexists. by apply es_events.
  - destruct i as [| |resp|order resp]; try (eexists; by apply es_other).
    destruct (decide (err = errWatchCompacted)) as [->|Hne].
    + destruct resp as [resp|]; eexists; [by apply es_resync|apply es_reopen; [by right|done]].
    + eexists. apply es_reopen; [by left|done].
Qed.

Lemma resync_revision hist r r' ph' st order resp :
  watch_ok hist r st → answers hist r (Broken errWatchCompacted) st (InTimer order (Some resp)) →
  watchStep (r, Broken errWatchCompacted) (InTimer order (Some resp)) = Ret (r', ph') →
  watchRevision r' = gr_Revision resp.
Proof.
  intros Hok (Hord & Hsnap & _). destruct (snapshot_list _ _ Hsnap) as [Hnd _]. cbn [watchStep].
  pose proof (resync_ok r order resp (wo_drained _ _ _ Hok) (wo_consistent _ _ _ Hok) Hord Hnd) as Hr.
  destruct (resync r order (Some resp)) as [[r1 b]| |]; intros Hst; simplify_eq/=. by destruct Hr as (_ & _ & _ & ? & _).
Qed.

(** Revisions are passed over only when a watch is opened and the one before broke off behind
    its last header. *)
Lemma gap_origin hist r ph st i r' ph' st' :
  watch_ok hist r st → answers hist r ph st i → watchStep (r, ph) i = Ret (r', ph') → etcd_step hist r' st ph i st' →
  ws_next st ≤ ws_next st' ∧
  (ws_skips st = false → ws_skips st' = true → ws_next st ≤ watchRevision r) ∧
  (ws_gap st = false → ws_gap st' = true → ws_next st ≤ watchRevision r).
Proof.
  intros Hok Ha Hst He. pose proof (watchStep_ok hist r ph st i Hok Ha) as Ho. rewrite Hst in Ho.
  specialize (Ho st' He). destruct He as [resp upto Hne [Hu _ _ _]|resp Hne|err order resp current Hx Hc|order resp current Hc|ph i Hx].
  - simpl. split; [lia|]. split; congruence.
  - split; [lia|]. split; congruence.
  - assert (r' = r) as ->.
    { simpl in Hst. destruct err; try (by simplify_eq). destruct Hx as [?| ->]; [done|]. by simplify_eq/=. }
    rewrite startRevision_next in * by (destruct Hok; lia). unfold reopen in *. simpl in *.
    split; [destruct Hok; lia|]. split; intros -> Hg; simpl in Hg; b2p; lia.
  - destruct Ha as (Hord & Hsnap & Hle).
    pose proof (resync_revision _ _ _ _ _ _ _ Hok (conj Hord (conj Hsnap Hle)) Hst) as Hrev.
    rewrite startRevision_next in * by (destruct Hok, Hsnap; lia). unfold reopen, after_snapshot in *. simpl in *.
    rewrite Hrev in *. split; [destruct Hok; lia|]. split; [intros -> Hg|intros _ Hg]; simpl in Hg; b2p; lia.
  - split; [lia|]. split; congruence.
Qed.
End Watch.

Section Gaps.
Context `{DiscoveryJsonLaws}.

Lemma gap_reopens hist r' ph st i st' :
  etcd_step hist r' st ph i st' → ws_gap st = false → ws_gap st' = true →
  ∃ err order resp, ph = Broken err ∧ i = InTimer order resp.
Proof. destruct 1; simpl; try congruence; eauto. Qed.

Lemma resync_closes hist r r' ph' st order resp st' :
  watch_ok hist r st → answers hist r (Broken errWatchCompacted) st (InTimer order (Some resp)) →
  watchStep (r, Broken errWatchCompacted) (InTimer order (Some resp)) = Ret (r', ph') →
  etcd_step hist r' st (Broken errWatchCompacted) (InTimer order (Some resp)) st' → ws_gap st' = false.
Proof.
  intros Hok Ha Hst He. pose proof (resync_revision _ _ _ _ _ _ _ Hok Ha Hst) as Hrev.
  destruct Ha as (_ & [_ Hr] & _).
  inversion He as [| |err' order' resp' current Hx|order' resp' current|ph i Hf]; simplify_eq; [naive_solver| |done].
  rewrite startRevision_next by (destruct Hok; lia). unfold reopen, after_snapshot. simpl.
  apply bool_decide_eq_false_2. lia.
Qed.
End Gaps.

(** ** Deletions carry the document they withdraw *)

Definition withdraw (e : event) : event :=
  match e with
  | ENode n => ENode (n <| tn_ChangeType := EVENT_DELETE |>)
  | EHeight h => EHeight h
  | EGateway g => EGateway (mkGateway (gw_ChainId g) EVENT_DELETE [] ∅)
  | EMirror m => EMirror (m <| mt_Deleted := true |>)
  | EVersion v => EVersion {| cv_ChainId := cv_ChainId v; cv_Version := cv_Version v;
                              cv_ChangeType := EVENT_DELETE |}
  end.


(** Every deletion of a key in the log withdraws what the log last announced for it. *)
Definition orderly (k : string) (log : list (string * event)) : Prop :=
  ∀ l1 e l2, log = l1 ++ (k, e) :: l2 → is_delete e = true →
  ∃ e0, view l1 !! k = Some e0 ∧ e = withdraw e0.

(** What etcd reports of a key, when its documents decode: a deletion is of a key that is
    there, and names no other previous value. *)
Definition valid_history `{DiscoveryJson} (hist : list (list Event)) (k : string) : Prop :=
  ∀ pre e post, concat hist = pre ++ e :: post → ev_Key e = k →
  if ev_Put e then is_Some (document k (contents (ev_Value e)))
  else ∃ v, foldl apply_event ∅ pre !! k = Some v ∧ ∀ p, ev_PrevKv e = Some p → p = v.

Section Deletions.
Context `{DiscoveryJsonLaws} (K : string) (HK : tracked K = true).

Lemma orderly_snoc log k e :
  orderly K log → (k = K → is_delete e = true → ∃ e0, view log !! K = Some e0 ∧ e = withdraw e0) →
  orderly K (log ++ [(k, e)]).
Proof.
  intros Hlog He l1 e' l2 Heq Hd.
  destruct l2 as [|x l2 _] using rev_ind.
  - apply app_inj_tail in Heq as [<- [= -> ->]]. auto.
  - rewrite app_comm_cons, (assoc_L (++)) in Heq. apply app_inj_tail in Heq as [-> _]. by eapply Hlog.
Qed.

Lemma orderly_put r key value : orderly K (sent r) → orderly K (sent (put_state r key value)).
Proof.
  intros Ho. rewrite put_state_log. destruct (document key (contents value)) as [e|] eqn:E;
    [|by rewrite (right_id_L [] (++))].
  apply orderly_snoc; [done|]. by rewrite (document_is_put _ _ _ E).
Qed.

Lemma removal_document key v e :
  tracked key = true → document key (contents v) = Some e → removal key v = Some (withdraw e).
Proof.
  unfold tracked, document, removal, contents.
  pose proof empty_not_node as Hn. pose proof empty_not_mirror as Hm.
  destruct (parseKey key) as [[kind c] s]. destruct kind; simpl; intros Ht; try done.
  1,2: destruct v as [v|]; [clear Hn|]; simpl; destruct (UnmarshalTargetNode _) as [n []]; simpl in *; intros; by simplify_eq.
  - destruct (UnmarshalGateway _) as [g []]; intros; by simplify_eq.
  - destruct v as [v|]; [clear Hm|]; simpl; destruct (UnmarshalMirrorTarget _) as [n []]; simpl in *; intros; by simplify_eq.
  - intros. simplify_eq. simpl. by rewrite parseVersionValue_contents.
Qed.

Lemma orderly_delete r key prev :
  orderly K (sent r) →
  (key = K → ∃ e0, document K (contents (last_value r K prev)) = Some e0 ∧ view (sent r) !! K = Some e0) →
  orderly K (sent (delete_state r key prev)).
Proof.
  intros Ho Hdoc. unfold delete_state. destruct (removal _ _) as [e|] eqn:E; simpl; [|done].
  apply orderly_snoc; [done|]. intros -> _. destruct (Hdoc eq_refl) as (e0 & Hd & Hv). exists e0. split; [done|].
  rewrite (removal_document _ _ _ HK Hd) in E. congruence.
Qed.

Lemma deleteVanished_orderly live order r :
  consistent r → orderly K (sent r) → NoDup order.*1 →
  (∀ k lv, (k, lv) ∈ order → knownKeys r !! k = Some lv) →
  ensures (deleteVanished live r order) (λ r', orderly K (sent r')).
Proof.
  revert r. induction order as [|[key lv] order IH]; intros r Hc Ho Hnd Hord; simpl; [done|].
  apply NoDup_cons in Hnd as [Hni Hnd]. fold (fmap (M:=list) (@fst string bytes)) in *.
  case_bool_decide; [apply IH; try done; intros; apply Hord; by right|].
  eapply ensures_seq; [apply dispatchDelete_ensures|]. intros r' ->.
  assert (knownKeys r !! key = Some lv) as Hk by (apply Hord; by left).
  destruct (c_known _ Hc _ _ Hk) as (_ & e0 & Hdoc & Hv).
  apply IH; [by apply consistent_delete| |done|].
  - apply orderly_delete; [done|]. intros ->. exists e0. split; [|done].
    unfold last_value. rewrite Hk. by destruct lv.
  - intros k v Hin. rewrite delete_state_known. case_bool_decide as E; [|apply Hord; by right].
    subst k. exfalso. apply Hni. apply list_elem_of_fmap. by exists (key, v).
Qed.

Lemma putChanged_orderly kvs r :
  orderly K (sent r) → ensures (putChanged r kvs) (λ r', orderly K (sent r')).
Proof.
  revert r. induction kvs as [|[key value] kvs IH]; intros r Ho; simpl; [done|].
  case_bool_decide; [auto|]. eapply ensures_seq; [apply dispatchPut_ensures|]. intros r' ->.
  apply IH. by apply orderly_put.
Qed.

Lemma dispatchPuts_orderly kvs r :
  orderly K (sent r) → ensures (dispatchPuts r kvs) (λ r', orderly K (sent r')).
Proof.
  revert r. induction kvs as [|[key value] kvs IH]; intros r Ho; simpl; [done|].
  eapply ensures_seq; [apply dispatchPut_ensures|]. intros r' ->. apply IH. by apply orderly_put.
Qed.

Lemma history_documents hist pre post v :
  valid_history hist K → concat hist = pre ++ post → foldl apply_event ∅ pre !! K = Some v →
  is_Some (document K (contents v)).
Proof.
  intros Hv. revert post. induction pre as [|e pre IH] using rev_ind; intros post Heq.
  { simpl. by rewrite lookup_empty. }
  rewrite foldl_app. simpl. rewrite <- (assoc_L (++)) in Heq. specialize (Hv _ _ _ Heq).
  unfold apply_event at 1. destruct (ev_Put e).
  - intros [[E <-]|[Hne Hl]]%lookup_insert_Some; [by apply Hv|]. by eapply IH.
  - intros [Hne Hl]%lookup_delete_Some. by eapply IH.
Qed.

Lemma dispatchEvents_orderly hist evs pre post r :
  valid_history hist K → concat hist = pre ++ evs ++ post →
  consistent r → synced (foldl apply_event ∅ pre) r → orderly K (sent r) →
  ensures (dispatchEvents r evs) (λ r', orderly K (sent r')).
Proof.
  intros Hv. revert pre r. induction evs as [|ev evs IH]; intros pre r Heq Hc Hs Ho; simpl; [done|].
  pose proof (Hv _ _ _ Heq) as Hev.
  assert (concat hist = (pre ++ [ev]) ++ evs ++ post) as Heq' by (rewrite Heq, <- (assoc_L (++)); done).
  assert (foldl apply_event ∅ (pre ++ [ev]) = apply_event (foldl apply_event ∅ pre) ev) as Hfold
    by (by rewrite foldl_app).
  unfold apply_event in Hfold at 2. destruct (ev_Put ev).
  - eapply ensures_seq; [apply dispatchPut_ensures|]. intros r' ->.
    eapply IH; [done|by apply consistent_put| |by apply orderly_put].
    rewrite Hfold. by apply synced_put.
  - eapply ensures_seq; [apply dispatchDelete_ensures|]. intros r' ->.
    eapply IH; [done|by apply consistent_delete|rewrite Hfold; by apply synced_delete|].
    apply orderly_delete; [done|]. intros Ek. destruct (Hev Ek) as (v & Hdb & Hprev).
    destruct (history_documents _ _ _ _ Hv Heq Hdb) as [e0 He0].
    destruct (s_live _ _ Hs _ _ _ Hdb He0) as [Hview Hknown]. specialize (Hknown HK).
    exists e0. split; [|done]. rewrite <- He0. f_equal. unfold last_value.
    destruct (ev_PrevKv ev) as [[x|]|] eqn:Ep; simpl;
      [by rewrite <- (Hprev _ eq_refl)| |];
      destruct (knownKeys r !! K); simpl in *; congruence.
Qed.

Lemma concat_split hist a b :
  (a ≤ b) → ∃ post, concat hist =
    concat (take (Z.to_nat a) hist) ++ changes hist a b ++ post.
Proof.
  intros Hab. exists (concat (drop (Z.to_nat b) hist)). unfold changes.
  rewrite (assoc_L (++)), <- concat_app.
  assert (take (Z.to_nat a) hist = take (Z.to_nat a) (take (Z.to_nat b) hist)) as ->
    by (rewrite take_take; f_equal; lia).
  by rewrite take_drop, <- concat_app, take_drop.
Qed.

(** A watch that never passed over a revision. *)
Lemma step_skips hist r' st ph i st' : etcd_step hist r' st ph i st' → ws_skips st' = false → ws_skips st = false.
Proof. destruct 1; simpl; try done; unfold reopen; simpl; by intros [? _]%orb_false_iff. Qed.

Lemma watched_orderly hist r ph st :
  valid_history hist K → watched hist r ph st → ws_skips st = false → orderly K (sent r).
Proof.
  intros Hv. induction 1 as [prefix resp r current Hl Hsn Hcur Hi|r ph st i r' ph' st' Hw IH Ha Hst He]; intros Hsk.
  - assert (orderly K (sent (NewDiscover prefix))) as Hempty by (intros []; done).
    pose proof (dispatchPuts_orderly (Kvs resp) _ Hempty) as Ho. simpl in Hi.
    destruct (dispatchPuts _ _); simplify_eq/=. done.
  - pose proof (step_skips _ _ _ _ _ _ He Hsk) as Hsk0. specialize (IH Hsk0). destruct (watched_ok _ _ _ _ Hw) as [Hd Hc Hn _ _ Hg Hs].
    assert (ensures (watchStep (r, ph) i) (λ s, orderly K (sent s.1))) as Ho; [|by rewrite Hst in Ho].
    destruct He as [resp upto Hne [Hu _ Hev _]|resp Hne|err order resp current Hx Hc'|order resp current Hc'|ph i Hx].
    + assert (ws_gap st = false) as Hgap by (destruct (ws_gap st); [by rewrite Hg in Hsk0|done]).
      simpl. rewrite processWatchResponse_events, Hev by done.
      destruct (concat_split hist (ws_next st - 1) upto) as [post Hpost]; [lia|].
      pose proof (dispatchEvents_orderly hist _ _ _ r Hv Hpost Hc (Hs Hgap) IH) as Ho. by destruct (dispatchEvents _ _).
    + simpl. by destruct (processWatchResponse_error r resp Hne) as [err ->].
    + simpl. destruct err; try done. destruct Hx as [?| ->]; [done|]. done.
    + destruct Ha as (Hord & _). cbn [watchStep resync].
      assert (NoDup order.*1) as Hndo by (rewrite Hord; apply NoDup_fst_map_to_list).
      apply (ensures_seq (A := Discover * bool) _ _ (λ x, orderly K (sent x.1))); [|by intros [r1 b]].
      eapply ensures_seq; [apply (deleteVanished_orderly _ order r Hc IH Hndo)|].
      { intros k lv. rewrite Hord. apply elem_of_map_to_list. }
      intros r1 Ho1. eapply ensures_seq; [by apply putChanged_orderly|]. by intros r2 Ho2.
    + destruct ph as [|err|], i as [| |resp|order resp]; try done; by destruct err.
Qed.
End Deletions.

(** ** Properties *)

(** C9: the watcher follows the store. Through any sequence of watch responses, whose headers
    may be ahead of the changes they carry, and of broken watches, reconnections, compactions
    and failed or successful resynchronisations, what the consumers were last told about a
    key is the document etcd held for it at the last revision delivered, when it decodes, and
    a tracked key that etcd no longer had is withdrawn, unless revisions were passed over.
    The watcher never gets stuck and no change is delivered twice; revisions are passed over
    only by reconnecting after a watch that broke off behind its last header, and a
    resynchronisation makes up for them. *)
Theorem watch_tracks_store `{DiscoveryJsonLaws} hist r ph st :
  watched hist r ph st →
  (ws_gap st = false → ∀ k,
     match store hist (ws_next st - 1) !! k with
     | Some v => ∀ e, document k (contents v) = Some e → view (sent r) !! k = Some e
     | None => tracked k = true → view (sent r) !! k = None
     end) ∧
  ∀ i, answers hist r ph st i → ∃ r' ph', watchStep (r, ph) i = Ret (r', ph') ∧
    (∃ st', etcd_step hist r' st ph i st') ∧
    ∀ st', etcd_step hist r' st ph i st' →
      watched hist r' ph' st' ∧ ws_next st ≤ ws_next st' ∧
      (ws_gap st = false → ws_gap st' = true →
         (∃ err order resp, ph = Broken err ∧ i = InTimer order resp) ∧ ws_next st ≤ watchRevision r) ∧
      (∀ order resp, ph = Broken errWatchCompacted → i = InTimer order (Some resp) → ws_gap st' = false).
Proof.
  intros Hw. pose proof (watched_ok _ _ _ _ Hw) as Hok. split.
  - intros Hg k. destruct (wo_synced _ _ _ Hok Hg) as [Hl Hgone]. destruct (store _ _ !! k) as [v|] eqn:E.
    + intros e He. by apply (Hl _ _ _ E).
    + intros Ht. by apply (c_view _ (wo_consistent _ _ _ Hok)), Hgone.
  - intros i Hi. destruct (returns_inv _ _ (watchStep_ok hist r ph st i Hok Hi)) as ([r' ph'] & Hs & _).
    exists r', ph'. split_and!; [done|by eapply etcd_step_some|]. intros st' He.
    destruct (gap_origin _ _ _ _ _ _ _ _ Hok Hi Hs He) as (Hn & _ & Hgap).
    split_and!; [by eapply watched_step|done| |].
    + intros Hg Hg'. split; [|by apply Hgap]. by eapply gap_reopens.
    + intros order resp -> ->. by eapply resync_closes.
Qed.

(** Resynchronising sends exactly the difference. From any state the watcher reaches, and
    whatever order Go ranges over the known keys in, a resync sends for each key: its
    deletion when it is known and gone, its document when its value is new or changed and
    decodes, and nothing otherwise. *)
Theorem resync_sends_difference `{DiscoveryJsonLaws} hist r ph st order resp :
  watched hist r ph st → order ≡ₚ map_to_list (knownKeys r) → NoDup (Kvs resp).*1 →
  returns (resync r order (Some resp)) (λ '(r', ok),
    ok = true ∧ watchRevision r' = gr_Revision resp ∧
    ∃ new, sent r' = sent r ++ new ∧
           ∀ k, events_of k new = resync_events (knownKeys r) (list_to_map (Kvs resp)) k).
Proof.
  intros Hw Hord Hnd. destruct (watched_ok _ _ _ _ Hw) as [Hd Hc _ _ _ _ _].
  eapply returns_mono; [by apply resync_ok|]. intros [r' ok] (? & _ & _ & ? & _ & ?). done.
Qed.

(** C27: deletions name what they delete. When the documents of a key decode and no revision
    was passed over, each deletion the watcher sends of the key, after a watch event with or
    without the previous value or after a resync, carries the type, source, address and port
    the consumers were last told. *)
Theorem deletes_withdraw `{DiscoveryJsonLaws} hist r ph st k :
  tracked k = true → valid_history hist k → watched hist r ph st → ws_skips st = false → orderly k (sent r).
Proof. intros Ht Hv Hw Hs. by eapply watched_orderly. Qed.

(** ** Runs *)

(** A node put, then replaced while a gateway appears, then deleted.  The watcher starts at the
    first revision and gets the second one under the header of the third. *)
Definition ex_history : list (list Event) :=
  [[mkEvent true "1/nodes/a" (Some "state") None];
   [mkEvent true "1/nodes/a" (Some "archive") (Some (Some "state")); mkEvent true "1/gateway" (Some "a") None];
   [mkEvent false "1/nodes/a" None None]].
Definition ex_snapshot : GetResponse := mkGetResponse [("1/nodes/a", Some "state")] 1.
Definition ex_batch : WatchResponse := mkWatchResponse 0 None false (changes ex_history 1 2) 3.
Definition ex_compacted : WatchResponse := mkWatchResponse 3 None true [] 3.
Definition ex_watcher (inputs : list watchInput) : Discover * phase :=
  match @Init ex_json (NewDiscover "") (Some ex_snapshot) with
  | Ret (Some r) => match @watchConfig ex_json (served r, Watching) inputs with Ret s => s | _ => (r, Stopped) end
  | _ => (NewDiscover "", Stopped)
  end.
Definition ex_state : Discover := (ex_watcher [InResponse ex_batch]).1.
Definition ex_order : list (string * bytes) := map_to_list (knownKeys ex_state).
Definition ex_resync : GetResponse := mkGetResponse [("1/gateway", Some "a")] 3.

Lemma ex_snapshot_of : snapshot_of ex_history ex_snapshot.
Proof.
  assert (store ex_history 1 = {["1/nodes/a" := Some "state"]}) as E by (vm_compute; reflexivity).
  split; [|vm_compute; split; congruence]. simpl. rewrite E. by rewrite map_to_list_singleton.
Qed.

Lemma ex_resync_of : snapshot_of ex_history ex_resync.
Proof.
  assert (store ex_history 3 = {["1/gateway" := Some "a"]}) as E by (vm_compute; reflexivity).
  split; [|vm_compute; split; congruence]. simpl. rewrite E. by rewrite map_to_list_singleton.
Qed.

(** After the batch the watcher's revision is 3, and the changes of revision 3 come next. *)
Lemma ex_watched : @watched ex_json ex_history ex_state Watching (mkStream 3 false false).
Proof.
  assert (delivers ex_history (mkStream 2 false false) ex_batch 2) as Hd
    by (constructor; [split; vm_compute; congruence|vm_compute; congruence|reflexivity|discriminate]).
  refine (watched_step _ (ex_watcher []).1 Watching (mkStream 2 false false) (InResponse ex_batch) ex_state Watching _ _ _ _ _).
  - refine (watched_init _ "" ex_snapshot (mkDiscover "" 1 _ false _) 1 _ ex_snapshot_of _ _);
      [vm_compute; congruence|vm_compute; split; congruence|vm_compute; reflexivity].
  - intros _. by exists 2.
  - vm_compute. reflexivity.
  - by apply (es_events ex_history ex_state (mkStream 2 false false) ex_batch 2).
Qed.

(** The revision is compacted away, and the watcher resynchronises. *)
Definition ex_final : Discover := (ex_watcher [InResponse ex_batch; InResponse ex_compacted; InTimer ex_order (Some ex_resync)]).1.

Lemma ex_resynced : @watched ex_json ex_history ex_final Watching (mkStream 4 false false).
Proof.
  refine (watched_step _ ex_state (Broken errWatchCompacted) (mkStream 3 false false)
            (InTimer ex_order (Some ex_resync)) ex_final Watching _ _ _ _ _).
  - refine (watched_step _ ex_state Watching _ (InResponse ex_compacted) ex_state _ _ ex_watched _ _ _).
    + intros Hne. vm_compute in Hne. discriminate.
    + vm_compute. reflexivity.
    + by apply es_error.
  - split; [reflexivity|]. split; [apply ex_resync_of|vm_compute; congruence].
  - vm_compute. reflexivity.
  - apply (es_resync ex_history ex_final (mkStream 3 false false) ex_order ex_resync 3). vm_compute. split; congruence.
Qed.

(** The watch closes instead, and the watcher reconnects. *)
Lemma ex_reconnected : @watched ex_json ex_history ex_state Watching (mkStream 4 true true).
Proof.
  refine (watched_step _ ex_state (Broken errClosed) (mkStream 3 false false)
            (InTimer [] None) ex_state Watching _ _ I _ _).
  - refine (watched_step _ ex_state Watching _ InClosed ex_state _ _ ex_watched I _ _); [reflexivity|by apply es_other].
  - reflexivity.
  - apply (es_reopen ex_history ex_state (mkStream 3 false false) errClosed [] None 3); [by left|].
    vm_compute. split; congruence.
Qed.

(** A change is lost. The watcher resumes after the revision of the last header, and the
    header of a batch is ahead of its changes: when the watch breaks between two batches, the
    changes of the second are never asked for. Here the consumers keep a node that etcd has
    deleted, although everything etcd still has to deliver has been delivered. *)
Theorem catch_up_break_loses :
  ∃ hist r st, @watched ex_json hist r Watching st ∧ ws_next st = latest hist + 1 ∧
    store hist (latest hist) !! "1/nodes/a" = None ∧
    view (sent r) !! "1/nodes/a" = @document ex_json "1/nodes/a" "archive" ∧
    is_Some (@document ex_json "1/nodes/a" "archive").
Proof.
  exists ex_history, ex_state, (mkStream 4 true true). split; [apply ex_reconnected|].
  split_and!; try (vm_compute; reflexivity). by eexists.
Qed.

Lemma ex_valid : @valid_history ex_json ex_history "1/nodes/a".
Proof.
  intros pre e post Heq. vm_compute in Heq.
  destruct pre as [|? [|? [|? [|? [|? ?]]]]]; simplify_eq/=; intros; try done; by eexists.
Qed.

Lemma watch_tracks_store_witness :
  view (sent ex_final) !! "1/nodes/a" = None ∧
  view (sent ex_final) !! "1/gateway" = @document ex_json "1/gateway" "a".
Proof.
  destruct (@watch_tracks_store ex_json ex_json_laws ex_history ex_final Watching (mkStream 4 false false) ex_resynced) as [Hv _].
  specialize (Hv eq_refl). cbn [ws_next] in Hv.
  assert (store ex_history (4 - 1) = {["1/gateway" := Some "a"]}) as E by (vm_compute; reflexivity).
  rewrite E in Hv. pose proof (Hv "1/nodes/a") as H1. pose proof (Hv "1/gateway") as H2.
  rewrite lookup_singleton_ne in H1 by done. rewrite lookup_singleton_eq in H2.
  split; [apply H1; vm_compute; reflexivity|].
  rewrite (H2 _ eq_refl). vm_compute. reflexivity.
Defined.

Lemma resync_sends_difference_witness :
  returns (@resync ex_json ex_state ex_order (Some ex_resync)) (λ '(r', ok),
    ok = true ∧ watchRevision r' = gr_Revision ex_resync ∧
    ∃ new, sent r' = sent ex_state ++ new ∧
      ∀ k, events_of k new =
           @resync_events ex_json (knownKeys ex_state) (list_to_map (Kvs ex_resync)) k) ∧
  @resync_events ex_json (knownKeys ex_state) (list_to_map (Kvs ex_resync)) "1/nodes/a" =
    [ENode (mkTargetNode "1" 1 "h" 80 2 EVENT_DELETE "a" 100 "manual")].
Proof.
  split; [|vm_compute; reflexivity].
  assert (NoDup (Kvs ex_resync).*1) as Hnd by (repeat constructor; set_solver).
  exact (@resync_sends_difference ex_json ex_json_laws ex_history ex_state Watching _ ex_order ex_resync
    ex_watched (reflexivity _) Hnd).
Defined.

Lemma deletes_withdraw_witness :
  orderly "1/nodes/a" (sent ex_final) ∧ is_delete <$> (sent ex_final).*2 = [false; false; false; true].
Proof.
  split; [|vm_compute; reflexivity].
  exact (@deletes_withdraw ex_json ex_json_laws ex_history ex_final Watching _ "1/nodes/a" eq_refl ex_valid ex_resynced eq_refl).
Defined.
