(* ===== verification/Config.v ===== *)
(** * Configuration and its defaults

    [types/config.go].  A nil map or pointer of the YAML document is [None]. *)

From S2P Require Import Prelude GoStrings.
Local Open Scope Z_scope.

(** [time.Millisecond] and [time.Second], in nanoseconds. *)
Definition Millisecond : Z := 1000000.
Definition Second : Z := 1000 * Millisecond.

Record SlowLogThresholdConfig := mkSlowLog {
  sl_Default : Z; sl_RpcMethods : option (gmap string Z) }.

Record ObservabilityLogProcessorConfig := mkObservability {
  ol_Enable : bool; ol_SlowThreshold : SlowLogThresholdConfig; ol_EnableErrorLog : bool }.

Record ProcessorConfig := mkProcessorConfig {
  pc_ObservabilityLog : ObservabilityLogProcessorConfig;
  pc_RequestMirror : bool;
  pc_MethodDenied : option (list string) }.

Record Config := mkConfig {
  DefaultRPCTimeout : Z;
  RPCMethodTimeoutConfig : option (gmap string Z);
  ConnectionPoolSize : Z; ConnMaxIdleDuration : Z; ConnMaxWaitTimeout : Z; ConnDialTimeout : Z;
  Processor : ProcessorConfig;
  EtcdPrefix : string;
  NodeHealthCheckTimeout : Z; NodeHealthCheckMaxWait : Z;
  ArchiveHashCacheSize : Z }.

Definition defaultDenied : list string :=
  ["eth_newPendingTransactionFilter"; "txpool_content"; "txpool_inspect"; "txpool_contentFrom";
   "txpool_status"].

Definition defaultConfig : Config := {|
  DefaultRPCTimeout := 5000;
  RPCMethodTimeoutConfig := Some ∅;
  ConnectionPoolSize := 512; ConnMaxIdleDuration := 90000; ConnMaxWaitTimeout := 1000;
  ConnDialTimeout := 3000;
  Processor := mkProcessorConfig (mkObservability false (mkSlowLog 500 (Some ∅)) false) false
                 (Some defaultDenied);
  EtcdPrefix := "";
  NodeHealthCheckTimeout := 5; NodeHealthCheckMaxWait := 300;
  ArchiveHashCacheSize := 1024 |}.

Definition orDefault (v d : Z) : Z := if v =? 0 then d else v.
Definition orSome {A : Type} (v : option A) (d : A) : option A :=
  match v with Some x => Some x | None => Some d end.

Definition FillWithDefaultConfig (cfg : Config) : Config :=
  let log := pc_ObservabilityLog (Processor cfg) in
  let slow := ol_SlowThreshold log in
  {| DefaultRPCTimeout := orDefault (DefaultRPCTimeout cfg) (DefaultRPCTimeout defaultConfig);
     RPCMethodTimeoutConfig := orSome (RPCMethodTimeoutConfig cfg) ∅;
     ConnectionPoolSize := orDefault (ConnectionPoolSize cfg) (ConnectionPoolSize defaultConfig);
     ConnMaxIdleDuration := orDefault (ConnMaxIdleDuration cfg) (ConnMaxIdleDuration defaultConfig);
     ConnMaxWaitTimeout := orDefault (ConnMaxWaitTimeout cfg) (ConnMaxWaitTimeout defaultConfig);
     ConnDialTimeout := orDefault (ConnDialTimeout cfg) (ConnDialTimeout defaultConfig);
     Processor := mkProcessorConfig
       (mkObservability (ol_Enable log)
          (mkSlowLog (orDefault (sl_Default slow) 500) (orSome (sl_RpcMethods slow) ∅))
          (ol_EnableErrorLog log))
       (pc_RequestMirror (Processor cfg))
       (match pc_MethodDenied (Processor cfg) with
        | Some d => Some d
        | None => pc_MethodDenied (Processor defaultConfig)
        end);
     EtcdPrefix := EtcdPrefix cfg;
     NodeHealthCheckTimeout := NodeHealthCheckTimeout cfg;
     NodeHealthCheckMaxWait := NodeHealthCheckMaxWait cfg;
     ArchiveHashCacheSize := orDefault (ArchiveHashCacheSize cfg) (ArchiveHashCacheSize defaultConfig) |}.

(** ** Properties *)

(** Filling in defaults is idempotent, leaves every setting that was given alone (a
    negative archive-hash cache size in particular, which disables the cache), and leaves
    no required setting unset. *)
Theorem FillWithDefaultConfig_defaults cfg :
  let full := FillWithDefaultConfig cfg in
  FillWithDefaultConfig full = full ∧
  (DefaultRPCTimeout cfg ≠ 0 → DefaultRPCTimeout full = DefaultRPCTimeout cfg) ∧
  (ArchiveHashCacheSize cfg ≠ 0 → ArchiveHashCacheSize full = ArchiveHashCacheSize cfg) ∧
  (∀ d, pc_MethodDenied (Processor cfg) = Some d → pc_MethodDenied (Processor full) = Some d) ∧
  DefaultRPCTimeout full ≠ 0 ∧ ConnectionPoolSize full ≠ 0 ∧ ConnMaxIdleDuration full ≠ 0 ∧
  ConnMaxWaitTimeout full ≠ 0 ∧ ConnDialTimeout full ≠ 0 ∧ ArchiveHashCacheSize full ≠ 0 ∧
  is_Some (RPCMethodTimeoutConfig full) ∧ is_Some (pc_MethodDenied (Processor full)).
Proof.
  assert (∀ v d, d ≠ 0 → orDefault v d ≠ 0) as Hnz
    by (intros v d Hd; unfold orDefault; destruct (v =? 0) eqn:E; b2p; lia).
  assert (∀ v d, d ≠ 0 → orDefault (orDefault v d) d = orDefault v d) as Hid.
  { intros v d Hd. unfold orDefault at 1. rewrite (proj2 (Z.eqb_neq _ _)); [done|by apply Hnz]. }
  assert (∀ v d, v ≠ 0 → orDefault v d = v) as Hkeep
    by (intros v d Hv; unfold orDefault; by rewrite (proj2 (Z.eqb_neq _ _))).
  intros full. unfold full, FillWithDefaultConfig. simpl. rewrite !Hid by done.
  split_and!; try (by apply Hnz); try (intros; by apply Hkeep).
  - destruct (RPCMethodTimeoutConfig cfg), (pc_MethodDenied (Processor cfg)),
      (sl_RpcMethods (ol_SlowThreshold (pc_ObservabilityLog (Processor cfg)))); done.
  - by intros d ->.
  - destruct (RPCMethodTimeoutConfig cfg); simpl; eauto.
  - destruct (pc_MethodDenied (Processor cfg)); simpl; eauto.
Qed.
