(* ===== verification/UpstreamClient.v ===== *)
(** * The upstream client and the settings of the load balancer

    The shared client of [lb/lbnode/node.go] and what [NewLoadBalancer] of [lb/lb.go] makes
    of the configuration: the options of that client and the times of the health checks.
    hertz builds clients and reverse proxies; a client is known by the reference of its
    object and its options. *)

From S2P Require Import Prelude GoStrings LbNode Gateway PickNodes Selector Mirror Refresh Config.
Local Open Scope Z_scope.

(** ** The shared client ([lb/lbnode/node.go]) *)

Inductive ClientOption :=
| WithMaxConnsPerHost (n : Z)
| WithMaxIdleConnDuration (d : Z)
| WithMaxConnWaitTimeout (d : Z)
| WithDialTimeout (d : Z)
| WithClientReadTimeout (d : Z)
| WithKeepAlive (b : bool).
#[export] Instance ClientOption_eq_dec : EqDecision ClientOption.
Proof. solve_decision. Defined.

Record Client := mkClient { cl_ref : nat; cl_options : list ClientOption }.

(** Which options [client.NewClient] accepts, and which targets the reverse proxy does. *)
Class Hertz := {
  NewClient_ok : list ClientOption → bool;
  ProxyTarget_ok : string → bool }.

(** The package variable, the number of clients built so far, and the client each reverse
    proxy was given. *)
Record clients := mkClients {
  sharedClient : option Client; built : nat; proxyClient : gmap nat Client }.

#[export] Instance clients_expands : Expands clients := λ s,
  mkClients (sharedClient s) (built s) (proxyClient s).

Definition noClients : clients := mkClients None 0 ∅.

Definition DefaultClientOptions : list ClientOption :=
  [WithMaxConnsPerHost 2048; WithMaxIdleConnDuration (90 * Second); WithMaxConnWaitTimeout Second;
   WithDialTimeout (3 * Second); WithKeepAlive true].

Section Clients.
Context `{Hertz}.

Definition NewClient (opts : list ClientOption) (s : clients) : option Client * clients :=
  if NewClient_ok opts then (Some (mkClient (built s) opts), s <| built := S (built s) |>) else (None, s).

(** Whether it succeeded. *)
Definition InitSharedClient (opts : list ClientOption) (s : clients) : bool * clients :=
  let '(c, s) := NewClient opts s in
  match c with
  | None => (false, s)
  | Some c => (true, s <| sharedClient := Some c |>)
  end.

Definition getSharedClient (s : clients) : option Client * clients :=
  match sharedClient s with
  | Some c => (Some c, s)
  | None =>
      let '(c, s) := NewClient DefaultClientOptions s in
      match c with
      | None => (None, s)
      | Some c => (Some c, s <| sharedClient := Some c |>)
      end
  end.

(** [New], with the client its reverse proxy is given. *)
Definition NewWithClient (ref : nat) (key ip : string) (port weight nodeType : Z) (opts : list (Node → Node))
    (s : clients) : option Node * clients :=
  let weight := if weight <=? 0 then 1 else weight in
  let node := mkNode key ip port (ip +:+ ":" +:+ Itoa port) "" weight 0 nodeType None in
  let node := foldl (λ n opt, opt n) node opts in
  if negb (ProxyTarget_ok ("http://" +:+ Addr node)) then (None, s) else
  let '(cli, s) := getSharedClient s in
  match cli with
  | None => (None, s)
  | Some cli => (Some (node <| ReverseProxy := Some ref |>), s <| proxyClient := <[ref := cli]> (proxyClient s) |>)
  end.
End Clients.

(** ** What [NewLoadBalancer] makes of the configuration ([lb/lb.go]) *)

(** [time.Duration(n) * unit], on 64 bits. *)
Definition duration (n unit : Z) : Z := wrap_int64 (n * unit).

Definition upstreamOptions (config : Config) : list ClientOption :=
  [WithMaxConnsPerHost (ConnectionPoolSize config);
   WithMaxIdleConnDuration (duration (ConnMaxIdleDuration config) Millisecond);
   WithMaxConnWaitTimeout (duration (ConnMaxWaitTimeout config) Millisecond);
   WithDialTimeout (duration (ConnDialTimeout config) Millisecond);
   WithClientReadTimeout (duration (DefaultRPCTimeout config) Millisecond);
   WithKeepAlive true].

(** The client part of [NewLoadBalancer]; a failure is only logged. *)
Definition initUpstream `{Hertz} (config : Config) (s : clients) : clients :=
  (InitSharedClient (upstreamOptions config) s).2.

Definition Minute : Z := 60 * Second.

Record NodeHealthChecker := mkChecker {
  healthCheckTimeout : Z; maxWaitTime : Z; httpTimeout : Z }.

Definition NewNodeHealthChecker (healthCheckTimeout maxWaitTime : Z) : NodeHealthChecker :=
  mkChecker healthCheckTimeout maxWaitTime healthCheckTimeout.

Definition healthCheckerOf (config : Config) : NodeHealthChecker :=
  NewNodeHealthChecker
    (if 0 <? NodeHealthCheckTimeout config then duration (NodeHealthCheckTimeout config) Second else 5 * Second)
    (if 0 <? NodeHealthCheckMaxWait config then duration (NodeHealthCheckMaxWait config) Second else 5 * Minute).

(** ** Nodes made one after the other *)

(** What a node is made from; [lbnode.New] is called with a source option. *)
Record creation := mkCreation {
  cr_ref : nat; cr_key : string; cr_ip : string; cr_port : Z; cr_weight : Z; cr_type : Z; cr_source : string }.

Section Creations.
Context `{Hertz}.

Definition create (c : creation) (s : clients) : option Node * clients :=
  NewWithClient (cr_ref c) (cr_key c) (cr_ip c) (cr_port c) (cr_weight c) (cr_type c) [WithSource (cr_source c)] s.

(** [New] as the rest of the development uses it. *)
Definition create_node `{ProxyLibrary} (c : creation) : option Node :=
  New (cr_ref c) (cr_key c) (cr_ip c) (cr_port c) (cr_weight c) (cr_type c) [WithSource (cr_source c)].

Fixpoint creations (cs : list creation) (s : clients) : list (option Node) * clients :=
  match cs with
  | [] => ([], s)
  | c :: cs => let '(n, s) := create c s in let '(ns, s) := creations cs s in (n :: ns, s)
  end.

(** The library the rest of the development sees, of a configuration. *)
Definition library (config : Config) : ProxyLibrary := {|
  NewSingleHostReverseProxy_ok := ProxyTarget_ok;
  SharedClient_ok := NewClient_ok (upstreamOptions config) || NewClient_ok DefaultClientOptions |}.

(** The options the shared client ends up with. *)
Definition effectiveOptions (config : Config) : list ClientOption :=
  if NewClient_ok (upstreamOptions config) then upstreamOptions config else DefaultClientOptions.

(** Every proxy has the shared client, which is the only one built. *)
Record one_client (config : Config) (s : clients) : Prop := {
  oc_options cli : sharedClient s = Some cli →
    cli = mkClient 0 (effectiveOptions config) ∧ NewClient_ok (effectiveOptions config) = true;
  oc_built : built s = if sharedClient s then 1%nat else 0%nat;
  oc_proxies ref cli : proxyClient s !! ref = Some cli → sharedClient s = Some cli;
  oc_waiting : sharedClient s = None → NewClient_ok (upstreamOptions config) = false }.

Lemma initUpstream_one config : one_client config (initUpstream config noClients).
Proof.
  unfold initUpstream, InitSharedClient, NewClient. destruct (NewClient_ok (upstreamOptions config)) eqn:E;
    constructor; simpl; try done; try (intros ? ?; by rewrite lookup_empty).
  intros cli [= <-]. unfold effectiveOptions. by rewrite E.
Qed.

Lemma getSharedClient_one config s :
  one_client config s →
  let '(c, s') := getSharedClient s in
  one_client config s' ∧ proxyClient s' = proxyClient s ∧
  match c with
  | Some cli => sharedClient s' = Some cli ∧ @SharedClient_ok (library config) = true
  | None => @SharedClient_ok (library config) = false
  end.
Proof.
  intros Hs. unfold getSharedClient, NewClient. simpl. destruct (sharedClient s) as [cli|] eqn:Ec.
  - split_and!; try done. destruct (oc_options _ _ Hs cli Ec) as [_ Hok]. unfold effectiveOptions in Hok.
    by destruct (NewClient_ok (upstreamOptions config)).
  - pose proof (oc_waiting _ _ Hs Ec) as Hno. pose proof (oc_built _ _ Hs) as Hb. rewrite Ec in Hb.
    pose proof (oc_proxies _ _ Hs) as Hp. rewrite Ec in Hp. rewrite Hno.
    destruct (NewClient_ok DefaultClientOptions) eqn:Ed; [|done]. rewrite Hb. simpl. split_and!; try done.
    constructor; simpl; try done.
    + intros cli [= <-]. unfold effectiveOptions. by rewrite Hno.
    + intros ref cli Hr. by apply Hp in Hr.
Qed.

(** A node is made as [New] makes it, and its proxy has the shared client. *)
Lemma create_one config c s :
  one_client config s →
  (create c s).1 = @create_node (library config) c ∧ one_client config (create c s).2.
Proof.
  intros Hs. unfold create, create_node, NewWithClient, New. simpl.
  destruct (ProxyTarget_ok _); simpl; [|done].
  pose proof (getSharedClient_one config s Hs) as Hg. destruct (getSharedClient s) as [cli s'].
  destruct Hg as (Hs' & Hp & Hc). simpl in Hc. destruct cli as [cli|]; [|by rewrite Hc]. destruct Hc as [Hcli ->].
  simpl. split; [done|]. destruct Hs' as [H1 H2 H3 H4]. constructor; simpl; try done.
  intros ref cli' [[_ <-]|[_ Hr]]%lookup_insert_Some; [done|by apply (H3 ref)].
Qed.

Lemma creations_one config cs s :
  one_client config s →
  (creations cs s).1 = (@create_node (library config)) <$> cs ∧ one_client config (creations cs s).2.
Proof.
  revert s. induction cs as [|c cs IH]; intros s Hs; simpl; [done|].
  destruct (create_one config c s Hs) as [Hn Hs1]. destruct (create c s) as [n s1]. simpl in Hn, Hs1.
  destruct (IH s1 Hs1) as [Hns Hs2]. destruct (creations cs s1) as [ns s2]. simpl in *. by subst.
Qed.
End Creations.

Lemma duration_exact n unit : 0 ≤ n ≤ max_int64 / unit → 0 < unit → duration n unit = n * unit.
Proof.
  intros Hn Hu. unfold duration. apply wrap_int64_id. unfold in_int64, min_int64, max_int64 in *.
  pose proof (Z.mul_div_le (2 ^ 63 - 1) unit Hu). nia.
Qed.

(** ** Properties *)

(** C30: all backends share one client. Once the load balancer has been built, whatever nodes
    are made and whenever, at most one upstream client is built; every reverse proxy has that
    client, with the configured options or, when hertz refuses those, the default ones; and
    making a node succeeds or fails as for a fixed library, so that a refused client fails
    every node and not some. *)
Theorem nodes_share_client `{Hertz} config cs :
  let '(nodes, s) := creations cs (initUpstream config noClients) in
  nodes = (@create_node (library config)) <$> cs ∧ (built s ≤ 1)%nat ∧
  ∀ ref cli, proxyClient s !! ref = Some cli → sharedClient s = Some cli ∧ cl_options cli = effectiveOptions config.
Proof.
  destruct (creations_one config cs _ (initUpstream_one config)) as [Hn Hs].
  destruct (creations cs _) as [nodes s]. simpl in *. split_and!; [done| |].
  - rewrite (oc_built _ _ Hs). case_match; lia.
  - intros ref cli Hr. pose proof (oc_proxies _ _ Hs ref cli Hr) as Hc. split; [done|].
    by destruct (oc_options _ _ Hs cli Hc) as [-> _].
Qed.

(** A later [InitSharedClient] leaves the proxies there are with the client they have. *)
Theorem reinit_keeps_proxies `{Hertz} opts s : proxyClient (InitSharedClient opts s).2 = proxyClient s.
Proof. unfold InitSharedClient, NewClient. by destruct (NewClient_ok opts). Qed.

(** The configured times are the ones used. A number of milliseconds or seconds that a
    64-bit duration can hold reaches the client and the health checks unchanged; health
    checks that are not configured wait 5 seconds for an answer and 5 minutes for a node. *)
Theorem configured_times config :
  Forall (λ ms, 0 ≤ ms ≤ max_int64 / Millisecond)
    [ConnMaxIdleDuration config; ConnMaxWaitTimeout config; ConnDialTimeout config; DefaultRPCTimeout config] →
  Forall (λ sec, sec ≤ max_int64 / Second) [NodeHealthCheckTimeout config; NodeHealthCheckMaxWait config] →
  upstreamOptions config =
    [WithMaxConnsPerHost (ConnectionPoolSize config);
     WithMaxIdleConnDuration (ConnMaxIdleDuration config * Millisecond);
     WithMaxConnWaitTimeout (ConnMaxWaitTimeout config * Millisecond);
     WithDialTimeout (ConnDialTimeout config * Millisecond);
     WithClientReadTimeout (DefaultRPCTimeout config * Millisecond); WithKeepAlive true] ∧
  let hc := healthCheckerOf config in
  0 < healthCheckTimeout hc ∧ 0 < maxWaitTime hc ∧ httpTimeout hc = healthCheckTimeout hc ∧
  (0 < NodeHealthCheckTimeout config → healthCheckTimeout hc = NodeHealthCheckTimeout config * Second) ∧
  (0 < NodeHealthCheckMaxWait config → maxWaitTime hc = NodeHealthCheckMaxWait config * Second) ∧
  (NodeHealthCheckTimeout config ≤ 0 → healthCheckTimeout hc = 5000 * Millisecond) ∧
  (NodeHealthCheckMaxWait config ≤ 0 → maxWaitTime hc = 300 * Second).
Proof.
  intros Hms Hs. rewrite !Forall_cons in Hms. rewrite !Forall_cons in Hs. destruct Hms as (H1 & H2 & H3 & H4 & _), Hs as (H5 & H6 & _).
  split; [unfold upstreamOptions; by rewrite !duration_exact by done|].
  assert (0 < Second) as Hsec by done. unfold healthCheckerOf, NewNodeHealthChecker, Minute. simpl.
  destruct (0 <? NodeHealthCheckTimeout config) eqn:E1, (0 <? NodeHealthCheckMaxWait config) eqn:E2; b2p;
    rewrite ?duration_exact by lia; unfold Second, Millisecond; split_and!; lia.
Qed.

Lemma configured_times_witness :
  maxWaitTime (healthCheckerOf defaultConfig) = 300 * Second ∧ healthCheckTimeout (healthCheckerOf defaultConfig) = 5 * Second.
Proof.
  assert (Forall (λ ms, 0 ≤ ms ≤ max_int64 / Millisecond)
    [ConnMaxIdleDuration defaultConfig; ConnMaxWaitTimeout defaultConfig; ConnDialTimeout defaultConfig; DefaultRPCTimeout defaultConfig])
    as H1 by (repeat constructor; vm_compute; discriminate).
  assert (Forall (λ sec, sec ≤ max_int64 / Second) [NodeHealthCheckTimeout defaultConfig; NodeHealthCheckMaxWait defaultConfig])
    as H2 by (repeat constructor; vm_compute; discriminate).
  destruct (configured_times defaultConfig H1 H2) as (_ & _ & _ & _ & Ht & Hw & _).
  split; [apply Hw; reflexivity|apply Ht; reflexivity].
Defined.

(** A larger number wraps: with a maximum waiting time of 10^10 seconds a health check gives up
    after its first failed probe. *)
Theorem huge_wait_wraps config :
  NodeHealthCheckMaxWait config = 10 ^ 10 → maxWaitTime (healthCheckerOf config) < 0.
Proof. intros E. unfold healthCheckerOf. simpl. by rewrite E. Qed.

Lemma huge_wait_wraps_witness :
  maxWaitTime (healthCheckerOf (mkConfig 0 None 0 0 0 0 (Processor defaultConfig) "" 0 (10 ^ 10) 0)) < 0.
Proof. apply huge_wait_wraps. reflexivity. Defined.
