(* ===== verification/ConfigGauge.v ===== *)
(** * The configuration gauge

    [types/metrics.go]: a walk over the configuration by reflection that sets one gauge per
    setting.  A value of Go is a tree; reflection sees its type and, where a nil pointer cut
    it off, the invalid value. *)

From stdpp Require Import sorting.
From S2P Require Import Prelude GoStrings LbNode Gateway PickNodes Selector Config.
Local Open Scope Z_scope.

(** ** Types and values as reflection sees them *)

Inductive gotype := TPointer (t : gotype) | TStruct (fields : list (string * gotype)) | TOther.

(** Everything that is neither a pointer nor a struct is known by its printed form. *)
Inductive govalue :=
| VInvalid
| VPointer (v : option govalue)
| VStruct (fields : list govalue)
| VOther (printed : string).

(** [fmt.Sprint] of a reflected value that the walk prints. *)
Definition Sprint (v : govalue) : string :=
  match v with VOther s => s | VInvalid => "<invalid reflect.Value>" | _ => "" end.

(** The fields of a struct, with the invalid value for each of an invalid struct. *)
Definition field_value (v : govalue) (i : nat) : option govalue :=
  match v with
  | VInvalid => Some VInvalid
  | VStruct vs => vs !! i
  | _ => None
  end.

(** The gauges set, by name and value.  [v.Elem] of the invalid value panics; a value that is not of its
    type does not occur and is a panic here. *)
Fixpoint initMetrics (t : gotype) (v : govalue) (prefix : string) : go (list (string * string)) :=
  match t with
  | TPointer t =>
      match v with
      | VPointer None => initMetrics t VInvalid prefix
      | VPointer (Some v) => initMetrics t v prefix
      | _ => Panic
      end
  | TStruct fields =>
      (fix walk (i : nat) (fields : list (string * gotype)) : go (list (string * string)) :=
         match fields with
         | [] => Ret []
         | (name, t) :: fields =>
             match field_value v i with
             | None => Panic
             | Some w =>
                 let! first := initMetrics t w (prefix +:+ "." +:+ name) in
                 let! rest := walk (S i) fields in
                 Ret (first ++ rest)
             end
         end) 0%nat fields
  | TOther => Ret [(prefix, Sprint v)]
  end.

(** ** The configuration *)

Fixpoint join_space (ws : list string) : string :=
  match ws with
  | [] => ""
  | [w] => w
  | w :: ws => w +:+ " " +:+ join_space ws
  end.

Definition print_bool (b : bool) : string := if b then "true" else "false".
Definition print_slice (ws : list string) : string := "[" +:+ join_space ws +:+ "]".
(** [fmt] prints the entries of a map in the order of their keys; a nil map as an empty one. *)
Definition print_map (m : option (gmap string Z)) : string :=
  let m := default ∅ m in
  "map[" +:+ join_space ((λ k, k +:+ ":" +:+ Itoa (default 0 (m !! k))) <$> merge_sort bytes_le (map_to_list m).*1) +:+ "]".

Definition slowType : gotype := TStruct [("Default", TOther); ("RpcMethods", TOther)].
Definition observabilityType : gotype :=
  TStruct [("Enable", TOther); ("SlowThreshold", slowType); ("EnableErrorLog", TOther)].
Definition processorType : gotype :=
  TStruct [("ObservabilityLog", observabilityType); ("RequestMirror", TStruct [("Enable", TOther)]);
           ("MethodDenied", TPointer TOther)].
Definition configType : gotype :=
  TStruct [("DefaultRPCTimeout", TOther); ("RPCMethodTimeoutConfig", TOther); ("ConnectionPoolSize", TOther);
           ("ConnMaxIdleDuration", TOther); ("ConnMaxWaitTimeout", TOther); ("ConnDialTimeout", TOther);
           ("Processor", processorType); ("EtcdPrefix", TOther); ("NodeHealthCheckTimeout", TOther);
           ("NodeHealthCheckMaxWait", TOther); ("ArchiveHashCacheSize", TOther)].

Definition int_value (z : Z) : govalue := VOther (Itoa z).

Definition configValue (c : Config) : govalue :=
  let log := pc_ObservabilityLog (Processor c) in
  let slow := ol_SlowThreshold log in
  VStruct [int_value (DefaultRPCTimeout c); VOther (print_map (RPCMethodTimeoutConfig c));
    int_value (ConnectionPoolSize c); int_value (ConnMaxIdleDuration c); int_value (ConnMaxWaitTimeout c);
    int_value (ConnDialTimeout c);
    VStruct [VStruct [VOther (print_bool (ol_Enable log));
                      VStruct [int_value (sl_Default slow); VOther (print_map (sl_RpcMethods slow))];
                      VOther (print_bool (ol_EnableErrorLog log))];
             VStruct [VOther (print_bool (pc_RequestMirror (Processor c)))];
             VPointer ((λ ms, VOther (print_slice ms)) <$> pc_MethodDenied (Processor c))];
    VOther (EtcdPrefix c); int_value (NodeHealthCheckTimeout c); int_value (NodeHealthCheckMaxWait c);
    int_value (ArchiveHashCacheSize c)].

Definition configMetrics (c : Config) : go (list (string * string)) := initMetrics configType (configValue c) "".

(** ** The walk *)

(** The names below a type. *)
Fixpoint setting_names (t : gotype) (prefix : string) : list string :=
  match t with
  | TPointer t => setting_names t prefix
  | TStruct fields => fields ≫= λ f, setting_names f.2 (prefix +:+ "." +:+ f.1)
  | TOther => [prefix]
  end.

Lemma configMetrics_value c :
  let log := pc_ObservabilityLog (Processor c) in
  let slow := ol_SlowThreshold log in
  configMetrics c = Ret
    [(".DefaultRPCTimeout", Itoa (DefaultRPCTimeout c)); (".RPCMethodTimeoutConfig", print_map (RPCMethodTimeoutConfig c));
     (".ConnectionPoolSize", Itoa (ConnectionPoolSize c)); (".ConnMaxIdleDuration", Itoa (ConnMaxIdleDuration c));
     (".ConnMaxWaitTimeout", Itoa (ConnMaxWaitTimeout c)); (".ConnDialTimeout", Itoa (ConnDialTimeout c));
     (".Processor.ObservabilityLog.Enable", print_bool (ol_Enable log));
     (".Processor.ObservabilityLog.SlowThreshold.Default", Itoa (sl_Default slow));
     (".Processor.ObservabilityLog.SlowThreshold.RpcMethods", print_map (sl_RpcMethods slow));
     (".Processor.ObservabilityLog.EnableErrorLog", print_bool (ol_EnableErrorLog log));
     (".Processor.RequestMirror.Enable", print_bool (pc_RequestMirror (Processor c)));
     (".Processor.MethodDenied", from_option print_slice "<invalid reflect.Value>" (pc_MethodDenied (Processor c)));
     (".EtcdPrefix", EtcdPrefix c); (".NodeHealthCheckTimeout", Itoa (NodeHealthCheckTimeout c));
     (".NodeHealthCheckMaxWait", Itoa (NodeHealthCheckMaxWait c)); (".ArchiveHashCacheSize", Itoa (ArchiveHashCacheSize c))].
Proof. unfold configMetrics, configValue. simpl. by destruct (pc_MethodDenied (Processor c)). Qed.

Lemma Itoa_inj z z' : in_int64 z → in_int64 z' → Itoa z = Itoa z' → z = z'.
Proof. intros Hz Hz' E. apply (f_equal (λ s, ParseInt s 10)) in E. rewrite !ParseInt_Itoa in E by done. congruence. Qed.

(** ** Properties *)

(** The gauges show the configuration in force: the walk does not panic, sets exactly one
    gauge per setting, each under a name of its own, and two configurations with the same
    gauges agree on every number, switch and prefix; the denied methods are shown as such
    once the defaults are filled in. *)
Theorem config_gauges c :
  ∃ gauges, configMetrics c = Ret gauges ∧ gauges.*1 = setting_names configType "" ∧ NoDup gauges.*1 ∧
    (∀ d, pc_MethodDenied (Processor (FillWithDefaultConfig c)) = Some d →
      ∃ full, configMetrics (FillWithDefaultConfig c) = Ret full ∧ (".Processor.MethodDenied", print_slice d) ∈ full) ∧
    ∀ c', Forall in_int64 [DefaultRPCTimeout c; ConnectionPoolSize c; NodeHealthCheckMaxWait c; ArchiveHashCacheSize c] →
      Forall in_int64 [DefaultRPCTimeout c'; ConnectionPoolSize c'; NodeHealthCheckMaxWait c'; ArchiveHashCacheSize c'] →
      configMetrics c' = Ret gauges →
      DefaultRPCTimeout c' = DefaultRPCTimeout c ∧ ConnectionPoolSize c' = ConnectionPoolSize c ∧
      NodeHealthCheckMaxWait c' = NodeHealthCheckMaxWait c ∧ ArchiveHashCacheSize c' = ArchiveHashCacheSize c ∧
      EtcdPrefix c' = EtcdPrefix c ∧ pc_RequestMirror (Processor c') = pc_RequestMirror (Processor c).
Proof.
  rewrite configMetrics_value. eexists. split; [done|]. split; [done|]. split; [|split].
  - refine (bool_decide_unpack _ _). vm_compute. exact I.
  - intros d Hd. rewrite configMetrics_value, Hd. eexists. split; [done|]. simpl. set_solver.
  - intros c' Hc Hc'. rewrite configMetrics_value. intros E.
    injection E as E1 _ E3 _ _ _ _ _ _ _ E11 _ E13 _ E15 E16.
    rewrite !Forall_cons in Hc. rewrite !Forall_cons in Hc'. destruct Hc as (? & ? & ? & ? & _), Hc' as (? & ? & ? & ? & _).
    split_and!; try (by apply Itoa_inj); [done|].
    by destruct (pc_RequestMirror (Processor c)), (pc_RequestMirror (Processor c')).
Qed.
