(* ===== verification/Processors.v ===== *)
(** * Pre- and post-processors

    [lb/jsonrpc/hertz_process.go] and [lb/jsonrpc/handler.go].  What the processors
    do to the outside (metric events, observability records, mirror requests) is
    recorded in the state they share. *)

From S2P Require Import Prelude GoStrings JsonScan JsonRpc Types Config Mirror.
Local Open Scope Z_scope.

(** [strings.ToLower], as far as a search for ASCII text can tell: ASCII letters
    are lowered, the two other characters with an ASCII lower case are replaced
    by it, and every other character stays outside ASCII. *)
Fixpoint ToLower (s : string) : string :=
  match s with
  | "" => ""
  | String a s1 =>
      match s1 with
      | String b s2 =>
          if (byte a =? 0xC4) && (byte b =? 0xB0) then String "i" (ToLower s2) else
          match s2 with
          | String c s3 =>
              if (byte a =? 0xE2) && (byte b =? 0x84) && (byte c =? 0xAA)
              then String "k" (ToLower s3)
              else String (lower_ascii a) (ToLower s1)
          | "" => String (lower_ascii a) (ToLower s1)
          end
      | "" => String (lower_ascii a) ""
      end
  end.

(** ** What the processors record *)

(** The labels every metric of a request carries. *)
Record Labels := mkLabels { l_host : string; l_target : string; l_chainID : string; l_chainVersion : string }.

Inductive metric :=
| CallsStarted (l : Labels) (method dapp : string)
| TotalJRPCRequest (l : Labels) (method : string)
| HTTPStatusCode (l : Labels) (method : string) (code : Z)
| BatchCallsFinished (l : Labels) (method : string)
| BatchCallsTime (l : Labels) (method : string)
| CallsTime (l : Labels) (method : string)
| CallsFailed (l : Labels) (code : Z) (method : string) (upstream : bool) (reason node : string)
| CallsFinished (l : Labels) (method : string)
| RequestPayloadSizes (l : Labels) (method : string) (size : Z)
| ResponsePayloadSizes (l : Labels) (method : string) (size : Z)
| ArchiveHashCacheEvent (chain event : string).

Record MirrorRequest := mkMirrorRequest {
  mr_method : string; mr_body : string; mr_url : string }.

Section Processors.
Context `{Render} `{RateLimiter}.

Record World := mkWorld {
  w_metrics : list metric;
  w_limiter : mirrorLimiter;
  w_mirrored : list MirrorRequest;
  w_observed : list (option (Z * string)) }.

#[export] Instance World_expands : Expands World := λ w,
  mkWorld (w_metrics w) (w_limiter w) (w_mirrored w) (w_observed w).

Definition record (w : World) (ms : list metric) : World := w <| w_metrics := w_metrics w ++ ms |>.

(** ** Denied methods *)

Fixpoint anyDenied (denied : gset string) (reqs : list (option RequestObject)) : go bool :=
  match reqs with
  | [] => Ret false
  | None :: _ => Panic
  | Some r :: reqs => if bool_decide (ro_Method r ∈ denied) then Ret true else anyDenied denied reqs
  end.

Definition deniedError : ErrorObject :=
  {| eo_Code := ExtMethodNotAllowed; eo_Message := ExtMethodNotAllowedMsg; eo_Data := DataNil |}.

(** The assignments of a processor that answers with an error of its own. *)
Definition answerError (c : Hertz) (p : RequestContext) (status : Z) (eo : ErrorObject)
    : Hertz * RequestContext :=
  let '(respObj, err) := ErrorResponse eo None in
  let p := p <| rc_Error := Some err |> in
  (WriteError p c status respObj, p).

Definition jRPCMethodDeniedHertz (deniedMethods : option (list string)) : @ProcessorFunc World :=
  let deniedMethodMap : gset string := list_to_set (default [] deniedMethods) in
  Some (λ '(c, p, w),
    let! denied := anyDenied deniedMethodMap (RequestBody p) in
    if denied : bool then
      let '(c, p) := answerError c p StatusBadRequest deniedError in Ret (c, p, w)
    else Ret (c, p, w)).

(** ** Labels *)

Definition metricChainLabels (p : RequestContext) : string * string :=
  let baseChainID := TrimSpace (BaseChainId p) in
  let baseChainID := if bool_decide (baseChainID = "") then TrimSpace (ChainId p) else baseChainID in
  let chainVersion :=
    if bool_decide (ChainUUID p ≠ "") then ChainUUID p
    else if bool_decide (baseChainID ≠ "") && bool_decide (ChainId p ≠ "")
            && bool_decide (ChainId p ≠ baseChainID) then
      let prefix := baseChainID +:+ "-" in
      if HasPrefix (ChainId p) prefix then TrimPrefix (ChainId p) prefix else ""
    else "" in
  (baseChainID, chainVersion).

Definition labels (p : RequestContext) : Labels :=
  let '(chainID, chainVersion) := metricChainLabels p in
  mkLabels (Host p) (Target p) chainID chainVersion.

Definition headerDappKey : string := "x-api-dapp".

Definition updatePreprocessorMetricsHertz : @ProcessorFunc World :=
  Some (λ '(c, p, w),
    Ret (c, p, record w [CallsStarted (labels p) (Method p) (hz_Header c headerDappKey)])).

(** ** Request rewriting *)

(** [nJson.Marshal] of the rewritten request, from the height and the raw id
    ([None] is the literal 1). *)
Context (MarshalGetBlockByHeight : Z → option string → option string).

(** [OwnRequests] copies the parsed requests before their buffer is overwritten, so
    they keep their text; the raw body still borrows the buffer. *)
Definition getLatestBlockHertz (heightMap : gmap string (option Z)) : @ProcessorFunc World :=
  Some (λ '(c, p, w),
    if bool_decide (Method p ≠ GetLatestBlock) then Ret (c, p, w) else
    match GetHeight heightMap (ChainId p) with
    | Some height =>
        let! id := match RequestBody p with
                   | [Some r] => Ret (ro_ID r)
                   | [None] => Panic
                   | _ => Ret None
                   end in
        match MarshalGetBlockByHeight height id with
        | None =>
            let '(c, p) := answerError c p StatusInternalServerError
              {| eo_Code := InternalErrorCode; eo_Message := "Failed to marshal new request body";
                 eo_Data := DataNil |} in
            Ret (c, p, w)
        | Some rawBytes =>
            Ret (c <| hz_ReqBody := Some rawBytes |>,
                 p <| RawRequestBody := AfterSetBody (RawRequestBody p) rawBytes |>, w)
        end
    | None =>
        let '(c, p) := answerError c p StatusOK
          {| eo_Code := InvalidParamsCode; eo_Message := InvalidParamsMsg; eo_Data := DataNil |} in
        Ret (c, p, w)
    end).

(** ** Mirroring *)

Fixpoint mirrorAll (now : Z) (chainId method body : string) (urls : list string) (w : World) : World :=
  match urls with
  | [] => w
  | url :: urls =>
      let '(ok, ml) := Allow (w_limiter w) now chainId url in
      let w := w <| w_limiter := ml |> in
      let w := if ok : bool then w <| w_mirrored := w_mirrored w ++ [mkMirrorRequest method body url] |>
               else w in
      mirrorAll now chainId method body urls w
  end.

Definition requestMirrorHertz (enable : bool) (now : Z)
    (mirrors : gmap string (gmap string MirrorTarget)) : @ProcessorFunc World :=
  if negb enable then None else
  Some (λ '(c, p, w),
    let mirrorURLs := GetMirrorURLs mirrors (ChainId p) in
    if bool_decide (mirrorURLs = []) then Ret (c, p, w) else
    Ret (c, p, mirrorAll now (ChainId p) (hz_Method c) (RawRequestBody p) mirrorURLs w)).

Definition GetPreProcessorHertz (config : Config) (heightMap : gmap string (option Z))
    (mirrors : gmap string (gmap string MirrorTarget)) (now : Z) : list (@ProcessorFunc World) :=
  [ jRPCMethodDeniedHertz (pc_MethodDenied (Processor config));
    updatePreprocessorMetricsHertz;
    getLatestBlockHertz heightMap;
    requestMirrorHertz (pc_RequestMirror (Processor config)) now mirrors ].

(** ** Reading the response *)

(** [nJson.Unmarshal] into the raw response object; an error carries its text. *)
Context (UnmarshalRawResponse : string → string + ResponseObject).

Definition parseJRPCResponseBodyHertz : @ProcessorFunc World :=
  Some (λ '(c, p, w),
    let body := hz_Body c in
    if bool_decide (body = "") then Ret (c, p, w) else
    if negb (Contains (ToLower (hz_ContentType c)) "application/json")
       || Contains (ToLower (hz_TransferEncoding c)) "chunked" then Ret (c, p, w) else
    let p := p <| ResponseBodySize := Z.of_nat (String.length body) |> in
    if IsBatch body then Ret (c, p, w) else
    let! '(has, p) := CachedResponseContainsErrorKey p body in
    if negb has then Ret (c, p, w) else
    match UnmarshalRawResponse body with
    | inl msg => Ret (c, p <| rc_Error := Some (ErrText msg) |>, w)
    | inr raw =>
        let p := p <| rc_Error := None |> <| ResponseBody := Some raw |> in
        match rs_Error raw with
        | Some eo => Ret (c, p <| rc_Error := Some (ErrObject eo) |>, w)
        | None => Ret (c, p, w)
        end
    end).

Definition logResponseHertz : @ProcessorFunc World := Some (λ s, Ret s).

(** ** The observability log *)

Definition response_error (p : RequestContext) : option ErrorObject :=
  r ← ResponseBody p; rs_Error r.

(** [duration] is the request's age in milliseconds. *)
Definition observabilityLogHertz (config : ObservabilityLogProcessorConfig) (duration : Z)
    : @ProcessorFunc World :=
  if ol_Enable config then
    Some (λ '(c, p, w),
      let slow := ol_SlowThreshold config in
      let observe := match default ∅ (sl_RpcMethods slow) !! Method p with
                     | Some threshold => threshold <=? duration
                     | None => sl_Default slow <=? duration
                     end in
      if (ol_EnableErrorLog config && bool_decide (is_Some (response_error p))) || observe then
        Ret (c, p, w <| w_observed := w_observed w ++
                          [(λ eo, (eo_Code eo, eo_Message eo)) <$> response_error p] |>)
      else Ret (c, p, w))
  else None.

(** ** Failure accounting *)

Definition extractErrorDataString (data : ErrorData) : string :=
  match data with DataNil => "" | DataString v => v | DataOther => "" end.

Definition classifyFailureReason (code : Z) (msg : string) (data : ErrorData)
    (fallbackErr : option error) : string :=
  let rawData := ToLower (extractErrorDataString data) in
  let rawMsg := ToLower msg in
  let rawErr := match fallbackErr with Some e => ToLower (Error e) | None => "" end in
  if code =? ExtTooManyRequests then "rate_limited"
  else if code =? ExtMethodNotAllowed then "method_not_allowed"
  else if code =? InvalidParamsCode then "invalid_params"
  else if code =? InvalidRequestCode then "invalid_request"
  else if code =? ParseErrorCode then "parse_error"
  else if code =? InvalidResponseCode then
    if Contains rawErr "unmarshal" then "response_unmarshal_failed"
    else if Contains rawErr "timeout" then "response_parse_timeout"
    else "invalid_response"
  else if code =? ExtWaitingTargetResponseTimeout then "upstream_gateway_timeout"
  else if code =? InternalErrorCode then
    if Contains rawData "no native backends available" then "no_native_backends_available"
    else if Contains rawData "no backends available" then "no_backends_available"
    else if Contains rawData "reverse proxy bad gateway" then "upstream_bad_gateway"
    else if Contains rawData "reverse proxy gateway timeout" then "upstream_gateway_timeout"
    else if Contains rawData "marshal" then "request_transform_failed"
    else if Contains rawMsg "server error" then "server_error_other"
    else "internal_error_other"
  else if Contains rawErr "timeout" || Contains rawData "timeout" then "timeout_other"
  else "rpc_error_other".

Definition failureNodeAddr (p : RequestContext) : string :=
  if bool_decide (TrimSpace (TargetNodeAddr p) = "") then "unknown" else TargetNodeAddr p.

Definition shouldRecordResponsePayloadSize (statusCode : Z) (p : RequestContext) (size : Z) : bool :=
  if bool_decide (is_Some (rc_Error p)) || (size <=? 0) then false
  else (200 <=? statusCode) && (statusCode <? 300).

Definition updatePostProcessorMetricsHertz : @ProcessorFunc World :=
  Some (λ '(c, p, w),
    let l := labels p in
    let method := if rc_IsBatch p then "" else Method p in
    let statusCode := if hz_Status c =? 0 then 200 else hz_Status c in
    let w := record w [TotalJRPCRequest l method; HTTPStatusCode l method statusCode] in
    if rc_IsBatch p then
      Ret (c, p, record w [BatchCallsFinished l method; BatchCallsTime l method])
    else
      let w := record w [CallsTime l method] in
      let w := match rc_Error p with
        | Some err =>
            let nodeAddr := failureNodeAddr p in
            match response_error p with
            | Some eo =>
                let reason := classifyFailureReason (eo_Code eo) (eo_Message eo) (eo_Data eo) (Some err) in
                record w [CallsFailed l (eo_Code eo) (Method p) (UpstreamRelated p) reason nodeAddr]
            | None =>
                let reason := classifyFailureReason InvalidResponseCode "" DataNil (Some err) in
                record w [CallsFailed l InvalidResponseCode (Method p) (UpstreamRelated p) reason nodeAddr]
            end
        | None => record w [CallsFinished l method]
        end in
      let w := if 0 <? RequestBodySize p
               then record w [RequestPayloadSizes l method (RequestBodySize p)] else w in
      let responseBodySize := Z.of_nat (String.length (hz_Body c)) in
      let w := if shouldRecordResponsePayloadSize statusCode p responseBodySize
               then record w [ResponsePayloadSizes l method responseBodySize] else w in
      Ret (c, p, w)).

Definition GetPostProcessorHertz (config : Config) (duration : Z) : list (@ProcessorFunc World) :=
  [ parseJRPCResponseBodyHertz;
    logResponseHertz;
    observabilityLogHertz (pc_ObservabilityLog (Processor config)) duration;
    updatePostProcessorMetricsHertz ].
End Processors.

(** ** Accounting *)

Definition is_total (m : metric) : bool := match m with TotalJRPCRequest _ _ => true | _ => false end.
Definition is_outcome (m : metric) : bool :=
  match m with
  | BatchCallsFinished _ _ | CallsFinished _ _ | CallsFailed _ _ _ _ _ _ => true
  | _ => false
  end.

Definition count (f : metric → bool) (ms : list metric) : nat := length (List.filter f ms).

Lemma count_app f a b : count f (a ++ b) = (count f a + count f b)%nat.
Proof. unfold count. by rewrite List.filter_app, length_app. Qed.

(** The metrics one request adds: one total and one outcome. *)
Definition accounted (before after : list metric) : Prop :=
  ∃ ms, after = before ++ ms ∧ count is_total ms = 1%nat ∧ count is_outcome ms = 1%nat.

Section PostLemmas.
Context `{Render} `{RateLimiter} (UnmarshalRawResponse : string → string + ResponseObject).

Lemma record_metrics w ms : w_metrics (record w ms) = w_metrics w ++ ms.
Proof. done. Qed.

Lemma updatePostProcessorMetricsHertz_accounts c p w :
  match updatePostProcessorMetricsHertz with
  | Some f => ∃ w', f (c, p, w) = Ret (c, p, w') ∧ accounted (w_metrics w) (w_metrics w')
  | None => False
  end.
Proof.
  unfold updatePostProcessorMetricsHertz, accounted. destruct (rc_IsBatch p).
  - eexists. split; [done|]. rewrite !record_metrics, <- (assoc_L (++)). eexists. split; [done|]. done.
  - set (o := match rc_Error p with Some _ => _ | None => _ end).
    assert (∃ m, w_metrics o = w_metrics w ++ [TotalJRPCRequest (labels p) (Method p);
      HTTPStatusCode (labels p) (Method p) (if hz_Status c =? 0 then 200 else hz_Status c);
      CallsTime (labels p) (Method p); m] ∧ is_total m = false ∧ is_outcome m = true) as (m & Hm & Ht & Ho).
    { unfold o. destruct (rc_Error p); [destruct (response_error p)|]; eexists;
        (split; [rewrite !record_metrics, <- !(assoc_L (++)); reflexivity|done]). }
    destruct (0 <? RequestBodySize p), (shouldRecordResponsePayloadSize _ _ _);
      (eexists; split; [done|]; rewrite ?record_metrics, Hm, <- ?(assoc_L (++)); eexists;
       split; [reflexivity|]; unfold count; simpl; by rewrite Ht, Ho).
Qed.

Lemma parseJRPCResponseBodyHertz_keeps c p w :
  match parseJRPCResponseBodyHertz UnmarshalRawResponse with
  | Some f => ∃ p', f (c, p, w) = Ret (c, p', w)
  | None => False
  end.
Proof.
  unfold parseJRPCResponseBodyHertz. cbn [fst snd].
  destruct (bool_decide (hz_Body c = "")); [eauto|]. destruct (negb _ || _); [eauto|].
  destruct (IsBatch _); [eauto|].
  assert (∀ q, ∃ b q', CachedResponseContainsErrorKey q (hz_Body c) = Ret (b, q')) as Hc.
  { intros q. unfold CachedResponseContainsErrorKey. destruct (responseErrorKeyKnown q); [eauto|].
    rewrite ContainsErrorKey_tokens. simpl. eauto. }
  destruct (Hc (p <| ResponseBodySize := Z.of_nat (String.length (hz_Body c)) |>)) as (b & q' & ->).
  cbn [go_bind]. destruct b; cbn [negb]; [|eauto].
  destruct (UnmarshalRawResponse _) as [msg|raw]; [eauto|]. destruct (rs_Error raw); eauto.
Qed.

Lemma observabilityLogHertz_keeps cfg d c p w :
  match observabilityLogHertz cfg d with
  | Some f => ∃ w', f (c, p, w) = Ret (c, p, w') ∧ w_metrics w' = w_metrics w
  | None => True
  end.
Proof.
  unfold observabilityLogHertz. destruct (ol_Enable cfg); [|done].
  destruct (_ || _); eexists; done.
Qed.
End PostLemmas.

Lemma PostProcessors_accounted `{Render} `{RateLimiter} U config duration c p w :
  ∃ p' w', PostProcessors_Call (GetPostProcessorHertz U config duration) (c, p, w) = Ret (c, p', w') ∧
    accounted (w_metrics w) (w_metrics w').
Proof.
  unfold GetPostProcessorHertz. cbn [PostProcessors_Call].
  pose proof (parseJRPCResponseBodyHertz_keeps U c p w) as H1.
  destruct (parseJRPCResponseBodyHertz U) as [f1|]; [|done]. destruct H1 as [p1 ->].
  cbn [go_bind logResponseHertz].
  pose proof (observabilityLogHertz_keeps (pc_ObservabilityLog (Processor config)) duration c p1 w) as H2.
  destruct (observabilityLogHertz _ _) as [f2|]; [destruct H2 as (w2 & -> & E)|assert (w_metrics w = w_metrics w) as E by done];
    cbn [go_bind].
  - pose proof (updatePostProcessorMetricsHertz_accounts c p1 w2) as H3.
    destruct updatePostProcessorMetricsHertz as [f3|]; [|done]. destruct H3 as (w3 & -> & Ha).
    rewrite E in Ha. cbn [go_bind]. eauto.
  - pose proof (updatePostProcessorMetricsHertz_accounts c p1 w) as H3.
    destruct updatePostProcessorMetricsHertz as [f3|]; [|done]. destruct H3 as (w3 & -> & Ha).
    cbn [go_bind]. eauto.
Qed.

(** ** Properties *)

(** The buckets failures are counted in. *)
Definition failureReasons : list string :=
  ["rate_limited"; "method_not_allowed"; "invalid_params"; "invalid_request"; "parse_error";
   "response_unmarshal_failed"; "response_parse_timeout"; "invalid_response";
   "upstream_gateway_timeout"; "no_native_backends_available"; "no_backends_available";
   "upstream_bad_gateway"; "request_transform_failed"; "server_error_other";
   "internal_error_other"; "timeout_other"; "rpc_error_other"].

(** Every failure is put in one of a fixed list of buckets, whatever its code, message
    and data, so the metric's label set stays bounded; and the errors the proxy itself
    generates are told apart: a missing backend, a missing native backend, a bad gateway
    and a gateway timeout each have their own bucket. *)
Theorem classifyFailureReason_buckets code msg data err :
  classifyFailureReason code msg data err ∈ failureReasons ∧
  (let reason r := match rs_Error r with
                   | Some eo => classifyFailureReason (eo_Code eo) (eo_Message eo) (eo_Data eo) err
                   | None => ""
                   end in
   reason (BadGateway (ErrText "no backends available")).1 = "no_backends_available" ∧
   reason (BadGateway (ErrText "no native backends available")).1 = "no_native_backends_available" ∧
   reason (BadGateway (ErrText "reverse proxy bad gateway")).1 = "upstream_bad_gateway" ∧
   reason (GatewayTimeout (ErrText "reverse proxy gateway timeout")).1 = "upstream_gateway_timeout").
Proof.
  split; [|done]. unfold classifyFailureReason.
  generalize (ToLower (extractErrorDataString data)) (ToLower msg)
    (match err with Some e => ToLower (Error e) | None => "" end). intros rawData rawMsg rawErr.
  repeat match goal with |- context [if ?b then _ else _] => destruct b end;
    apply (bool_decide_unpack _); vm_compute; exact I.
Qed.

(** A request routed to a published version is accounted under its base chain with that
    version as the version label; a request for the base chain itself has no version
    label. *)
Theorem metricChainLabels_version p b (v : option string) :
  TrimSpace b = b → b ≠ "" → BaseChainId p = b → ChainUUID p = "" →
  ChainId p = match v with Some v => b +:+ "-" +:+ v | None => b end →
  metricChainLabels p = (b, default "" v).
Proof.
  intros Ht Hb HB HU HC. unfold metricChainLabels. rewrite HB, Ht, HU, HC.
  rewrite (bool_decide_eq_false_2 (b = "")) by done. rewrite (bool_decide_eq_true_2 (b ≠ "")) by done.
  change (bool_decide ("" ≠ "")) with false. cbv iota. destruct v as [v|].
  - assert (b +:+ "-" +:+ v ≠ b ∧ b +:+ "-" +:+ v ≠ "") as [H1 H2].
    { split; intros E; apply (f_equal String.length) in E; revert E; rewrite !len_app; simpl; lia. }
    rewrite !bool_decide_eq_true_2 by done. cbn [andb]. rewrite <- app_assoc.
    by rewrite HasPrefix_app, TrimPrefix_app.
  - rewrite (bool_decide_eq_false_2 (b ≠ b)) by tauto. by rewrite andb_false_r.
Qed.

Definition labelled_ctx (chain : string) : RequestContext :=
  mkRequestContext "" "" "" "" "" "" "" false None "" [] "eth_call" false None 0 0 None
    None false "1" "" chain "" false false false false.

Lemma metricChainLabels_version_witness : metricChainLabels (labelled_ctx "1-v2") = ("1", "v2").
Proof. apply (metricChainLabels_version (labelled_ctx "1-v2") "1" (Some "v2")); done. Defined.

(** Post-processing always completes, without touching the response, and accounts the
    request exactly once: one total and one outcome (batch finished, call finished or call
    failed), so the published totals add up. *)
Theorem post_processing_accounts `{Render} `{RateLimiter} U config duration c p w :
  ∃ p' w', PostProcessors_Call (GetPostProcessorHertz U config duration) (c, p, w) = Ret (c, p', w') ∧
    accounted (w_metrics w) (w_metrics w').
Proof. apply PostProcessors_accounted. Qed.

(** A request (single or batch) that names a denied method is answered by the first
    pre-processor with status 400 and the method-not-allowed error, under the request's own
    id when it is single; the other pre-processors (height lookup, mirroring) do not run. *)
Theorem denied_method_rejected `{Render} `{RateLimiter} M config heights mirrors now c p w denied :
  (∀ r, MarshalResponse r ≠ "") →
  pc_MethodDenied (Processor config) = Some denied →
  (∃ rs, RequestBody p = Some <$> rs ∧ ∃ r, r ∈ rs ∧ ro_Method r ∈ denied) →
  ∃ p', PreProcessors_Call (GetPreProcessorHertz M config heights mirrors now) (c, p, w) =
    Ret (JSON c StatusBadRequest (response_with_id p (ErrorResponse deniedError None).1), p', w) ∧
    rc_Error p' = Some (ErrObject deniedError).
Proof.
  intros Hm Hd (rs & Hb & r & Hr & Hin). unfold GetPreProcessorHertz. cbn [PreProcessors_Call].
  rewrite Hd. unfold jRPCMethodDeniedHertz. simpl. rewrite Hb.
  assert (anyDenied (list_to_set denied) (Some <$> rs) = Ret true) as ->.
  { clear Hb. induction rs as [|r0 rs IH]; [set_solver|]. cbn [anyDenied fmap list_fmap].
    case_bool_decide as E; [done|]. apply IH. apply elem_of_cons in Hr as [<-|Hr]; [|done].
    destruct E. by apply elem_of_list_to_set. }
  cbn [go_bind]. unfold answerError. simpl.
  rewrite (bool_decide_eq_true_2 (MarshalResponse _ ≠ "")) by apply Hm.
  eexists. split; [|shelve]. unfold WriteError, response_with_id. simpl. rewrite Hb. reflexivity.
  Unshelve. reflexivity.
Qed.

(** A buffer large enough for both bodies, rewritten in place. *)
Definition overwrite (old new : string) : string :=
  String.substring 0 (String.length old) (new +:+ drop_str (String.length new) old).
Definition ex_render : Render := {|
  MarshalResponse := λ r, "{" +:+ default "" (rs_ID r) +:+ "}"; JSONContentType := "application/json";
  AfterSetBody := overwrite |}.
Definition ex_limiter : RateLimiter := {|
  Limiter := unit; NewLimiter := λ _ _, tt; Limiter_Allow := λ l _, (true, l) |}.
Definition ex_hertz (body : string) : Hertz :=
  mkHertz "POST" "/1" "h" (λ _, "") (Some body) None 200 "" "" "".

Lemma denied_method_rejected_witness :
  let p := (labelled_ctx "1") <| RequestBody := [Some (set_Method "txpool_status" emptyRequest)] |> in
  ∃ p', @PreProcessors_Call (@World ex_limiter)
    (@GetPreProcessorHertz ex_render ex_limiter (λ _ _, None) defaultConfig ∅ ∅ 0)
    (ex_hertz "", p, @mkWorld ex_limiter [] ∅ [] []) =
    Ret (@JSON ex_render (ex_hertz "") StatusBadRequest
           (response_with_id p (ErrorResponse deniedError None).1), p', @mkWorld ex_limiter [] ∅ [] []) ∧
    rc_Error p' = Some (ErrObject deniedError).
Proof.
  intros p. apply (@denied_method_rejected ex_render ex_limiter (λ _ _, None) defaultConfig ∅ ∅ 0
    (ex_hertz "") p (@mkWorld ex_limiter [] ∅ [] []) defaultDenied); [done|done|].
  exists [set_Method "txpool_status" emptyRequest]. split; [done|].
  eexists. split; [by left|]. do 4 right. by left.
Defined.

(** A mirrored [getLatestBlock] request is not mirrored as the client sent it. The rewrite
    to [getBlockByHeight] stores its body in the buffer the raw request body still borrows,
    before the mirror processor copies it: the mirrors get whatever the old slice reads then,
    while the upstream node gets the rewritten body. *)
Theorem rewrite_garbles_mirror `{Render} `{RateLimiter} M config heights mirrors now c p w r h new url :
  hz_Body c = "" → RequestBody p = [Some r] → ro_Method r = Method p → Method p = GetLatestBlock →
  Method p ∉ default [] (pc_MethodDenied (Processor config)) →
  GetHeight heights (ChainId p) = Some h → M h (ro_ID r) = Some new →
  pc_RequestMirror (Processor config) = true → GetMirrorURLs mirrors (ChainId p) = [url] →
  w_limiter w = ∅ →
  ∃ c' p' w', PreProcessors_Call (GetPreProcessorHertz M config heights mirrors now) (c, p, w)
              = Ret (c', p', w') ∧
    hz_ReqBody c' = Some new ∧
    w_mirrored w' = w_mirrored w ++
      [mkMirrorRequest (hz_Method c) (AfterSetBody (RawRequestBody p) new) url].
Proof.
  intros Hb Hr Hm Hg Hd Hh Hn He Hu Hl.
  assert (Allow (w_limiter w) now (ChainId p) url = (true, w_limiter w)) as HA
    by (unfold Allow; by rewrite Hl).
  unfold GetPreProcessorHertz. cbn [PreProcessors_Call].
  unfold jRPCMethodDeniedHertz. simpl. rewrite Hr. simpl.
  rewrite bool_decide_eq_false_2.
  2: { rewrite Hm. destruct (pc_MethodDenied _); simpl in *; [by rewrite elem_of_list_to_set|set_solver]. }
  simpl. rewrite Hb. simpl.
  rewrite bool_decide_eq_false_2 by (by intros []). rewrite Hh, Hr. simpl. rewrite Hn. simpl.
  rewrite ?Hb. simpl. unfold requestMirrorHertz. rewrite He. simpl. rewrite Hu. simpl.
  rewrite HA. simpl. rewrite ?Hb. simpl. eauto 10.
Qed.

Lemma rewrite_garbles_mirror_witness :
  let body := request_text "getLatestBlock" "[]" "1" in
  let new := request_text "getBlockByHeight" "[7]" "1" in
  let p := (labelled_ctx "1") <| RawRequestBody := body |> <| Method := GetLatestBlock |>
             <| RequestBody := [Some (set_Method GetLatestBlock emptyRequest)] |> in
  let config := mkConfig 5000 None 512 90000 1000 3000
    (mkProcessorConfig (pc_ObservabilityLog (Processor defaultConfig)) true (Some [])) "" 5 300 1024 in
  ∃ c' p' w', @PreProcessors_Call (@World ex_limiter)
    (@GetPreProcessorHertz ex_render ex_limiter (λ _ _, Some new) config {[ ChainId p := Some 7 ]}
       {[ ChainId p := {[ "k" := mkMirrorTarget "1" "k" "10.0.0.9" 80 None false ]} ]} 0)
    (ex_hertz body, p, @mkWorld ex_limiter [] ∅ [] []) = Ret (c', p', w') ∧
    hz_ReqBody c' = Some new ∧
    @w_mirrored ex_limiter w' =
      [mkMirrorRequest "POST" (String.substring 0 (String.length body) new) "http://10.0.0.9:80"].
Proof.
  intros body new p config.
  apply (@rewrite_garbles_mirror ex_render ex_limiter (λ _ _, Some new) config {[ ChainId p := Some 7 ]}
    {[ ChainId p := {[ "k" := mkMirrorTarget "1" "k" "10.0.0.9" 80 None false ]} ]} 0
    (ex_hertz body) p (@mkWorld ex_limiter [] ∅ [] []) (set_Method GetLatestBlock emptyRequest) 7);
    try reflexivity. simpl. apply not_elem_of_nil.
Defined.
