(* ===== verification/Logging.v ===== *)
(** * The process logger

    [lib/log/zaplog.go]: the level the logger is built with and which messages it lets
    through.  zap writes them; what matters here is whether a call writes, and that the
    logger is nil until [InitLogger]. *)

From S2P Require Import Prelude GoStrings Config Processors.
Local Open Scope Z_scope.

(** zap's levels, with zap's numbers. *)
Inductive Level := DebugLevel | InfoLevel | WarnLevel | ErrorLevel | FatalLevel.
#[export] Instance Level_eq_dec : EqDecision Level.
Proof. solve_decision. Defined.

Definition level_number (l : Level) : Z :=
  match l with DebugLevel => -1 | InfoLevel => 0 | WarnLevel => 1 | ErrorLevel => 2 | FatalLevel => 5 end.

(** The package variable: nil, or a logger with its level. *)
Definition logger : Type := option Level.

(** The switch of [InitLogger]. *)
Definition levelOf (level : string) : Level :=
  let name := ToLower (TrimSpace level) in
  if bool_decide (name = "debug") then DebugLevel else
  if bool_decide (name = "info") || bool_decide (name = "") then InfoLevel else
  if bool_decide (name = "warn") || bool_decide (name = "warning") then WarnLevel else
  if bool_decide (name = "error") then ErrorLevel else InfoLevel.

(** The logger there was is replaced. *)
Definition InitLogger (old : logger) (level : string) : logger := Some (levelOf level).

(** Whether a message of a level is written; a nil logger panics. *)
Definition writes (lg : logger) (l : Level) : go bool :=
  match lg with
  | None => Panic
  | Some min => Ret (level_number min <=? level_number l)
  end.

Definition log_Debug (lg : logger) : go bool := writes lg DebugLevel.
Definition log_Info (lg : logger) : go bool := writes lg InfoLevel.
Definition log_Warn (lg : logger) : go bool := writes lg WarnLevel.
Definition log_Error (lg : logger) : go bool := writes lg ErrorLevel.

(** zap's [Fatal] writes and ends the process; [Ret] is never reached. *)
Inductive ending := Exited (written : bool).
Definition log_Fatal (lg : logger) : go ending := let! b := writes lg FatalLevel in Ret (Exited b).

Definition DebugEnabled (lg : logger) : go bool :=
  match lg with
  | None => Panic
  | Some min => Ret (level_number min <=? level_number DebugLevel)
  end.

Lemma log_debug old level : DebugEnabled (InitLogger old level) = Ret (bool_decide (ToLower (TrimSpace level) = "debug")).
Proof. unfold InitLogger, DebugEnabled, levelOf. repeat case_bool_decide; done. Qed.

(** ** Properties *)

(** The configured level decides what is logged. After [InitLogger], whatever the text, no call panics,
    errors and fatal messages are always written, and debug work is done exactly when debug
    messages are written, which is when the level is "debug" up to case and space. *)
Theorem log_levels old level :
  let lg := InitLogger old level in
  DebugEnabled lg = log_Debug lg ∧
  DebugEnabled lg = Ret (bool_decide (ToLower (TrimSpace level) = "debug")) ∧
  log_Error lg = Ret true ∧ log_Fatal lg = Ret (Exited true) ∧
  log_Info lg = Ret (negb (bool_decide (ToLower (TrimSpace level) ∈ ["warn"; "warning"; "error"]))) ∧
  log_Warn lg = Ret (negb (bool_decide (ToLower (TrimSpace level) = "error"))).
Proof.
  unfold InitLogger, DebugEnabled, log_Debug, log_Error, log_Fatal, log_Info, log_Warn, writes, levelOf.
  generalize (ToLower (TrimSpace level)). intros name. destruct (decide (name = "debug")) as [->|H1]; [by split_and!|].
  rewrite (bool_decide_eq_false_2 (name = "debug")) by done.
  destruct (decide (name ∈ ["warn"; "warning"; "error"])) as [H2|H2].
  - rewrite (bool_decide_eq_true_2 (name ∈ _)) by done.
    apply elem_of_cons in H2 as [->|[->|[->|H2%not_elem_of_nil]%elem_of_cons]%elem_of_cons]; by split_and!.
  - rewrite (bool_decide_eq_false_2 (name ∈ _)) by done.
    assert (name ≠ "warn" ∧ name ≠ "warning" ∧ name ≠ "error") as (H3 & H4 & H5) by set_solver.
    rewrite !(bool_decide_eq_false_2 (name = "warn")), !(bool_decide_eq_false_2 (name = "warning")),
      !(bool_decide_eq_false_2 (name = "error")) by done. by destruct (_ || _).
Qed.

(** An unknown level does not keep the one there was, but goes back to info. *)
Theorem unknown_level_resets :
  DebugEnabled (InitLogger None "debug") = Ret true ∧
  DebugEnabled (InitLogger (InitLogger None "debug") "verbose") = Ret false.
Proof. by split. Qed.
