(* ===== verification/Serve.v ===== *)
(** * Serving a request

    [lb/lb.go] ([ServeHTTP], [chooseTargetNode], [attemptRequest], the retry
    decisions, [parseRPCErrorCodes], [generateRequestContext], [beforeProcess]),
    [lb/archive_hash_cache.go] and [lb/lbnode/upstream_error.go].

    The upstream nodes answer through [proxyServe], an arbitrary function of the
    attempt's number and the framework context; random draws likewise. *)

From S2P Require Import Prelude GoStrings JsonScan JsonRpc ChainId Types BlockContext.
From S2P Require Import LbNode Gateway PickNodes Selector Mirror Config Processors.
Local Open Scope Z_scope.

(** ** The archive hash cache ([lb/archive_hash_cache.go]) *)

(** The bounded cache of the otter library, used as a set of hashes. *)
Class OtterCache := {
  Cache : Type;
  NewCache : Z → Cache;
  GetIfPresent : Cache → Hash → bool;
  Cache_Set : Cache → Hash → Cache }.

(** What the library documents: a cache starts empty and holds nothing that was
    not stored (it may drop entries at any time). *)
Class OtterLaws `{OtterCache} := {
  NewCache_empty n h : GetIfPresent (NewCache n) h = false;
  Cache_Set_only c h h' : GetIfPresent (Cache_Set c h) h' = true → h' = h ∨ GetIfPresent c h' = true }.

Section ArchiveCache.
Context `{OtterCache}.

Record archiveCache := mkArchiveCache { ac_size : Z; ac_chains : gmap string Cache }.

(** A nil cache is disabled. *)
Definition archiveHashCache : Type := option archiveCache.

Definition newArchiveHashCache (size : Z) : archiveHashCache :=
  if size <=? 0 then None else Some (mkArchiveCache size ∅).

Definition chain (c : archiveHashCache) (chainId : string) : option Cache :=
  c ← c; ac_chains c !! chainId.

Definition Cache_Contains (c : archiveHashCache) (chainId : string) (hash : Hash) : bool :=
  match chain c chainId with None => false | Some cache => GetIfPresent cache hash end.

Definition HasChain (c : archiveHashCache) (chainId : string) : bool :=
  bool_decide (is_Some (chain c chainId)).

Definition Add (c : archiveHashCache) (chainId : string) (hash : Hash) : archiveHashCache :=
  match c with
  | None => None
  | Some a =>
      let v := default (NewCache (ac_size a)) (ac_chains a !! chainId) in
      Some (mkArchiveCache (ac_size a) (<[chainId := Cache_Set v hash]> (ac_chains a)))
  end.
End ArchiveCache.

(** The block hash a request is pinned to. *)
Definition requestBlockHash (p : RequestContext) : go (option Hash * RequestContext) :=
  let! '(bc, p) := GetBlockContext p in
  Ret (match bc with
       | Some ctx => if bool_decide (Type_ ctx = "Equals")
                     then (id ← BlockId ctx; BlockHash id) else None
       | None => None
       end, p).

(** ** Upstream errors ([lb/lbnode/upstream_error.go]) *)

(** The client errors the handler tells apart. *)
Inductive upstreamError := ErrTimeout | ErrReadTimeout | ErrOtherUpstream.

Definition IsUpstreamReadTimeout (err : upstreamError) : bool :=
  match err with ErrTimeout | ErrReadTimeout => true | ErrOtherUpstream => false end.

Definition upstreamErrorHandler (c : Hertz) (err : upstreamError) : Hertz :=
  let c := Response_Reset c in
  if IsUpstreamReadTimeout err then c <| hz_Status := StatusGatewayTimeout |>
  else c <| hz_Status := StatusBadGateway |>.

(** ** Requests *)

Definition DBKBiz : string := "x-dbk-biz".
Definition DBKSourceHost : string := "x-dbk-source-host".
Definition DBKSource : string := "x-dbk-source".
Definition DBKEnv : string := "x-dbk-env".
Definition DBKServerVersion : string := "x-dbk-server-version".
Definition NodexNodeType : string := "x-nodex-node-type".

Definition isArchiveNodeTypeHeaderValue (value : string) : bool :=
  bool_decide (TrimSpace value = "archive").

Definition beforeProcess (c : Hertz) : RequestContext := {|
  Host := hz_Host c; Target := "native";
  SourceBiz := hz_Header c DBKBiz; SourceHost := hz_Header c DBKSourceHost;
  SourceIP := hz_Header c DBKSource; SourceEnv := hz_Header c DBKEnv;
  SourceServerVersion := hz_Header c DBKServerVersion;
  UpstreamRelated := false; rc_Error := None; RawRequestBody := ""; RequestBody := [];
  Method := "unknown"; rc_IsBatch := false; ResponseBody := None; RequestBodySize := 0;
  ResponseBodySize := 0; rc_BlockContext := None; blockContextFn := None; blockContextDone := false;
  BaseChainId := ""; ChainUUID := ""; ChainId := ""; TargetNodeAddr := "";
  Archive := isArchiveNodeTypeHeaderValue (hz_Header c NodexNodeType);
  Native := false; responseErrorKeyKnown := false; responseHasErrorKey := false |}.

(** The decoders of sonic that serving uses besides those of [BlockContext]. *)
Class Sonic := {
  Valid : string → bool;
  UnmarshalRequest : string → option RequestObject;
  UnmarshalBatch : string → option (list (option RequestObject));
  (** the error code of a response, and of each response of a batch *)
  UnmarshalCode : string → option (option Z);
  UnmarshalCodes : string → option (list (option Z));
  UnmarshalRawResponse : string → string + ResponseObject;
  MarshalGetBlockByHeight : Z → option string → option string }.

(** The first request that fails validation. *)
Fixpoint firstInvalid (reqs : list (option RequestObject)) : option ErrorObject :=
  match reqs with
  | [] => None
  | req :: reqs => match ValidateRequest req with Some e => Some e | None => firstInvalid reqs end
  end.

Section Request.
Context `{GoEthereum} `{SonicParams} `{Sonic} (debug : bool).

Definition generateRequestContext (c : Hertz) : go RequestContext :=
  let p := beforeProcess c in
  let! parsed := ParseRequest Valid UnmarshalRequest UnmarshalBatch (hz_ReqBody c) in
  let size := match hz_ReqBody c with Some b => Z.of_nat (String.length b) | None => 0 end in
  match parsed with
  | inl err => Ret (p <| RequestBodySize := size |> <| rc_Error := Some (ErrText (ParseError_text err)) |>)
  | inr reqs =>
      let p := p <| RawRequestBody := default "" (hz_ReqBody c) |> <| RequestBody := reqs |>
                 <| RequestBodySize := size |> <| rc_IsBatch := bool_decide (1 < length reqs)%nat |> in
      let! p := (if rc_IsBatch p then Ret p else
                 match reqs with
                 | Some r :: _ => Ret (p <| Method := ro_Method r |>)
                 | _ => Panic      (* no first request, or a nil one *)
                 end) in
      let p := match firstInvalid reqs with
               | None => p
               | Some e =>
                   let '(resp, err) := BadRequest (ErrObject e) in
                   p <| ResponseBody := Some resp |> <| rc_Error := Some err |>
               end in
      Ret (SetBlockContextFn p (ParseBlockContext debug reqs))
  end.
End Request.

(** ** The handler *)

Definition StateBlockNotFound : Z := -39006.
Definition InvalidBlockID : Z := -39007.
Definition CosmosPrecompile : Z := -39008.

(** One upstream attempt: the node and the request as the node's reverse proxy was handed it.
    The path and the read timeout of an attempt are those of that request; without a read
    timeout nothing bounds the attempt. *)
Record Attempt := mkAttempt { at_node : Node; at_request : Hertz }.

Definition at_path (a : Attempt) : string := hz_Path (at_request a).
Definition at_timeout (a : Attempt) : option Z := hz_ReadTimeout (at_request a).

(** The error codes a response carries, as a set; no response is no code. *)
Abbreviation rpcErrorCodes := (gset Z) (only parsing).
Definition Has (codes : gset Z) (code : Z) : bool := bool_decide (code ∈ codes).

Section Serve.
Context `{GoEthereum} `{SonicParams} `{Sonic} `{Render} `{RateLimiter} `{OtterCache}.

(** The load balancer's parts a request reads, as they are at one moment: in the code an
    event may change the pools and settings between two attempts of a request. *)
Record Balancer := mkBalancer {
  b_Config : Config;
  b_Selector : Random gatewayStrategy;
  b_Router : ChainVersionRouter;
  b_Heights : gmap string (option Z);
  b_Mirrors : gmap string (gmap string MirrorTarget);
  b_Debug : bool;
  b_Now : Z; b_Duration : Z }.

(** What serving changes outside the request: metrics, limiters and mirror
    requests, the archive hash cache, the upstream attempts made. *)
Record Serving := mkServing {
  sv_World : World; sv_Cache : archiveHashCache; sv_Log : list Attempt }.

#[export] Instance Serving_expands : Expands Serving := λ s,
  mkServing (sv_World s) (sv_Cache s) (sv_Log s).

(** The random draw and the upstream's answer, by the number of attempts made
    so far. *)
Context (Int63n : nat → Z → Z) (proxyServe : nat → nat → Hertz → Hertz).
Context (lb : Balancer).

Definition chooseTargetNode (p : RequestContext) (sv : Serving) (requestKey : string)
    : go (option Node * RequestContext) :=
  let p := ClearTargetNode p in
  let! '(res, p) := GetNode (Int63n (length (sv_Log sv))) (b_Selector lb) p requestKey in
  match res with
  | inl _ => Ret (None, p)
  | inr targetNode => Ret (Some targetNode, SetTargetNode p (Addr targetNode))
  end.

(** In nanoseconds, as a [time.Duration]; the configuration is in milliseconds. *)
Definition upstreamReadTimeout (method : string) : Z :=
  let t := default 0 (default ∅ (RPCMethodTimeoutConfig (b_Config lb)) !! method) in
  wrap_int64 ((if 0 <? t then t else DefaultRPCTimeout (b_Config lb)) * Millisecond).

Definition resetResponse (c : Hertz) (p : RequestContext) : Hertz * RequestContext :=
  (Response_Reset c, ResetResponseErrorKey p).

(** [targetNode.ReverseProxy.ServeHTTP]: the request [c] goes to the node, and is logged. *)
Definition proxyRequest (c : Hertz) (sv : Serving) (targetNode : Node) (ref : nat) : Hertz * Serving :=
  (proxyServe (length (sv_Log sv)) ref c,
   sv <| sv_Log := sv_Log sv ++ [mkAttempt targetNode c] |>).

(** [WriteError] stores the request's id in the response object, which the request
    context holds too. *)
Definition attemptRequest (c : Hertz) (p : RequestContext) (sv : Serving) (targetNode : Node)
    : go (Hertz * RequestContext * Serving) :=
  let p := ResetResponseErrorKey p in
  let c := if Native p then c <| hz_Path := "/" |> else c in
  let c := c <| hz_ReadTimeout := Some (upstreamReadTimeout (Method p)) |> in
  match ReverseProxy targetNode with
  | None => Panic
  | Some ref =>
      let '(c, sv) := proxyRequest c sv targetNode ref in
      let '(c, p) :=
        if hz_Status c =? StatusGatewayTimeout then
          let '(object, retErr) := GatewayTimeout (ErrText "reverse proxy gateway timeout") in
          let p := p <| rc_Error := Some retErr |> <| ResponseBody := Some (response_with_id p object) |> in
          (WriteError p c StatusGatewayTimeout object, p)
        else (c, p) in
      let '(c, p) :=
        if hz_Status c =? StatusBadGateway then
          let '(object, retErr) := BadGateway (ErrText "reverse proxy bad gateway") in
          let p := p <| rc_Error := Some retErr |> <| ResponseBody := Some (response_with_id p object) |> in
          (WriteError p c StatusBadGateway object, p)
        else (c, p) in
      Ret (c, p, sv)
  end.

Definition writeNoBackend (c : Hertz) (p : RequestContext) (msg : string) : Hertz * RequestContext :=
  let '(object, retErr) := BadGateway (ErrText msg) in
  let p := p <| rc_Error := Some retErr |> <| ResponseBody := Some (response_with_id p object) |> in
  (WriteError p c StatusOK object, p).

Definition shouldRetryWithArchive (p : RequestContext) (codes : gset Z) : bool :=
  if Archive p then false else Has codes StateBlockNotFound.

Definition shouldRetryWithNative (p : RequestContext) (codes : gset Z) : bool :=
  if Native p then false else Has codes CosmosPrecompile.

Definition collect (codes : list (option Z)) : gset Z := list_to_set (omap id codes).

Definition parseRPCErrorCodes (responseBody : string) (p : RequestContext)
    : go (gset Z * RequestContext) :=
  let trimmed := TrimSpace responseBody in
  if bool_decide (trimmed = "") then Ret (∅, p) else
  let! '(has, p) := CachedResponseContainsErrorKey p trimmed in
  if negb has then Ret (∅, p) else
  let! c := at_ trimmed 0 in
  if is_ c "[" then
    match UnmarshalCodes trimmed with
    | None => Ret (∅, p)
    | Some resps => Ret (collect resps, p)
    end
  else
    match UnmarshalCode trimmed with
    | None => Ret (∅, p)
    | Some code => Ret (collect [code], p)
    end.

Definition recordEvent (sv : Serving) (chainId event : string) : Serving :=
  sv <| sv_World := record (sv_World sv) [ArchiveHashCacheEvent chainId event] |>.

Definition routeCachedArchiveHash (p : RequestContext) (sv : Serving)
    : go (bool * RequestContext * Serving) :=
  if Archive p || Native p || rc_IsBatch p then Ret (false, p, sv) else
  let chainId := ChainId p in
  if negb (HasChain (sv_Cache sv) chainId) then Ret (false, p, sv) else
  let! '(hash, p) := requestBlockHash p in
  match hash with
  | None => Ret (false, p, sv)
  | Some hash =>
      if negb (Cache_Contains (sv_Cache sv) chainId hash) then Ret (false, p, sv) else
      Ret (true, p <| Archive := true |>, recordEvent sv chainId "hit")
  end.

Definition rememberArchiveHash (c : Hertz) (p : RequestContext) (sv : Serving) (codes : gset Z)
    : go (RequestContext * Serving) :=
  if bool_decide (sv_Cache sv = None :> option archiveCache) || rc_IsBatch p then Ret (p, sv) else
  if negb (hz_Status c =? StatusOK) || Has codes StateBlockNotFound || Has codes InvalidBlockID
  then Ret (p, sv) else
  let! '(hash, p) := requestBlockHash p in
  match hash with
  | None => Ret (p, sv)
  | Some hash =>
      let sv := sv <| sv_Cache := Add (sv_Cache sv) (ChainId p) hash |> in
      Ret (p, recordEvent sv (ChainId p) "add")
  end.

(** The archive retry; [inl] is a return from the handler. *)
Definition retryArchive (c : Hertz) (p : RequestContext) (sv : Serving) (codes : gset Z)
    : go (Hertz * RequestContext * Serving + Hertz * RequestContext * Serving * gset Z) :=
  if shouldRetryWithArchive p codes then
    let '(c, p) := resetResponse c p in
    let p := p <| Archive := true |> in
    let! '(targetNode, p) := chooseTargetNode p sv "" in
    match targetNode with
    | None => let '(c, p) := writeNoBackend c p "no backends available" in Ret (inl (c, p, sv))
    | Some targetNode =>
        let! '(c, p, sv) := attemptRequest c p sv targetNode in
        let! '(codes, p) := parseRPCErrorCodes (hz_Body c) p in
        let! '(p, sv) := rememberArchiveHash c p sv codes in
        Ret (inr (c, p, sv, codes))
    end
  else Ret (inr (c, p, sv, codes)).

Definition retryNative (c : Hertz) (p : RequestContext) (sv : Serving) (codes : gset Z)
    : go (Hertz * RequestContext * Serving) :=
  if shouldRetryWithNative p codes then
    let '(c, p) := resetResponse c p in
    let p := p <| Native := true |> in
    let! '(targetNode, p) := chooseTargetNode p sv "native" in
    match targetNode with
    | None => let '(c, p) := writeNoBackend c p "no native backends available" in Ret (c, p, sv)
    | Some targetNode => attemptRequest c p sv targetNode
    end
  else Ret (c, p, sv).

(** The first choice, falling back from a cached archive route. *)
Definition chooseFirst (p : RequestContext) (sv : Serving)
    : go (option Node * RequestContext * Serving) :=
  let! '(cachedArchive, p, sv) := routeCachedArchiveHash p sv in
  let! '(targetNode, p) := chooseTargetNode p sv "" in
  match targetNode with
  | Some n => Ret (Some n, p, sv)
  | None =>
      if cachedArchive : bool then
        let p := p <| Archive := false |> in
        let! '(targetNode, p) := chooseTargetNode p sv "" in Ret (targetNode, p, sv)
      else Ret (None, p, sv)
  end.

(** The part of the handler between the pre- and the post-processors. *)
Definition serveUpstream (c : Hertz) (p : RequestContext) (sv : Serving)
    : go (Hertz * RequestContext * Serving) :=
  let p := p <| UpstreamRelated := true |> in
  let! '(targetNode, p, sv) := chooseFirst p sv in
  match targetNode with
  | None => let '(c, p) := writeNoBackend c p "no backends available" in Ret (c, p, sv)
  | Some targetNode =>
      let p := if NodeType targetNode =? NodeTypeArchive then p <| Archive := true |> else p in
      let! '(c, p, sv) := attemptRequest c p sv targetNode in
      let! '(codes, p) := parseRPCErrorCodes (hz_Body c) p in
      let! r := retryArchive c p sv codes in
      match r with
      | inl done => Ret done
      | inr (c, p, sv, codes) => retryNative c p sv codes
      end
  end.

Definition ServeHTTP (c : Hertz) (sv : Serving) (chainID : string)
    : go (Hertz * RequestContext * Serving) :=
  let! p := generateRequestContext (b_Debug lb) c in
  match rc_Error p with
  | Some err => Ret (WriteError p c StatusOK (BadRequest err).1, p, sv)
  | None =>
      match effectiveChain (b_Router lb) chainID with
      | None => Ret (WriteError p c StatusOK (BadRequest (ErrText "invalid chain id")).1, p, sv)
      | Some (baseChainID, chainUUID, effectiveChainID) =>
          let p := p <| BaseChainId := baseChainID |> <| ChainUUID := chainUUID |>
                     <| ChainId := effectiveChainID |> in
          let! '(c, p, w) :=
            PreProcessors_Call
              (GetPreProcessorHertz MarshalGetBlockByHeight (b_Config lb) (b_Heights lb)
                 (b_Mirrors lb) (b_Now lb)) (c, p, sv_World sv) in
          let sv := sv <| sv_World := w |> in
          let! '(c, p, sv) := (if bool_decide (hz_Body c ≠ "") then Ret (c, p, sv)
                               else serveUpstream c p sv) in
          let! '(c, p, w) :=
            PostProcessors_Call
              (GetPostProcessorHertz UnmarshalRawResponse (b_Config lb) (b_Duration lb))
              (c, p, sv_World sv) in
          Ret (c, p, sv <| sv_World := w |>)
      end
  end.
End Serve.

(** ** Properties *)

(** Preparing a request panics exactly on the parsed bodies that hold no request object to
    read the method from: an empty batch and a batch of one null, which are not turned into
    the JSON-RPC error that validation would give them. *)
Theorem empty_batch_panics `{GoEthereum} `{SonicParams} `{Sonic} debug c reqs :
  ParseRequest Valid UnmarshalRequest UnmarshalBatch (hz_ReqBody c) = Ret (inr reqs) →
  generateRequestContext debug c = Panic ↔ reqs = [] ∨ reqs = [None].
Proof.
  intros Hp. unfold generateRequestContext. rewrite Hp. cbn [go_bind].
  destruct reqs as [|r1 [|r2 reqs]]; simpl.
  - tauto.
  - destruct r1 as [r|]; [|tauto]. split; [done|by intros [|]].
  - split; [done|by intros [|]].
Qed.

(** The decoders: [[]] and [[null]] are the batches sonic accepts in full, and a
    response mentioning a code is taken to carry it. *)
Definition ex_sonic : Sonic := {|
  Valid := λ _, true;
  UnmarshalRequest := λ _, None;
  UnmarshalBatch := λ s, if bool_decide (s = "[]") then Some []
                         else if bool_decide (s = "[null]") then Some [None] else None;
  UnmarshalCode := λ s, Some (if Contains s "-39006" then Some StateBlockNotFound
                              else if Contains s "-39008" then Some CosmosPrecompile else None);
  UnmarshalCodes := λ _, None;
  UnmarshalRawResponse := λ _, inl "no response";
  MarshalGetBlockByHeight := λ _ _, None |}.
#[export] Existing Instances ex_sonic ex_render ex_limiter example_eth example_sonic.

Lemma empty_batch_panics_witness :
  let empty : list (option RequestObject) := [] in
  let null : list (option RequestObject) := [None] in
  (generateRequestContext false (ex_hertz "[]") = Panic ↔ empty = [] ∨ empty = [None]) ∧
  (generateRequestContext false (ex_hertz "[null]") = Panic ↔ null = [] ∨ null = [None]).
Proof.
  split.
  - apply (empty_batch_panics false (ex_hertz "[]") []). vm_compute. reflexivity.
  - apply (empty_batch_panics false (ex_hertz "[null]") [None]). vm_compute. reflexivity.
Defined.
