(* ===== verification/ServeProof.v ===== *)
(** * What serving a request does

    The contract of [lb/lb.go]'s handler, modelled in [Serve]: that it returns, which
    nodes it may try and how often, that it accounts every request once, that the
    error-key filter it caches is never stale, and what enters the archive hash cache.
    The last part has the properties, each with an evaluated instance. *)

From S2P Require Import Prelude GoStrings JsonScan JsonRpc ChainId Types BlockContext.
From S2P Require Import LbNode Gateway PickNodes Selector Mirror Config Processors Serve.
Local Open Scope Z_scope.

(** ** What serving keeps of the request *)

(** A parsed block context is what the installed parser returns. *)
Definition ctx_src (p : RequestContext) : Prop :=
  ∀ bc, rc_BlockContext p = Some bc → blockContextFn p = Some (Ret (Some bc)).

Record kept (p p' : RequestContext) : Prop := {
  k_src : ctx_src p → ctx_src p';
  k_method : Method p' = Method p;
  k_batch : rc_IsBatch p' = rc_IsBatch p;
  k_chain : ChainId p' = ChainId p;
  k_body : RequestBody p' = RequestBody p;
  k_fn : blockContextFn p' = blockContextFn p }.

#[export] Instance kept_preorder : PreOrder kept.
Proof. split; [done|]. intros p1 p2 p3 [] []. constructor; [eauto|congruence..]. Qed.

(** The installed parser returns. *)
Definition ctx_ok (p : RequestContext) : Prop :=
  match blockContextFn p with Some fn => returns fn (λ _, True) | None => True end.

Lemma ctx_ok_kept p p' : kept p p' → ctx_ok p → ctx_ok p'.
Proof. unfold ctx_ok. by intros [_ _ _ _ _ ->]. Qed.

(** [kept], and the two routing flags unchanged. *)
Definition same_route (p p' : RequestContext) : Prop :=
  kept p p' ∧ Archive p' = Archive p ∧ Native p' = Native p.

Lemma same_route_trans p1 p2 p3 : same_route p1 p2 → same_route p2 p3 → same_route p1 p3.
Proof. intros (K & A & N) (K' & A' & N'). split; [by transitivity p2|]. split; congruence. Qed.

(** The cached filter result unchanged. *)
Definition same_key (p p' : RequestContext) : Prop :=
  responseErrorKeyKnown p' = responseErrorKeyKnown p ∧
  responseHasErrorKey p' = responseHasErrorKey p.

Lemma GetBlockContext_ensures p :
  ensures (GetBlockContext p) (λ '(bc, p'),
    same_route p p' ∧ same_key p p' ∧
    (ctx_src p → ∀ b, bc = Some b → blockContextFn p = Some (Ret (Some b)))).
Proof.
  unfold GetBlockContext, ctx_src.
  destruct (rc_BlockContext p) eqn:Eb; [simpl; split_and!; try done; intros; simplify_eq; auto|].
  destruct (blockContextDone p); [simpl; split_and!; try done; intros; congruence|].
  destruct (blockContextFn p) as [fn|] eqn:E; [|simpl; split_and!; try done; intros; congruence].
  destruct fn as [bc| |]; simpl in *; [|done|done]. split_and!; [split| |].
  - constructor; try done. intros _ b. simpl. by intros ->.
  - done.
  - done.
  - by intros _ b ->.
Qed.

Lemma GetBlockContext_returns p :
  ctx_ok p → returns (GetBlockContext p) (λ '(_, p'), same_route p p').
Proof.
  intros Hok. pose proof (GetBlockContext_ensures p) as He. revert He.
  unfold ctx_ok, GetBlockContext in *.
  destruct (rc_BlockContext p); [by intros []|]. destruct (blockContextDone p); [by intros []|].
  destruct (blockContextFn p) as [fn|]; [|by intros []].
  destruct fn as [bc| |]; simpl in *; [by intros []|done|done].
Qed.

Section ServeLemmas.
Context `{GoEthereum} `{SonicParams} `{Sonic} `{Render} `{RateLimiter} `{OtterCache}.
Context (Int63n : nat → Z → Z) (lb : Balancer).

Abbreviation archives c := (pool (archiveNodes (b_Selector lb)) c).
Abbreviation states c := (pool (stateNodes (b_Selector lb)) c).
Abbreviation natives c := (pool (nativeNodes (b_Selector lb)) c).

Definition selector_weights (c : string) : gmap string Z :=
  match gateway (b_Selector lb) with Some g => ChainWeights g c | None => ∅ end.

(** The environment a served request can rely on: pooled nodes have a proxy,
    published weights are percentages, pools fit in memory, and the random
    source stays in range. *)
Record lb_ok : Prop := {
  ok_proxies c n : n ∈ archives c ∨ n ∈ states c ∨ n ∈ natives c → is_Some (ReverseProxy n);
  ok_weights c k : 0 ≤ nodeWeight (selector_weights c) k ≤ DefaultWeight;
  ok_sizes c : Z.of_nat (length (archives c) + length (states c) + length (natives c)) < 2 ^ 50;
  ok_draws i n : 0 < n → 0 ≤ Int63n i n < n }.

Context (Hlb : lb_ok).

Lemma good_weights_small c ns :
  Z.of_nat (length ns) < 2 ^ 50 → good_weights (selector_weights c) ns.
Proof.
  intros Hl. split.
  - apply Forall_forall. intros n _. apply (ok_weights Hlb c (Key n)).
  - assert (total (selector_weights c) ns ≤ DefaultWeight * Z.of_nat (length ns)) as Ht.
    { clear Hl. induction ns as [|n ns IH]; simpl; [lia|].
      pose proof (ok_weights Hlb c (Key n)). unfold DefaultWeight in *. lia. }
    unfold DefaultWeight, max_int64 in *. lia.
Qed.

Lemma selectNode_returns i ctx nodes :
  Z.of_nat (length nodes) < 2 ^ 50 →
  returns (selectNode (Int63n i) (gateway (b_Selector lb)) ctx nodes)
    (λ r, match r with inr n => n ∈ nodes | inl _ => True end).
Proof.
  intros Hl. set (g := gateway (b_Selector lb)).
  set (ns := candidates g ctx nodes). set (ws := weights_for g ctx).
  assert (ws = selector_weights (ChainId ctx)) as Hws.
  { unfold ws, weights_for, selector_weights, g. by destruct (gateway (b_Selector lb)). }
  pose proof (candidates_sublist g ctx nodes) as Hsub. fold ns in Hsub.
  assert (good_weights ws ns) as Hw.
  { rewrite Hws. apply good_weights_small. pose proof (sublist_length _ _ Hsub). lia. }
  destruct (decide (nodes = [])) as [->|Hne]; [done|].
  destruct (decide (ns = [])) as [Hns|Hns].
  { unfold selectNode. fold (candidates g ctx nodes) ns.
    by rewrite (bool_decide_eq_false_2 _ Hne), (bool_decide_eq_true_2 _ Hns). }
  destruct (decide (total ws ns = 0)) as [Hz|Hz].
  { unfold selectNode. fold (candidates g ctx nodes) ns. fold (weights_for g ctx) ws.
    rewrite (bool_decide_eq_false_2 _ Hne), (bool_decide_eq_false_2 _ Hns).
    by rewrite weightSum_total, Hz by done. }
  pose proof (total_nonneg ws ns (proj1 Hw)).
  destruct (selectNode_owner (Int63n i) g ctx nodes Hne Hw) as (a & n & b & E & -> & _);
    [fold ns ws; lia|apply (ok_draws Hlb); fold ns ws; lia|].
  simpl. eapply sublist_subseteq; [exact Hsub|]. fold ns in E. rewrite E. set_solver.
Qed.

Lemma pick_pools bc h a s n fa fn x :
  x ∈ pick bc h a s n fa fn →
  if fn : bool then x ∈ n else if fa : bool then x ∈ a else x ∈ a ∨ x ∈ s.
Proof.
  assert (∀ l, x ∈ prefer l → x ∈ l) as Hp.
  { intros l Hx. eapply sublist_subseteq; [apply prefer_sublist|done]. }
  unfold pick. destruct fn; [apply Hp|]. destruct fa; [apply Hp|].
  repeat case_decide; [| |case_match]; intros Hx%Hp; auto.
Qed.

Lemma pick_length bc h a s n fa fn :
  (length (pick bc h a s n fa fn) ≤ length a + length s + length n)%nat.
Proof.
  assert (∀ l, (length (prefer l) ≤ length l)%nat) as Hp
    by (intros l; apply sublist_length, prefer_sublist).
  unfold pick. pose proof (Hp a). pose proof (Hp s). pose proof (Hp n).
  destruct fn; [lia|]. destruct fa; [lia|]. repeat case_decide; [lia|lia|case_match; lia].
Qed.

(** Where a chosen node comes from. *)
Definition from_pool (p : RequestContext) (key : string) (n : Node) : Prop :=
  if bool_decide (key = "native") then n ∈ natives (ChainId p)
  else if Archive p then n ∈ archives (ChainId p)
  else n ∈ archives (ChainId p) ∨ n ∈ states (ChainId p).

Lemma from_pool_proxy p key n : from_pool p key n → is_Some (ReverseProxy n).
Proof.
  intros Hf. apply (ok_proxies Hlb (ChainId p)). unfold from_pool in Hf. repeat case_match; tauto.
Qed.

Lemma chooseTargetNode_returns p sv key :
  ctx_ok p →
  returns (chooseTargetNode Int63n lb p sv key) (λ '(n, p'),
    same_route p p' ∧ match n with Some n => from_pool p key n | None => True end).
Proof.
  intros Hok. unfold chooseTargetNode. rewrite GetNode_pick.
  change (ChainId (ClearTargetNode p)) with (ChainId p).
  change (Archive (ClearTargetNode p)) with (Archive p).
  set (native := bool_decide (key = "native")).
  assert (ctx_ok (ClearTargetNode p)) as Hok' by exact Hok.
  assert (same_route p (ClearTargetNode p)) as Hr0 by (by repeat constructor).
  apply returns_bind.
  eapply (returns_seq _ _ (λ '(_, p'), same_route (ClearTargetNode p) p')).
  { destruct (consults _ _ _ _); [by apply GetBlockContext_returns|]. simpl. by repeat constructor. }
  intros [bc p1] Hr1.
  set (nodes := pick bc _ _ _ _ _ _).
  eapply returns_seq; [apply selectNode_returns|].
  { pose proof (pick_length bc (default None (chainHeight (b_Selector lb) !! ChainId p))
      (archives (ChainId p)) (states (ChainId p)) (natives (ChainId p)) (Archive p) native).
    pose proof (ok_sizes Hlb (ChainId p)). unfold nodes. lia. }
  intros [e|n] Hn; cbn [go_bind returns].
  - split; [|done]. by eapply same_route_trans.
  - split; [|by apply pick_pools in Hn].
    apply (same_route_trans _ p1); [by eapply same_route_trans|by repeat constructor].
Qed.

Context (proxyServe : nat → nat → Hertz → Hertz).

(** The request an attempt sends: at the root path for a native node, under the timeout
    of the request's method. *)
Definition sent_request (c : Hertz) (p : RequestContext) : Hertz :=
  let c := if Native p then c <| hz_Path := "/" |> else c in
  c <| hz_ReadTimeout := Some (upstreamReadTimeout lb (Method p)) |>.

Lemma attemptRequest_returns c p sv n :
  is_Some (ReverseProxy n) →
  returns (attemptRequest proxyServe lb c p sv n) (λ '(_, p', sv'),
    same_route p p' ∧ responseErrorKeyKnown p' = false ∧
    sv_World sv' = sv_World sv ∧ sv_Cache sv' = sv_Cache sv ∧
    sv_Log sv' = sv_Log sv ++ [mkAttempt n (sent_request c p)]).
Proof.
  intros [ref Hr]. unfold attemptRequest. rewrite Hr.
  change (Native (ResetResponseErrorKey p)) with (Native p).
  change (Method (ResetResponseErrorKey p)) with (Method p).
  fold (sent_request c p). unfold proxyRequest. set (req := sent_request c p).
  set (c1 := proxyServe _ _ _). destruct (hz_Status c1 =? StatusGatewayTimeout).
  - simpl. split_and!; try done; by repeat constructor.
  - destruct (hz_Status c1 =? StatusBadGateway); simpl; split_and!; try done; by repeat constructor.
Qed.

Lemma parseRPCErrorCodes_returns body p :
  returns (parseRPCErrorCodes body p) (λ '(_, p'), same_route p p').
Proof.
  unfold parseRPCErrorCodes. destruct (bool_decide (TrimSpace body = "")) eqn:E; b2p;
    [by repeat constructor|].
  assert (returns (CachedResponseContainsErrorKey p (TrimSpace body)) (λ '(_, p'), same_route p p')) as Hc.
  { unfold CachedResponseContainsErrorKey. destruct (responseErrorKeyKnown p); [by repeat constructor|].
    rewrite ContainsErrorKey_tokens. by repeat constructor. }
  eapply returns_seq; [exact Hc|]. intros [[] p'] Hp; cbn [negb]; [|done].
  apply returns_bind, returns_at.
  { destruct (TrimSpace body); [done|]. simpl. lia. }
  intros ch _. destruct (is_ ch "["); [destruct (UnmarshalCodes _)|destruct (UnmarshalCode _)]; done.
Qed.

Lemma requestBlockHash_returns p :
  ctx_ok p → returns (requestBlockHash p) (λ '(_, p'), same_route p p').
Proof.
  intros Hok. unfold requestBlockHash. eapply returns_seq; [by apply GetBlockContext_returns|].
  by intros [bc p'] Hp.
Qed.

(** Only cache events are added to the metrics along the way. *)
Definition only_cache_events (ms : list metric) : Prop :=
  count is_total ms = 0%nat ∧ count is_outcome ms = 0%nat.

Definition world_extends (w w' : World) : Prop :=
  ∃ ms, w_metrics w' = w_metrics w ++ ms ∧ only_cache_events ms.

Lemma world_extends_refl w : world_extends w w.
Proof. exists []. by rewrite (right_id_L [] (++)). Qed.

Lemma world_extends_trans w1 w2 w3 : world_extends w1 w2 → world_extends w2 w3 → world_extends w1 w3.
Proof.
  intros (a & Ha & Ha1 & Ha2) (b & Hb & Hb1 & Hb2). exists (a ++ b).
  rewrite Hb, Ha, (assoc_L (++)). split; [done|]. split; rewrite count_app; lia.
Qed.

Lemma recordEvent_extends sv c e : world_extends (sv_World sv) (sv_World (recordEvent sv c e)).
Proof. exists [ArchiveHashCacheEvent c e]. done. Qed.

Lemma routeCachedArchiveHash_returns p sv :
  ctx_ok p →
  returns (routeCachedArchiveHash p sv) (λ '(cached, p', sv'),
    kept p p' ∧ Native p' = Native p ∧
    Archive p' = (if cached : bool then true else Archive p) ∧
    (cached = true → Archive p = false) ∧
    sv_Cache sv' = sv_Cache sv ∧ sv_Log sv' = sv_Log sv ∧
    world_extends (sv_World sv) (sv_World sv')).
Proof.
  intros Hok. unfold routeCachedArchiveHash.
  assert (kept p p) by reflexivity. pose proof (world_extends_refl (sv_World sv)).
  destruct (Archive p) eqn:Ea; [simpl; by rewrite Ea|]. destruct (Native p) eqn:En; [simpl; by rewrite Ea, En|].
  destruct (rc_IsBatch p); [simpl; by rewrite Ea, En|]. cbn [orb].
  destruct (negb _); [simpl; by rewrite Ea, En|].
  eapply returns_seq; [by apply requestBlockHash_returns|]. intros [[h|] p'] (Hk & Ha & Hn).
  - rewrite Ea in Ha. rewrite En in Hn. destruct (negb _); simpl; [by rewrite Ha, Hn|].
    split_and!; try done; [|by apply recordEvent_extends]. etrans; [exact Hk|]. by constructor.
  - simpl. rewrite Ea in Ha. rewrite En in Hn. by rewrite Ha, Hn.
Qed.

Lemma rememberArchiveHash_returns c p sv codes :
  ctx_ok p →
  returns (rememberArchiveHash c p sv codes) (λ '(p', sv'),
    same_route p p' ∧ sv_Log sv' = sv_Log sv ∧ world_extends (sv_World sv) (sv_World sv')).
Proof.
  intros Hok. unfold rememberArchiveHash. pose proof (world_extends_refl (sv_World sv)).
  assert (same_route p p) by (by repeat constructor).
  destruct (_ || rc_IsBatch p); [done|]. destruct (_ || _ || _); [done|].
  eapply returns_seq; [by apply requestBlockHash_returns|]. intros [[h|] p'] Hp; [|done].
  split_and!; [done|done|].
  by exists [ArchiveHashCacheEvent (ChainId p') "add"].
Qed.

(** ** The attempts of one request *)

(** A first attempt, then possibly one on an archive node (only if the first
    node was not one), then possibly one on a native node at the root path. *)
Definition first_ok (c : string) (a : Attempt) : Prop :=
  at_node a ∈ archives c ∨ at_node a ∈ states c.
Definition archive_ok (c : string) (a : Attempt) : Prop := at_node a ∈ archives c.
Definition native_ok (c : string) (a : Attempt) : Prop :=
  at_node a ∈ natives c ∧ at_path a = "/".

Record attempts_ok (c : string) (atts : list Attempt) (t : Z) : Prop := {
  at_shape : ∃ f a n, atts = f ++ a ++ n ∧ (length f ≤ 1)%nat ∧ (length a ≤ 1)%nat ∧
    (length n ≤ 1)%nat ∧ Forall (first_ok c) f ∧ Forall (archive_ok c) a ∧ Forall (native_ok c) n ∧
    (a ≠ [] → Forall (λ x, NodeType (at_node x) ≠ NodeTypeArchive) f) ∧ (f = [] → a ++ n = []);
  at_timeouts : Forall (λ x, at_timeout x = Some t) atts }.

(** The native retry makes at most one attempt. *)
Lemma retryNative_returns c p sv codes :
  ctx_ok p →
  returns (retryNative Int63n proxyServe lb c p sv codes) (λ '(_, p', sv'),
    kept p p' ∧ world_extends (sv_World sv) (sv_World sv') ∧
    ∃ n, sv_Log sv' = sv_Log sv ++ n ∧ (length n ≤ 1)%nat ∧ Forall (native_ok (ChainId p)) n ∧
         Forall (λ x, at_timeout x = Some (upstreamReadTimeout lb (Method p))) n).
Proof.
  intros Hok. unfold retryNative. pose proof (world_extends_refl (sv_World sv)).
  destruct (shouldRetryWithNative p codes).
  2: { simpl. split_and!; [reflexivity|done|]. exists []. rewrite (right_id_L [] (++)).
       split_and!; [done|simpl; lia|constructor|constructor]. }
  unfold resetResponse. set (p1 := (ResetResponseErrorKey p) <| Native := true |>).
  assert (kept p p1) as Hk1 by (by constructor).
  eapply returns_seq; [apply chooseTargetNode_returns; by apply (ctx_ok_kept p)|].
  intros [[n|] p2] [(Hk2 & _ & Hn2) Hf].
  - eapply returns_mono; [apply attemptRequest_returns; by eapply from_pool_proxy|].
    intros [[c3 p3] sv3] ((Hk3 & _ & _) & _ & Hw & _ & Hl). rewrite Hw.
    split_and!; [etrans; [exact Hk1|]; by etrans|done|]. eexists. split; [exact Hl|].
    split_and!; [simpl; lia| |].
    + apply Forall_singleton. split; [exact Hf|]. unfold at_path, sent_request. simpl. by rewrite Hn2.
    + apply Forall_singleton. unfold at_timeout. simpl. do 2 f_equal. rewrite (k_method _ _ Hk2). apply (k_method _ _ Hk1).
  - unfold writeNoBackend. simpl. split_and!; [etrans; [exact Hk1|]; etrans; [exact Hk2|by constructor]|done|].
    exists []. rewrite (right_id_L [] (++)). split_and!; [done|simpl; lia|constructor|constructor].
Qed.

Lemma retryArchive_returns c p sv codes :
  ctx_ok p →
  returns (retryArchive Int63n proxyServe lb c p sv codes) (λ r,
    match r with
    | inl (_, p', sv') =>
        kept p p' ∧ world_extends (sv_World sv) (sv_World sv') ∧ sv_Log sv' = sv_Log sv
    | inr (_, p', sv', _) =>
        kept p p' ∧ world_extends (sv_World sv) (sv_World sv') ∧
        ∃ a, sv_Log sv' = sv_Log sv ++ a ∧ (length a ≤ 1)%nat ∧ Forall (archive_ok (ChainId p)) a ∧
             Forall (λ x, at_timeout x = Some (upstreamReadTimeout lb (Method p))) a ∧
             (a ≠ [] → Archive p = false)
    end).
Proof.
  intros Hok. unfold retryArchive. pose proof (world_extends_refl (sv_World sv)).
  destruct (shouldRetryWithArchive p codes) eqn:Er.
  2: { simpl. split_and!; [reflexivity|done|]. exists []. rewrite (right_id_L [] (++)).
       split_and!; [done|simpl; lia|constructor|constructor|done]. }
  assert (Archive p = false) as Ha by (unfold shouldRetryWithArchive in Er; by destruct (Archive p)).
  unfold resetResponse. set (p1 := (ResetResponseErrorKey p) <| Archive := true |>).
  assert (kept p p1) as Hk1 by (by constructor).
  assert (ctx_ok p1) as Hok1 by (by apply (ctx_ok_kept p)).
  eapply returns_seq; [by apply chooseTargetNode_returns|].
  intros [[n|] p2] [(Hk2 & _ & _) Hf].
  2: { unfold writeNoBackend. simpl.
       split_and!; [etrans; [exact Hk1|]; etrans; [exact Hk2|by constructor]|done|done]. }
  eapply returns_seq; [apply attemptRequest_returns; by eapply from_pool_proxy|].
  intros [[c3 p3] sv3] ((Hk3 & _ & _) & _ & Hw & _ & Hl).
  eapply returns_seq; [apply parseRPCErrorCodes_returns|]. intros [codes4 p4] (Hk4 & _ & _).
  assert (kept p p4) as Hk by (etrans; [exact Hk1|]; etrans; [exact Hk2|]; by etrans).
  eapply returns_seq; [apply rememberArchiveHash_returns; by apply (ctx_ok_kept p)|].
  intros [p5 sv5] ((Hk5 & _ & _) & Hl5 & Hw5). simpl. rewrite Hw in Hw5.
  split_and!; [by etrans|done|]. eexists. rewrite Hl5. split; [exact Hl|].
  split_and!; [simpl; lia| |apply Forall_singleton; unfold at_timeout; simpl|done].
  - apply Forall_singleton. exact Hf.
  - do 2 f_equal. rewrite (k_method _ _ Hk2). apply (k_method _ _ Hk1).
Qed.

Lemma chooseFirst_returns p sv :
  ctx_ok p →
  returns (chooseFirst Int63n lb p sv) (λ '(n, p', sv'),
    kept p p' ∧ Native p' = Native p ∧ sv_Log sv' = sv_Log sv ∧
    world_extends (sv_World sv) (sv_World sv') ∧
    match n with Some n => n ∈ archives (ChainId p) ∨ n ∈ states (ChainId p) | None => True end).
Proof.
  intros Hok. unfold chooseFirst. eapply returns_seq; [by apply routeCachedArchiveHash_returns|].
  intros [[cached p1] sv1] (Hk1 & Hn1 & _ & _ & _ & Hl1 & Hw1).
  assert (∀ q n, kept p q → from_pool q "" n → n ∈ archives (ChainId p) ∨ n ∈ states (ChainId p)) as Hfp.
  { intros q n Hq Hf. unfold from_pool in Hf. simpl in Hf. rewrite (k_chain _ _ Hq) in Hf.
    case_match; tauto. }
  eapply returns_seq; [apply chooseTargetNode_returns; by apply (ctx_ok_kept p)|].
  intros [[n|] p2] [(Hk2 & _ & Hn2) Hf].
  { simpl. split_and!; [by etrans|congruence|done|done|by eapply Hfp]. }
  assert (kept p p2) as Hk by (by etrans).
  destruct cached; [|simpl; split_and!; [done|congruence|done|done|done]].
  assert (kept p (p2 <| Archive := false |>)) as Hk' by (etrans; [exact Hk|by constructor]).
  eapply returns_seq; [apply chooseTargetNode_returns; by apply (ctx_ok_kept p)|].
  intros [n p3] [(Hk3 & _ & Hn3) Hf3]. simpl.
  split_and!; [by etrans|simpl in Hn3; congruence|done|done|].
  destruct n as [n|]; [by eapply Hfp|done].
Qed.

Lemma serveUpstream_returns c p sv :
  ctx_ok p →
  returns (serveUpstream Int63n proxyServe lb c p sv) (λ '(_, p', sv'),
    kept p p' ∧ world_extends (sv_World sv) (sv_World sv') ∧
    ∃ atts, sv_Log sv' = sv_Log sv ++ atts ∧
            attempts_ok (ChainId p) atts (upstreamReadTimeout lb (Method p))).
Proof.
  intros Hok. unfold serveUpstream.
  assert (kept p (p <| UpstreamRelated := true |>)) as Hk0 by (by constructor).
  eapply returns_seq; [apply chooseFirst_returns; by apply (ctx_ok_kept p)|].
  intros [[[n|] p1] sv1] (Hk1 & _ & Hl1 & Hw1 & Hn).
  2: { unfold writeNoBackend. simpl. split_and!; [etrans; [exact Hk0|]; etrans; [exact Hk1|by constructor]|done|].
       exists []. rewrite (right_id_L [] (++)). split; [done|]. split; [|constructor].
       exists [], [], []. split_and!; try done; try constructor; simpl; lia. }
  set (p2 := if _ =? _ then _ else _).
  assert (kept p1 p2 ∧ (Archive p2 = false → NodeType n ≠ NodeTypeArchive)) as [Hk2 Ha2].
  { unfold p2. destruct (NodeType n =? NodeTypeArchive) eqn:E; b2p; split; by try constructor. }
  assert (kept p p2) as Hkp2 by (etrans; [exact Hk0|]; by etrans).
  eapply returns_seq; [apply attemptRequest_returns; apply (ok_proxies Hlb (ChainId p)); tauto|].
  intros [[c3 p3] sv3] ((Hk3 & Ha3 & _) & _ & Hw3 & _ & Hl3).
  eapply returns_seq; [apply parseRPCErrorCodes_returns|]. intros [codes4 p4] (Hk4 & Ha4 & _).
  assert (kept p p4) as Hkp4 by (etrans; [exact Hkp2|]; by etrans).
  eapply returns_seq; [apply retryArchive_returns; by apply (ctx_ok_kept p)|].
  set (f := mkAttempt n _) in Hl3.
  assert (first_ok (ChainId p) f ∧ at_timeout f = Some (upstreamReadTimeout lb (Method p))) as [Hf1 Hf2].
  { split; [exact Hn|]. unfold f, at_timeout. simpl. by rewrite (k_method _ _ Hkp2). }
  intros [[[c5 p5] sv5]|[[[c5 p5] sv5] codes5]].
  - intros (Hk5 & Hw5 & Hl5). split_and!; [by etrans|rewrite Hw3 in Hw5; by eapply world_extends_trans|].
    exists [f]. rewrite Hl5, Hl3, Hl1. split; [done|]. split; [|by constructor].
    exists [f], [], []. split_and!; try done; try (simpl; lia); by constructor.
  - intros (Hk5 & Hw5 & a & Hl5 & Hla & Hfa & Hta & Hne).
    assert (kept p p5) as Hkp5 by (by etrans).
    eapply returns_mono; [apply retryNative_returns; by apply (ctx_ok_kept p)|].
    intros [[c6 p6] sv6] (Hk6 & Hw6 & n6 & Hl6 & Hln & Hfn & Htn).
    rewrite (k_chain _ _ Hkp4), (k_method _ _ Hkp4) in *.
    rewrite (k_chain _ _ Hkp5), (k_method _ _ Hkp5) in *.
    split_and!; [by etrans|rewrite Hw3 in Hw5; eapply world_extends_trans; [exact Hw1|];
                           by eapply world_extends_trans|].
    exists ([f] ++ a ++ n6). rewrite Hl6, Hl5, Hl3, Hl1, <- !(assoc_L (++)). split; [done|].
    split; [|apply Forall_app; split; [by constructor|apply Forall_app; done]].
    exists [f], a, n6. split_and!; try done; try (by constructor).
    intros Hna. constructor; [|done]. unfold f. simpl. apply Ha2. rewrite <- Ha3, <- Ha4. by apply Hne.
Qed.

(** ** The cached filter result is never stale *)

Lemma chooseTargetNode_key p sv key :
  ensures (chooseTargetNode Int63n lb p sv key) (λ '(_, p'), same_key p p').
Proof.
  unfold chooseTargetNode. rewrite GetNode_pick.
  set (m := if consults _ _ _ _ then _ else _).
  assert (ensures m (λ '(_, p'), same_key p p')) as Hm.
  { unfold m. destruct (consults _ _ _ _); [|done].
    eapply ensures_mono; [apply GetBlockContext_ensures|]. intros [bc p'] (_ & Hk & _). exact Hk. }
  destruct m as [[bc p']| |]; [|done|done]. cbn [go_bind ensures] in *.
  destruct (selectNode _ _ _ _) as [[e|n]| |]; done.
Qed.

Lemma attemptRequest_key c p sv n :
  ensures (attemptRequest proxyServe lb c p sv n) (λ '(_, p', _), responseErrorKeyKnown p' = false).
Proof.
  unfold attemptRequest, proxyRequest. destruct (ReverseProxy n); [|done]. set (c1 := proxyServe _ _ _).
  destruct (hz_Status c1 =? StatusGatewayTimeout); [done|].
  by destruct (hz_Status c1 =? StatusBadGateway).
Qed.

(** Parsing the error codes caches the filter result of this very body. *)
Lemma parseRPCErrorCodes_key body p :
  responseErrorKeyKnown p = false →
  ensures (parseRPCErrorCodes body p) (λ '(_, p'), error_key_for p' body).
Proof.
  intros Hk. unfold parseRPCErrorCodes.
  assert (error_key_for p body) as Hp by (unfold error_key_for; congruence).
  destruct (bool_decide _); [done|].
  destruct (CachedResponseContainsErrorKey_ok p (TrimSpace body)) as (b & p' & -> & _ & He & _).
  { unfold error_key_for. congruence. }
  assert (error_key_for p' body) as Hp'.
  { unfold error_key_for in *. by rewrite ContainsErrorKey_TrimSpace in He. }
  cbn [go_bind]. destruct (negb b); [done|]. destruct (at_ _ _); [|done|done]. cbn [go_bind].
  destruct (is_ _ _); [destruct (UnmarshalCodes _)|destruct (UnmarshalCode _)]; done.
Qed.

Lemma requestBlockHash_key p :
  ensures (requestBlockHash p) (λ '(_, p'), same_key p p').
Proof.
  unfold requestBlockHash. eapply ensures_seq; [apply GetBlockContext_ensures|].
  intros [bc p'] (_ & Hk & _). exact Hk.
Qed.

Lemma routeCachedArchiveHash_key p sv :
  ensures (routeCachedArchiveHash p sv) (λ '(_, p', _), same_key p p').
Proof.
  unfold routeCachedArchiveHash. destruct (_ || _ || _); [done|]. destruct (negb _); [done|].
  eapply ensures_seq; [apply requestBlockHash_key|]. intros [[h|] p'] Hk; [|done].
  by destruct (negb _).
Qed.

Lemma rememberArchiveHash_key c p sv codes :
  ensures (rememberArchiveHash c p sv codes) (λ '(p', _), same_key p p').
Proof.
  unfold rememberArchiveHash. destruct (_ || _); [done|]. destruct (_ || _ || _); [done|].
  eapply ensures_seq; [apply requestBlockHash_key|]. by intros [[h|] p'] Hk.
Qed.

Definition key_fresh (c : Hertz) (p : RequestContext) : Prop := error_key_for p (hz_Body c).

Lemma key_unknown_fresh c p : responseErrorKeyKnown p = false → key_fresh c p.
Proof. unfold key_fresh, error_key_for. congruence. Qed.

Lemma retryArchive_key c p sv codes :
  key_fresh c p →
  ensures (retryArchive Int63n proxyServe lb c p sv codes) (λ r,
    match r with inl (c', p', _) => key_fresh c' p' | inr (c', p', _, _) => key_fresh c' p' end).
Proof.
  intros Hf. unfold retryArchive. destruct (shouldRetryWithArchive p codes); [|exact Hf].
  cbn [resetResponse]. eapply ensures_seq; [apply chooseTargetNode_key|].
  intros [[n|] p1] [Hk1 _]; [|simpl; by apply key_unknown_fresh].
  eapply ensures_seq; [apply attemptRequest_key|]. intros [[c2 p2] sv2] Hk2.
  eapply ensures_seq; [by apply parseRPCErrorCodes_key|]. intros [codes3 p3] Hk3.
  eapply ensures_seq; [apply rememberArchiveHash_key|]. intros [p4 sv4] [Hk4 Hk4'].
  simpl. unfold key_fresh, error_key_for. by rewrite Hk4, Hk4'.
Qed.

Lemma retryNative_key c p sv codes :
  key_fresh c p →
  ensures (retryNative Int63n proxyServe lb c p sv codes) (λ '(c', p', _), key_fresh c' p').
Proof.
  intros Hf. unfold retryNative. destruct (shouldRetryWithNative p codes); [|exact Hf].
  cbn [resetResponse]. eapply ensures_seq; [apply chooseTargetNode_key|].
  intros [[n|] p1] [Hk1 _]; [|simpl; by apply key_unknown_fresh].
  eapply ensures_mono; [apply attemptRequest_key|]. intros [[c2 p2] sv2] Hk2. by apply key_unknown_fresh.
Qed.

Lemma chooseFirst_key p sv :
  ensures (chooseFirst Int63n lb p sv) (λ '(_, p', _), same_key p p').
Proof.
  unfold chooseFirst. eapply ensures_seq; [apply routeCachedArchiveHash_key|].
  intros [[cached p1] sv1] [K1 K1']. eapply ensures_seq; [apply chooseTargetNode_key|].
  intros [[n|] p2] [K2 K2']; [split; congruence|]. destruct cached; [|split; congruence].
  eapply ensures_seq; [apply chooseTargetNode_key|]. intros [n p3] [K3 K3']. simpl in *.
  split; congruence.
Qed.

Lemma serveUpstream_key c p sv :
  responseErrorKeyKnown p = false →
  ensures (serveUpstream Int63n proxyServe lb c p sv) (λ '(c', p', _), key_fresh c' p').
Proof.
  intros Hp. unfold serveUpstream. eapply ensures_seq; [apply chooseFirst_key|].
  intros [[[n|] p1] sv1] [K1 _]; simpl in K1; [|simpl; apply key_unknown_fresh; simpl; congruence].
  eapply ensures_seq; [apply attemptRequest_key|]. intros [[c2 p2] sv2] K2.
  eapply ensures_seq; [by apply parseRPCErrorCodes_key|]. intros [codes3 p3] K3.
  eapply ensures_seq; [by apply retryArchive_key|]. intros [[[c4 p4] sv4]|[[[c4 p4] sv4] codes4]] K4.
  - exact K4.
  - by apply retryNative_key.
Qed.

(** ** What enters the archive hash cache *)

(** The request's parameters pin it to the block of hash [h]. *)
Definition pins (fn : option (go (option BlockContext))) (h : Hash) : Prop :=
  ∃ bc, fn = Some (Ret (Some bc)) ∧ Type_ bc = "Equals" ∧ (id ← BlockId bc; BlockHash id) = Some h.

(** Some attempt of [log] was answered by an archive node of the chain with status 200
    and without the errors that mean the block is not there. *)
Definition archive_answered (c : string) (log : list Attempt) : Prop :=
  ∃ i a ref answer codes p p',
    log !! i = Some a ∧ at_node a ∈ archives c ∧ ReverseProxy (at_node a) = Some ref ∧
    answer = proxyServe i ref (at_request a) ∧ hz_Status answer = StatusOK ∧
    responseErrorKeyKnown p = false ∧ parseRPCErrorCodes (hz_Body answer) p = Ret (codes, p') ∧
    StateBlockNotFound ∉ codes ∧ InvalidBlockID ∉ codes.

Lemma archive_answered_app c log more :
  archive_answered c log → archive_answered c (log ++ more).
Proof.
  intros (i & a & ref & answer & codes & p & p' & Hi & Hrest).
  exists i, a, ref, answer, codes, p, p'. split; [by apply lookup_app_l_Some|done].
Qed.

Lemma requestBlockHash_pins p :
  ensures (requestBlockHash p) (λ '(h, p'),
    kept p p' ∧ (ctx_src p → ∀ x, h = Some x → pins (blockContextFn p) x)).
Proof.
  unfold requestBlockHash. eapply ensures_seq; [apply GetBlockContext_ensures|].
  intros [[bc|] p'] ((Hk & _ & _) & _ & Hs); simpl; (split; [done|]); [|done].
  intros Hsrc x. case_bool_decide; [|done]. intros Hx. exists bc. by rewrite (Hs Hsrc bc).
Qed.

Lemma Cache_Contains_Add `{!OtterLaws} (ca : archiveHashCache) k h k' h' :
  Cache_Contains (Add ca k h) k' h' = true →
  (k' = k ∧ h' = h) ∨ Cache_Contains ca k' h' = true.
Proof.
  destruct ca as [ca|]; [|done]. unfold Cache_Contains, chain. simpl.
  destruct (decide (k = k')) as [<-|Hne]; [|rewrite lookup_insert_ne by done; by right].
  rewrite lookup_insert_eq. intros [->|Hc]%Cache_Set_only; [by left|].
  destruct (ac_chains ca !! k); [by right|]. simpl in Hc. by rewrite NewCache_empty in Hc.
Qed.

(** Every entry of [new] is one of [old] or satisfies [P]. *)
Definition cache_within (old new : archiveHashCache) (P : string → Hash → Prop) : Prop :=
  ∀ k h, Cache_Contains new k h = true → Cache_Contains old k h = true ∨ P k h.

Lemma cache_within_refl ca P : cache_within ca ca P.
Proof. intros k h. by left. Qed.

Lemma cache_within_mono old new (P Q : string → Hash → Prop) :
  cache_within old new P → (∀ k h, P k h → Q k h) → cache_within old new Q.
Proof. intros Hc HPQ k h [|]%Hc; auto. Qed.

Definition remembered (p : RequestContext) (k : string) (h : Hash) : Prop :=
  k = ChainId p ∧ rc_IsBatch p = false ∧ pins (blockContextFn p) h.

Lemma remembered_kept p p' k h : kept p p' → remembered p' k h → remembered p k h.
Proof. intros [_ _ Hb Hc _ Hf]. unfold remembered. by rewrite Hb, Hc, Hf. Qed.

Lemma rememberArchiveHash_within `{!OtterLaws} c p sv codes :
  ctx_src p →
  ensures (rememberArchiveHash c p sv codes) (λ '(_, sv'),
    cache_within (sv_Cache sv) (sv_Cache sv') (λ k h, remembered p k h ∧
      hz_Status c = StatusOK ∧ StateBlockNotFound ∉ codes ∧ InvalidBlockID ∉ codes)).
Proof.
  intros Hsrc. unfold rememberArchiveHash, Has.
  destruct (_ || rc_IsBatch p) eqn:E; [apply cache_within_refl|].
  destruct (_ || _ || _) eqn:E'; [apply cache_within_refl|]. b2p.
  eapply ensures_seq; [apply requestBlockHash_pins|].
  intros [[h|] p'] [Hk Hp]; [|apply cache_within_refl]. simpl.
  intros k' h' [[-> ->]|Hc]%Cache_Contains_Add; [right|by left].
  split_and!; [|done..]. split_and!; [by rewrite (k_chain _ _ Hk)|done|by apply Hp].
Qed.

(** The client of the request [p] is told the error [obj], under its own id. *)
Record told (p : RequestContext) (status : Z) (obj : ResponseObject) (c' : Hertz) : Prop := {
  told_status : hz_Status c' = status;
  told_type : hz_ContentType c' = JSONContentType;
  told_body : ∃ obj', hz_Body c' = MarshalResponse obj' ∧
    rs_Error obj' = rs_Error obj ∧ rs_Result obj' = None ∧
    (∀ r id, RequestBody p = [Some r] → ro_ID r = Some id → rs_ID obj' = Some id) }.

(** The client gets the node's answer [up] as it is, unless it is one of the two gateway
    errors, which the proxy words itself. *)
Record answered (p : RequestContext) (up c' : Hertz) : Prop := {
  answered_as_is : hz_Status up ≠ StatusGatewayTimeout → hz_Status up ≠ StatusBadGateway → c' = up;
  answered_timeout : hz_Status up = StatusGatewayTimeout →
    told p StatusGatewayTimeout (GatewayTimeout (ErrText "reverse proxy gateway timeout")).1 c';
  answered_bad : hz_Status up = StatusBadGateway →
    told p StatusBadGateway (BadGateway (ErrText "reverse proxy bad gateway")).1 c' }.

Lemma told_written p q status obj c :
  RequestBody q = RequestBody p → rs_Result obj = None → told p status obj (WriteError q c status obj).
Proof.
  intros Hb Hr. split; [done..|]. exists (response_with_id q obj). unfold response_with_id.
  split_and!; [done|..].
  - by destruct (RequestBody q) as [|[r|] [|]]; try destruct (ro_ID r).
  - by destruct (RequestBody q) as [|[r|] [|]]; try destruct (ro_ID r).
  - intros r id Hp Hid. by rewrite Hb, Hp, Hid.
Qed.

Lemma attemptRequest_answer c p sv n :
  ensures (attemptRequest proxyServe lb c p sv n) (λ '(c', _, sv'),
    ∃ ref a, ReverseProxy n = Some ref ∧ sv_Log sv' = sv_Log sv ++ [a] ∧ at_node a = n ∧
      sv_Cache sv' = sv_Cache sv ∧
      answered p (proxyServe (length (sv_Log sv)) ref (at_request a)) c').
Proof.
  unfold attemptRequest, proxyRequest. destruct (ReverseProxy n) as [ref|]; [|done].
  set (req := _ <| hz_ReadTimeout := _ |>). set (c1 := proxyServe _ _ _).
  destruct (hz_Status c1 =? StatusGatewayTimeout) eqn:E1; b2p.
  { exists ref, (mkAttempt n req). split_and!; [done..|]. cbn [at_request]; fold c1.
    split; [done| |intros Hb; unfold StatusGatewayTimeout, StatusBadGateway in *; lia].
    intros _. by apply (told_written p (ResetResponseErrorKey p)). }
  destruct (hz_Status c1 =? StatusBadGateway) eqn:E2; b2p;
    exists ref, (mkAttempt n req); (split_and!; [done..|]); cbn [at_request]; fold c1.
  - split; [done|done|]. intros _. by apply (told_written p (ResetResponseErrorKey p)).
  - by split.
Qed.

Lemma told_kept p q status obj c' : kept p q → told q status obj c' → told p status obj c'.
Proof. intros Hk [? ? Hb]. rewrite (k_body _ _ Hk) in Hb. by split. Qed.

Lemma answered_kept p q up c' : kept p q → answered q up c' → answered p up c'.
Proof. intros Hk []. split; [done|intros; eapply told_kept; eauto..]. Qed.

(** A status of 200 is the node's own. *)
Lemma answered_ok p up c' : answered p up c' → hz_Status c' = StatusOK → c' = up.
Proof.
  intros [Ha Ht Hb] Hs. apply Ha; intros E; [destruct (Ht E) as [E' _ _]|destruct (Hb E) as [E' _ _]];
    rewrite Hs in E'; discriminate E'.
Qed.

Lemma retryArchive_within `{!OtterLaws} c p sv codes :
  ctx_ok p → ctx_src p →
  ensures (retryArchive Int63n proxyServe lb c p sv codes) (λ r,
    match r with
    | inl (_, _, sv') => sv_Cache sv' = sv_Cache sv
    | inr (_, _, sv', _) =>
        cache_within (sv_Cache sv) (sv_Cache sv') (λ k h,
          remembered p k h ∧ archive_answered (ChainId p) (sv_Log sv'))
    end).
Proof.
  intros Hok Hsrc. unfold retryArchive.
  destruct (shouldRetryWithArchive p codes); [|apply cache_within_refl].
  unfold resetResponse. set (p1 := (ResetResponseErrorKey p) <| Archive := true |>).
  assert (kept p p1) as Hk1 by (by constructor).
  eapply ensures_seq.
  { apply returns_ensures_self, chooseTargetNode_returns. by apply (ctx_ok_kept p). }
  intros [[n|] p2] [(Hk2 & _ & _) Hf]; [|done].
  eapply ensures_seq.
  { apply ensures_both; [apply attemptRequest_returns; by eapply from_pool_proxy|
      apply attemptRequest_answer]. }
  intros [[c3 p3] sv3] [((Hk3 & _ & _) & Hkey & _) (ref & a & Href & Hl & Ha & Hc3 & Hans)].
  destruct (parseRPCErrorCodes (hz_Body c3) p3) as [[codes4 p4]| |] eqn:Ep; [|done|done].
  pose proof (parseRPCErrorCodes_returns (hz_Body c3) p3) as Hp4. rewrite Ep in Hp4.
  destruct Hp4 as (Hk4 & _ & _). cbn [go_bind].
  assert (kept p p4) as Hk by (etrans; [exact Hk1|]; etrans; [exact Hk2|]; by etrans).
  assert (ctx_ok p4) as Hok4 by (by apply (ctx_ok_kept p)).
  eapply ensures_seq.
  { apply ensures_both; [by apply rememberArchiveHash_returns|
      apply rememberArchiveHash_within, (k_src _ _ Hk Hsrc)]. }
  intros [p5 sv5] [(_ & Hl5 & _) Hw]. simpl. rewrite Hc3 in Hw.
  eapply cache_within_mono; [exact Hw|]. intros k h (Hr & Hs & Hn1 & Hn2).
  split; [by eapply remembered_kept|].
  exists (length (sv_Log sv)), a, ref, c3, codes4, p3, p4. rewrite Hl5, Hl, Ha.
  split_and!; try done; [by apply list_lookup_middle|by eapply answered_ok].
Qed.

Lemma retryNative_cache c p sv codes :
  ensures (retryNative Int63n proxyServe lb c p sv codes) (λ '(_, _, sv'), sv_Cache sv' = sv_Cache sv).
Proof.
  unfold retryNative. destruct (shouldRetryWithNative p codes); [|done]. unfold resetResponse.
  eapply ensures_seq; [apply ensures_True|]. intros [[n|] p1] _; [|done].
  eapply ensures_mono; [apply attemptRequest_answer|].
  by intros [[c2 p2] sv2] (? & ? & _ & _ & _ & Hc & _).
Qed.

Lemma chooseFirst_cache p sv :
  ctx_ok p → ensures (chooseFirst Int63n lb p sv) (λ '(_, _, sv'), sv_Cache sv' = sv_Cache sv).
Proof.
  intros Hok. unfold chooseFirst.
  eapply ensures_seq; [by apply returns_ensures_self, routeCachedArchiveHash_returns|].
  intros [[cached p1] sv1] (_ & _ & _ & _ & Hc & _ & _).
  eapply ensures_seq; [apply ensures_True|]. intros [[n|] p2] _; [done|].
  destruct cached; [|done]. eapply ensures_seq; [apply ensures_True|]. by intros [n p3] _.
Qed.

Lemma serveUpstream_within `{!OtterLaws} c p sv :
  ctx_ok p → ctx_src p →
  ensures (serveUpstream Int63n proxyServe lb c p sv) (λ '(_, _, sv'),
    cache_within (sv_Cache sv) (sv_Cache sv') (λ k h,
      remembered p k h ∧ archive_answered (ChainId p) (sv_Log sv'))).
Proof.
  intros Hok Hsrc. unfold serveUpstream. set (p0 := p <| UpstreamRelated := true |>).
  assert (kept p p0) as Hk0 by (by constructor).
  assert (ctx_ok p0) as Hok0 by (by apply (ctx_ok_kept p)).
  eapply ensures_seq.
  { apply ensures_both; [by apply chooseFirst_returns|by apply chooseFirst_cache]. }
  intros [[[n|] p1] sv1] [(Hk1 & _ & _ & _ & Hn) Hc1]; [|simpl; rewrite Hc1; apply cache_within_refl].
  set (p2 := if _ =? _ then _ else _).
  assert (kept p1 p2) as Hk2 by (unfold p2; destruct (_ =? _); by try constructor).
  eapply ensures_seq.
  { apply ensures_both; [apply attemptRequest_returns; apply (ok_proxies Hlb (ChainId p)); simpl in Hn; tauto|
       apply attemptRequest_answer]. }
  intros [[c3 p3] sv3] [((Hk3 & _ & _) & _) (? & ? & _ & _ & _ & Hc3 & _)].
  eapply ensures_seq; [apply returns_ensures_self, parseRPCErrorCodes_returns|].
  intros [codes4 p4] (Hk4 & _ & _).
  assert (kept p p4) as Hk by (etrans; [exact Hk0|]; etrans; [exact Hk1|]; etrans; [exact Hk2|]; by etrans).
  eapply ensures_seq.
  { apply ensures_both; [apply retryArchive_returns; by apply (ctx_ok_kept p)|
      apply retryArchive_within; [by apply (ctx_ok_kept p)|by apply (k_src _ _ Hk)]]. }
  rewrite Hc3, Hc1.
  intros [[[c5 p5] sv5]|[[[c5 p5] sv5] codes5]] [HP HQ].
  - simpl. rewrite HQ. apply cache_within_refl.
  - destruct HP as (Hk5 & _).
    eapply returns_ensures_self, returns_ensures; [apply retryNative_returns; by apply (ctx_ok_kept p4), (ctx_ok_kept p)|
      apply retryNative_cache|].
    intros [[c6 p6] sv6] (_ & _ & more & Hl & _) Hc6. rewrite Hc6.
    eapply cache_within_mono; [exact HQ|]. intros k h [Hr Ha]. rewrite (k_chain _ _ Hk) in Ha.
    split; [by eapply remembered_kept|]. rewrite Hl. by apply archive_answered_app.
Qed.

(** ** The whole handler *)

Lemma anyDenied_returns d reqs : Forall is_Some reqs → returns (anyDenied d reqs) (λ _, True).
Proof. induction 1 as [|r reqs [x ->] _ IH]; [done|]. simpl. by case_bool_decide. Qed.

Lemma mirrorAll_metrics now c m b urls w : w_metrics (mirrorAll now c m b urls w) = w_metrics w.
Proof.
  revert w. induction urls as [|u urls IH]; intros w; [done|]. simpl.
  destruct (Allow _ _ _ _) as [[] ml]; by rewrite IH.
Qed.

Definition pre_kept (s s' : @PState World) : Prop :=
  kept s.1.2 s'.1.2 ∧ world_extends s.2 s'.2.

Lemma pre_kept_trans s1 s2 s3 : pre_kept s1 s2 → pre_kept s2 s3 → pre_kept s1 s3.
Proof. intros [K W] [K' W']. split; [by etrans|by eapply world_extends_trans]. Qed.

(** A processor of the chain, on a request without nil items. *)
Definition processor_ok (f : @ProcessorFunc World) : Prop :=
  match f with
  | None => True
  | Some f => ∀ s, Forall is_Some (RequestBody s.1.2) → returns (f s) (pre_kept s)
  end.

Lemma PreProcessors_returns fs s :
  Forall processor_ok fs → Forall is_Some (RequestBody s.1.2) →
  returns (PreProcessors_Call fs s) (pre_kept s).
Proof.
  intros Hfs. revert s. induction Hfs as [|f fs Hf _ IH]; intros s Hs.
  { simpl. split; [reflexivity|apply world_extends_refl]. }
  cbn [PreProcessors_Call].
  eapply (returns_seq _ _ (pre_kept s)).
  - destruct f as [f|]; [by apply Hf|]. simpl. split; [reflexivity|apply world_extends_refl].
  - intros [[c p] w] Hk. case_bool_decide; [done|].
    eapply returns_mono; [apply IH|].
    + destruct Hk as [Hk _]. simpl in *. by rewrite (k_body _ _ Hk).
    + intros s'. by apply pre_kept_trans.
Qed.

Lemma pre_processors_ok :
  Forall processor_ok (GetPreProcessorHertz MarshalGetBlockByHeight (b_Config lb) (b_Heights lb)
                         (b_Mirrors lb) (b_Now lb)).
Proof.
  repeat constructor; simpl.
  - intros [[c p] w] Hs. eapply returns_seq; [by apply anyDenied_returns|]. intros [] _; simpl;
      (split; [by constructor|apply world_extends_refl]).
  - intros [[c p] w] _. simpl. split; [reflexivity|]. by eexists [_].
  - intros [[c p] w] Hs. simpl in Hs. case_bool_decide;
      [simpl; split; [reflexivity|apply world_extends_refl]|].
    destruct (GetHeight _ _) as [h|]; [|simpl; split; [by constructor|apply world_extends_refl]].
    eapply (returns_seq _ _ (λ _, True)).
    { destruct Hs as [|r rs [x ->] Hs]; [done|]. destruct Hs; done. }
    intros id _. destruct (MarshalGetBlockByHeight h id); simpl;
      (split; [by constructor|apply world_extends_refl]).
  - unfold requestMirrorHertz, processor_ok. destruct (negb _); [done|]. intros [[c p] w] _.
    destruct (bool_decide _); split; cbn [fst snd]; [reflexivity|apply world_extends_refl|reflexivity|].
    exists []. by rewrite mirrorAll_metrics, (right_id_L [] (++)).
Qed.

Lemma firstInvalid_None reqs : firstInvalid reqs = None → Forall is_Some reqs.
Proof.
  induction reqs as [|r reqs IH]; simpl; [done|]. destruct r as [r|]; simpl; [|done].
  destruct (bool_decide _); [done|]. destruct (bool_decide _); [done|]. intros. constructor; eauto.
Qed.

Lemma generateRequestContext_ok d c p :
  generateRequestContext d c = Ret p → rc_Error p = None →
  Forall is_Some (RequestBody p) ∧ ctx_ok p.
Proof.
  unfold generateRequestContext.
  destruct (ParseRequest _ _ _ _) as [[e|reqs]| |]; cbn [go_bind]; [by intros [= <-]| |done|done].
  assert (Forall is_Some reqs → returns (ParseBlockContext d reqs) (λ _, True)) as Hpb
    by apply ParseBlockContext_total.
  pose proof (firstInvalid_None reqs) as Hfi.
  intros Hp He. destruct (firstInvalid reqs) as [e|].
  - repeat case_match; simplify_eq/=.
  - specialize (Hfi eq_refl). simpl in Hp. destruct (bool_decide (1 < length reqs)%nat); simpl in Hp.
    + simplify_eq. split; [done|by apply Hpb].
    + destruct reqs as [|[r|] reqs]; simplify_eq/=. split; [done|by apply Hpb].
Qed.

Lemma generateRequestContext_unparsed d c p :
  generateRequestContext d c = Ret p → rc_BlockContext p = None.
Proof.
  unfold generateRequestContext.
  destruct (ParseRequest _ _ _ _) as [[e|reqs]| |]; cbn [go_bind]; [by intros [= <-]| |done|done].
  intros Hp. repeat case_match; by simplify_eq/=.
Qed.

Lemma generateRequestContext_fn d c p :
  generateRequestContext d c = Ret p → rc_Error p = None →
  blockContextFn p = Some (ParseBlockContext d (RequestBody p)).
Proof.
  unfold generateRequestContext.
  destruct (ParseRequest _ _ _ _) as [[e|reqs]| |]; cbn [go_bind]; [by intros [= <-]| |done|done].
  intros Hp _. repeat case_match; by simplify_eq/=.
Qed.

(** What a request leaves behind: its attempts and its metrics. *)
Definition served (c : string) (t : Z) (sv sv' : Serving) : Prop :=
  (∃ atts, sv_Log sv' = sv_Log sv ++ atts ∧ attempts_ok c atts t) ∧
  accounted (w_metrics (sv_World sv)) (w_metrics (sv_World sv')).

Lemma attempts_ok_nil c t : attempts_ok c [] t.
Proof.
  split; [|constructor]. exists [], [], []. split_and!; try done; try constructor; simpl; lia.
Qed.

Lemma attempts_ok_length c atts t : attempts_ok c atts t → (length atts ≤ 3)%nat.
Proof.
  intros [(f & a & n & -> & Hf & Ha & Hn & _) _]. rewrite !length_app. lia.
Qed.

Lemma accounted_extends w1 w2 w3 :
  world_extends w1 w2 → accounted (w_metrics w2) w3 → accounted (w_metrics w1) w3.
Proof.
  intros (a & Ha & Ha1 & Ha2) (b & -> & Hb1 & Hb2). exists (a ++ b).
  rewrite Ha, (assoc_L (++)), !count_app. split_and!; [done|lia|lia].
Qed.

(** The request as it is prepared for its chain. *)
Definition on_chain (p0 : RequestContext) (base uuid eff : string) : RequestContext :=
  p0 <| BaseChainId := base |> <| ChainUUID := uuid |> <| ChainId := eff |>.

Section Prepared.
Context (c : Hertz) (sv : Serving) (chainID : string) (p0 : RequestContext) (base uuid eff : string).
Context (Hgen : generateRequestContext (b_Debug lb) c = Ret p0) (Herr : rc_Error p0 = None).
Context (Heff : effectiveChain (b_Router lb) chainID = Some (base, uuid, eff)).

Abbreviation p1 := (on_chain p0 base uuid eff).

Lemma prepared_ok : Forall is_Some (RequestBody p0) ∧ ctx_ok p1 ∧ ctx_src p1 ∧
  blockContextFn p1 = Some (ParseBlockContext (b_Debug lb) (RequestBody p0)).
Proof.
  destruct (generateRequestContext_ok _ _ _ Hgen Herr) as [Hb Hok]. split_and!; [done|done|..].
  - intros bc. simpl. by rewrite (generateRequestContext_unparsed _ _ _ Hgen).
  - simpl. by apply (generateRequestContext_fn _ _ _ Hgen).
Qed.

(** The pre-processors run, then the upstream part unless they answered. *)
Lemma ServeHTTP_prepared :
  ∃ c2 p2 w2, kept p1 p2 ∧ world_extends (sv_World sv) w2 ∧
    ServeHTTP Int63n proxyServe lb c sv chainID =
    let! '(c3, p3, sv3) := (if bool_decide (hz_Body c2 ≠ "") then Ret (c2, p2, sv <| sv_World := w2 |>)
                            else serveUpstream Int63n proxyServe lb c2 p2 (sv <| sv_World := w2 |>)) in
    let! '(c4, p4, w4) := PostProcessors_Call
         (GetPostProcessorHertz UnmarshalRawResponse (b_Config lb) (b_Duration lb))
         (c3, p3, sv_World sv3) in
    Ret (c4, p4, sv3 <| sv_World := w4 |>).
Proof.
  destruct prepared_ok as (Hb & _).
  destruct (returns_inv _ _ (PreProcessors_returns _ (c, p1, sv_World sv) pre_processors_ok Hb))
    as ([[c2 p2] w2] & Hpre & [Hk Hw]).
  exists c2, p2, w2. split_and!; [exact Hk|exact Hw|].
  unfold ServeHTTP. rewrite Hgen. cbn [go_bind]. rewrite Herr, Heff.
  unfold on_chain in Hpre. by rewrite Hpre.
Qed.

Lemma ServeHTTP_served :
  returns (ServeHTTP Int63n proxyServe lb c sv chainID) (λ '(_, _, sv'),
    served eff (upstreamReadTimeout lb (Method p0)) sv sv').
Proof.
  destruct prepared_ok as (_ & Hok & _).
  destruct ServeHTTP_prepared as (c2 & p2 & w2 & Hk2 & Hw2 & ->).
  assert (ctx_ok p2) as Hok2 by (by apply (ctx_ok_kept p1)).
  eapply (returns_seq _ _ (λ '(c3, p3, sv3), world_extends (sv_World sv) (sv_World sv3) ∧
    ∃ atts, sv_Log sv3 = sv_Log sv ++ atts ∧
            attempts_ok eff atts (upstreamReadTimeout lb (Method p0)))).
  - case_bool_decide; simpl.
    + split; [done|]. exists []. rewrite (right_id_L [] (++)). split; [done|apply attempts_ok_nil].
    + eapply returns_mono; [by apply serveUpstream_returns|].
      intros [[c3 p3] sv3] (Hk3 & Hw3 & atts & Hl & Ha).
      rewrite (k_chain _ _ Hk2), (k_method _ _ Hk2) in Ha. simpl in Hl, Hw3, Ha.
      split; [by eapply world_extends_trans|eauto].
  - intros [[c3 p3] sv3] (Hw3 & atts & Hl & Ha).
    destruct (PostProcessors_accounted UnmarshalRawResponse (b_Config lb) (b_Duration lb) c3 p3 (sv_World sv3))
      as (p4 & w4 & -> & Hacc).
    cbn [go_bind returns]. split; [simpl; eauto|]. simpl. by eapply accounted_extends.
Qed.

Lemma ServeHTTP_within `{!OtterLaws} :
  ensures (ServeHTTP Int63n proxyServe lb c sv chainID) (λ '(_, _, sv'),
    cache_within (sv_Cache sv) (sv_Cache sv') (λ k h,
      remembered p1 k h ∧ archive_answered eff (sv_Log sv'))).
Proof.
  destruct prepared_ok as (_ & Hok & Hsrc & _).
  destruct ServeHTTP_prepared as (c2 & p2 & w2 & Hk2 & Hw2 & ->).
  eapply (ensures_seq _ _ (λ '(c3, p3, sv3), cache_within (sv_Cache sv) (sv_Cache sv3) (λ k h,
    remembered p1 k h ∧ archive_answered eff (sv_Log sv3)))).
  - case_bool_decide; simpl; [apply cache_within_refl|].
    eapply ensures_mono; [apply serveUpstream_within; [by apply (ctx_ok_kept p1)|by apply (k_src _ _ Hk2)]|].
    intros [[c3 p3] sv3] Hw. eapply cache_within_mono; [exact Hw|]. intros k h [Hr Ha].
    split; [by eapply remembered_kept|by rewrite (k_chain _ _ Hk2) in Ha].
  - intros [[c3 p3] sv3] Hw. destruct (PostProcessors_Call _ _) as [[[c4 p4] w4]| |]; done.
Qed.
End Prepared.
End ServeLemmas.

(** ** Retries that must happen *)

Section Retries.
Context `{GoEthereum} `{SonicParams} `{Sonic} `{Render} `{RateLimiter} `{OtterCache}.
Context (Int63n : nat → Z → Z) (lb : Balancer) (Hlb : lb_ok Int63n lb).
Context (proxyServe : nat → nat → Hertz → Hertz).

(** The client is told, with status 200 and under its own id, that no node could be chosen. *)
Definition no_backend (p : RequestContext) (msg : string) (c' : Hertz) (p' : RequestContext) : Prop :=
  told p StatusOK (BadGateway (ErrText msg)).1 c' ∧ rc_Error p' = Some (BadGateway (ErrText msg)).2 ∧
  ∃ obj', ResponseBody p' = Some obj' ∧ hz_Body c' = MarshalResponse obj' ∧
          rs_Error obj' = rs_Error (BadGateway (ErrText msg)).1.

Lemma writeNoBackend_no_backend c p q msg c' q' :
  kept p q → writeNoBackend c q msg = (c', q') → no_backend p msg c' q'.
Proof.
  intros Hk [= <- <-]. split; [apply (told_written p q); [by apply k_body|done]|]. split; [done|].
  eexists. split_and!; [reflexivity..|]. unfold response_with_id.
  by destruct (RequestBody q) as [|[r|] [|]]; try destruct (ro_ID r).
Qed.

(** The selector has no node to offer the request on the given route. *)
Definition none_to_choose (p : RequestContext) (sv : Serving) (archive : bool) (key : string) : Prop :=
  ∃ p1 p2, kept p p1 ∧ (archive = true → Archive p1 = true) ∧
           chooseTargetNode Int63n lb p1 sv key = Ret (None, p2).

(** One more attempt, [a], whose answer is what the client gets. *)
Definition one_more (p : RequestContext) (sv sv' : Serving) (c' : Hertz) (a : Attempt) : Prop :=
  sv_Log sv' = sv_Log sv ++ [a] ∧
  ∃ ref, ReverseProxy (at_node a) = Some ref ∧
    answered p (proxyServe (length (sv_Log sv)) ref (at_request a)) c'.


Lemma retryNative_retries c p sv codes :
  ctx_ok p → Native p = false → CosmosPrecompile ∈ codes →
  returns (retryNative Int63n proxyServe lb c p sv codes) (λ '(c', p', sv'),
    sv' = sv ∧ no_backend p "no native backends available" c' p' ∧ none_to_choose p sv false "native" ∨
    ∃ a, one_more p sv sv' c' a ∧ at_path a = "/" ∧
         at_node a ∈ pool (nativeNodes (b_Selector lb)) (ChainId p)).
Proof.
  intros Hok Hn Hin. unfold retryNative, shouldRetryWithNative, Has.
  rewrite Hn, bool_decide_eq_true_2 by done. unfold resetResponse.
  set (p1 := (ResetResponseErrorKey p) <| Native := true |>).
  assert (kept p p1) as Hk1 by (by constructor).
  destruct (returns_inv _ _ (chooseTargetNode_returns _ _ Hlb p1 sv "native" (ctx_ok_kept _ _ Hk1 Hok)))
    as ([[n|] p2] & Hc & (Hk2 & _ & Hn2) & Hf); rewrite Hc; cbn [go_bind].
  2: { left. split; [done|]. split; [eapply writeNoBackend_no_backend; [|reflexivity]; by etrans|].
       by exists p1, p2. }
  eapply returns_ensures; [apply attemptRequest_returns, (from_pool_proxy Int63n _ Hlb _ _ _ Hf)|
      apply attemptRequest_answer|].
  intros [[c3 p3] sv3] ((Hk3 & _ & _) & _ & _ & _ & Hl') (ref & a & Href & Hl & Han & _ & Hans).
  right. exists a. rewrite Hl' in Hl. apply app_inj_tail in Hl as [_ <-].
  split; [split; [exact Hl'|]; exists ref; split; [done|eapply answered_kept, Hans; by transitivity p1]|].
  split; [unfold at_path, sent_request; simpl; by rewrite Hn2|exact Hf].
Qed.

(** A choice depends on the serving state only through the number of attempts made. *)
Lemma chooseTargetNode_log p sv sv' key :
  sv_Log sv = sv_Log sv' → chooseTargetNode Int63n lb p sv key = chooseTargetNode Int63n lb p sv' key.
Proof. unfold chooseTargetNode. by intros ->. Qed.

Lemma chooseFirst_none p p0 sv p1 sv1 :
  ctx_ok p → kept p p0 → chooseFirst Int63n lb p0 sv = Ret (None, p1, sv1) → none_to_choose p sv false "".
Proof.
  intros Hok Hk0. unfold chooseFirst, none_to_choose.
  destruct (returns_inv _ _ (routeCachedArchiveHash_returns p0 sv (ctx_ok_kept _ _ Hk0 Hok)))
    as ([[cached q] sv2] & -> & Hk & _ & _ & _ & _ & Hl & _).
  cbn [go_bind]. rewrite !(chooseTargetNode_log _ sv2 sv) by done.
  destruct (chooseTargetNode Int63n lb q sv "") as [[[n|] q2]| |] eqn:E; cbn [go_bind]; [done| |done|done].
  intros _. exists q, q2. split_and!; [by etrans|done|done].
Qed.

Lemma Has_empty code : Has ∅ code = false.
Proof. unfold Has. rewrite bool_decide_eq_false_2; [done|]. set_solver. Qed.

(** An answer without an [error] member carries no codes. *)
Lemma parseRPCErrorCodes_none body p :
  responseErrorKeyKnown p = false → ContainsErrorKey body = Ret false →
  ∃ p', parseRPCErrorCodes body p = Ret (∅, p').
Proof.
  intros Hk Hc. unfold parseRPCErrorCodes. destruct (bool_decide _); [eauto|].
  destruct (CachedResponseContainsErrorKey_ok p (TrimSpace body)) as (b & p' & -> & Hb & _ & _).
  { unfold error_key_for. congruence. }
  rewrite ContainsErrorKey_TrimSpace, Hc in Hb. simplify_eq. simpl. eauto.
Qed.

(** A node's answer that needs no retry. *)
Definition plain_answer (c : Hertz) : Prop :=
  hz_Status c ≠ StatusGatewayTimeout ∧ hz_Status c ≠ StatusBadGateway ∧
  ContainsErrorKey (hz_Body c) = Ret false.

Lemma attemptRequest_plain c p sv n :
  (∀ i ref req, plain_answer (proxyServe i ref req)) →
  is_Some (ReverseProxy n) →
  ∃ p' sv' ref a, ReverseProxy n = Some ref ∧ at_node a = n ∧
    attemptRequest proxyServe lb c p sv n
    = Ret (proxyServe (length (sv_Log sv)) ref (at_request a), p', sv') ∧
    sv_Log sv' = sv_Log sv ++ [a] ∧ responseErrorKeyKnown p' = false.
Proof.
  intros Hgood [ref Hr]. unfold attemptRequest, proxyRequest. rewrite Hr.
  set (req := _ <| hz_ReadTimeout := _ |>). set (a := mkAttempt n _).
  destruct (Hgood (length (sv_Log sv)) ref req) as (Ht%Z.eqb_neq & Hb%Z.eqb_neq & _).
  exists (ResetResponseErrorKey p), (sv <| sv_Log := sv_Log sv ++ [a] |>), ref, a.
  rewrite Ht. cbn [fst snd]. rewrite Hb. done.
Qed.

Lemma serveUpstream_plain c p sv :
  ctx_ok p → (∀ i ref req, plain_answer (proxyServe i ref req)) →
  returns (serveUpstream Int63n proxyServe lb c p sv) (λ '(c', p', sv'),
    sv_Log sv' = sv_Log sv ∧ no_backend p "no backends available" c' p' ∧ none_to_choose p sv false "" ∨
    ∃ a ref, sv_Log sv' = sv_Log sv ++ [a] ∧ ReverseProxy (at_node a) = Some ref ∧
      c' = proxyServe (length (sv_Log sv)) ref (at_request a)).
Proof.
  intros Hok Hgood. unfold serveUpstream.
  set (p0 := p <| UpstreamRelated := true |>).
  assert (kept p p0) as Hk0 by (by constructor).
  destruct (returns_inv _ _ (chooseFirst_returns _ _ Hlb p0 sv (ctx_ok_kept _ _ Hk0 Hok)))
    as ([[[n|] p1] sv1] & Hc & Hk1 & _ & Hl1 & _ & Hn); rewrite Hc; cbn [go_bind].
  2: { left. split; [done|]. split; [eapply writeNoBackend_no_backend; [|reflexivity]; by etrans|].
       by eapply chooseFirst_none. }
  set (p2 := if _ =? _ then _ else _).
  destruct (attemptRequest_plain c p2 sv1 n Hgood) as (p3 & sv3 & ref & a & Href & Ha & -> & Hl3 & Hkey).
  { apply (ok_proxies _ _ Hlb (ChainId p)). simpl in Hn. tauto. }
  cbn [go_bind]. set (c3 := proxyServe _ _ _).
  destruct (parseRPCErrorCodes_none (hz_Body c3) p3 Hkey) as [p4 ->]; [apply Hgood|].
  cbn [go_bind]. unfold retryArchive, retryNative, shouldRetryWithArchive. rewrite Has_empty.
  assert (∀ b : bool, (if b then false else false) = false) as Hif by (by intros []).
  rewrite Hif. cbn [go_bind]. unfold shouldRetryWithNative. rewrite Has_empty, Hif.
  simpl. right. exists a, ref. rewrite Hl3, Hl1, Ha. split_and!; [done|done|].
  unfold c3. by rewrite Hl1.
Qed.
End Retries.

(** ** A concrete proxy for the instances *)

Module Instance_.
(** A cache that never evicts. *)
Definition ex_otter : OtterCache := {|
  Cache := list Hash; NewCache := λ _, []; GetIfPresent := λ c h, bool_decide (h ∈ c);
  Cache_Set := λ c h, h :: c |}.
Lemma ex_otter_laws : @OtterLaws ex_otter.
Proof.
  split; [done|]. intros c h h'. simpl. intros Hc%bool_decide_eq_true.
  apply elem_of_cons in Hc as [->|Hc]; [by left|right; by apply bool_decide_eq_true].
Qed.

Definition node_of (key : string) (type : Z) (ref : nat) : Node :=
  mkNode key "10.0.0.1" 8545 "10.0.0.1:8545" "official" 1 StateAvailable type (Some ref).
Definition state_node : Node := node_of "s" NodeTypeState 0.
Definition archive_node : Node := node_of "a" NodeTypeArchive 1.
Definition native_node : Node := node_of "n" 3 2.

Definition ex_selector : Random gatewayStrategy :=
  mkRandom {[ "1" := [archive_node] ]} {[ "1" := [state_node] ]} {[ "1" := [native_node] ]} ∅ None.

Definition ex_lb : Balancer :=
  mkBalancer defaultConfig ex_selector NewChainVersionRouter ∅ ∅ false 0 0.

Definition first_draw : nat → Z → Z := λ _ _, 0.

Lemma ex_lb_ok : lb_ok first_draw ex_lb.
Proof.
  assert (∀ c n, pool {[ "1" := [n] ]} c = if bool_decide (c = "1") then [n] else []) as Hpool.
  { intros c n. unfold pool. case_bool_decide as E; [by subst|].
    by rewrite lookup_singleton_ne by done. }
  split; intros c.
  - intros n. simpl. rewrite !Hpool. case_bool_decide; [|set_solver].
    rewrite !list_elem_of_singleton. intros [->|[->| ->]]; eauto.
  - intros k. unfold selector_weights. simpl. unfold nodeWeight. rewrite lookup_empty.
    unfold DefaultWeight. simpl. lia.
  - simpl. rewrite !Hpool. case_bool_decide; simpl; lia.
  - intros n Hn. unfold first_draw. lia.
Qed.

Definition no_world : @World ex_limiter := @mkWorld ex_limiter [] ∅ [] [].
Definition ex_serving : @Serving ex_limiter ex_otter :=
  mkServing no_world (newArchiveHashCache 16) [].
Definition ex_call : Hertz := ex_hertz (request_text "eth_call" "[]" "1").

(** The state node answers that it has not the block; the others answer plainly. *)
Definition answer (body : string) (c : Hertz) : Hertz :=
  c <| hz_Status := StatusOK |> <| hz_Body := body |>.
Definition missing_state : nat → nat → Hertz → Hertz := λ _ ref c,
  answer (if (ref =? 0)%nat then error_token "e" +:+ ":{code:-39006}" else "ok") c.
Definition plain : nat → nat → Hertz → Hertz := λ _ _ c, answer "ok" c.

(** A request pinned to one block hash. *)
Definition ex_hash : Hash := "0x" +:+ String.concat "" (replicate 64 "1").
Definition ex_pinned : Hertz :=
  ex_hertz (request_text "eth_call" ("[" +:+ context_text ex_hash "Equals" +:+ "]") "1").

#[export] Existing Instances ex_otter ex_render ex_limiter example_eth example_sonic.

Definition ex_ctx : RequestContext :=
  match generateRequestContext false ex_call with Ret p => p | _ => example_ctx end.
Definition ex_pinned_ctx : RequestContext :=
  match generateRequestContext false ex_pinned with Ret p => p | _ => example_ctx end.
Definition ex_pinned_served : Hertz * RequestContext * Serving :=
  match ServeHTTP first_draw missing_state ex_lb ex_pinned ex_serving "1" with
  | Ret r => r
  | _ => (ex_call, example_ctx, ex_serving)
  end.
End Instance_.
Import Instance_.

(** ** Properties *)

(** C1: a well-formed request on a known chain is always served to the end. It makes at most
    three upstream attempts: one on a state or archive node, then at most one on an archive
    node, only if the first node was not one, then at most one on a native node, sent to the
    root path; the request handed to each node carries the read timeout configured for the
    method. *)
Theorem ServeHTTP_attempts `{GoEthereum} `{SonicParams} `{Sonic} `{Render} `{RateLimiter} `{OtterCache}
    Int63n lb proxyServe c sv chainID p0 base uuid eff :
  lb_ok Int63n lb →
  generateRequestContext (b_Debug lb) c = Ret p0 → rc_Error p0 = None →
  effectiveChain (b_Router lb) chainID = Some (base, uuid, eff) →
  returns (ServeHTTP Int63n proxyServe lb c sv chainID) (λ '(_, _, sv'),
    ∃ atts, sv_Log sv' = sv_Log sv ++ atts ∧ (length atts ≤ 3)%nat ∧
            attempts_ok lb eff atts (upstreamReadTimeout lb (Method p0))).
Proof.
  intros Hlb Hg He Hc. eapply returns_mono; [by eapply ServeHTTP_served|].
  intros [[c' p'] sv'] [(atts & Hl & Ha) _]. exists atts. split_and!; [done| |done].
  by eapply attempts_ok_length.
Qed.

Lemma ServeHTTP_attempts_witness :
  returns (ServeHTTP first_draw missing_state ex_lb ex_call ex_serving "0x1") (λ '(_, _, sv'),
    ∃ atts, sv_Log sv' = [] ++ atts ∧ (length atts ≤ 3)%nat ∧
            attempts_ok ex_lb "1" atts 5000000000).
Proof.
  apply (ServeHTTP_attempts first_draw ex_lb missing_state ex_call ex_serving "0x1" ex_ctx "1" "" "1");
    [exact ex_lb_ok|vm_compute; reflexivity..].
Defined.

(** A served request is counted exactly once as a total and exactly once as an outcome,
    whatever happened to it: answered by a pre-processor, by a node, after retries, or with
    no node to serve it. *)
Theorem ServeHTTP_accounted `{GoEthereum} `{SonicParams} `{Sonic} `{Render} `{RateLimiter} `{OtterCache}
    Int63n lb proxyServe c sv chainID p0 base uuid eff :
  lb_ok Int63n lb →
  generateRequestContext (b_Debug lb) c = Ret p0 → rc_Error p0 = None →
  effectiveChain (b_Router lb) chainID = Some (base, uuid, eff) →
  returns (ServeHTTP Int63n proxyServe lb c sv chainID) (λ '(_, _, sv'),
    accounted (w_metrics (sv_World sv)) (w_metrics (sv_World sv'))).
Proof.
  intros Hlb Hg He Hc. eapply returns_mono; [by eapply ServeHTTP_served|]. by intros [[c' p'] sv'] [].
Qed.

Lemma ServeHTTP_accounted_witness :
  returns (ServeHTTP first_draw plain ex_lb ex_call ex_serving "1") (λ '(_, _, sv'),
    accounted [] (w_metrics (sv_World sv'))).
Proof.
  apply (ServeHTTP_accounted first_draw ex_lb plain ex_call ex_serving "1" ex_ctx "1" "" "1");
    [exact ex_lb_ok|vm_compute; reflexivity..].
Defined.

(** C8: only proven hashes enter the archive hash cache. Whatever a served request adds to it
    is added under the request's own chain, for a single request whose parameters pin that
    block hash, after an archive node of the chain answered with status 200 and without the
    error codes of a missing or invalid block. *)
Theorem archive_cache_sound `{GoEthereum} `{SonicParams} `{Sonic} `{Render} `{RateLimiter} `{OtterLaws}
    Int63n lb proxyServe c sv chainID p0 base uuid eff c' p' sv' k h :
  lb_ok Int63n lb →
  generateRequestContext (b_Debug lb) c = Ret p0 → rc_Error p0 = None →
  effectiveChain (b_Router lb) chainID = Some (base, uuid, eff) →
  ServeHTTP Int63n proxyServe lb c sv chainID = Ret (c', p', sv') →
  Cache_Contains (sv_Cache sv') k h = true → Cache_Contains (sv_Cache sv) k h = false →
  k = eff ∧ rc_IsBatch p0 = false ∧
  pins (Some (ParseBlockContext (b_Debug lb) (RequestBody p0))) h ∧
  archive_answered lb proxyServe eff (sv_Log sv').
Proof.
  intros Hlb Hg He Hc Hs Hin Hout.
  destruct (prepared_ok lb c p0 base uuid eff Hg He) as (_ & _ & _ & Hfn).
  pose proof (ServeHTTP_within Int63n lb Hlb proxyServe c sv chainID p0 base uuid eff Hg He Hc) as Hw.
  rewrite Hs in Hw. destruct (Hw k h Hin) as [?|[(-> & Hb & Hp) Ha]]; [congruence|].
  split_and!; [done|exact Hb|by rewrite <- Hfn|done].
Qed.

Lemma archive_cache_sound_witness :
  let sv' := ex_pinned_served.2 in
  Cache_Contains (sv_Cache sv') "1" ex_hash = true ∧
  "1" = "1" ∧ rc_IsBatch ex_pinned_ctx = false ∧
  pins (Some (ParseBlockContext false (RequestBody ex_pinned_ctx))) ex_hash ∧
  archive_answered ex_lb missing_state "1" (sv_Log sv').
Proof.
  intros sv'. split; [vm_compute; reflexivity|].
  assert (OtterLaws) as Hlaws by exact ex_otter_laws.
  apply (archive_cache_sound first_draw ex_lb missing_state ex_pinned ex_serving "1" ex_pinned_ctx
           "1" "" "1" ex_pinned_served.1.1 ex_pinned_served.1.2 sv' "1" ex_hash ex_lb_ok);
    vm_compute; reflexivity.
Defined.

(** C12: the filter result cached while looking for retries is never stale: when the handler is
    done with the nodes, what the post-processors read from the cache is the filter's answer
    on the response body they see, whichever attempts, resets and error bodies came between. *)
Theorem error_filter_fresh `{GoEthereum} `{SonicParams} `{Sonic} `{Render} `{RateLimiter} `{OtterCache}
    Int63n lb proxyServe c p sv :
  lb_ok Int63n lb → ctx_ok p → responseErrorKeyKnown p = false →
  returns (serveUpstream Int63n proxyServe lb c p sv) (λ '(c', p', _),
    ∃ b p'', CachedResponseContainsErrorKey p' (hz_Body c') = Ret (b, p'') ∧
             ContainsErrorKey (hz_Body c') = Ret b).
Proof.
  intros Hlb Hok Hk. eapply returns_ensures; [by apply serveUpstream_returns|by apply serveUpstream_key|].
  intros [[c' p'] sv'] _ Hf. destruct (CachedResponseContainsErrorKey_ok p' (hz_Body c') Hf)
    as (b & p'' & E & Hb & _). eauto.
Qed.

Lemma error_filter_fresh_witness :
  returns (serveUpstream first_draw missing_state ex_lb ex_call (on_chain ex_ctx "1" "" "1") ex_serving)
    (λ '(c', p', _), ∃ b p'', CachedResponseContainsErrorKey p' (hz_Body c') = Ret (b, p'') ∧
                              ContainsErrorKey (hz_Body c') = Ret b).
Proof.
  apply (error_filter_fresh first_draw ex_lb missing_state ex_call (on_chain ex_ctx "1" "" "1") ex_serving);
    [exact ex_lb_ok|vm_compute; exact I|reflexivity].
Defined.



(** A response with the precompile code -39008 is retried on a native node of the chain
    at the root path; only when no native node can be chosen does the client get a
    no-backend error instead. *)
Theorem precompile_retried `{GoEthereum} `{SonicParams} `{Sonic} `{Render} `{RateLimiter} `{OtterCache}
    Int63n lb proxyServe c p sv codes :
  lb_ok Int63n lb → ctx_ok p → Native p = false → CosmosPrecompile ∈ codes →
  returns (retryNative Int63n proxyServe lb c p sv codes) (λ '(c', p', sv'),
    sv' = sv ∧ no_backend p "no native backends available" c' p' ∧
      none_to_choose Int63n lb p sv false "native" ∨
    ∃ a, one_more proxyServe p sv sv' c' a ∧ at_path a = "/" ∧
         at_node a ∈ pool (nativeNodes (b_Selector lb)) (ChainId p)).
Proof. intros. by apply retryNative_retries. Qed.

Lemma precompile_retried_witness :
  returns (retryNative first_draw plain ex_lb ex_call (on_chain ex_ctx "1" "" "1") ex_serving {[ -39008 ]})
    (λ '(c', p', sv'), sv' = ex_serving ∧
         no_backend (on_chain ex_ctx "1" "" "1") "no native backends available" c' p' ∧
         none_to_choose first_draw ex_lb (on_chain ex_ctx "1" "" "1") ex_serving false "native" ∨
       ∃ a, one_more plain (on_chain ex_ctx "1" "" "1") ex_serving sv' c' a ∧ at_path a = "/" ∧ at_node a ∈ [native_node]).
Proof.
  apply (precompile_retried first_draw ex_lb plain ex_call (on_chain ex_ctx "1" "" "1") ex_serving {[ -39008 ]});
    [exact ex_lb_ok|vm_compute; exact I|reflexivity|by apply elem_of_singleton].
Defined.

(** Nodes that answer without a gateway status and without an [error] member are asked
    once: their answer goes to the client as it is, and no retry is made; the client gets a
    no-backend error only if the selector offers no node for the request. *)
Theorem plain_answer_served `{GoEthereum} `{SonicParams} `{Sonic} `{Render} `{RateLimiter} `{OtterCache}
    Int63n lb proxyServe c p sv :
  lb_ok Int63n lb → ctx_ok p → (∀ i ref req, plain_answer (proxyServe i ref req)) →
  returns (serveUpstream Int63n proxyServe lb c p sv) (λ '(c', p', sv'),
    sv_Log sv' = sv_Log sv ∧ no_backend p "no backends available" c' p' ∧
      none_to_choose Int63n lb p sv false "" ∨
    ∃ a ref, sv_Log sv' = sv_Log sv ++ [a] ∧ ReverseProxy (at_node a) = Some ref ∧
      c' = proxyServe (length (sv_Log sv)) ref (at_request a)).
Proof. intros. by apply serveUpstream_plain. Qed.

Lemma plain_answer_served_witness :
  returns (serveUpstream first_draw plain ex_lb ex_call (on_chain ex_ctx "1" "" "1") ex_serving)
    (λ '(c', p', sv'), sv_Log sv' = [] ∧
         no_backend (on_chain ex_ctx "1" "" "1") "no backends available" c' p' ∧
         none_to_choose first_draw ex_lb (on_chain ex_ctx "1" "" "1") ex_serving false "" ∨
       ∃ a ref, sv_Log sv' = [a] ∧ ReverseProxy (at_node a) = Some ref ∧
         c' = plain 0 ref (at_request a)).
Proof.
  apply (plain_answer_served first_draw ex_lb plain ex_call (on_chain ex_ctx "1" "" "1") ex_serving);
    [exact ex_lb_ok|vm_compute; exact I|].
  intros i ref req. split; [discriminate|split; [discriminate|vm_compute; reflexivity]].
Defined.
