(* ===== verification/EtcdStore.v ===== *)
(** * Clients of etcd

    The management API talks to etcd through requests that etcd serves one at a time, while
    other clients do the same.  A handler is a [prog]: a tree of requests and what follows
    each answer.  etcd is a parameter ([Etcd]); its documented contract is a reference store
    with revisions ([etcd_spec]), and [EtcdLaws] says that whatever etcd serves, it serves by
    that contract.  A failed request may or may not have been carried out. *)

From S2P Require Import Prelude GoStrings.
Local Open Scope Z_scope.

(** ** The reference store *)

(** A stored value with the revision that wrote it last and the number of times it was
    written since it was created. *)
Record kv := mkKv { kv_Value : string; kv_ModRevision : Z; kv_Version : Z }.
#[export] Instance kv_eq_dec : EqDecision kv.
Proof. solve_decision. Defined.

Record db := mkDb { db_revision : Z; db_kvs : gmap string kv }.

Inductive cmp := CmpVersion (key : string) (v : Z) | CmpModRevision (key : string) (v : Z).
Inductive eop := OpPut (key value : string) | OpDelete (key : string).

(** Requests, by the type of their answers. *)
Inductive request : Type → Type :=
| RGet (key : string) : request (list (string * kv))
| RGetPrefix (prefix : string) : request (list (string * kv))
| RPut (key value : string) : request unit
| RDelete (key : string) : request unit
| RDeletePrefix (prefix : string) : request unit
| RTxn (conds : list cmp) (ops : list eop) : request bool.

Definition cmp_holds (d : db) (c : cmp) : bool :=
  match c with
  | CmpVersion k v => from_option kv_Version 0 (db_kvs d !! k) =? v
  | CmpModRevision k v => from_option kv_ModRevision 0 (db_kvs d !! k) =? v
  end.

Definition apply_op (rev : Z) (m : gmap string kv) (o : eop) : gmap string kv :=
  match o with
  | OpPut k v => <[k := mkKv v rev (from_option kv_Version 0 (m !! k) + 1)]> m
  | OpDelete k => delete k m
  end.

(** All the operations of a request happen at one new revision; deleting what is not there
    is no modification. *)
Definition modifies (m : gmap string kv) (o : eop) : bool :=
  match o with OpPut _ _ => true | OpDelete k => bool_decide (is_Some (m !! k)) end.

Definition apply_ops (d : db) (ops : list eop) : db :=
  if existsb (modifies (db_kvs d)) ops
  then mkDb (db_revision d + 1) (foldl (apply_op (db_revision d + 1)) (db_kvs d) ops) else d.

Definition with_prefix (prefix : string) (m : gmap string kv) : gmap string kv :=
  filter (λ x, HasPrefix x.1 prefix = true) m.

Definition etcd_spec {X : Type} (d : db) (r : request X) : db * X :=
  match r in request X return db * X with
  | RGet k => (d, match db_kvs d !! k with Some v => [(k, v)] | None => [] end)
  | RGetPrefix p => (d, map_to_list (with_prefix p (db_kvs d)))
  | RPut k v => (apply_ops d [OpPut k v], tt)
  | RDelete k => (apply_ops d [OpDelete k], tt)
  | RDeletePrefix p => (apply_ops d (OpDelete <$> (map_to_list (with_prefix p (db_kvs d))).*1), tt)
  | RTxn conds ops => if forallb (cmp_holds d) conds then (apply_ops d ops, true) else (d, false)
  end.

(** ** The service *)

(** An answer is an error or a value. *)
Class Etcd := {
  EtcdState : Type;
  stored : EtcdState → db;
  serve_etcd {X : Type} : EtcdState → request X → EtcdState * (string + X) }.

(** The order in which a range is answered is left open. *)
Definition same_answer {X : Type} (r : request X) : X → X → Prop :=
  match r in request X return X → X → Prop with
  | RGet _ | RGetPrefix _ => (≡ₚ)
  | RPut _ _ | RDelete _ | RDeletePrefix _ => λ _ _, True
  | RTxn _ _ => eq
  end.

Class EtcdLaws `{Etcd} := {
  etcd_ok {X : Type} s (r : request X) s' x : serve_etcd s r = (s', inr x) →
    stored s' = (etcd_spec (stored s) r).1 ∧ same_answer r x (etcd_spec (stored s) r).2;
  etcd_failed {X : Type} s (r : request X) s' err : serve_etcd s r = (s', inl err) →
    stored s' = stored s ∨ stored s' = (etcd_spec (stored s) r).1 }.

(** ** Programs *)

Inductive prog (A : Type) : Type :=
| Answer (a : A)
| Request {X : Type} (r : request X) (k : string + X → prog A).
Arguments Answer {A} _.
Arguments Request {A X} _ _.

Fixpoint prog_bind {A B : Type} (m : prog A) (f : A → prog B) : prog B :=
  match m with
  | Answer a => f a
  | Request r k => Request r (λ x, prog_bind (k x) f)
  end.

Notation "'do!' x <- m ; k" := (prog_bind m (λ x, k))
  (at level 60, x name, m at level 100, k at level 200, right associativity) : go_scope.

Section Runs.
Context `{Etcd}.

(** Other clients' requests, any number of them. *)
Inductive others : EtcdState → EtcdState → Prop :=
| others_refl s : others s s
| others_step {X : Type} s (r : request X) s1 a s2 :
    serve_etcd s r = (s1, a) → others s1 s2 → others s s2.

(** Runs of a program from a state: others may be served before each of its requests.  The
    trace lists the states before and after each of the program's own requests. *)
Fixpoint runs {A : Type} (p : prog A) (s : EtcdState) (trace : list (EtcdState * EtcdState)) (a : A)
    : Prop :=
  match p with
  | Answer x => trace = [] ∧ a = x
  | Request r k =>
      ∃ s0 x s1 rest, others s s0 ∧ serve_etcd s0 r = (s1, x) ∧ trace = (s0, s1) :: rest ∧
                      runs (k x) s1 rest a
  end.

Lemma runs_bind {A B : Type} (m : prog A) (f : A → prog B) s trace b :
  runs (prog_bind m f) s trace b ↔
  ∃ t1 t2 a s', trace = t1 ++ t2 ∧ runs m s t1 a ∧ runs (f a) s' t2 b ∧
    s' = match last t1 with Some x => x.2 | None => s end.
Proof.
  revert s trace. induction m as [x|X r k IH]; intros s trace; simpl.
  - split.
    + intros Hr. by exists [], trace, x, s.
    + by intros (t1 & t2 & a & s' & -> & [-> ->] & Hf & ->).
  - split.
    + intros (s0 & x & s1 & rest & Ho & Hs & -> & Hr). apply IH in Hr as (t1 & t2 & a & s' & -> & Hm & Hf & ->).
      exists ((s0, s1) :: t1), t2, a, (match last t1 with Some x => x.2 | None => s1 end).
      split_and!; [done|by exists s0, x, s1, t1|done|]. rewrite last_cons. by destruct (last t1).
    + intros (t1 & t2 & a & s' & -> & (s0 & x & s1 & rest & Ho & Hs & -> & Hr) & Hf & ->).
      exists s0, x, s1, (rest ++ t2). split_and!; [done..|]. apply IH.
      exists rest, t2, a, (match last rest with Some x => x.2 | None => s1 end).
      split_and!; [done|done| |done]. rewrite last_cons in Hf. by destruct (last rest).
Qed.

Lemma runs_assoc {A B C : Type} (m : prog A) (f : A → prog B) (g : B → prog C) s trace c :
  runs (do! b <- (do! a <- m; f a); g b) s trace c ↔ runs (do! a <- m; do! b <- f a; g b) s trace c.
Proof.
  revert s trace. induction m as [x|X r k IH]; intros s trace; simpl; [done|].
  by setoid_rewrite IH.
Qed.

Lemma runs_map {A B : Type} (m : prog A) (f : A → B) s trace b :
  runs (do! a <- m; Answer (f a)) s trace b ↔ ∃ a, runs m s trace a ∧ b = f a.
Proof.
  revert s trace. induction m as [x|X r k IH]; intros s trace; simpl; [naive_solver|].
  setoid_rewrite IH. naive_solver.
Qed.
End Runs.

(** ** Revisions

    A store is well formed when no value is newer than the store; every write makes the
    store newer, so two values of a key with the same revision are the same value. *)

Definition db_ok (d : db) : Prop :=
  0 ≤ db_revision d ∧
  ∀ k v, db_kvs d !! k = Some v → 1 ≤ kv_ModRevision v ≤ db_revision d ∧ 1 ≤ kv_Version v.

(** [d'] follows [d]: what is not newer than [d] is what [d] had. *)
Definition follows (d d' : db) : Prop :=
  db_revision d ≤ db_revision d' ∧
  ∀ k v, db_kvs d' !! k = Some v →
    kv_ModRevision v ≤ db_revision d → db_kvs d !! k = Some v.

Lemma follows_refl d : follows d d.
Proof. split; [lia|done]. Qed.

Lemma follows_trans d1 d2 d3 : follows d1 d2 → follows d2 d3 → follows d1 d3.
Proof. intros [H1 H2] [H3 H4]. split; [lia|]. intros k v Hk Hv. apply H2; [apply H4; [done|lia]|done]. Qed.

Lemma foldl_ops_lookup rev ops m k v :
  foldl (apply_op rev) m ops !! k = Some v → kv_ModRevision v = rev ∨ m !! k = Some v.
Proof.
  revert m. induction ops as [|o ops IH]; intros m; simpl; [by right|].
  intros [Hr|Hm]%IH; [by left|]. destruct o as [k' v'|k']; simpl in Hm.
  - apply lookup_insert_Some in Hm as [[-> <-]|[_ Hm]]; [by left|by right].
  - apply lookup_delete_Some in Hm as [_ Hm]. by right.
Qed.

Lemma foldl_ops_version rev ops m :
  (∀ k v, m !! k = Some v → 1 ≤ kv_Version v) →
  ∀ k v, foldl (apply_op rev) m ops !! k = Some v → 1 ≤ kv_Version v.
Proof.
  revert m. induction ops as [|o ops IH]; intros m Hm; simpl; [done|]. apply IH. intros k v.
  destruct o as [k' v'|k']; simpl.
  - intros [[-> <-]|[_ Hl]]%lookup_insert_Some; [simpl|by eapply Hm].
    destruct (m !! k) as [x|] eqn:E; simpl; [apply Hm in E; lia|lia].
  - intros [_ Hl]%lookup_delete_Some. by eapply Hm.
Qed.

Lemma apply_ops_ok d ops : db_ok d → db_ok (apply_ops d ops) ∧ follows d (apply_ops d ops).
Proof.
  intros [Hr Hk]. unfold apply_ops. destruct (existsb _ _); [|split; [done|apply follows_refl]].
  split; split; simpl; try lia.
  - intros k v Hl. split; [|eapply foldl_ops_version; [|done]; intros; by eapply Hk].
    apply foldl_ops_lookup in Hl as [->|Hl]; [lia|]. apply Hk in Hl. lia.
  - intros k v Hl Hv. apply foldl_ops_lookup in Hl as [Hv'|Hl]; [lia|done].
Qed.

Lemma etcd_spec_ok {X : Type} d (r : request X) : db_ok d → db_ok (etcd_spec d r).1 ∧ follows d (etcd_spec d r).1.
Proof.
  intros Hd. pose proof (follows_refl d) as Hf. destruct r; simpl; try done; try (by apply apply_ops_ok).
  case_match; [by apply apply_ops_ok|done].
Qed.

Section Laws.
Context `{EtcdLaws}.

Lemma serve_ok {X : Type} s (r : request X) s' a :
  serve_etcd s r = (s', a) → db_ok (stored s) → db_ok (stored s') ∧ follows (stored s) (stored s').
Proof.
  intros Hs Hd. pose proof (etcd_spec_ok (stored s) r Hd) as Hok. pose proof (follows_refl (stored s)).
  destruct a; [apply etcd_failed in Hs as [-> | ->]|apply etcd_ok in Hs as [-> _]]; done.
Qed.

Lemma others_ok s s' :
  others s s' → db_ok (stored s) → db_ok (stored s') ∧ follows (stored s) (stored s').
Proof.
  induction 1 as [s|X s r s1 a s2 Hs _ IH]; intros Hd; [split; [done|apply follows_refl]|].
  destruct (serve_ok _ _ _ _ Hs Hd) as [Hd1 Hf1]. destruct (IH Hd1) as [Hd2 Hf2].
  split; [done|by eapply follows_trans].
Qed.
End Laws.

(** What a key holds at a revision it still has is what it held when read. *)
Lemma same_revision d d' k v v' :
  db_ok d → follows d d' → db_kvs d !! k = Some v → db_kvs d' !! k = Some v' →
  kv_ModRevision v' = kv_ModRevision v → v' = v.
Proof.
  intros [_ Hd] [_ Hf] Hk Hk' Hr. apply Hd in Hk as Hv.
  specialize (Hf _ _ Hk'). rewrite Hr in Hf. specialize (Hf ltac:(lia)). congruence.
Qed.

(** The revision a client remembers of a key, 0 when it is not there. *)
Definition mod_revision (d : db) (k : string) : Z := from_option kv_ModRevision 0 (db_kvs d !! k).

Lemma revision_unchanged d d' k :
  db_ok d → db_ok d' → follows d d' → mod_revision d' k = mod_revision d k →
  db_kvs d' !! k = db_kvs d !! k.
Proof.
  unfold mod_revision. intros Hd Hd' Hf Hr.
  destruct (db_kvs d !! k) as [v|] eqn:E, (db_kvs d' !! k) as [v'|] eqn:E'; simpl in Hr.
  - f_equal. by apply (same_revision d d' k v v').
  - apply Hd in E. lia.
  - apply Hd' in E'. lia.
  - done.
Qed.

(** ** Rules for the requests of a program *)

(** A moment [s0] of a run that began in [s]. *)
Definition later `{Etcd} (s s0 : EtcdState) : Prop :=
  db_ok (stored s0) ∧ follows (stored s) (stored s0).

(** What a program knows after reading a key: its revision, and through it its value. *)
Definition got (d : db) (k : string) : list (string * kv) :=
  match db_kvs d !! k with Some v => [(k, v)] | None => [] end.

Section Rules.
Context `{EtcdLaws} {A : Type}.

Lemma runs_get k (cont : string + list (string * kv) → prog A) s trace a :
  runs (Request (RGet k) cont) s trace a → db_ok (stored s) →
  ∃ s0 s1 x rest, trace = (s0, s1) :: rest ∧ later s s1 ∧ stored s1 = stored s0 ∧
    runs (cont x) s1 rest a ∧ (∀ l, x = inr l → l = got (stored s1) k).
Proof.
  intros (s0 & x & s1 & rest & Ho & Hs & -> & Hr) Hd.
  destruct (others_ok _ _ Ho Hd) as [Hd0 Hf0].
  assert (stored s1 = stored s0 ∧ ∀ l, x = inr l → l = got (stored s0) k) as [E Hl].
  { destruct x as [err|l].
    - apply etcd_failed in Hs. simpl in Hs. split; [by destruct Hs|done].
    - apply etcd_ok in Hs as [E Hp]. simpl in E, Hp. split; [done|]. intros l' [= <-].
      unfold got. destruct (db_kvs (stored s0) !! k);
        [by apply Permutation_singleton_r|by apply Permutation_nil_r]. }
  exists s0, s1, x, rest. unfold later. rewrite E. auto.
Qed.

Lemma runs_txn conds ops (cont : string + bool → prog A) s trace a :
  runs (Request (RTxn conds ops) cont) s trace a → db_ok (stored s) →
  ∃ s0 s1 x rest, trace = (s0, s1) :: rest ∧ later s s0 ∧ runs (cont x) s1 rest a ∧
    match x with
    | inr true => forallb (cmp_holds (stored s0)) conds = true ∧ stored s1 = apply_ops (stored s0) ops
    | inr false => stored s1 = stored s0
    | inl _ => stored s1 = stored s0 ∨ stored s1 = (etcd_spec (stored s0) (RTxn conds ops)).1
    end.
Proof.
  intros (s0 & x & s1 & rest & Ho & Hs & -> & Hr) Hd.
  destruct (others_ok _ _ Ho Hd) as [Hd0 Hf0].
  exists s0, s1, x, rest. split_and!; [done|done|done|].
  destruct x as [err|b]; [by apply etcd_failed in Hs|].
  apply etcd_ok in Hs as [E Hb]. simpl in E, Hb. by destruct (forallb _ _); simpl in *; subst b.
Qed.
End Rules.

Lemma later_trans `{Etcd} s s1 s2 : later s s1 → later s1 s2 → later s s2.
Proof. intros [_ H1] [H2 H3]. split; [done|by eapply follows_trans]. Qed.

Lemma got_revision d k :
  match got d k with (_, v) :: _ => kv_ModRevision v | [] => 0 end = mod_revision d k.
Proof. unfold got, mod_revision. by destruct (db_kvs d !! k). Qed.

(** ** A reference etcd, for the examples *)

Definition ref_etcd : Etcd := {|
  EtcdState := db; stored := λ d, d;
  serve_etcd X d r := let '(d', x) := etcd_spec d r in (d', inr x) |}.

Lemma ref_etcd_laws : @EtcdLaws ref_etcd.
Proof.
  split; intros X s r s' x Hs; simpl in Hs; destruct (etcd_spec s r) as [d y] eqn:E; simplify_eq.
  simpl. rewrite E. split; [done|]. by destruct r.
Defined.

(** A run without others. *)
Fixpoint run_alone {A : Type} (p : prog A) (d : db) : A * db :=
  match p with
  | Answer a => (a, d)
  | Request r k => let '(d, x) := etcd_spec d r in run_alone (k (inr x)) d
  end.

Fixpoint trace_alone {A : Type} (p : prog A) (d : db) : list (db * db) :=
  match p with
  | Answer a => []
  | Request r k => let '(d', x) := etcd_spec d r in (d, d') :: trace_alone (k (inr x)) d'
  end.

Lemma runs_alone {A : Type} (p : prog A) (d : db) :
  runs (H := ref_etcd) p d (trace_alone p d) (run_alone p d).1.
Proof.
  revert d. induction p as [a|X r k IH]; intros d; simpl; [done|].
  destruct (etcd_spec d r) as [d' x] eqn:E. exists d, (inr x), d', (trace_alone (k (inr x)) d').
  split_and!; [apply others_refl|by rewrite E|done|apply IH].
Qed.
