(* ===== verification/Admin.v ===== *)
(** * The management API

    [http_handler/handler.go] and [http_handler/types.go].  A handler reads the selector and
    the gateway strategy in memory, and changes etcd ([EtcdStore]) or, for the local
    variants, the proxy's own tables.  The framework decodes the request body: a body that
    does not decode is [None]. *)

From stdpp Require Import sorting.
From S2P Require Import Prelude GoStrings JsonRpc ChainId Types BlockContext LbNode Gateway PickNodes Selector.
From S2P Require Import Mirror Refresh DiscoveryKeys Discovery EtcdStore.
Local Open Scope Z_scope.

(** ** Documents *)

(** The gateway document with its maps as Go has them: [None] is a nil map, which can be
    read and deleted from but not written to. *)
Record RouteDoc := mkRouteDoc {
  rd_Include : option (gmap string bool); rd_Exclude : option (gmap string bool) }.
Record GatewayDoc := mkGatewayDoc {
  gd_Weights : list WeightInfo; gd_Routes : option (gmap string RouteDoc) }.

#[export] Instance RouteDoc_expands : Expands RouteDoc := λ r, mkRouteDoc (rd_Include r) (rd_Exclude r).
#[export] Instance GatewayDoc_expands : Expands GatewayDoc := λ g,
  mkGatewayDoc (gd_Weights g) (gd_Routes g).

Definition zeroGateway : GatewayDoc := mkGatewayDoc [] None.

(** What the document means to the proxy, for which a nil map is an empty one. *)
Definition route_of (r : RouteDoc) : MethodRoute :=
  mkMethodRoute (default ∅ (rd_Include r)) (default ∅ (rd_Exclude r)).
Definition gateway_of (chainId : string) (g : GatewayDoc) : Gateway :=
  mkGateway chainId EVENT_PUT (gd_Weights g) (route_of <$> default ∅ (gd_Routes g)).

(** [Gateway.SetWeight] and [Gateway.ClearMethodRoute] of [discovery/discovery.go] on it. *)
Definition docSetWeight (g : GatewayDoc) (nodeKey : string) (weight : Z) : GatewayDoc :=
  g <| gd_Weights := Weights (SetWeight (mkGateway "" EVENT_PUT (gd_Weights g) ∅) nodeKey weight) |>.

Definition map_len {A : Type} (m : option (gmap string A)) : nat := size (default ∅ m).

(** Each route is edited on its own, so the order of the map iteration does not matter. *)
Definition docClearRoute (nodeKey : string) (route : RouteDoc) : option RouteDoc :=
  let route := mkRouteDoc (delete nodeKey <$> rd_Include route) (delete nodeKey <$> rd_Exclude route) in
  if bool_decide (map_len (rd_Include route) = 0%nat) && bool_decide (map_len (rd_Exclude route) = 0%nat)
  then None else Some route.

Definition docClearMethodRoute (g : GatewayDoc) (nodeKey : string) : GatewayDoc :=
  g <| gd_Routes := match gd_Routes g with
                    | Some routes => Some (omap (docClearRoute nodeKey) routes)
                    | None => None
                    end |>.

(** encoding/json: encoders and decoders may fail; the texts of their errors are left out of
    the replies. *)
Class AdminJson := {
  MarshalNode : TargetNode → option string;
  MarshalGateway : GatewayDoc → option string;
  MarshalMirror : MirrorTarget → option string;
  ParseNode : string → option TargetNode;
  ParseGateway : string → option GatewayDoc }.

(** ** Requests and replies *)

Record AddNodeRequest := mkAddNodeRequest {
  an_NodeType : Z; an_NodeKey : string; an_IP : string; an_Port : Z; an_State : Z; an_Weight : Z }.
Record UpdateNodeRequest := mkUpdateNodeRequest { un_IP : string; un_Port : Z }.
Record MethodRouteRequest := mkMethodRouteRequest {
  mr_Method : string; mr_Include : list string; mr_Exclude : list string }.
Record AddMirrorRequest := mkAddMirrorRequest {
  am_Address : string; am_Port : Z; am_RateLimit : option Z }.
Record DeleteMirrorRequest := mkDeleteMirrorRequest { dm_Address : string; dm_Port : Z }.
Record MirrorTargetResponse := mkMirrorTargetResponse {
  mtr_Address : string; mtr_Port : Z; mtr_URL : string; mtr_RateLimit : option Z }.
Record NodeInfo := mkNodeInfo {
  ni_key : string; ni_weight : Z; ni_ip : string; ni_port : Z; ni_state : Z; ni_source : string }.

Inductive body :=
| BError (msg : string)
| BChainIDs (ids : list string)
| BWeight (node : string) (weight : Z) (message : string)
| BWeights (weights : gmap string Z)
| BNodes (archive state native : list NodeInfo)
| BSelected (key : string) (weight : Z)
| BNode (node ip : string) (port state weight : Z) (source : string)
| BUpdated (node ip : string) (port nodeType state : Z)
| BMessage (msg : string)
| BRoute (method : string) (include exclude : list string)
| BRoutes (routes : option (gmap string RouteDoc))
| BMethodRoute (route : RouteDoc)
| BMirror (message : string) (mirror : MirrorTargetResponse)
| BMirrors (chain : string) (mirrors : list MirrorTargetResponse) (count : nat)
| BAllMirrors (mirrors : gmap string (list MirrorTargetResponse)).

Record reply := mkReply { status : Z; content : body }.

Definition StatusOK : Z := 200.
Definition StatusCreated : Z := 201.
Definition StatusBadRequest : Z := 400.
Definition StatusNotFound : Z := 404.
Definition StatusInternalServerError : Z := 500.

Definition writeError (status : Z) (msg : string) : reply := mkReply status (BError msg).
Definition ok (b : body) : reply := mkReply StatusOK b.

(** ** The handler *)

(** What the handler was built with besides etcd: the key prefix; and what it reads in
    memory, as it is when the handler reads it. *)
Record Handler := mkHandler {
  h_keyPrefix : string;
  nodeSelector : Random gatewayStrategy;
  h_gatewayStrategy : gatewayStrategy }.

Definition gatewayKey (h : Handler) (chainId : string) : string :=
  h_keyPrefix h +:+ chainId +:+ "/gateway".
Definition nodeKeyOf (h : Handler) (chainId nodeKey : string) : string :=
  h_keyPrefix h +:+ chainId +:+ "/nodes/" +:+ nodeKey.

Definition GetAllChainsIDs_h (h : Handler) : reply := ok (BChainIDs (GetAllChainsIDs (nodeSelector h))).

Definition findNode (h : Handler) (chainId nodeKey : string) : option Node :=
  list_find (λ n, Key n = nodeKey) (GetAllNodes (nodeSelector h) chainId).1 ≫= λ x, Some x.2.

Section Gateways.
Context `{AdminJson}.

(** An error text, or the document with its revision. *)
Definition getGatewayConfig (h : Handler) (chainId : string) : prog (string + GatewayDoc * Z) :=
  Request (RGet (gatewayKey h chainId)) (λ resp,
    match resp with
    | inl err => Answer (inl ("failed to get gateway config: " +:+ err))
    | inr [] => Answer (inr (zeroGateway, 0))
    | inr ((_, v) :: _) =>
        match ParseGateway (kv_Value v) with
        | None => Answer (inl "failed to parse gateway config")
        | Some gateway => Answer (inr (gateway, kv_ModRevision v))
        end
    end).

(** [None] is success. *)
Definition updateGatewayConfigWithTransaction (h : Handler) (chainId : string) (gateway : GatewayDoc)
    (modRevision : Z) : prog (option string) :=
  match MarshalGateway gateway with
  | None => Answer (Some "failed to marshal gateway config")
  | Some gatewayBytes =>
      Request (RTxn [CmpModRevision (gatewayKey h chainId) modRevision]
                 [OpPut (gatewayKey h chainId) gatewayBytes]) (λ resp,
        match resp with
        | inl err => Answer (Some ("failed to commit transaction: " +:+ err))
        | inr succeeded =>
            if negb succeeded then Answer (Some "concurrent modification detected, please retry")
            else Answer None
        end)
  end.

Definition setWeight (h : Handler) (chainId nodeKey : string) (weight : Z) : prog (option string) :=
  do! res <- getGatewayConfig h chainId;
  match res with
  | inl err => Answer (Some err)
  | inr (gateway, modRevision) =>
      updateGatewayConfigWithTransaction h chainId (docSetWeight gateway nodeKey weight) modRevision
  end.

Definition SetWeight_h (h : Handler) (chainId nodeKey weightStr : string) : prog reply :=
  if bool_decide (nodeKey = "") then
    Answer (writeError StatusBadRequest "node parameter is required") else
  match ParseInt weightStr 10 with
  | None => Answer (writeError StatusBadRequest "invalid weight value")
  | Some weight =>
      if (weight <? 0) || (DefaultWeight <? weight) then
        Answer (writeError StatusBadRequest "weight must be between 0 and 100") else
      match findNode h chainId nodeKey with
      | None => Answer (writeError StatusNotFound "node not found")
      | Some _ =>
          do! err <- setWeight h chainId nodeKey weight;
          match err with
          | Some err => Answer (writeError StatusInternalServerError ("failed to set weight: " +:+ err))
          | None => Answer (ok (BWeight nodeKey weight "weight updated successfully"))
          end
      end
  end.

Definition DeleteWeight_h (h : Handler) (chainId nodeKey : string) : prog reply :=
  if bool_decide (nodeKey = "") then
    Answer (writeError StatusBadRequest "node parameter is required") else
  match findNode h chainId nodeKey with
  | None => Answer (writeError StatusNotFound "node not found")
  | Some _ =>
      do! err <- setWeight h chainId nodeKey DefaultWeight;
      match err with
      | Some err =>
          Answer (writeError StatusInternalServerError ("failed to reset weight to default: " +:+ err))
      | None => Answer (ok (BWeight nodeKey DefaultWeight "reset to default weight 100"))
      end
  end.
End Gateways.

(** ** Reading the proxy's state *)

Definition getNodeWeight (h : Handler) (chainId : string) (node : Node) : Z :=
  let '(weight, exists_) := GetWeightForNode (h_gatewayStrategy h) chainId (Key node) in
  if exists_ then weight else DefaultWeight.

Definition getChainWeights (h : Handler) (chainId : string) : gmap string Z :=
  (GetWeightForChain (h_gatewayStrategy h) chainId).1.

Definition GetWeight_h (h : Handler) (chainId nodeKey : string) : reply :=
  if bool_decide (chainId = "") then writeError StatusBadRequest "chainId parameter is required" else
  if bool_decide (nodeKey = "") then writeError StatusBadRequest "node parameter is required" else
  if bool_decide (nodeKey = "all") then ok (BWeights (getChainWeights h chainId)) else
  match findNode h chainId nodeKey with
  | None => writeError StatusNotFound "node not found"
  | Some node => ok (BWeights {[nodeKey := getNodeWeight h chainId node]})
  end.

Definition nodeInfo (n : Node) : NodeInfo :=
  mkNodeInfo (Key n) (Weight n) (IP n) (Port n) (State n) (Source n).

Definition GetAllNodes_h (h : Handler) (chainId : string) : reply :=
  ok (BNodes (nodeInfo <$> (GetArchiveNodes (nodeSelector h) chainId).1)
             (nodeInfo <$> (GetStateNodes (nodeSelector h) chainId).1)
             (nodeInfo <$> (GetNativeNodes (nodeSelector h) chainId).1)).

(** The context of a chain and a block type, everything else unset. *)
Definition chooseContext (chainId block : string) : RequestContext :=
  mkRequestContext "" "" "" "" "" "" "" false None "" [] "" false None 0 0
    (Some (mkBlockContext None block)) None false "" "" chainId "" false false false false.

Definition ChooseOneNode `{GoEthereum} (Int63n : Z → Z) (h : Handler) (chainId requestKey block : string)
    : go reply :=
  let! '(res, _) := GetNode Int63n (nodeSelector h) (chooseContext chainId block) requestKey in
  match res with
  | inl err => Ret (ok (BError (NoAvailableNodeError_Error err)))
  | inr selectedNode => Ret (ok (BSelected (Key selectedNode) (Weight selectedNode)))
  end.

(** ** Nodes *)

(** Why a node request is refused. *)
Definition checkNodeRequest (req : AddNodeRequest) : option string :=
  if bool_decide (an_IP req = "") || (an_Port req =? 0) then Some "(ip, port) are required" else
  if negb (an_NodeType req =? 1) && negb (an_NodeType req =? 2) then Some "invalid node_type value" else
  if (an_State req <? 1) || (3 <? an_State req) then Some "state must be between 1 and 3" else
  if (an_Weight req <? 0) || (DefaultWeight <? an_Weight req)
  then Some "weight must be between 0 and 100" else None.

Definition nodeKeyFor (req : AddNodeRequest) : string :=
  if bool_decide (an_NodeKey req = "") then an_IP req +:+ "_" +:+ Itoa (an_Port req) else an_NodeKey req.

Section Nodes.
Context `{AdminJson}.

Definition commitNode (conds : list cmp) (ops : list eop) (success : reply) (conflict : Z) : prog reply :=
  Request (RTxn conds ops) (λ resp,
    match resp with
    | inl err => Answer (writeError StatusInternalServerError ("failed to commit transaction: " +:+ err))
    | inr succeeded =>
        if negb succeeded then Answer (writeError conflict "concurrent modification detected, please retry")
        else Answer success
    end).

Definition AddNode (h : Handler) (chainId : string) (body : option AddNodeRequest) : prog reply :=
  match body with
  | None => Answer (writeError StatusBadRequest "invalid request format")
  | Some req =>
      match checkNodeRequest req with
      | Some msg => Answer (writeError StatusBadRequest msg)
      | None =>
          let nodeKey := nodeKeyFor req in
          let etcdKey := nodeKeyOf h chainId nodeKey in
          Request (RGet etcdKey) (λ resp,
            match resp with
            | inl err =>
                Answer (writeError StatusInternalServerError ("failed to get node from etcd: " +:+ err))
            | inr (_ :: _) =>
                Answer (writeError StatusBadRequest ("node " +:+ nodeKey +:+ " already exists"))
            | inr [] =>
                let nodeData := mkTargetNode "" (an_State req) (an_IP req) (an_Port req) (an_NodeType req)
                                  EVENT_PUT "" (an_Weight req) "manual" in
                match MarshalNode nodeData with
                | None => Answer (writeError StatusInternalServerError "failed to marshal node data")
                | Some nodeDataBytes =>
                    let success := ok (BNode nodeKey (an_IP req) (an_Port req) (an_State req)
                                         (an_Weight req) "manual") in
                    let conds := [CmpVersion etcdKey 0] in
                    let ops := [OpPut etcdKey nodeDataBytes] in
                    if an_Weight req =? DefaultWeight then commitNode conds ops success StatusBadRequest else
                    do! res <- getGatewayConfig h chainId;
                    match res with
                    | inl err =>
                        Answer (writeError StatusInternalServerError
                                  ("failed to prepare gateway update: " +:+ err))
                    | inr (gateway, modRevision) =>
                        match MarshalGateway (docSetWeight gateway nodeKey (an_Weight req)) with
                        | None => Answer (writeError StatusInternalServerError "failed to marshal gateway")
                        | Some gatewayBytes =>
                            commitNode (conds ++ [CmpModRevision (gatewayKey h chainId) modRevision])
                              (ops ++ [OpPut (gatewayKey h chainId) gatewayBytes]) success StatusBadRequest
                        end
                    end
                end
            end)
      end
  end.

Definition DeleteNode (h : Handler) (chainId nodeKey : string) : prog reply :=
  let etcdKey := nodeKeyOf h chainId nodeKey in
  Request (RGet etcdKey) (λ resp,
    match resp with
    | inl _ => Answer (writeError StatusInternalServerError "failed to get node from etcd")
    | inr [] => Answer (writeError StatusNotFound ("node " +:+ nodeKey +:+ " not found"))
    | inr ((_, v) :: _) =>
        match ParseNode (kv_Value v) with
        | None => Answer (writeError StatusInternalServerError "failed to parse existing node data")
        | Some nodeData =>
            if negb (bool_decide (tn_Source nodeData = "manual")) then
              Answer (writeError StatusBadRequest "only manual nodes can be deleted") else
            do! res <- getGatewayConfig h chainId;
            match res with
            | inl err =>
                Answer (writeError StatusInternalServerError ("failed to get gateway config: " +:+ err))
            | inr (gateway, modRevision) =>
                let gateway := docClearMethodRoute (docSetWeight gateway nodeKey DefaultWeight) nodeKey in
                match MarshalGateway gateway with
                | None => Answer (writeError StatusInternalServerError "failed to marshal gateway config")
                | Some gatewayBytes =>
                    commitNode [CmpModRevision (gatewayKey h chainId) modRevision]
                      [OpDelete etcdKey; OpPut (gatewayKey h chainId) gatewayBytes]
                      (ok (BMessage ("node " +:+ nodeKey +:+ " deleted successfully")))
                      StatusInternalServerError
                end
            end
        end
    end).

Definition UpdateNode (h : Handler) (chainId nodeKey : string) (body : option UpdateNodeRequest)
    : prog reply :=
  match body with
  | None => Answer (writeError StatusBadRequest "invalid request format")
  | Some req =>
      if bool_decide (un_IP req = "") && (un_Port req =? 0) then
        Answer (writeError StatusBadRequest "at least one field(ip, port) is required") else
      let etcdKey := nodeKeyOf h chainId nodeKey in
      Request (RGet etcdKey) (λ resp,
        match resp with
        | inl _ => Answer (writeError StatusInternalServerError "failed to get node from etcd")
        | inr [] => Answer (writeError StatusNotFound ("node " +:+ nodeKey +:+ " not found"))
        | inr ((_, v) :: _) =>
            match ParseNode (kv_Value v) with
            | None => Answer (writeError StatusInternalServerError "failed to parse existing node data")
            | Some nodeData =>
                if negb (bool_decide (tn_Source nodeData = "manual")) then
                  Answer (writeError StatusBadRequest "only manual nodes can be updated") else
                let nodeData := if bool_decide (un_IP req = "") then nodeData
                                else nodeData <| tn_Address := un_IP req |> in
                let nodeData := if un_Port req =? 0 then nodeData
                                else nodeData <| tn_Port := un_Port req |> in
                match MarshalNode nodeData with
                | None => Answer (writeError StatusInternalServerError "failed to marshal node data")
                | Some nodeDataBytes =>
                    Request (RPut etcdKey nodeDataBytes) (λ resp,
                      match resp with
                      | inl _ => Answer (writeError StatusInternalServerError "failed to update node in etcd")
                      | inr _ =>
                          Answer (ok (BUpdated nodeKey (tn_Address nodeData) (tn_Port nodeData)
                                        (tn_NodeType nodeData) (tn_StateType nodeData)))
                      end)
                end
            end
        end)
  end.
End Nodes.

(** ** Method routes *)

(** The keys of a map, sorted; nil and empty read alike. *)
Definition sortedKeys (m : option (gmap string bool)) : list string :=
  merge_sort bytes_le (map_to_list (default ∅ m)).*1.

Definition convertMethodRouteToResponse (route : RouteDoc) : list string * list string :=
  (sortedKeys (rd_Include route), sortedKeys (rd_Exclude route)).

(** Writing to a nil map panics, when there is something to write. *)
Fixpoint putKeys (m : option (gmap string bool)) (keys : list string) : go (option (gmap string bool)) :=
  match keys with
  | [] => Ret m
  | key :: keys =>
      match m with
      | None => Panic
      | Some m => putKeys (Some (<[key := true]> m)) keys
      end
  end.

Definition dropKeys (m : option (gmap string bool)) (keys : list string) : option (gmap string bool) :=
  match m with
  | None => None
  | Some m => Some (foldl (λ m key, delete key m) m keys)
  end.

(** [None] when every node of the request exists. *)
Definition checkNodeExist (h : Handler) (chainId : string) (include exclude : list string)
    : option string :=
  if bool_decide (length include = 0%nat) && bool_decide (length exclude = 0%nat)
  then Some "at least one of include or exclude is required" else
  let '(nodes, found) := GetAllNodes (nodeSelector h) chainId in
  if negb found then Some ("no nodes found for chainID " +:+ chainId) else
  match list_find (λ k, k ∉ keys nodes) (include ++ exclude) with
  | Some (_, nodeKey) => Some ("node " +:+ nodeKey +:+ " not found")
  | None => None
  end.

(** The edit of [AddMethodRoute]. *)
Definition addRoute (routes : option (gmap string RouteDoc)) (req : MethodRouteRequest)
    : go (gmap string RouteDoc) :=
  let routes := default ∅ routes in
  let route := default (mkRouteDoc (Some ∅) (Some ∅)) (routes !! mr_Method req) in
  let! include := putKeys (rd_Include route) (mr_Include req) in
  let! exclude := putKeys (rd_Exclude route) (mr_Exclude req) in
  Ret (<[mr_Method req := mkRouteDoc include exclude]> routes).

(** The edit of [RemoveMethodRoute], with its repeated deletions. *)
Definition removeRoute (routes : gmap string RouteDoc) (route : RouteDoc) (req : MethodRouteRequest)
    : gmap string RouteDoc :=
  let include := dropKeys (rd_Include route) (mr_Include req) in
  let routes := if bool_decide (map_len include = 0%nat) then delete (mr_Method req) routes else routes in
  let exclude := dropKeys (rd_Exclude route) (mr_Exclude req) in
  let routes := if bool_decide (map_len exclude = 0%nat) then delete (mr_Method req) routes else routes in
  if bool_decide (map_len include = 0%nat) && bool_decide (map_len exclude = 0%nat)
  then delete (mr_Method req) routes
  else <[mr_Method req := mkRouteDoc include exclude]> routes.

Section Routes.
Context `{AdminJson}.

(** Commits an edited document and answers. *)
Definition commitGateway (h : Handler) (chainId : string) (gateway : GatewayDoc) (modRevision : Z)
    (success : reply) : prog (go reply) :=
  do! err <- updateGatewayConfigWithTransaction h chainId gateway modRevision;
  match err with
  | Some err => Answer (Ret (writeError StatusInternalServerError err))
  | None => Answer (Ret success)
  end.

Definition routeReply (method : string) (routes : gmap string RouteDoc) : reply :=
  let '(include, exclude) :=
    convertMethodRouteToResponse (default (mkRouteDoc None None) (routes !! method)) in
  ok (BRoute method include exclude).

Definition AddMethodRoute_h (h : Handler) (chainId : string) (body : option MethodRouteRequest)
    : prog (go reply) :=
  match body with
  | None => Answer (Ret (writeError StatusBadRequest "invalid request format"))
  | Some req =>
      match checkNodeExist h chainId (mr_Include req) (mr_Exclude req) with
      | Some err => Answer (Ret (writeError StatusBadRequest err))
      | None =>
          if bool_decide (mr_Method req = "") then
            Answer (Ret (writeError StatusBadRequest "method is required")) else
          do! res <- getGatewayConfig h chainId;
          match res with
          | inl err => Answer (Ret (writeError StatusInternalServerError err))
          | inr (gateway, modRevision) =>
              match addRoute (gd_Routes gateway) req with
              | Ret routes =>
                  commitGateway h chainId (gateway <| gd_Routes := Some routes |>) modRevision
                    (routeReply (mr_Method req) routes)
              | Panic => Answer Panic
              | NoFuel => Answer NoFuel
              end
          end
      end
  end.

Definition methodNotFound (method : string) : reply :=
  writeError StatusNotFound ("method route(" +:+ method +:+ ") not found").

Definition RemoveMethodRoute (h : Handler) (chainId : string) (body : option MethodRouteRequest)
    : prog (go reply) :=
  match body with
  | None => Answer (Ret (writeError StatusBadRequest "invalid request format"))
  | Some req =>
      match checkNodeExist h chainId (mr_Include req) (mr_Exclude req) with
      | Some err => Answer (Ret (writeError StatusBadRequest err))
      | None =>
          if bool_decide (mr_Method req = "") then
            Answer (Ret (writeError StatusBadRequest "method is required")) else
          do! res <- getGatewayConfig h chainId;
          match res with
          | inl err => Answer (Ret (writeError StatusInternalServerError err))
          | inr (gateway, modRevision) =>
              match gd_Routes gateway with
              | None => Answer (Ret (methodNotFound (mr_Method req)))
              | Some routes =>
                  match routes !! mr_Method req with
                  | None => Answer (Ret (methodNotFound (mr_Method req)))
                  | Some route =>
                      let routes := removeRoute routes route req in
                      commitGateway h chainId (gateway <| gd_Routes := Some routes |>) modRevision
                        (routeReply (mr_Method req) routes)
                  end
              end
          end
      end
  end.

Definition DeleteMethodRoute (h : Handler) (chainId method : string) : prog (go reply) :=
  do! res <- getGatewayConfig h chainId;
  match res with
  | inl err => Answer (Ret (writeError StatusInternalServerError err))
  | inr (gateway, modRevision) =>
      match default ∅ (gd_Routes gateway) !! method with
      | None => Answer (Ret (methodNotFound method))
      | Some _ =>
          commitGateway h chainId
            (gateway <| gd_Routes := match gd_Routes gateway with
                                     | Some routes => Some (delete method routes)
                                     | None => None
                                     end |>) modRevision
            (ok (BMessage "method route deleted successfully"))
      end
  end.

Definition GetMethodRoutes_h (h : Handler) (chainId : string) : prog reply :=
  do! res <- getGatewayConfig h chainId;
  match res with
  | inl err => Answer (writeError StatusInternalServerError err)
  | inr (gateway, _) => Answer (ok (BRoutes (gd_Routes gateway)))
  end.

Definition GetMethodRoute_h (h : Handler) (chainId method : string) : prog reply :=
  do! res <- getGatewayConfig h chainId;
  match res with
  | inl err => Answer (writeError StatusInternalServerError err)
  | inr (gateway, _) =>
      match default ∅ (gd_Routes gateway) !! method with
      | None => Answer (methodNotFound method)
      | Some route => Answer (ok (BMethodRoute route))
      end
  end.
End Routes.

(** ** Local nodes

    The event goes to the event loop's channel; [sent] is false when the channel stayed
    full for a second.  The second part is the event, if it was delivered. *)

Definition AddLocalNode (chainId : string) (body : option AddNodeRequest) (sent : bool)
    : reply * option TargetNode :=
  match body with
  | None => (writeError StatusBadRequest "invalid request format", None)
  | Some req =>
      match checkNodeRequest req with
      | Some msg => (writeError StatusBadRequest msg, None)
      | None =>
          let nodeKey := nodeKeyFor req in
          let localNode := mkTargetNode chainId (an_State req) (an_IP req) (an_Port req)
                             (an_NodeType req) EVENT_PUT nodeKey (an_Weight req) "local" in
          if sent then
            (ok (BNode nodeKey (an_IP req) (an_Port req) (an_State req) (an_Weight req) "local"),
             Some localNode)
          else (writeError StatusInternalServerError "failed to process node event", None)
      end
  end.

Definition DeleteLocalNode (h : Handler) (chainId nodeKey : string) (sent : bool)
    : reply * option TargetNode :=
  match findNode h chainId nodeKey with
  | None => (writeError StatusNotFound "node not found", None)
  | Some node =>
      let deleteEvent := mkTargetNode chainId (State node) (IP node) (Port node) (NodeType node)
                           EVENT_DELETE nodeKey 0 (Source node) in
      if sent then (ok (BMessage ("node " +:+ nodeKey +:+ " deleted successfully")), Some deleteEvent)
      else (writeError StatusInternalServerError "failed to process delete event", None)
  end.

(** ** Mirrors *)

Definition addrKeyOf (address : string) (port : Z) : string := address +:+ ":" +:+ Itoa port.
Definition mirrorURLOf (address : string) (port : Z) : string :=
  "http://" +:+ address +:+ ":" +:+ Itoa port.

(** The checks the mirror handlers share: the refusal, or the address and port. *)
Definition checkMirror (chainId : string) (body : option (string * Z)) : reply + string * Z :=
  if bool_decide (chainId = "") then inl (writeError StatusBadRequest "chainId is required") else
  match body with
  | None => inl (writeError StatusBadRequest "invalid request body")
  | Some (address, port) =>
      if bool_decide (address = "") then inl (writeError StatusBadRequest "address is required") else
      if (port <=? 0) || (65535 <? port)
      then inl (writeError StatusBadRequest "port must be between 1 and 65535")
      else inr (address, port)
  end.

Definition mirrorResponse (t : MirrorTarget) : MirrorTargetResponse :=
  mkMirrorTargetResponse (mt_Address t) (mt_Port t) (URL t) (mt_RateLimit t).

Section LocalMirrors.
Context `{RateLimiter}.

Definition AddLocalMirror (mm : gmap string (gmap string MirrorTarget)) (ml : mirrorLimiter)
    (chainId : string) (body : option AddMirrorRequest)
    : reply * gmap string (gmap string MirrorTarget) * mirrorLimiter :=
  match checkMirror chainId ((λ r, (am_Address r, am_Port r)) <$> body) with
  | inl r => (r, mm, ml)
  | inr (address, port) =>
      let rateLimit := body ≫= am_RateLimit in
      let addrKey := addrKeyOf address port in
      let target := mkMirrorTarget chainId addrKey address port rateLimit false in
      let mm := AddMirrorTarget mm chainId addrKey target in
      let ml := match rateLimit with
                | Some l => if 0 <? l then (UpdateLimit ml chainId (URL target) l).2 else ml
                | None => ml
                end in
      (mkReply StatusCreated (BMirror "mirror target added successfully" (mirrorResponse target)), mm, ml)
  end.

Definition DeleteLocalMirror (mm : gmap string (gmap string MirrorTarget)) (ml : mirrorLimiter)
    (chainId : string) (body : option DeleteMirrorRequest)
    : reply * gmap string (gmap string MirrorTarget) * mirrorLimiter :=
  match checkMirror chainId ((λ r, (dm_Address r, dm_Port r)) <$> body) with
  | inl r => (r, mm, ml)
  | inr (address, port) =>
      (ok (BMessage "mirror target deleted successfully"),
       DeleteMirrorTarget mm chainId (addrKeyOf address port),
       RemoveLimit ml chainId (mirrorURLOf address port))
  end.
End LocalMirrors.

Definition DeleteAllLocalMirrors (mm : gmap string (gmap string MirrorTarget)) (chainId : string)
    : reply * gmap string (gmap string MirrorTarget) :=
  if bool_decide (chainId = "") then (writeError StatusBadRequest "chainId is required", mm) else
  (ok (BMessage "all mirror targets deleted successfully"), DeleteChainMirrors mm chainId).

Definition GetMirrors (mm : gmap string (gmap string MirrorTarget)) (chainId : string) : reply :=
  if bool_decide (chainId = "") then writeError StatusBadRequest "chainId is required" else
  let mirrors := mirrorResponse <$> GetMirrorTargets mm chainId in
  ok (BMirrors chainId mirrors (length mirrors)).

Definition GetAllMirrors_h (mm : gmap string (gmap string MirrorTarget)) : reply :=
  ok (BAllMirrors ((λ targets : list MirrorTarget, mirrorResponse <$> targets)
                     <$> (GetAllMirrors mm : gmap string (list MirrorTarget)))).

Section Mirrors.
Context `{AdminJson}.

Definition mirrorKeyOf (h : Handler) (chainId addrKey : string) : string :=
  h_keyPrefix h +:+ chainId +:+ "/mirror/" +:+ addrKey.

Definition AddMirror (h : Handler) (chainId : string) (body : option AddMirrorRequest) : prog reply :=
  match checkMirror chainId ((λ r, (am_Address r, am_Port r)) <$> body) with
  | inl r => Answer r
  | inr (address, port) =>
      let rateLimit := body ≫= am_RateLimit in
      let addrKey := addrKeyOf address port in
      let etcdKey := mirrorKeyOf h chainId addrKey in
      Request (RGet etcdKey) (λ resp,
        match resp with
        | inl err => Answer (writeError StatusInternalServerError ("failed to get mirror from etcd: " +:+ err))
        | inr (_ :: _) => Answer (writeError StatusBadRequest ("mirror " +:+ addrKey +:+ " already exists"))
        | inr [] =>
            match MarshalMirror (mkMirrorTarget "" "" address port rateLimit false) with
            | None => Answer (writeError StatusInternalServerError "failed to marshal mirror data")
            | Some mirrorDataBytes =>
                commitNode [CmpVersion etcdKey 0] [OpPut etcdKey mirrorDataBytes]
                  (mkReply StatusCreated (BMirror "mirror target added successfully"
                     (mkMirrorTargetResponse address port (mirrorURLOf address port) rateLimit)))
                  StatusBadRequest
            end
        end)
  end.

Definition DeleteMirror (h : Handler) (chainId : string) (body : option DeleteMirrorRequest) : prog reply :=
  match checkMirror chainId ((λ r, (dm_Address r, dm_Port r)) <$> body) with
  | inl r => Answer r
  | inr (address, port) =>
      let addrKey := addrKeyOf address port in
      let etcdKey := mirrorKeyOf h chainId addrKey in
      Request (RGet etcdKey) (λ resp,
        match resp with
        | inl _ => Answer (writeError StatusInternalServerError "failed to get mirror from etcd")
        | inr [] => Answer (writeError StatusNotFound ("mirror " +:+ addrKey +:+ " not found"))
        | inr (_ :: _) =>
            Request (RDelete etcdKey) (λ resp,
              match resp with
              | inl err =>
                  Answer (writeError StatusInternalServerError ("failed to delete mirror from etcd: " +:+ err))
              | inr _ => Answer (ok (BMessage "mirror target deleted successfully"))
              end)
        end)
  end.

Definition DeleteAllMirrors (h : Handler) (chainId : string) : prog reply :=
  if bool_decide (chainId = "") then Answer (writeError StatusBadRequest "chainId is required") else
  Request (RDeletePrefix (h_keyPrefix h +:+ chainId +:+ "/mirror/")) (λ resp,
    match resp with
    | inl err => Answer (writeError StatusInternalServerError ("failed to delete mirrors from etcd: " +:+ err))
    | inr _ => Answer (ok (BMessage "all mirror targets deleted successfully"))
    end).
End Mirrors.
