(* ===== verification/Writers.v ===== *)
(** * Writers and their leader

    [http_handler/writer_handler.go]: the writers of a chain register themselves under
    [<chain>/writers/], one key names the leader, and the API switches it in a transaction. *)

From S2P Require Import Prelude GoStrings EtcdStore.
Local Open Scope Z_scope.

Record WriterNodeInfo := mkWriterNodeInfo {
  NodeID : string; NodeXBucket : string; ChainTableBucket : string; Region : string;
  Brokers : list string; Topic : string }.

#[export] Instance WriterNodeInfo_expands : Expands WriterNodeInfo := λ w,
  mkWriterNodeInfo (NodeID w) (NodeXBucket w) (ChainTableBucket w) (Region w) (Brokers w) (Topic w).

(** A writer with its status, "leader" or "backup". *)
Record WriterNodeResponse := mkWriterNodeResponse { wn_Info : WriterNodeInfo; wn_Status : string }.

Inductive writerBody :=
| WError (msg : string)
| WWriters (writers : list WriterNodeResponse) (currentLeader : string)
| WSwitched (success : bool) (message oldLeader newLeader : string)
| WLeader (currentLeader : string).
Record writerReply := mkWriterReply { w_status : Z; w_body : writerBody }.

(** [json.Unmarshal] of a writer's registration. *)
Class WriterJson := { UnmarshalWriter : string → option WriterNodeInfo }.

Definition writersPrefix (chainID : string) : string := chainID +:+ "/writers/".
Definition writerKey (chainID nodeID : string) : string := chainID +:+ "/writers/" +:+ nodeID.
Definition leaderKey (chainID : string) : string := chainID +:+ "/writers/leader".

Section Handlers.
Context `{WriterJson}.

(** One turn of the loop of [listActiveWriters]. *)
Definition activeWriter (keyPrefix : string) (e : string * kv) : option WriterNodeInfo :=
  let '(key, v) := e in
  if (len key <=? len keyPrefix)%nat then None else
  let nodeID := drop_str (len keyPrefix) key in
  if bool_decide (nodeID = "leader") then None else
  match UnmarshalWriter (kv_Value v) with
  | None => None
  | Some nodeInfo => Some (nodeInfo <| NodeID := nodeID |>)
  end.

Definition listActiveWriters (chainID : string) : prog (string + list WriterNodeInfo) :=
  Request (RGetPrefix (writersPrefix chainID)) (λ resp,
    match resp with
    | inl err => Answer (inl ("failed to list active writers: " +:+ err))
    | inr kvs => Answer (inr (omap (activeWriter (writersPrefix chainID)) kvs))
    end).

Definition getCurrentLeader (chainID : string) : prog (string + string) :=
  Request (RGet (leaderKey chainID)) (λ resp,
    match resp with
    | inl err => Answer (inl ("failed to get current leader: " +:+ err))
    | inr [] => Answer (inl ("no leader found for chain " +:+ chainID))
    | inr ((_, v) :: _) => Answer (inr (kv_Value v))
    end).

(** [None] is success. *)
Definition switchLeader (chainID newLeaderID : string) : prog (option string) :=
  Request (RGet (writerKey chainID newLeaderID)) (λ resp,
    match resp with
    | inl err => Answer (Some ("failed to check target node: " +:+ err))
    | inr [] => Answer (Some ("target node " +:+ newLeaderID +:+ " not found or offline"))
    | inr (_ :: _) =>
        Request (RGet (leaderKey chainID)) (λ leaderResp,
          match leaderResp with
          | inl err => Answer (Some ("failed to get current leader: " +:+ err))
          | inr kvs =>
              let modRevision := match kvs with (_, v) :: _ => kv_ModRevision v | [] => 0 end in
              Request (RTxn [CmpModRevision (leaderKey chainID) modRevision]
                         [OpPut (leaderKey chainID) newLeaderID]) (λ txnResp,
                match txnResp with
                | inl err => Answer (Some ("failed to switch leader: " +:+ err))
                | inr succeeded =>
                    if negb succeeded then Answer (Some "concurrent modification detected, please retry")
                    else Answer None
                end)
          end)
    end).

Definition GetWriters (chainID : string) : prog writerReply :=
  if bool_decide (chainID = "") then Answer (mkWriterReply 400 (WError "chainId is required")) else
  do! writers <- listActiveWriters chainID;
  match writers with
  | inl err => Answer (mkWriterReply 500 (WError ("Failed to list writers: " +:+ err)))
  | inr writers =>
      do! leader <- getCurrentLeader chainID;
      let currentLeader := match leader with inl _ => "" | inr l => l end in
      let response w := mkWriterNodeResponse w
        (if bool_decide (NodeID w = currentLeader) then "leader" else "backup") in
      Answer (mkWriterReply 200 (WWriters (response <$> writers) currentLeader))
  end.

(** The body's [new_leader]; [None] when it does not decode. *)
Definition SwitchLeader (chainID : string) (body : option string) : prog writerReply :=
  if bool_decide (chainID = "") then Answer (mkWriterReply 400 (WError "chainId is required")) else
  match body with
  | None => Answer (mkWriterReply 400 (WError "Invalid request body"))
  | Some newLeader =>
      if bool_decide (newLeader = "") then Answer (mkWriterReply 400 (WError "new_leader is required")) else
      do! leader <- getCurrentLeader chainID;
      let oldLeader := match leader with inl _ => "" | inr l => l end in
      do! err <- switchLeader chainID newLeader;
      match err with
      | Some err =>
          Answer (mkWriterReply 500 (WSwitched false ("Failed to switch leader: " +:+ err) "" ""))
      | None => Answer (mkWriterReply 200 (WSwitched true "Leader switched successfully" oldLeader newLeader))
      end
  end.

Definition GetLeaderStatus (chainID : string) : prog writerReply :=
  if bool_decide (chainID = "") then Answer (mkWriterReply 400 (WError "chainId is required")) else
  do! leader <- getCurrentLeader chainID;
  match leader with
  | inl err => Answer (mkWriterReply 500 (WError ("Failed to get leader status: " +:+ err)))
  | inr currentLeader => Answer (mkWriterReply 200 (WLeader currentLeader))
  end.
End Handlers.
