(* ===== verification/AdminProof.v ===== *)
(** * Correctness of the management API

    The handlers of [Admin] and [Writers] against an etcd that other clients change between
    any two of their requests. *)

From S2P Require Import Prelude GoStrings JsonRpc ChainId Types LbNode Gateway PickNodes Selector Mirror Refresh.
From S2P Require Import DiscoveryKeys Discovery Config Processors EtcdStore Admin Writers.
Local Open Scope Z_scope.

(** ** Reading and replacing the gateway document *)

Section Gateway.
Context `{EtcdLaws} `{AdminJson}.

(** The document stored under a key; a chain without one has the empty document. *)
Definition doc_at (d : db) (key : string) : option GatewayDoc :=
  match db_kvs d !! key with None => Some zeroGateway | Some v => ParseGateway (kv_Value v) end.

(** A request that replaced the document stored at that very moment by an edit of it, along
    with [extra] changes. *)
Definition edited (key : string) (E : GatewayDoc → GatewayDoc → Prop) (extra : list eop)
    (x : EtcdState * EtcdState) : Prop :=
  ∃ g g' bytes, doc_at (stored x.1) key = Some g ∧ E g g' ∧ MarshalGateway g' = Some bytes ∧
    stored x.2 = apply_ops (stored x.1) (extra ++ [OpPut key bytes]).

(** A request that only read. *)
Definition reads (x : EtcdState * EtcdState) : Prop := stored x.2 = stored x.1.

Lemma runs_getGatewayConfig {B : Type} h c (f : string + GatewayDoc * Z → prog B) s trace b :
  runs (do! res <- getGatewayConfig h c; f res) s trace b → db_ok (stored s) →
  ∃ s0 s1 res rest, trace = (s0, s1) :: rest ∧ later s s1 ∧ stored s1 = stored s0 ∧ runs (f res) s1 rest b ∧
    ∀ g rev, res = inr (g, rev) →
      doc_at (stored s1) (gatewayKey h c) = Some g ∧ rev = mod_revision (stored s1) (gatewayKey h c).
Proof.
  intros Hr Hd. unfold getGatewayConfig in Hr. cbn [prog_bind] in Hr.
  destruct (runs_get _ _ _ _ _ Hr Hd) as (s0 & s1 & x & rest & -> & Hl & E & Hr' & Hx).
  exists s0, s1. destruct x as [err|l]; simpl in Hr'; [by eexists _, rest|].
  specialize (Hx l eq_refl). unfold got in Hx. unfold doc_at, mod_revision.
  destruct (db_kvs (stored s1) !! gatewayKey h c) as [v|]; subst l; simpl in *.
  - destruct (ParseGateway (kv_Value v)) as [g|]; simpl in Hr'; eexists _, rest; split_and!; try done.
    by intros g' rev [= <- <-].
  - eexists _, rest. split_and!; try done. by intros g' rev [= <- <-].
Qed.

(** A revision that still holds pins the document. *)
Lemma doc_pinned s1 s0 key g :
  db_ok (stored s1) → later s1 s0 → doc_at (stored s1) key = Some g →
  cmp_holds (stored s0) (CmpModRevision key (mod_revision (stored s1) key)) = true →
  doc_at (stored s0) key = Some g.
Proof.
  intros Hd [Hd0 Hf] Hg Hc. simpl in Hc. apply Z.eqb_eq in Hc.
  unfold doc_at in *. by rewrite (revision_unchanged (stored s1) (stored s0) key).
Qed.

(** The transaction at the end of every edit. *)
Lemma runs_update {B : Type} h c g g' (E : GatewayDoc → GatewayDoc → Prop)
    (f : option string → prog B) s1 trace b :
  runs (do! err <- updateGatewayConfigWithTransaction h c g' (mod_revision (stored s1) (gatewayKey h c)); f err)
    s1 trace b →
  db_ok (stored s1) → doc_at (stored s1) (gatewayKey h c) = Some g → E g g' →
  (∃ err, runs (f (Some err)) s1 trace b) ∨
  ∃ x rest err, trace = x :: rest ∧ runs (f err) x.2 rest b ∧
    (reads x ∨ edited (gatewayKey h c) E [] x) ∧ (err = None → edited (gatewayKey h c) E [] x).
Proof.
  intros Hr Hd Hg HE. unfold updateGatewayConfigWithTransaction in Hr.
  destruct (MarshalGateway g') as [bytes|] eqn:Hm; [|by left; eexists].
  right. cbn [prog_bind] in Hr.
  destruct (runs_txn _ _ _ _ _ _ Hr Hd) as (s0 & s2 & x & rest & -> & Hl & Hr' & Hx).
  assert (forallb (cmp_holds (stored s0))
            [CmpModRevision (gatewayKey h c) (mod_revision (stored s1) (gatewayKey h c))] = true →
          stored s2 = apply_ops (stored s0) [OpPut (gatewayKey h c) bytes] →
          edited (gatewayKey h c) E [] (s0, s2)) as Hed.
  { intros Hc Es. exists g, g', bytes. split_and!; [|done|done|done]. apply andb_true_iff in Hc as [Hc _].
    by eapply doc_pinned. }
  exists (s0, s2), rest. destruct x as [err|[]]; simpl in Hr'; eexists; (split; [done|]); (split; [done|]).
  - split; [|done]. destruct Hx as [Hx|Hx]; [by left|]. simpl in Hx.
    destruct (_ && true)%bool eqn:Hc in Hx; [right; by apply Hed|by left].
  - destruct Hx as [Hc Es]. split; [right|intros _]; auto.
  - split; [by left|done].
Qed.

(** What a program that edits the document does to etcd: it only reads, except that its last
    request may edit the document; when the program reports success that request has. *)
Definition atomically (key : string) (E : GatewayDoc → GatewayDoc → Prop) (success : Prop)
    (trace : list (EtcdState * EtcdState)) : Prop :=
  ∃ pre edit, trace = pre ++ option_list edit ∧ Forall reads pre ∧
    (∀ x, edit = Some x → edited key E [] x) ∧ (success → is_Some edit).

Lemma atomically_reads key E (P : Prop) trace : Forall reads trace → ¬ P → atomically key E P trace.
Proof. intros Hr HP. exists trace, None. simpl. by rewrite (right_id_L [] (++)). Qed.

Lemma atomically_edit key E (P : Prop) pre x : Forall reads pre → edited key E [] x → atomically key E P (pre ++ [x]).
Proof. intros Hr He. exists pre, (Some x). split_and!; try done. by intros y [= <-]. Qed.

Lemma edit_atomic {B : Type} (E : GatewayDoc → GatewayDoc → Prop) (good : B → Prop) h c
    (F : string + GatewayDoc * Z → prog B) s trace b :
  (∀ e, ∃ x, F (inl e) = Answer x ∧ ¬ good x) →
  (∀ g rev, (∃ x, F (inr (g, rev)) = Answer x ∧ ¬ good x) ∨
     ∃ g' bad done_, E g g' ∧ (∀ e, ¬ good (bad e)) ∧
       F (inr (g, rev)) = (do! err <- updateGatewayConfigWithTransaction h c g' rev;
                     match err with Some e => Answer (bad e) | None => Answer done_ end)) →
  runs (do! res <- getGatewayConfig h c; F res) s trace b →
  db_ok (stored s) → atomically (gatewayKey h c) E (good b) trace.
Proof.
  intros Hfail Hedit Hr Hd.
  destruct (runs_getGatewayConfig _ _ _ _ _ _ Hr Hd) as (s0 & s1 & res & rest & -> & Hl & Eq & Hr' & Hg).
  assert (reads (s0, s1)) as Hread by done.
  assert (∀ x, ¬ good x → runs (Answer x) s1 rest b → atomically (gatewayKey h c) E (good b) ((s0, s1) :: rest)) as Hbad.
  { intros x Hx [-> ->]. apply atomically_reads; [by apply Forall_singleton|done]. }
  destruct res as [e|[g rev]]; [destruct (Hfail e) as (x & Ex & Hx); rewrite Ex in Hr'; by eapply Hbad|].
  destruct (Hg g rev eq_refl) as [Hdoc ->].
  destruct (Hedit g (mod_revision (stored s1) (gatewayKey h c))) as [(x & Ex & Hx)|(g' & bad & done_ & HE & Hb & Ex)];
    rewrite Ex in Hr'; [by eapply Hbad|].
  destruct Hl as [Hd1 _].
  destruct (runs_update _ _ _ _ _ _ _ _ _ Hr' Hd1 Hdoc HE) as [[err Hf]|(x & rest' & err & -> & Hf & Hx & Hok)];
    [apply (Hbad (bad err)); [apply Hb|done]|].
  destruct err as [err|]; destruct Hf as [-> ->].
  - destruct Hx as [Hx|Hx]; [apply atomically_reads; [by repeat constructor|apply Hb]|].
    apply (atomically_edit _ _ _ [(s0, s1)]); [by apply Forall_singleton|done].
  - apply (atomically_edit _ _ _ [(s0, s1)]); [by apply Forall_singleton|by apply Hok].
Qed.
End Gateway.

(** ** The calls that edit the gateway document *)

Inductive gatewayCall :=
| CSetWeight (nodeKey weight : string)
| CDeleteWeight (nodeKey : string)
| CAddRoute (body : option MethodRouteRequest)
| CRemoveRoute (body : option MethodRouteRequest)
| CDeleteRoute (method : string).

Definition handleCall `{AdminJson} (h : Handler) (c : string) (call : gatewayCall) : prog (go reply) :=
  match call with
  | CSetWeight k w => do! r <- SetWeight_h h c k w; Answer (Ret r)
  | CDeleteWeight k => do! r <- DeleteWeight_h h c k; Answer (Ret r)
  | CAddRoute body => AddMethodRoute_h h c body
  | CRemoveRoute body => RemoveMethodRoute h c body
  | CDeleteRoute m => DeleteMethodRoute h c m
  end.

(** What each call may do to the document. *)
Definition callEdits (h : Handler) (c : string) (call : gatewayCall) (g g' : GatewayDoc) : Prop :=
  match call with
  | CSetWeight k w => ∃ weight, ParseInt w 10 = Some weight ∧ 0 ≤ weight ≤ DefaultWeight ∧
      is_Some (findNode h c k) ∧ g' = docSetWeight g k weight
  | CDeleteWeight k => is_Some (findNode h c k) ∧ g' = docSetWeight g k DefaultWeight
  | CAddRoute body => ∃ req routes, body = Some req ∧
      checkNodeExist h c (mr_Include req) (mr_Exclude req) = None ∧
      addRoute (gd_Routes g) req = Ret routes ∧ g' = mkGatewayDoc (gd_Weights g) (Some routes)
  | CRemoveRoute body => ∃ req routes route, body = Some req ∧ gd_Routes g = Some routes ∧
      routes !! mr_Method req = Some route ∧ g' = mkGatewayDoc (gd_Weights g) (Some (removeRoute routes route req))
  | CDeleteRoute m => ∃ routes, gd_Routes g = Some routes ∧ is_Some (routes !! m) ∧
      g' = mkGatewayDoc (gd_Weights g) (Some (delete m routes))
  end.

Definition success (r : go reply) : Prop := ∃ body, r = Ret (mkReply StatusOK body).

Section Calls.
Context `{EtcdLaws} `{AdminJson}.

Lemma answered {B : Type} (good : B → Prop) key E x s trace b :
  runs (Answer x) s trace b → ¬ good x → atomically key E (good b) trace.
Proof. intros [-> ->] Hx. by apply atomically_reads. Qed.

Lemma refused st msg : st ≠ StatusOK → ¬ success (Ret (writeError st msg)).
Proof. intros Hst [b Hb]. unfold writeError in Hb. congruence. Qed.

Lemma weight_atomic h c k weight (E : GatewayDoc → GatewayDoc → Prop) bad done_ s trace b :
  (∀ g, E g (docSetWeight g k weight)) → (∀ e, ∃ msg, bad e = writeError StatusInternalServerError msg) →
  runs (do! err <- setWeight h c k weight;
        match err with Some e => Answer (bad e) | None => Answer done_ end) s trace b →
  db_ok (stored s) → atomically (gatewayKey h c) E (success (Ret b)) trace.
Proof.
  intros HE Hbad Hr Hd. unfold setWeight in Hr. apply runs_assoc in Hr.
  assert (∀ e, ¬ success (Ret (bad e))) as Hb
    by (intros e; destruct (Hbad e) as [msg ->]; by apply refused).
  eapply (edit_atomic E (λ b, success (Ret b)) h c _ s trace b); [| |apply Hr|done].
  - intros e. eexists. split; [done|]. apply Hb.
  - intros g rev. right. exists (docSetWeight g k weight), bad, done_. split_and!; [apply HE|apply Hb|done].
Qed.

Lemma route_atomic h c E (F : string + GatewayDoc * Z → prog (go reply)) s trace r :
  (∀ e, F (inl e) = Answer (Ret (writeError StatusInternalServerError e))) →
  (∀ g rev, (∃ x, F (inr (g, rev)) = Answer x ∧ ¬ success x) ∨
     ∃ g' body, E g g' ∧ F (inr (g, rev)) = commitGateway h c g' rev (ok body)) →
  runs (do! res <- getGatewayConfig h c; F res) s trace r → db_ok (stored s) →
  atomically (gatewayKey h c) E (success r) trace.
Proof.
  intros Hfail Hedit Hr Hd. eapply (edit_atomic E success h c F); [| |done|done].
  - intros e. eexists. split; [apply Hfail|by apply refused].
  - intros g rev. destruct (Hedit g rev) as [Hx|(g' & body & HE & Hc)]; [by left|right].
    exists g', (λ e, Ret (writeError StatusInternalServerError e)), (Ret (ok body)).
    split_and!; [done|intros e; by apply refused|done].
Qed.

Lemma call_atomic h c call s trace r :
  runs (handleCall h c call) s trace r → db_ok (stored s) →
  atomically (gatewayKey h c) (callEdits h c call) (success r) trace.
Proof.
  intros Hr Hd. destruct call as [k w|k|body|body|m]; simpl in Hr.
  - apply runs_map in Hr as (r' & Hr & ->). unfold SetWeight_h in Hr.
    case_bool_decide; [by eapply (answered (λ b, success (Ret b))), refused|].
    destruct (ParseInt w 10) as [weight|] eqn:Hw; [|by eapply (answered (λ b, success (Ret b))), refused].
    destruct ((weight <? 0) || (DefaultWeight <? weight))%bool eqn:Hrange;
      [by eapply (answered (λ b, success (Ret b))), refused|]. b2p.
    destruct (findNode h c k) as [n|] eqn:Hn; [|by eapply (answered (λ b, success (Ret b))), refused].
    eapply weight_atomic; [| |apply Hr|done]; [|by eexists].
    intros g. exists weight. split_and!; [done|lia|lia|by eexists|done].
  - apply runs_map in Hr as (r' & Hr & ->). unfold DeleteWeight_h in Hr.
    case_bool_decide; [by eapply (answered (λ b, success (Ret b))), refused|].
    destruct (findNode h c k) as [n|] eqn:Hn; [|by eapply (answered (λ b, success (Ret b))), refused].
    eapply weight_atomic; [| |apply Hr|done]; [|by eexists]. intros g. by split; [eexists|].
  - unfold AddMethodRoute_h in Hr. destruct body as [req|]; [|by eapply (answered success), refused].
    destruct (checkNodeExist _ _ _ _) eqn:Hcheck; [by eapply (answered success), refused|].
    case_bool_decide; [by eapply (answered success), refused|].
    eapply route_atomic; [| |apply Hr|done]; [done|]. intros g rev. cbv beta iota.
    destruct (addRoute (gd_Routes g) req) as [routes| |] eqn:Ha;
      [right|left; eexists; split; [done|by intros [? ?]]..].
    eexists _, _. split; [|reflexivity].
    exists req, routes. by split_and!.
  - unfold RemoveMethodRoute in Hr. destruct body as [req|]; [|by eapply (answered success), refused].
    destruct (checkNodeExist _ _ _ _) eqn:Hcheck; [by eapply (answered success), refused|].
    case_bool_decide; [by eapply (answered success), refused|].
    eapply route_atomic; [| |apply Hr|done]; [done|]. intros g rev. cbv beta iota.
    destruct (gd_Routes g) as [routes|] eqn:Hroutes;
      [|left; eexists; split; [done|by apply refused]].
    destruct (routes !! mr_Method req) as [route|] eqn:Hroute;
      [right|left; eexists; split; [done|by apply refused]].
    eexists _, _. split; [|reflexivity].
    exists req, routes, route. by split_and!.
  - unfold DeleteMethodRoute in Hr. eapply route_atomic; [| |apply Hr|done]; [done|]. intros g rev. cbv beta iota.
    destruct (gd_Routes g) as [routes|] eqn:Hroutes; simpl;
      [|left; eexists; split; [by rewrite lookup_empty|by apply refused]].
    destruct (routes !! m) as [route|] eqn:Hroute; [right|left; eexists; split; [done|by apply refused]].
    eexists _, _. split; [|done]. exists routes. by split_and!; [|eexists|].
Qed.
End Calls.

(** ** Well-formed documents *)

Definition route_ok (r : RouteDoc) : Prop := is_Some (rd_Include r) ∧ is_Some (rd_Exclude r).
Definition routes_ok (m : gmap string RouteDoc) : Prop := map_Forall (λ _, route_ok) m.

(** Every weight is a percentage, no node is listed twice, and no route has a nil map. *)
Record gateway_ok (g : GatewayDoc) : Prop := {
  g_weights : Forall (λ w, 0 ≤ wi_Weight w ≤ DefaultWeight) (gd_Weights g);
  g_keys : NoDup (weight_keys (gd_Weights g));
  g_routes : routes_ok (default ∅ (gd_Routes g)) }.

Lemma docSetWeight_ok g k w : 0 ≤ w ≤ DefaultWeight → gateway_ok g → gateway_ok (docSetWeight g k w).
Proof.
  intros Hw [Hg Hk Hr]. constructor; [|by apply SetWeight_NoDup|done].
  unfold docSetWeight. simpl. set (g0 := mkGateway "" EVENT_PUT (gd_Weights g) ∅).
  destruct (SetWeight_list g0 k w) as [[_ ->]|(a & o & b & E & _ & ->)]; simpl.
  - apply Forall_app. split; [done|]. case_decide; [constructor|by apply Forall_singleton].
  - simpl in E. rewrite E in Hg. apply Forall_app in Hg as [Ha [_ Hb]%Forall_cons].
    apply Forall_app. split; [done|]. apply Forall_app. split; [|done]. case_decide; [constructor|by apply Forall_singleton].
Qed.

Lemma putKeys_ok m keys : is_Some m → ∃ m', putKeys m keys = Ret (Some m').
Proof.
  revert m. induction keys as [|k keys IH]; intros m [x ->]; simpl; [by eexists|]. apply IH. by eexists.
Qed.

Lemma addRoute_ok g req :
  gateway_ok g → ∃ routes, addRoute (gd_Routes g) req = Ret routes ∧ routes_ok routes.
Proof.
  intros [_ _ Hr]. unfold addRoute.
  assert (route_ok (default (mkRouteDoc (Some ∅) (Some ∅)) (default ∅ (gd_Routes g) !! mr_Method req))) as [Hi He].
  { destruct (default ∅ (gd_Routes g) !! mr_Method req) as [r|] eqn:E; simpl; [by eapply Hr|].
    split; by eexists. }
  destruct (putKeys_ok _ (mr_Include req) Hi) as [i ->], (putKeys_ok _ (mr_Exclude req) He) as [e Ee].
  simpl. rewrite Ee. simpl. eexists. split; [done|]. apply map_Forall_insert_2; [split; by eexists|done].
Qed.

Lemma removeRoute_eq routes route req :
  removeRoute routes route req =
  let include := dropKeys (rd_Include route) (mr_Include req) in
  let exclude := dropKeys (rd_Exclude route) (mr_Exclude req) in
  if bool_decide (map_len include = 0%nat ∧ map_len exclude = 0%nat) then delete (mr_Method req) routes
  else <[mr_Method req := mkRouteDoc include exclude]> routes.
Proof.
  unfold removeRoute. cbv zeta. repeat case_bool_decide; simpl; try tauto;
    rewrite ?delete_delete_eq, ?insert_delete_eq; done.
Qed.

Lemma dropKeys_ok m keys : is_Some m → is_Some (dropKeys m keys).
Proof. intros [x ->]. by eexists. Qed.

Lemma removeRoute_ok routes route req :
  routes_ok routes → route_ok route → routes_ok (removeRoute routes route req).
Proof.
  intros Hr [Hi He]. rewrite removeRoute_eq. cbv zeta. case_bool_decide.
  - by apply map_Forall_delete.
  - apply map_Forall_insert_2; [|done]. split; by apply dropKeys_ok.
Qed.

Lemma docClearMethodRoute_ok g k : gateway_ok g → gateway_ok (docClearMethodRoute g k).
Proof.
  intros [Hg Hk Hr]. constructor; [done|done|]. unfold docClearMethodRoute. simpl.
  destruct (gd_Routes g) as [m|]; [|done]. simpl in *. intros i r Hl.
  apply lookup_omap_Some in Hl as (r0 & Hc & Hl). destruct (Hr i r0 Hl) as [[x Hx] [y Hy]].
  unfold docClearRoute in Hc. destruct (_ && _)%bool; [done|]. injection Hc as <-.
  split; simpl; [rewrite Hx|rewrite Hy]; by eexists.
Qed.

Lemma callEdits_ok h c call g g' : callEdits h c call g g' → gateway_ok g → gateway_ok g'.
Proof.
  destruct call as [k w|k|body|body|m]; simpl.
  - intros (weight & _ & Hw & _ & ->) Hg. by apply docSetWeight_ok.
  - intros (_ & ->) Hg. apply docSetWeight_ok; [unfold DefaultWeight; lia|done].
  - intros (req & routes & _ & _ & Ha & ->) Hg. destruct (addRoute_ok g req Hg) as (routes' & Ha' & Hr).
    rewrite Ha in Ha'. injection Ha' as <-. by destruct Hg.
  - intros (req & routes & route & _ & Hr & Hl & ->) [Hg Hk Ho]. rewrite Hr in Ho. simpl in Ho.
    constructor; [done|done|]. apply removeRoute_ok; [done|by eapply Ho].
  - intros (routes & Hr & _ & ->) [Hg Hk Ho]. rewrite Hr in Ho. simpl in Ho.
    constructor; [done|done|]. by apply map_Forall_delete.
Qed.

(** ** Adding and deleting nodes *)

Section NodeCalls.
Context `{EtcdLaws} `{AdminJson}.

Lemma runs_commitNode conds ops success_ conflict s trace r :
  runs (commitNode conds ops success_ conflict) s trace r → db_ok (stored s) → conflict ≠ StatusOK →
  ∃ x, trace = [x] ∧ later s x.1 ∧
    (reads x ∨ forallb (cmp_holds (stored x.1)) conds = true ∧ stored x.2 = apply_ops (stored x.1) ops) ∧
    (status r = StatusOK →
       r = success_ ∧ forallb (cmp_holds (stored x.1)) conds = true ∧ stored x.2 = apply_ops (stored x.1) ops).
Proof.
  intros Hr Hd Hc. destruct (runs_txn _ _ _ _ _ _ Hr Hd) as (s0 & s1 & x & rest & -> & Hl & Hr' & Hx).
  exists (s0, s1). destruct x as [err|[]]; simpl in Hr'; destruct Hr' as [-> ->]; (split; [done|]); (split; [done|]); simpl.
  - split; [|done]. destruct Hx as [Hx|Hx]; [by left|]. simpl in Hx.
    destruct (forallb (cmp_holds (stored s0)) conds) eqn:E; [by right|by left].
  - destruct Hx. split; [right|intros _]; done.
  - split; [by left|]. intros. by destruct Hc.
Qed.

Lemma absent d k : db_ok d → cmp_holds d (CmpVersion k 0) = true → db_kvs d !! k = None.
Proof.
  intros [_ Hd] Hc. simpl in Hc. apply Z.eqb_eq in Hc. destruct (db_kvs d !! k) as [v|] eqn:E; [|done].
  apply Hd in E. simpl in Hc. lia.
Qed.

(** The record [AddNode] stores. *)
Definition newNode (req : AddNodeRequest) : TargetNode :=
  mkTargetNode "" (an_State req) (an_IP req) (an_Port req) (an_NodeType req) EVENT_PUT "" (an_Weight req) "manual".

Lemma checkNodeRequest_weight req : checkNodeRequest req = None → 0 ≤ an_Weight req ≤ DefaultWeight.
Proof. unfold checkNodeRequest. repeat case_match; try done. b2p. lia. Qed.

Definition weightEdit (nodeKey : string) (weight : Z) (g g' : GatewayDoc) : Prop :=
  g' = docSetWeight g nodeKey weight.

Lemma runs_AddNode h c body s trace r :
  runs (AddNode h c body) s trace r → db_ok (stored s) → status r = StatusOK →
  ∃ req bytes pre x, body = Some req ∧ checkNodeRequest req = None ∧
    MarshalNode (newNode req) = Some bytes ∧ trace = pre ++ [x] ∧ Forall reads pre ∧
    let key := nodeKeyOf h c (nodeKeyFor req) in
    db_kvs (stored x.1) !! key = None ∧
    (if an_Weight req =? DefaultWeight then stored x.2 = apply_ops (stored x.1) [OpPut key bytes]
     else edited (gatewayKey h c) (weightEdit (nodeKeyFor req) (an_Weight req)) [OpPut key bytes] x).
Proof.
  intros Hr Hd Hok. unfold AddNode in Hr.
  destruct body as [req|]; [|destruct Hr as [_ ->]; done].
  destruct (checkNodeRequest req) eqn:Hcheck; [destruct Hr as [_ ->]; done|].
  destruct (runs_get _ _ _ _ _ Hr Hd) as (s0 & s1 & x & rest & -> & Hl & E & Hr' & Hx).
  destruct x as [err|[|y l]]; [destruct Hr' as [_ ->]; done| |destruct Hr' as [_ ->]; done].
  fold (newNode req) in Hr'.
  destruct (MarshalNode (newNode req)) as [bytes|] eqn:Hm; [|destruct Hr' as [_ ->]; done].
  destruct Hl as [Hd1 Hf1]. exists req, bytes. destruct (an_Weight req =? DefaultWeight) eqn:Hw.
  - destruct (runs_commitNode _ _ _ _ _ _ _ Hr' Hd1) as (y & -> & Hl & _ & Hy); [done|].
    destruct (Hy Hok) as (_ & Hc & Es). exists [(s0, s1)], y. split_and!; try done; [by apply Forall_singleton|].
    apply andb_true_iff in Hc as [Hc _]. split; [|done]. apply absent; [by destruct Hl|done].
  - destruct (runs_getGatewayConfig _ _ _ _ _ _ Hr' Hd1) as (s2 & s3 & res & rest' & -> & Hl & E' & Hr'' & Hg).
    destruct res as [err|[g rev]]; [destruct Hr'' as [_ ->]; done|]. destruct (Hg g rev eq_refl) as [Hdoc ->].
    destruct (MarshalGateway _) as [gbytes|] eqn:Hmg; [|destruct Hr'' as [_ ->]; done].
    destruct Hl as [Hd3 _]. destruct (runs_commitNode _ _ _ _ _ _ _ Hr'' Hd3) as (y & -> & Hl & _ & Hy); [done|].
    destruct (Hy Hok) as (_ & Hc & Es). exists [(s0, s1); (s2, s3)], y.
    split_and!; try done; [by repeat constructor|]. split.
    + apply andb_true_iff in Hc as [Hc _]. apply absent; [by destruct Hl|done].
    + simpl in Hc. apply andb_true_iff in Hc as [_ Hc]. rewrite andb_true_r in Hc.
      exists g, (docSetWeight g (nodeKeyFor req) (an_Weight req)), gbytes. split_and!; [|done|done|done].
      by eapply doc_pinned.
Qed.

Definition deleteEdit (nodeKey : string) (g g' : GatewayDoc) : Prop :=
  g' = docClearMethodRoute (docSetWeight g nodeKey DefaultWeight) nodeKey.

Lemma runs_DeleteNode h c k s trace r :
  runs (DeleteNode h c k) s trace r → db_ok (stored s) → status r = StatusOK →
  ∃ v node a b x, trace = [a; b; x] ∧ reads a ∧ reads b ∧
    db_kvs (stored a.2) !! nodeKeyOf h c k = Some v ∧ ParseNode (kv_Value v) = Some node ∧
    tn_Source node = "manual" ∧ edited (gatewayKey h c) (deleteEdit k) [OpDelete (nodeKeyOf h c k)] x.
Proof.
  intros Hr Hd Hok. unfold DeleteNode in Hr.
  destruct (runs_get _ _ _ _ _ Hr Hd) as (s0 & s1 & x & rest & -> & Hl & E & Hr' & Hx).
  destruct x as [err|l]; [destruct Hr' as [_ ->]; done|]. specialize (Hx l eq_refl). unfold got in Hx.
  destruct (db_kvs (stored s1) !! nodeKeyOf h c k) as [v|] eqn:Ev; subst l; [|destruct Hr' as [_ ->]; done].
  destruct (ParseNode (kv_Value v)) as [node|] eqn:Ep; [|destruct Hr' as [_ ->]; done].
  case_bool_decide as Hsrc; [|destruct Hr' as [_ ->]; done]. simpl in Hr'. destruct Hl as [Hd1 _].
  destruct (runs_getGatewayConfig _ _ _ _ _ _ Hr' Hd1) as (s2 & s3 & res & rest' & -> & Hl & E' & Hr'' & Hg).
  destruct res as [err|[g rev]]; [destruct Hr'' as [_ ->]; done|]. destruct (Hg g rev eq_refl) as [Hdoc ->].
  destruct (MarshalGateway _) as [gbytes|] eqn:Hmg; [|destruct Hr'' as [_ ->]; done].
  destruct Hl as [Hd3 _]. destruct (runs_commitNode _ _ _ _ _ _ _ Hr'' Hd3) as (y & -> & Hl & _ & Hy); [done|].
  destruct (Hy Hok) as (_ & Hc & Es). exists v, node, (s0, s1), (s2, s3), y. split_and!; try done.
  apply andb_true_iff in Hc as [Hc _]. eexists g, _, gbytes. split_and!; [|done|done|done].
  by eapply doc_pinned.
Qed.

Lemma runs_AddMirror h c body s trace r :
  runs (AddMirror h c body) s trace r → db_ok (stored s) → status r = StatusCreated →
  ∃ req bytes a x, body = Some req ∧ 0 < am_Port req ≤ 65535 ∧ trace = [a; x] ∧ reads a ∧
    MarshalMirror (mkMirrorTarget "" "" (am_Address req) (am_Port req) (am_RateLimit req) false) = Some bytes ∧
    let key := mirrorKeyOf h c (addrKeyOf (am_Address req) (am_Port req)) in
    db_kvs (stored x.1) !! key = None ∧ stored x.2 = apply_ops (stored x.1) [OpPut key bytes].
Proof.
  intros Hr Hd Hok. unfold AddMirror, checkMirror in Hr.
  case_bool_decide; [destruct Hr as [_ ->]; done|]. destruct body as [req|]; [|destruct Hr as [_ ->]; done].
  simpl in Hr. case_bool_decide; [destruct Hr as [_ ->]; done|].
  destruct ((am_Port req <=? 0) || (65535 <? am_Port req))%bool eqn:Hp; [destruct Hr as [_ ->]; done|]. b2p.
  destruct (runs_get _ _ _ _ _ Hr Hd) as (s0 & s1 & x & rest & -> & Hl & E & Hr' & Hx).
  destruct x as [err|[|y l]]; [destruct Hr' as [_ ->]; done| |destruct Hr' as [_ ->]; done].
  destruct (MarshalMirror _) as [bytes|] eqn:Hm; [|destruct Hr' as [_ ->]; done]. destruct Hl as [Hd1 _].
  unfold commitNode in Hr'.
  destruct (runs_txn _ _ _ _ _ _ Hr' Hd1) as (s2 & s3 & x & rest' & -> & Hl & Hr'' & Hx').
  destruct x as [err|[]]; simpl in Hr''; destruct Hr'' as [-> ->]; [done| |done].
  destruct Hx' as [Hc Es]. exists req, bytes, (s0, s1), (s2, s3). split_and!; try done; try lia.
  split; [|done]. apply andb_true_iff in Hc as [Hc _]. apply absent; [by destruct Hl|done].
Qed.
End NodeCalls.

(** ** What the documents mean to the proxy *)

Lemma gateway_of_SetWeight c g k w : gateway_of c (docSetWeight g k w) = SetWeight (gateway_of c g) k w.
Proof.
  unfold gateway_of, docSetWeight, SetWeight. simpl.
  case_bool_decide; destruct (weightIndex (gd_Weights g) k); done.
Qed.

(** Whether a document's route of a method lists a node. *)
Definition included (g : GatewayDoc) (method k : string) : option bool :=
  default ∅ (gd_Routes g) !! method ≫= λ r, default ∅ (rd_Include r) !! k.
Definition excluded (g : GatewayDoc) (method k : string) : option bool :=
  default ∅ (gd_Routes g) !! method ≫= λ r, default ∅ (rd_Exclude r) !! k.

Lemma delete_listed (m : option (gmap string bool)) k k' :
  default ∅ (delete k <$> m) !! k' = if decide (k' = k) then None else default ∅ m !! k'.
Proof.
  destruct m as [m|]; simpl; [|by case_decide]. rewrite lookup_delete. by repeat case_decide.
Qed.

Lemma docClearMethodRoute_lookup g k m :
  default ∅ (gd_Routes (docClearMethodRoute g k)) !! m = default ∅ (gd_Routes g) !! m ≫= docClearRoute k.
Proof.
  unfold docClearMethodRoute. simpl. destruct (gd_Routes g); simpl; [by rewrite lookup_omap|by rewrite lookup_empty].
Qed.

(** Clearing a node takes it from every list and leaves the other nodes in theirs. *)
Lemma docClearMethodRoute_listed g k m k' :
  included (docClearMethodRoute g k) m k' = (if decide (k' = k) then None else included g m k') ∧
  excluded (docClearMethodRoute g k) m k' = (if decide (k' = k) then None else excluded g m k').
Proof.
  unfold included, excluded. rewrite docClearMethodRoute_lookup.
  destruct (default ∅ (gd_Routes g) !! m) as [r|]; simpl; [|by case_decide].
  unfold docClearRoute. simpl. rewrite <- !delete_listed.
  destruct (_ && _)%bool eqn:E; simpl; [|done]. apply andb_true_iff in E as [E1 E2]. b2p. unfold map_len in *.
  apply map_size_empty_iff in E1, E2. rewrite E1, E2. done.
Qed.

(** A method keeps its route exactly when the route lists another node. *)
Lemma docClearMethodRoute_kept g k m :
  is_Some (default ∅ (gd_Routes (docClearMethodRoute g k)) !! m) ↔
  ∃ k', k' ≠ k ∧ (is_Some (included g m k') ∨ is_Some (excluded g m k')).
Proof.
  rewrite docClearMethodRoute_lookup. unfold included, excluded.
  destruct (default ∅ (gd_Routes g) !! m) as [r|]; simpl; [|split; [by intros [? ?]|by intros (? & _ & [[? ?]|[? ?]])]].
  assert (∀ o : option (gmap string bool),
            map_len (delete k <$> o) ≠ 0%nat ↔ ∃ k', k' ≠ k ∧ is_Some (default ∅ o !! k')) as Hlen.
  { intros o. unfold map_len. rewrite map_size_empty_iff. split.
    - intros (k' & b & Hk)%map_choose. rewrite delete_listed in Hk. exists k'. case_decide; [done|]. by split; [|eexists].
    - intros (k' & Hne & [b Hk]) E. specialize (delete_listed o k k'). rewrite E, lookup_empty, decide_False by done. congruence. }
  assert (is_Some (docClearRoute k r) ↔
          map_len (delete k <$> rd_Include r) ≠ 0%nat ∨ map_len (delete k <$> rd_Exclude r) ≠ 0%nat) as ->.
  { unfold docClearRoute. simpl. repeat case_bool_decide; simpl; split; intros Hx; try (by eexists); try tauto; by destruct Hx. }
  rewrite !Hlen. naive_solver.
Qed.

Lemma node_gateway_ne h c k : nodeKeyOf h c k ≠ gatewayKey h c.
Proof.
  unfold nodeKeyOf, gatewayKey. intros E. apply (inj (String.append _)) in E. apply (inj (String.append _)) in E. done.
Qed.

Lemma apply_ops_put d extra k v :
  db_kvs (apply_ops d (extra ++ [OpPut k v])) !! k ≫= (λ x, Some (kv_Value x)) = Some v ∧
  ∀ k', k' ≠ k → db_kvs (apply_ops d (extra ++ [OpPut k v])) !! k' =
                 foldl (apply_op (db_revision d + 1)) (db_kvs d) extra !! k'.
Proof.
  unfold apply_ops. rewrite existsb_app, orb_true_intro by (by right). simpl. rewrite foldl_app. simpl.
  rewrite lookup_insert_eq. split; [done|]. intros k' Hne. by rewrite lookup_insert_ne.
Qed.

(** What [AddNode]'s transaction leaves under the node's key. *)
Lemma added_stored `{Etcd} `{AdminJson} h c k w text x :
  (if w =? DefaultWeight then stored x.2 = apply_ops (stored x.1) [OpPut (nodeKeyOf h c k) text]
   else edited (gatewayKey h c) (weightEdit k w) [OpPut (nodeKeyOf h c k) text] x) →
  db_kvs (stored x.2) !! nodeKeyOf h c k ≫= (λ v, Some (kv_Value v)) = Some text.
Proof.
  destruct (w =? DefaultWeight); [intros ->; apply (apply_ops_put _ [])|].
  intros (g & g' & gb & _ & _ & _ & ->).
  destruct (apply_ops_put (stored x.1) [OpPut (nodeKeyOf h c k) text] (gatewayKey h c) gb) as [_ Hne].
  rewrite (Hne _ (node_gateway_ne h c k)). simpl. by rewrite lookup_insert_eq.
Qed.

(** What [DeleteNode]'s transaction leaves. *)
Lemma deleted_stored `{Etcd} `{AdminJson} h c k E x :
  edited (gatewayKey h c) E [OpDelete (nodeKeyOf h c k)] x → db_kvs (stored x.2) !! nodeKeyOf h c k = None.
Proof.
  intros (g & g' & gb & _ & _ & _ & ->).
  destruct (apply_ops_put (stored x.1) [OpDelete (nodeKeyOf h c k)] (gatewayKey h c) gb) as [_ Hne].
  rewrite (Hne _ (node_gateway_ne h c k)). simpl. by rewrite lookup_delete_eq.
Qed.

(** ** Switching the leader *)

Section Leader.
Context `{EtcdLaws} `{WriterJson}.

Lemma runs_getCurrentLeader {B : Type} c (f : string + string → prog B) s trace b :
  runs (do! l <- getCurrentLeader c; f l) s trace b → db_ok (stored s) →
  ∃ x l rest, trace = x :: rest ∧ later s x.2 ∧ reads x ∧ runs (f l) x.2 rest b ∧
    ∀ name, l = inr name →
      ∃ v, db_kvs (stored x.2) !! leaderKey c = Some v ∧ kv_Value v = name.
Proof.
  intros Hr Hd. unfold getCurrentLeader in Hr. cbn [prog_bind] in Hr.
  destruct (runs_get _ _ _ _ _ Hr Hd) as (s0 & s1 & x & rest & -> & Hl & E & Hr' & Hx).
  exists (s0, s1). destruct x as [err|l]; simpl in Hr'; [by eexists _, rest|].
  specialize (Hx l eq_refl). unfold got in Hx. simpl.
  destruct (db_kvs (stored s1) !! leaderKey c) as [v|] eqn:Ev; subst l; simpl in *; eexists _, rest;
    split_and!; try done. intros name [= <-]. by exists v.
Qed.

Lemma runs_switchLeader {B : Type} c n (f : option string → prog B) s trace b :
  runs (do! err <- switchLeader c n; f err) s trace b → db_ok (stored s) →
  ∃ pre err s', runs (f err) s' (drop (length pre) trace) b ∧ pre = take (length pre) trace ∧
    (err = None → ∃ a l x, pre = [a; l; x] ∧ reads a ∧ reads l ∧
      is_Some (db_kvs (stored a.2) !! writerKey c n) ∧
      db_kvs (stored x.1) !! leaderKey c = db_kvs (stored l.2) !! leaderKey c ∧
      stored x.2 = apply_ops (stored x.1) [OpPut (leaderKey c) n]).
Proof.
  intros Hr Hd. unfold switchLeader in Hr. cbn [prog_bind] in Hr.
  destruct (runs_get _ _ _ _ _ Hr Hd) as (s0 & s1 & x & rest & -> & [Hd1 _] & E & Hr' & Hx).
  destruct x as [err|l]; [by exists [(s0, s1)], (Some ("failed to check target node: " +:+ err)), s1|].
  specialize (Hx l eq_refl). unfold got in Hx.
  destruct (db_kvs (stored s1) !! writerKey c n) as [v|] eqn:Ev; subst l;
    [|by exists [(s0, s1)], (Some ("target node " +:+ n +:+ " not found or offline")), s1].
  destruct (runs_get _ _ _ _ _ Hr' Hd1) as (s2 & s3 & y & rest' & -> & [Hd3 Hf3] & E' & Hr'' & Hy).
  destruct y as [err|l]; [by exists [(s0, s1); (s2, s3)], (Some ("failed to get current leader: " +:+ err)), s3|].
  specialize (Hy l eq_refl). cbn [prog_bind] in Hr''.
  destruct (runs_txn _ _ _ _ _ _ Hr'' Hd3) as (s4 & s5 & z & rest'' & -> & [Hd4 Hf4] & Hr3 & Hz).
  exists [(s0, s1); (s2, s3); (s4, s5)]. destruct z as [err|[]]; simpl in Hr3; eexists _, s5;
    (split; [done|]); (split; [done|]); try done.
  destruct Hz as [Hc Es]. intros _. exists (s0, s1), (s2, s3), (s4, s5). split_and!; try done.
  apply andb_true_iff in Hc as [Hc _]. rewrite Hy, got_revision in Hc. simpl in Hc. apply Z.eqb_eq in Hc.
  by apply revision_unchanged.
Qed.
End Leader.

(** ** A small deployment *)

(** Encoders for documents of one node: a node is stored as its source, a gateway document
    as the key of its first weight. *)
Definition ex_json : AdminJson := {|
  MarshalNode := λ n, Some (tn_Source n);
  MarshalGateway := λ g, Some (match gd_Weights g with w :: _ => wi_NodeKey w | [] => "" end);
  MarshalMirror := λ m, Some "mirror";
  ParseNode := λ s, Some (mkTargetNode "" 1 "10.0.0.1" 80 1 EVENT_PUT "" 100 s);
  ParseGateway := λ s, Some (mkGatewayDoc (if bool_decide (s = "") then [] else [mkWeightInfo s 50]) None) |}.

Definition ex_writers : WriterJson := {| UnmarshalWriter := λ s, Some (mkWriterNodeInfo s "" "" "" [] "") |}.

Definition ex_handler : Handler :=
  mkHandler "" (UpsertNode (NewRandom (Some NewGatewayStrategy)) "1" NodeTypeState
    (mkNode "a" "10.0.0.1" 80 "10.0.0.1:80" "manual" 100 1 NodeTypeState (Some 0%nat))) NewGatewayStrategy.

(** A node, a writer and a leader. *)
Definition ex_db : db :=
  mkDb 3 {["1/nodes/a" := mkKv "manual" 1 1; "1/writers/w" := mkKv "w" 2 1; "1/writers/leader" := mkKv "v" 3 1]}.

Lemma ex_db_ok : db_ok ex_db.
Proof.
  split; [done|]. intros k v Hv. unfold ex_db in Hv. simpl in Hv.
  apply lookup_insert_Some in Hv as [[_ <-]|[_ Hv]]; [simpl; lia|].
  apply lookup_insert_Some in Hv as [[_ <-]|[_ Hv]]; [simpl; lia|].
  apply lookup_singleton_Some in Hv as [_ <-]. simpl; lia.
Qed.

(** ** Properties *)

(** C5: no edit of a gateway document is lost. However the requests of a call that sets or
    resets a weight or adds, shrinks or deletes a method route interleave with those of
    other clients, the call only reads, except that its last request may replace the document
    stored at that very moment by the call's edit of it, whether or not the call then reports
    an error; a call that reports success has done so. *)
Theorem gateway_edits_atomic `{EtcdLaws} `{AdminJson} h c call s trace r :
  runs (handleCall h c call) s trace r → db_ok (stored s) →
  atomically (gatewayKey h c) (callEdits h c call) (success r) trace.
Proof. apply call_atomic. Qed.

Lemma gateway_edits_atomic_witness :
  let p := @handleCall ex_json ex_handler "1" (CSetWeight "a" "50") in
  success (run_alone p ex_db).1 ∧
  @atomically ref_etcd ex_json "1/gateway" (callEdits ex_handler "1" (CSetWeight "a" "50"))
    (success (run_alone p ex_db).1) (trace_alone p ex_db).
Proof.
  intros p. split; [eexists; vm_compute; reflexivity|].
  exact (@gateway_edits_atomic ref_etcd ref_etcd_laws ex_json ex_handler "1" (CSetWeight "a" "50") ex_db _ _
    (runs_alone p ex_db) ex_db_ok).
Defined.

(** C23: gateway documents stay well formed: whatever the calls, node additions and node
    deletions write, every weight is a percentage, no node is listed twice and no route has
    a nil map; and on such a document adding a route does not panic. *)
Theorem gateway_documents_ok h c g g' :
  gateway_ok g →
  (∀ call, callEdits h c call g g' → gateway_ok g') ∧
  (∀ req, checkNodeRequest req = None → weightEdit (nodeKeyFor req) (an_Weight req) g g' → gateway_ok g') ∧
  (∀ k, deleteEdit k g g' → gateway_ok g') ∧
  (∀ req, ∃ routes, addRoute (gd_Routes g) req = Ret routes).
Proof.
  intros Hg. split_and!.
  - intros call Hc. by eapply callEdits_ok.
  - intros req Hc ->. by apply docSetWeight_ok; [apply checkNodeRequest_weight|].
  - intros k ->. apply docClearMethodRoute_ok, docSetWeight_ok; [unfold DefaultWeight; lia|done].
  - intros req. destruct (addRoute_ok g req Hg) as (routes & Hr & _). by exists routes.
Qed.

Lemma gateway_documents_ok_witness :
  let g := mkGatewayDoc [mkWeightInfo "a" 50] None in
  callEdits ex_handler "1" (CSetWeight "a" "7") g (docSetWeight g "a" 7) ∧ gateway_ok (docSetWeight g "a" 7).
Proof.
  intros g. assert (callEdits ex_handler "1" (CSetWeight "a" "7") g (docSetWeight g "a" 7)) as Hc.
  { exists 7. split_and!; [reflexivity|done|done|eexists; vm_compute; reflexivity|reflexivity]. }
  split; [exact Hc|]. refine (proj1 (gateway_documents_ok ex_handler "1" g _ _) _ Hc).
  constructor; simpl; [by apply Forall_singleton|apply NoDup_singleton|apply map_Forall_empty].
Defined.

(** C22: adding never overwrites. When [AddNode] reports success its node was not in etcd
    right before the transaction and is stored right after as validated, and a weight other
    than the default was in the same revision set in the gateway document of that moment;
    when [AddMirror] does, its mirror was not in etcd and is stored. *)
Theorem additions_create `{EtcdLaws} `{AdminJson} h c s trace r :
  db_ok (stored s) →
  (∀ body, runs (AddNode h c body) s trace r → status r = StatusOK →
   ∃ req bytes pre x, body = Some req ∧ checkNodeRequest req = None ∧
     MarshalNode (newNode req) = Some bytes ∧ trace = pre ++ [x] ∧ Forall reads pre ∧
     let key := nodeKeyOf h c (nodeKeyFor req) in
     db_kvs (stored x.1) !! key = None ∧
     db_kvs (stored x.2) !! key ≫= (λ v, Some (kv_Value v)) = Some bytes ∧
     (an_Weight req ≠ DefaultWeight →
      edited (gatewayKey h c) (weightEdit (nodeKeyFor req) (an_Weight req)) [OpPut key bytes] x)) ∧
  (∀ body, runs (AddMirror h c body) s trace r → status r = StatusCreated →
   ∃ req bytes a x, body = Some req ∧ 0 < am_Port req ≤ 65535 ∧ trace = [a; x] ∧ reads a ∧
     MarshalMirror (mkMirrorTarget "" "" (am_Address req) (am_Port req) (am_RateLimit req) false) = Some bytes ∧
     let key := mirrorKeyOf h c (addrKeyOf (am_Address req) (am_Port req)) in
     db_kvs (stored x.1) !! key = None ∧ stored x.2 = apply_ops (stored x.1) [OpPut key bytes]).
Proof.
  intros Hd. split; [|intros body Hr Hok; by apply (runs_AddMirror h c body s trace r)].
  intros body Hr Hok.
  destruct (runs_AddNode h c body s trace r Hr Hd Hok) as (req & bytes & pre & x & Hb & Hc & Hm & Ht & Hp & Ha & He).
  exists req, bytes, pre, x. split_and!; try done. cbv zeta. split; [done|].
  split; [by apply (added_stored h c _ (an_Weight req))|]. intros Hw. by rewrite (proj2 (Z.eqb_neq _ _) Hw) in He.
Qed.

Lemma additions_create_witness :
  let req := mkAddNodeRequest 1 "" "10.0.0.9" 80 2 50 in
  let p := @AddNode ex_json ex_handler "1" (Some req) in
  status (run_alone p ex_db).1 = StatusOK ∧
  ∃ r bytes pre x, Some req = Some r ∧ checkNodeRequest r = None ∧
    @MarshalNode ex_json (newNode r) = Some bytes ∧ trace_alone p ex_db = pre ++ [x] ∧ Forall (@reads ref_etcd) pre ∧
    let key := nodeKeyOf ex_handler "1" (nodeKeyFor r) in
    db_kvs x.1 !! key = None ∧
    db_kvs x.2 !! key ≫= (λ v, Some (kv_Value v)) = Some bytes ∧
    (an_Weight r ≠ DefaultWeight →
     @edited ref_etcd ex_json (gatewayKey ex_handler "1") (weightEdit (nodeKeyFor r) (an_Weight r))
       [OpPut key bytes] x).
Proof.
  intros req p. assert (status (run_alone p ex_db).1 = StatusOK) as Hs by (vm_compute; reflexivity).
  split; [exact Hs|].
  exact (proj1 (@additions_create ref_etcd ref_etcd_laws ex_json ex_handler "1" ex_db (trace_alone p ex_db)
    (run_alone p ex_db).1 ex_db_ok) (Some req) (runs_alone p ex_db) Hs).
Defined.

(** C24: deleting a node is complete. When [DeleteNode] reports success the node it read was
    a manual one, and one transaction removed its key and replaced the gateway document of
    that moment by one in which the node is in no include or exclude list of any method and,
    when the document listed no node twice, has the default weight; every other node keeps
    its weight and its lists, and a method keeps its route exactly when the route lists
    another node. *)
Theorem DeleteNode_complete `{EtcdLaws} `{AdminJson} h c k s trace r :
  runs (DeleteNode h c k) s trace r → db_ok (stored s) → status r = StatusOK →
  ∃ v node a b x g g', trace = [a; b; x] ∧ reads a ∧ reads b ∧
    db_kvs (stored a.2) !! nodeKeyOf h c k = Some v ∧ ParseNode (kv_Value v) = Some node ∧
    tn_Source node = "manual" ∧
    db_kvs (stored x.2) !! nodeKeyOf h c k = None ∧
    doc_at (stored x.1) (gatewayKey h c) = Some g ∧
    db_kvs (stored x.2) !! gatewayKey h c ≫= (λ v, Some (kv_Value v)) = MarshalGateway g' ∧
    (∀ m k', included g' m k' = (if decide (k' = k) then None else included g m k') ∧
             excluded g' m k' = (if decide (k' = k) then None else excluded g m k')) ∧
    (∀ m, is_Some (default ∅ (gd_Routes g') !! m) ↔
          ∃ k', k' ≠ k ∧ (is_Some (included g m k') ∨ is_Some (excluded g m k'))) ∧
    (NoDup (weight_keys (gd_Weights g)) → ∀ k',
       nodeWeight (weightsOf (gd_Weights g')) k' =
       if decide (k' = k) then DefaultWeight else nodeWeight (weightsOf (gd_Weights g)) k').
Proof.
  intros Hr Hd Hok.
  destruct (runs_DeleteNode h c k s trace r Hr Hd Hok) as (v & node & a & b & x & Ht & Ha & Hb & Hv & Hp & Hs & He).
  pose proof (deleted_stored h c k _ x He) as Hgone.
  destruct He as (g & g' & gb & Hdoc & -> & Hm & Ex). exists v, node, a, b, x, g. eexists. rewrite Hm.
  split_and!; try done; [rewrite Ex; apply apply_ops_put| | |].
  { intros m k'. exact (docClearMethodRoute_listed (docSetWeight g k DefaultWeight) k m k'). }
  { intros m. exact (docClearMethodRoute_kept (docSetWeight g k DefaultWeight) k m). }
  intros Hnd k'. unfold docSetWeight, nodeWeight. simpl. rewrite SetWeight_lookup by done.
  repeat case_decide; subst; done.
Qed.

(** The node has a weight, and one other node has another; both are in the routes of a method. *)
Definition ex_doc : GatewayDoc :=
  mkGatewayDoc [mkWeightInfo "b" 7; mkWeightInfo "a" 50]
    (Some {["m" := mkRouteDoc (Some {["a" := true; "b" := true]}) (Some {["a" := true]})]}).
Definition ex_doc_json : AdminJson := {|
  MarshalNode := λ n, Some (tn_Source n); MarshalGateway := λ g, Some "-"; MarshalMirror := λ m, None;
  ParseNode := λ s, Some (mkTargetNode "" 1 "10.0.0.1" 80 1 EVENT_PUT "" 100 s);
  ParseGateway := λ s, Some ex_doc |}.
Definition ex_doc_db : db := mkDb 2 {["1/nodes/a" := mkKv "manual" 1 1; "1/gateway" := mkKv "doc" 2 1]}.

Lemma ex_doc_db_ok : db_ok ex_doc_db.
Proof.
  split; [done|]. intros k v Hv. unfold ex_doc_db in Hv. simpl in Hv.
  apply lookup_insert_Some in Hv as [[_ <-]|[_ Hv]]; [simpl; lia|].
  apply lookup_singleton_Some in Hv as [_ <-]. simpl; lia.
Qed.

Lemma DeleteNode_complete_witness :
  let p := @DeleteNode ex_doc_json ex_handler "1" "a" in
  ∃ x g', last (trace_alone p ex_doc_db) = Some x ∧ db_kvs x.2 !! "1/nodes/a" = None ∧
    included g' "m" "a" = None ∧ excluded g' "m" "a" = None ∧ included g' "m" "b" = Some true ∧
    nodeWeight (weightsOf (gd_Weights g')) "a" = DefaultWeight ∧ nodeWeight (weightsOf (gd_Weights g')) "b" = 7.
Proof.
  intros p. assert (status (run_alone p ex_doc_db).1 = StatusOK) as Hs by (vm_compute; reflexivity).
  destruct (@DeleteNode_complete ref_etcd ref_etcd_laws ex_doc_json ex_handler "1" "a" ex_doc_db (trace_alone p ex_doc_db)
    (run_alone p ex_doc_db).1 (runs_alone p ex_doc_db) ex_doc_db_ok Hs)
    as (v & node & a & b & x & g & g' & Ht & _ & _ & _ & _ & _ & Hgone & Hg & _ & Hlists & _ & Hweights).
  assert (trace_alone p ex_doc_db = [(ex_doc_db, ex_doc_db); (ex_doc_db, ex_doc_db); (ex_doc_db, (run_alone p ex_doc_db).2)])
    as Et by (vm_compute; reflexivity).
  rewrite Ht in Et. injection Et as -> -> ->.
  assert (g = ex_doc) as -> by (vm_compute in Hg; injection Hg as <-; reflexivity).
  assert (NoDup (weight_keys (gd_Weights ex_doc))) as Hnd by (repeat constructor; set_solver).
  exists (ex_doc_db, (run_alone p ex_doc_db).2), g'. rewrite Ht, !(Hweights Hnd).
  rewrite !(proj1 (Hlists _ _)), !(proj2 (Hlists _ _)).
  split_and!; try (vm_compute; reflexivity).
Defined.

(** C25: a leader switch is atomic. When [SwitchLeader] reports success the named writer had
    a registration when it was checked, nobody changed the leader between reading it and
    replacing it, and the leader is then the named writer. *)
Theorem SwitchLeader_atomic `{EtcdLaws} `{WriterJson} c n s trace r :
  runs (SwitchLeader c (Some n)) s trace r → db_ok (stored s) → w_status r = 200 →
  ∃ o a l x, trace = [o; a; l; x] ∧ Forall reads [o; a; l] ∧ n ≠ "" ∧
    is_Some (db_kvs (stored a.2) !! writerKey c n) ∧
    db_kvs (stored x.1) !! leaderKey c = db_kvs (stored l.2) !! leaderKey c ∧
    db_kvs (stored x.2) !! leaderKey c ≫= (λ v, Some (kv_Value v)) = Some n ∧
    ∀ k, k ≠ leaderKey c → db_kvs (stored x.2) !! k = db_kvs (stored x.1) !! k.
Proof.
  intros Hr Hd Hok. unfold SwitchLeader in Hr.
  case_bool_decide; [destruct Hr as [_ ->]; done|]. case_bool_decide; [destruct Hr as [_ ->]; done|].
  destruct (runs_getCurrentLeader _ _ _ _ _ Hr Hd) as (o & l & rest & -> & [Hd1 _] & Ho & Hr' & _).
  cbv zeta in Hr'. destruct (runs_switchLeader _ _ _ _ _ _ Hr' Hd1) as (pre & err & s' & Hf & Hpre & Hx).
  destruct err as [err|]; destruct Hf as [Hdrop ->]; [done|].
  destruct (Hx eq_refl) as (a & l' & x & -> & Ha & Hl & Hw & Hsame & Es).
  exists o, a, l', x. split_and!; try done.
  - rewrite <- (take_drop 3 rest). simpl in *. rewrite Hdrop, (right_id_L [] (++)). by rewrite <- Hpre.
  - by repeat constructor.
  - rewrite Es. apply (apply_ops_put _ []).
  - intros k Hk. rewrite Es. destruct (apply_ops_put (stored x.1) [] (leaderKey c) n) as [_ Hne]. by apply Hne.
Qed.

Lemma SwitchLeader_atomic_witness :
  let p := SwitchLeader "1" (Some "w") in
  ∃ o a l x, trace_alone p ex_db = [o; a; l; x] ∧ Forall (@reads ref_etcd) [o; a; l] ∧ "w" ≠ "" ∧
    is_Some (db_kvs a.2 !! writerKey "1" "w") ∧
    db_kvs x.1 !! leaderKey "1" = db_kvs l.2 !! leaderKey "1" ∧
    db_kvs x.2 !! leaderKey "1" ≫= (λ v, Some (kv_Value v)) = Some "w" ∧
    ∀ k, k ≠ leaderKey "1" → db_kvs x.2 !! k = db_kvs x.1 !! k.
Proof.
  intros p. assert (w_status (run_alone p ex_db).1 = 200) as Hs by (vm_compute; reflexivity).
  exact (@SwitchLeader_atomic ref_etcd ref_etcd_laws ex_writers "1" "w" ex_db (trace_alone p ex_db)
    (run_alone p ex_db).1 (runs_alone p ex_db) ex_db_ok Hs).
Defined.

(** ** Local mirrors *)

(** The local mirror calls do what discovery would: an accepted [AddLocalMirror] leaves
    the table and the limits as the event loop does for the mirror's published document, an
    accepted [DeleteLocalMirror] as it does for its deletion, and refused calls change
    nothing. *)
Theorem local_mirrors_as_events `{RateLimiter} mm ml c :
  (∀ body r mm' ml', AddLocalMirror mm ml c body = (r, mm', ml') →
   if status r =? StatusCreated then
     ∃ req, body = Some req ∧ am_Address req ≠ "" ∧ 0 < am_Port req ≤ 65535 ∧
       (mm', ml') = handleMirror mm ml (mkMirrorTarget c (addrKeyOf (am_Address req) (am_Port req))
                      (am_Address req) (am_Port req) (am_RateLimit req) false)
   else mm' = mm ∧ ml' = ml) ∧
  (∀ body r mm' ml', DeleteLocalMirror mm ml c body = (r, mm', ml') →
   if status r =? StatusOK then
     ∃ req, body = Some req ∧ dm_Address req ≠ "" ∧ 0 < dm_Port req ≤ 65535 ∧
       (mm', ml') = handleMirror mm ml (mkMirrorTarget c (addrKeyOf (dm_Address req) (dm_Port req))
                      (dm_Address req) (dm_Port req) None true)
   else mm' = mm ∧ ml' = ml).
Proof.
  split; intros body r mm' ml'; unfold AddLocalMirror, DeleteLocalMirror, checkMirror.
  - case_bool_decide; [by intros [= <- <- <-]|]. destruct body as [req|]; simpl; [|by intros [= <- <- <-]].
    case_bool_decide; [by intros [= <- <- <-]|].
    destruct ((am_Port req <=? 0) || (65535 <? am_Port req))%bool eqn:Hp; [by intros [= <- <- <-]|]. b2p.
    intros [= <- <- <-]. simpl. exists req. split_and!; try done; lia.
  - case_bool_decide; [by intros [= <- <- <-]|]. destruct body as [req|]; simpl; [|by intros [= <- <- <-]].
    case_bool_decide; [by intros [= <- <- <-]|].
    destruct ((dm_Port req <=? 0) || (65535 <? dm_Port req))%bool eqn:Hp; [by intros [= <- <- <-]|]. b2p.
    intros [= <- <- <-]. simpl. exists req. split_and!; try done; lia.
Qed.

(** Deleting all local mirrors of a chain keeps their rate limits: a mirror added again
    without a limit is still limited as before. *)
Theorem delete_all_keeps_limits `{RateLimiter} mm ml c req l now :
  c ≠ "" → am_Address req ≠ "" → 0 < am_Port req ≤ 65535 → am_RateLimit req = None →
  ml !! makeKey c (mirrorURLOf (am_Address req) (am_Port req)) = Some l →
  let '(_, mm1) := DeleteAllLocalMirrors mm c in
  let '(r, mm2, ml2) := AddLocalMirror mm1 ml c (Some req) in
  status r = StatusCreated ∧ mirror_lookup mm1 c (addrKeyOf (am_Address req) (am_Port req)) = None ∧
  (Allow ml2 now c (mirrorURLOf (am_Address req) (am_Port req))).1 = (Limiter_Allow l now).1.
Proof.
  intros Hc Ha Hp Hn Hl. unfold DeleteAllLocalMirrors, AddLocalMirror, checkMirror. simpl.
  rewrite !bool_decide_eq_false_2 by done.
  rewrite (proj2 (Z.leb_gt _ _)), (proj2 (Z.ltb_ge _ _)) by lia. simpl. rewrite Hn. simpl. split_and!; [done| |].
  - unfold mirror_lookup, DeleteChainMirrors. by rewrite lookup_delete_eq.
  - unfold Allow. rewrite Hl. by destruct (Limiter_Allow l now).
Qed.

Lemma delete_all_keeps_limits_witness :
  let mm := {["1" := {["10.0.0.9_80" := mkMirrorTarget "1" "10.0.0.9_80" "10.0.0.9" 80 (Some 5) false]}]} in
  let ml : @mirrorLimiter ex_limiter := {[makeKey "1" "http://10.0.0.9:80" := tt]} in
  let '(_, mm1) := DeleteAllLocalMirrors mm "1" in
  let '(r, mm2, ml2) := @AddLocalMirror ex_limiter mm1 ml "1" (Some (mkAddMirrorRequest "10.0.0.9" 80 None)) in
  status r = StatusCreated ∧ mirror_lookup mm1 "1" (addrKeyOf "10.0.0.9" 80) = None ∧
  (@Allow ex_limiter ml2 0 "1" "http://10.0.0.9:80").1 = true.
Proof.
  intros mm ml.
  exact (@delete_all_keeps_limits ex_limiter mm ml "1" (mkAddMirrorRequest "10.0.0.9" 80 None) tt 0
    ltac:(done) ltac:(done) ltac:(done) eq_refl (lookup_singleton_eq _ _)).
Defined.

(** ** Races and gaps the calls leave *)

(** [UpdateNode] puts the node back: when another client deletes the node after the call
    read it, the call still reports success and the node exists again. *)
Theorem update_resurrects_node `{AdminJson} h c k req d v node bytes :
  db_kvs d !! nodeKeyOf h c k = Some v → ParseNode (kv_Value v) = Some node → tn_Source node = "manual" →
  un_IP req ≠ "" → un_Port req = 0 → MarshalNode (node <| tn_Address := un_IP req |>) = Some bytes →
  ∃ a x r, runs (H := ref_etcd) (UpdateNode h c k (Some req)) d [a; x] r ∧ status r = StatusOK ∧
    db_kvs x.1 !! nodeKeyOf h c k = None ∧
    db_kvs x.2 !! nodeKeyOf h c k ≫= (λ v, Some (kv_Value v)) = Some bytes.
Proof.
  intros Hv Hp Hs Hip Hport Hm. set (key := nodeKeyOf h c k) in *.
  set (d1 := apply_ops d [OpDelete key]).
  assert (db_kvs d1 !! key = None) as Hd1.
  { unfold d1, apply_ops. simpl. rewrite bool_decide_eq_true_2 by (by rewrite Hv; eexists). simpl.
    by rewrite lookup_delete_eq. }
  exists (d, d), (d1, apply_ops d1 [OpPut key bytes]). eexists. split_and!.
  - unfold UpdateNode. rewrite (bool_decide_eq_false_2 (un_IP req = "")) by done. simpl.
    exists d, (inr [(key, v)]), d, [(d1, apply_ops d1 [OpPut key bytes])].
    split_and!; [apply others_refl|fold key; by rewrite Hv|done|].
    simpl. rewrite Hp, (bool_decide_eq_true_2 _ Hs), Hport. simpl. simpl in Hm. rewrite Hm.
    exists d1, (inr tt), (apply_ops d1 [OpPut key bytes]), [].
    split_and!; [|done|done|done].
    eapply (others_step (H := ref_etcd) d (RDelete key)); [done|apply others_refl].
  - done.
  - done.
  - apply (apply_ops_put d1 []).
Qed.

Lemma update_resurrects_node_witness :
  ∃ a x r, runs (H := ref_etcd) (@UpdateNode ex_json ex_handler "1" "a" (Some (mkUpdateNodeRequest "10.0.0.2" 0)))
      ex_db [a; x] r ∧ status r = StatusOK ∧
    db_kvs x.1 !! "1/nodes/a" = None ∧ db_kvs x.2 !! "1/nodes/a" ≫= (λ v, Some (kv_Value v)) = Some "manual".
Proof.
  exact (@update_resurrects_node ex_json ex_handler "1" "a" (mkUpdateNodeRequest "10.0.0.2" 0) ex_db
    (mkKv "manual" 1 1) _ _ eq_refl eq_refl eq_refl ltac:(done) eq_refl eq_refl).
Defined.

(** The key of the leader passes for the registration of a writer named [leader]: once a
    chain has a leader, switching to [leader] succeeds, and no registered writer is the
    leader any more. *)
Theorem switch_to_leader_key `{WriterJson} c d v :
  c ≠ "" → db_kvs d !! leaderKey c = Some v →
  let '(r, d') := run_alone (SwitchLeader c (Some "leader")) d in
  w_status r = 200 ∧ db_kvs d' !! leaderKey c ≫= (λ v, Some (kv_Value v)) = Some "leader" ∧
  ∀ ws l, run_alone (GetWriters c) d' = (mkWriterReply 200 (WWriters ws l), d') →
    l = "leader" ∧ Forall (λ w, wn_Status w = "backup") ws.
Proof.
  intros Hc Hv. unfold SwitchLeader. rewrite bool_decide_eq_false_2 by done. simpl.
  change (writerKey c "leader") with (leaderKey c). repeat (rewrite Hv; simpl). rewrite Z.eqb_refl. simpl.
  destruct (apply_ops_put d [] (leaderKey c) "leader") as [Hput _]. simpl in Hput.
  split_and!; [done|done|]. intros ws l. unfold GetWriters. rewrite bool_decide_eq_false_2 by done. simpl.
  rewrite lookup_insert_eq. simpl. intros [= <- <-]. split; [done|].
  apply Forall_fmap, Forall_forall. intros w Hw. apply list_elem_of_omap in Hw as ([key x] & _ & Hw).
  unfold activeWriter in Hw. repeat case_match; try done. simplify_eq. b2p. simpl.
  by rewrite bool_decide_eq_false_2.
Qed.

Lemma switch_to_leader_key_witness :
  let '(r, d') := run_alone (SwitchLeader "1" (Some "leader")) ex_db in
  w_status r = 200 ∧ db_kvs d' !! leaderKey "1" ≫= (λ v, Some (kv_Value v)) = Some "leader" ∧
  ∀ ws l, run_alone (@GetWriters ex_writers "1") d' = (mkWriterReply 200 (WWriters ws l), d') →
    l = "leader" ∧ Forall (λ w, wn_Status w = "backup") ws.
Proof. exact (@switch_to_leader_key ex_writers "1" ex_db (mkKv "v" 3 1) ltac:(done) eq_refl). Defined.
