(* ===== verification/MetricCache.v ===== *)
(** * Metric series and the cache of their handles

    [lb/jsonrpc/metrics/general.go] and [lb/jsonrpc/metrics/bound.go].  The vectors of series
    belong to Prometheus, a parameter; the cache keeps the handles of the series of a label
    tuple, binding each on its first use.  Requests run concurrently: the cache and the
    requests are a transition system whose steps are the loads, stores and critical sections
    of the code.  Observed numbers are kept as the integers the code converts. *)

From stdpp Require Import countable.
From S2P Require Import Prelude GoStrings Config Processors.
Local Open Scope Z_scope.

(** ** The vectors *)

Inductive vec :=
| callsStarted | callsFinished | callsFailed | batchCallsFinished | callsTime | batchCallsTime
| totalJRPCRequest | requestPayloadSizes | responsePayloadSizes | httpStatusCode
| nodeHealthCheckTotal | archiveHashCacheTotal | nodeHealthCheckDuration.

#[export] Instance vec_eq_dec : EqDecision vec.
Proof. solve_decision. Defined.

Definition vecs : list vec :=
  [callsStarted; callsFinished; callsFailed; batchCallsFinished; callsTime; batchCallsTime; totalJRPCRequest;
   requestPayloadSizes; responsePayloadSizes; httpStatusCode; nodeHealthCheckTotal; archiveHashCacheTotal;
   nodeHealthCheckDuration].

#[export] Instance vec_countable : Countable vec.
Proof.
  refine (inj_countable (λ v, from_option fst 0%nat (list_find (v =.) vecs)) (λ n, vecs !! n) _).
  by intros [].
Defined.

Definition newLabelNames (labelNames name : list string) : list string := labelNames ++ name.
Definition commonLabelNames : list string := ["host"; "target"; "chain_id"; "chain_version"].
Definition methodCommonLabelNames : list string := newLabelNames commonLabelNames ["method"].
Definition methodSourceDappCommonLabelNames : list string := newLabelNames methodCommonLabelNames ["sourcedapp"].

(** The label names each vector was declared with. *)
Definition vecLabels (v : vec) : list string :=
  match v with
  | callsStarted => methodSourceDappCommonLabelNames
  | callsFinished => methodCommonLabelNames
  | callsFailed =>
      newLabelNames methodCommonLabelNames ["status_code"; "upstream_related"; "reason"; "node_addr"]
  | batchCallsFinished => commonLabelNames
  | callsTime => methodCommonLabelNames
  | batchCallsTime => commonLabelNames
  | totalJRPCRequest => commonLabelNames
  | requestPayloadSizes => methodCommonLabelNames
  | responsePayloadSizes => methodCommonLabelNames
  | httpStatusCode => newLabelNames commonLabelNames ["method"; "status_code"]
  | nodeHealthCheckTotal => ["chain_id"; "node_key"; "status"]
  | archiveHashCacheTotal => ["chain_id"; "event"]
  | nodeHealthCheckDuration => ["chain_id"; "node_key"; "status"]
  end.

Inductive sample := Inc | Observe (x : Z).

(** A series: a vector and the values of its labels. *)
Definition serie : Type := vec * list string.

(** ** Prometheus *)

(** [WithLabelValues] panics when the number of values is not that of the names. *)
Class Prometheus := {
  Registry : Type;
  Metric : Type;
  WithLabelValues : Registry → vec → list string → go (Registry * Metric);
  Update : Registry → Metric → sample → Registry }.

(** What a registry holds, and which series a handle belongs to.  Asking for a series creates
    it when it is new; an update reaches the series of its handle. *)
Class PrometheusLaws `{Prometheus} := {
  series : Registry → gmap serie (list sample);
  names : Metric → serie;
  with_labels r v ls : length ls = length (vecLabels v) →
    ∃ r' m, WithLabelValues r v ls = Ret (r', m) ∧ names m = (v, ls) ∧
      series r' = match series r !! (v, ls) with Some _ => series r | None => <[(v, ls) := []]> (series r) end;
  update_ok r m x : is_Some (series r !! names m) →
    series (Update r m x) = alter (λ l, l ++ [x]) (names m) (series r) }.

(** ** Label tuples *)

#[export] Instance Labels_eq_dec : EqDecision Labels.
Proof. solve_decision. Defined.
#[export] Instance Labels_countable : Countable Labels.
Proof.
  refine (inj_countable' (λ l, (l_host l, l_target l, l_chainID l, l_chainVersion l))
    (λ '(a, b, c, d), mkLabels a b c d) _). by intros [].
Defined.

Record methodMetricKey := mkMethodMetricKey { k_labels : Labels; k_method : string }.
#[export] Instance methodMetricKey_eq_dec : EqDecision methodMetricKey.
Proof. solve_decision. Defined.
#[export] Instance methodMetricKey_countable : Countable methodMetricKey.
Proof.
  refine (inj_countable' (λ k, (k_labels k, k_method k)) (λ '(l, m), mkMethodMetricKey l m) _). by intros [].
Defined.

Definition commonValues (l : Labels) : list string := [l_host l; l_target l; l_chainID l; l_chainVersion l].

(** The fields of [methodHandles] that are bound once. *)
Inductive field := total | finished | batchFinished | callsDuration | batchDuration | requestSize | responseSize.
#[export] Instance field_eq_dec : EqDecision field.
Proof. solve_decision. Defined.

Definition fields : list field :=
  [total; finished; batchFinished; callsDuration; batchDuration; requestSize; responseSize].
#[export] Instance field_countable : Countable field.
Proof.
  refine (inj_countable (λ v, from_option fst 0%nat (list_find (v =.) fields)) (λ n, fields !! n) _).
  by intros [].
Defined.

(** The series each field is bound to. *)
Definition bindField (k : methodMetricKey) (f : field) : serie :=
  let common := commonValues (k_labels k) in
  match f with
  | total => (totalJRPCRequest, common)
  | finished => (callsFinished, common ++ [k_method k])
  | batchFinished => (batchCallsFinished, common)
  | callsDuration => (callsTime, common ++ [k_method k])
  | batchDuration => (batchCallsTime, common)
  | requestSize => (requestPayloadSizes, common ++ [k_method k])
  | responseSize => (responsePayloadSizes, common ++ [k_method k])
  end.

Definition httpStatus (k : methodMetricKey) (statusCode : Z) : serie :=
  let method := if bool_decide (k_method k = "") then "batch" else k_method k in
  (httpStatusCode, commonValues (k_labels k) ++ [method; Itoa statusCode]).

(** ** What requests record *)

Inductive call :=
| Direct (s : serie) (x : sample)            (** through the vector *)
| Use (f : field) (x : sample)               (** through a field of the handles *)
| Status (statusCode : Z).                   (** through the map of status codes *)

Definition FormatBool (b : bool) : string := if b then "true" else "false".
Definition Milliseconds (duration : Z) : Z := Z.quot duration Millisecond.

Definition IncrCallsStarted (m : Labels) (method sourcedapp : string) : call :=
  Direct (callsStarted, commonValues m ++ [method; sourcedapp]) Inc.
Definition IncrCallsFailed (m : Labels) (code : Z) (method : string) (upstreamRelated : bool)
    (reason nodeAddr : string) : call :=
  Direct (callsFailed, commonValues m ++ [method; Itoa code; FormatBool upstreamRelated; reason; nodeAddr]) Inc.
Definition IncrNodeHealthCheckTotal (chainID nodeKey status : string) : call :=
  Direct (nodeHealthCheckTotal, [chainID; nodeKey; status]) Inc.
Definition ObserveNodeHealthCheckDuration (chainID nodeKey status : string) (duration : Z) : call :=
  Direct (nodeHealthCheckDuration, [chainID; nodeKey; status]) (Observe (Milliseconds duration)).
Definition IncrArchiveHashCache (chainID event : string) : call :=
  Direct (archiveHashCacheTotal, [chainID; event]) Inc.

Definition IncrTotalJRPCRequest : call := Use total Inc.
Definition IncrCallsFinished : call := Use finished Inc.
Definition IncrBatchCallsFinished : call := Use batchFinished Inc.
Definition ObCallsTime (duration : Z) : call := Use callsDuration (Observe (Milliseconds duration)).
Definition ObBatchCallsTime (duration : Z) : call := Use batchDuration (Observe (Milliseconds duration)).
Definition ObRequestPayloadSizes (size : Z) : call := Use requestSize (Observe size).
Definition ObResponsePayloadSizes (size : Z) : call := Use responseSize (Observe size).
Definition IncrHTTPStatusCode (statusCode : Z) : call := Status statusCode.

(** What a call records, cache or no cache. *)
Definition meaning (k : methodMetricKey) (c : call) : serie * sample :=
  match c with
  | Direct s x => (s, x)
  | Use f x => (bindField k f, x)
  | Status code => (httpStatus k code, Inc)
  end.

(** A call has a value for each label of its vector. *)
Definition call_ok (c : call) : Prop :=
  match c with Direct (v, ls) _ => length ls = length (vecLabels v) | _ => True end.

(** ** The cache *)

Definition maxMethodMetricEntries : Z := 16 * 1024.
Definition maxMethodMetricLabelBytes : Z := 1024.

Section Cache.
Context `{Prometheus}.

Record methodHandles := mkMethodHandles { bound : gmap field Metric; httpStatuses : gmap Z Metric }.

(** [sync.Map] entries point into [heap]. *)
Record methodMetricCache := mkCache {
  entries : gmap methodMetricKey nat; size_ : Z; limit : Z; full : bool;
  heap : list methodHandles; registry : Registry }.

#[export] Instance cache_expands : Expands methodMetricCache := λ c,
  mkCache (entries c) (size_ c) (limit c) (full c) (heap c) (registry c).

(** Nothing is cached yet, on a registry. *)
Definition methodMetrics (r : Registry) : methodMetricCache := mkCache ∅ 0 maxMethodMetricEntries false [] r.

Definition labelBytes (key : methodMetricKey) : Z :=
  Z.of_nat (len (l_host (k_labels key)) + len (l_target (k_labels key)) + len (l_chainID (k_labels key))
            + len (l_chainVersion (k_labels key)) + len (k_method key)).

(** [handlesFor] up to the lock: [Some] is an early return. *)
Definition fastLookup (cache : methodMetricCache) (key : methodMetricKey) : option (option nat) :=
  if maxMethodMetricLabelBytes <? labelBytes key then Some None else
  match entries cache !! key with
  | Some existing => Some (Some existing)
  | None => if full cache then Some None else None
  end.

(** [handlesFor] under the lock. *)
Definition admitKey (cache : methodMetricCache) (key : methodMetricKey) : option nat * methodMetricCache :=
  match entries cache !! key with
  | Some existing => (Some existing, cache)
  | None =>
      if limit cache <=? size_ cache then (None, cache <| full := true |>) else
      let handles := length (heap cache) in
      (Some handles,
       cache <| heap := heap cache ++ [mkMethodHandles ∅ ∅] |> <| entries := <[key := handles]> (entries cache) |>
             <| size_ := size_ cache + 1 |>)
  end.

(** [MethodMetrics]: a tuple and its handles, [None] when it is not cached. *)
Record MethodMetrics := mkMethodMetrics { m_key : methodMetricKey; m_handles : option nat }.

Definition withLabels (cache : methodMetricCache) (s : serie) : go (methodMetricCache * Metric) :=
  let! '(r, m) := WithLabelValues (registry cache) s.1 s.2 in Ret (cache <| registry := r |>, m).

Definition set_heap (cache : methodMetricCache) (p : nat) (h : methodHandles) : methodMetricCache :=
  cache <| heap := <[p := h]> (heap cache) |>.

(** [metricHandle.get]: the first use binds the field. *)
Definition get (cache : methodMetricCache) (p : nat) (f : field) (s : serie) : go (methodMetricCache * Metric) :=
  match heap cache !! p with
  | None => Panic
  | Some h =>
      match bound h !! f with
      | Some metric => Ret (cache, metric)
      | None =>
          let! '(cache, metric) := withLabels cache s in
          Ret (set_heap cache p (mkMethodHandles (<[f := metric]> (bound h)) (httpStatuses h)), metric)
      end
  end.

(** The request's next move once it has its metric: record, or store the counter first. *)
Inductive phase :=
| Storing (statusCode : Z) (metric : Metric)
| Recording (metric : Metric) (x : sample).

(** The first step of a call. *)
Definition beginCall (cache : methodMetricCache) (m : MethodMetrics) (c : call) : go (methodMetricCache * phase) :=
  match c with
  | Direct s x => let! '(cache, metric) := withLabels cache s in Ret (cache, Recording metric x)
  | Use f x =>
      let s := bindField (m_key m) f in
      let! '(cache, metric) := match m_handles m with
                               | None => withLabels cache s
                               | Some p => get cache p f s
                               end in
      Ret (cache, Recording metric x)
  | Status code =>
      let s := httpStatus (m_key m) code in
      match m_handles m with
      | None => let! '(cache, metric) := withLabels cache s in Ret (cache, Recording metric Inc)
      | Some p =>
          match heap cache !! p with
          | None => Panic
          | Some h =>
              match httpStatuses h !! code with
              | Some counter => Ret (cache, Recording counter Inc)
              | None => let! '(cache, metric) := withLabels cache s in Ret (cache, Storing code metric)
              end
          end
      end
  end.

(** [LoadOrStore] of the counter. *)
Definition storeStatus (cache : methodMetricCache) (m : MethodMetrics) (code : Z) (metric : Metric)
    : methodMetricCache * phase :=
  match m_handles m with
  | None => (cache, Recording metric Inc)
  | Some p =>
      match heap cache !! p with
      | None => (cache, Recording metric Inc)
      | Some h =>
          match httpStatuses h !! code with
          | Some existing => (cache, Recording existing Inc)
          | None => (set_heap cache p (mkMethodHandles (bound h) (<[code := metric]> (httpStatuses h))),
                     Recording metric Inc)
          end
      end
  end.

(** ** Concurrent requests *)

Inductive thread :=
| Looking (key : methodMetricKey)                      (** in [ForMethod], before the lock *)
| Locked (key : methodMetricKey)                       (** waiting for the lock *)
| Running (m : MethodMetrics)                          (** between calls *)
| InCall (m : MethodMetrics) (c : call) (p : phase)    (** inside one *)
| Crashed.

(** The log has what the calls meant to record, in the order they did. *)
Record world := mkWorld_ {
  cache : methodMetricCache; threads : gmap nat thread; log : list (serie * sample) }.

Inductive step : world → world → Prop :=
| step_spawn w i key :
    threads w !! i = None →
    step w (mkWorld_ (cache w) (<[i := Looking key]> (threads w)) (log w))
| step_lookup w i key r :
    threads w !! i = Some (Looking key) → fastLookup (cache w) key = Some r →
    step w (mkWorld_ (cache w) (<[i := Running (mkMethodMetrics key r)]> (threads w)) (log w))
| step_miss w i key :
    threads w !! i = Some (Looking key) → fastLookup (cache w) key = None →
    step w (mkWorld_ (cache w) (<[i := Locked key]> (threads w)) (log w))
| step_admit w i key r c :
    threads w !! i = Some (Locked key) → admitKey (cache w) key = (r, c) →
    step w (mkWorld_ c (<[i := Running (mkMethodMetrics key r)]> (threads w)) (log w))
| step_begin w i m k c p :
    threads w !! i = Some (Running m) → call_ok k → beginCall (cache w) m k = Ret (c, p) →
    step w (mkWorld_ c (<[i := InCall m k p]> (threads w)) (log w))
| step_panic w i m k :
    threads w !! i = Some (Running m) → call_ok k → beginCall (cache w) m k = Panic →
    step w (mkWorld_ (cache w) (<[i := Crashed]> (threads w)) (log w))
| step_store w i m k code metric c p :
    threads w !! i = Some (InCall m k (Storing code metric)) → storeStatus (cache w) m code metric = (c, p) →
    step w (mkWorld_ c (<[i := InCall m k p]> (threads w)) (log w))
| step_record w i m k metric x c :
    threads w !! i = Some (InCall m k (Recording metric x)) →
    c = (cache w) <| registry := Update (registry (cache w)) metric x |> →
    step w (mkWorld_ c (<[i := Running m]> (threads w)) (log w ++ [meaning (m_key m) k]))
| step_finish w i m :
    threads w !! i = Some (Running m) →
    step w (mkWorld_ (cache w) (delete i (threads w)) (log w)).

Inductive reachable (r : Registry) : world → Prop :=
| reachable_init : reachable r (mkWorld_ (methodMetrics r) ∅ [])
| reachable_step w w' : reachable r w → step w w' → reachable r w'.
End Cache.

(** ** Invariants *)

Section Proofs.
Context `{PrometheusLaws}.

(** [m] is the handle of an existing series. *)
Definition live (r : Registry) (m : Metric) (s : serie) : Prop := names m = s ∧ is_Some (series r !! s).

(** [r'] is [r] after the series [s] was asked for. *)
Definition touched (r : Registry) (s : serie) (r' : Registry) : Prop :=
  series r' = match series r !! s with Some _ => series r | None => <[s := []]> (series r) end.

Lemma touched_content r s r' id : touched r s r' → default [] (series r' !! id) = default [] (series r !! id).
Proof.
  intros ->. destruct (series r !! s) eqn:E; [done|]. destruct (decide (s = id)) as [->|].
  - by rewrite lookup_insert_eq, E.
  - by rewrite lookup_insert_ne.
Qed.

Lemma touched_dom r s r' id : touched r s r' → is_Some (series r' !! id) ↔ is_Some (series r !! id) ∨ id = s.
Proof.
  intros ->. destruct (series r !! s) eqn:E.
  - split; [by left|]. intros [?| ->]; [done|by eexists].
  - rewrite lookup_insert_is_Some'. naive_solver.
Qed.

Lemma touched_self r s : is_Some (series r !! s) → touched r s r.
Proof. intros [x Hx]. unfold touched. by rewrite Hx. Qed.

Lemma touched_live r s r' m id : touched r s r' → live r m id → live r' m id.
Proof. intros Ht [Hn Hs]. split; [done|]. apply (touched_dom _ _ _ id Ht). by left. Qed.

Definition handles_ok (r : Registry) (k : methodMetricKey) (h : methodHandles) : Prop :=
  (∀ f m, bound h !! f = Some m → live r m (bindField k f)) ∧
  (∀ code m, httpStatuses h !! code = Some m → live r m (httpStatus k code)).

Record cache_ok (c : methodMetricCache) : Prop := {
  c_size : size_ c = Z.of_nat (size (entries c));
  c_limit : size_ c ≤ limit c;
  c_full : full c = true → size_ c = limit c;
  c_bytes k p : entries c !! k = Some p → labelBytes k ≤ maxMethodMetricLabelBytes;
  c_inj k k' p : entries c !! k = Some p → entries c !! k' = Some p → k = k';
  c_handles k p : entries c !! k = Some p → ∃ h, heap c !! p = Some h ∧ handles_ok (registry c) k h }.

Definition mm_ok (c : methodMetricCache) (m : MethodMetrics) : Prop :=
  ∀ p, m_handles m = Some p → entries c !! m_key m = Some p.

Definition phase_ok (r : Registry) (key : methodMetricKey) (k : call) (p : phase) : Prop :=
  match p with
  | Storing code metric => k = Status code ∧ live r metric (httpStatus key code)
  | Recording metric x => (meaning key k).2 = x ∧ live r metric (meaning key k).1
  end.

Definition thread_ok (c : methodMetricCache) (t : thread) : Prop :=
  match t with
  | Looking _ => True
  | Locked key => labelBytes key ≤ maxMethodMetricLabelBytes
  | Running m => mm_ok c m
  | InCall m k p => mm_ok c m ∧ phase_ok (registry c) (m_key m) k p
  | Crashed => False
  end.

(** The cache never forgets an entry nor the registry a series. *)
Definition extends (c c' : methodMetricCache) : Prop :=
  entries c ⊆ entries c' ∧ ∀ s, is_Some (series (registry c) !! s) → is_Some (series (registry c') !! s).

Lemma extends_refl c : extends c c.
Proof. by split. Qed.

Lemma live_extends c c' m s : extends c c' → live (registry c) m s → live (registry c') m s.
Proof. intros [_ He] [Hn Hs]. split; [done|]. by apply He. Qed.

Lemma thread_extends c c' t : extends c c' → thread_ok c t → thread_ok c' t.
Proof.
  intros He. assert (∀ m, mm_ok c m → mm_ok c' m) as Hm.
  { intros m Hm p Hp. destruct He as [He _]. apply (lookup_weaken (entries c)); [by apply Hm|done]. }
  destruct t as [key|key|m|m k p|]; simpl; [done|done|auto| |done].
  intros [Ha Hb]. split; [auto|]. destruct p; simpl in *; destruct Hb; (split; [done|]); by eapply live_extends.
Qed.

(** *** Binding a series *)

Lemma bindField_arity k f : length (bindField k f).2 = length (vecLabels (bindField k f).1).
Proof. by destruct f. Qed.

Lemma handles_touched r s r' k h : touched r s r' → handles_ok r k h → handles_ok r' k h.
Proof. intros Ht [Hb Hs]. split; intros; eapply touched_live; eauto. Qed.

(** The registry of a sound cache may gain a series. *)
Lemma registry_ok c r s : cache_ok c → touched (registry c) s r → cache_ok (c <| registry := r |>).
Proof.
  intros [] Ht. constructor; simpl; try done. intros k p Hk.
  destruct (c_handles0 k p Hk) as (h & Hh & Hok). exists h. split; [done|]. by eapply handles_touched.
Qed.

(** A sound cache may have the handles of a tuple replaced by sound ones. *)
Lemma set_heap_ok c k p h :
  cache_ok c → entries c !! k = Some p → handles_ok (registry c) k h → cache_ok (set_heap c p h).
Proof.
  intros [] Hk Hh. constructor; simpl; try done. intros k' p' Hk'.
  destruct (c_handles0 k' p' Hk') as (h' & Hh' & Hok'). destruct (decide (p = p')) as [->|].
  - assert (k' = k) as -> by (by eapply c_inj0). exists h. split; [|done].
    apply list_lookup_insert_eq, lookup_lt_is_Some. by eexists.
  - exists h'. by rewrite list_lookup_insert_ne.
Qed.

Lemma withLabels_ok c s :
  cache_ok c → length s.2 = length (vecLabels s.1) →
  ∃ r m, withLabels c s = Ret (c <| registry := r |>, m) ∧ touched (registry c) s r ∧ names m = s ∧
    cache_ok (c <| registry := r |>).
Proof.
  intros Hc Hl. destruct s as [v ls]. destruct (with_labels (registry c) v ls Hl) as (r & m & E & Hn & Ht).
  exists r, m. unfold withLabels. simpl. rewrite E. simpl. split_and!; try done. by eapply registry_ok.
Qed.

Lemma touched_names r s r' m : touched r s r' → names m = s → live r' m s.
Proof. intros Ht Hn. split; [done|]. apply (touched_dom _ _ _ s Ht). by right. Qed.

Lemma get_ok c p f k :
  cache_ok c → entries c !! k = Some p →
  ∃ c' m, get c p f (bindField k f) = Ret (c', m) ∧ cache_ok c' ∧ entries c' = entries c ∧
    touched (registry c) (bindField k f) (registry c') ∧ live (registry c') m (bindField k f).
Proof.
  intros Hc Hk. destruct (c_handles c Hc k p Hk) as (h & Hh & [Hb Hs]). unfold get. rewrite Hh.
  destruct (bound h !! f) as [m|] eqn:E.
  - exists c, m. split_and!; try done; [|by apply Hb]. apply touched_self. by apply (Hb f m).
  - destruct (withLabels_ok c (bindField k f) Hc (bindField_arity k f)) as (r & m & -> & Ht & Hn & Hc').
    simpl. eexists _, m. split_and!; [done| |done|done|by eapply touched_names].
    apply (set_heap_ok _ k); [done|done|]. split; simpl.
    + intros f' m' [[<- <-]|[_ Hf]]%lookup_insert_Some; [by eapply touched_names|].
      eapply touched_live; [done|by apply Hb].
    + intros code m' Hm. eapply touched_live; [done|by apply Hs].
Qed.

(** *** The steps of a call *)

Lemma beginCall_ok c m k :
  cache_ok c → mm_ok c m → call_ok k →
  ∃ c' p, beginCall c m k = Ret (c', p) ∧ cache_ok c' ∧ entries c' = entries c ∧
    touched (registry c) (meaning (m_key m) k).1 (registry c') ∧ phase_ok (registry c') (m_key m) k p.
Proof.
  intros Hc Hm Hk. destruct k as [s x|f x|code]; simpl.
  - destruct s as [v ls]. destruct (withLabels_ok c (v, ls) Hc Hk) as (r & metric & -> & Ht & Hn & Hc').
    simpl. eexists _, _. split_and!; try done. simpl. split; [done|by eapply touched_names].
  - destruct (m_handles m) as [p|] eqn:Hp.
    + destruct (get_ok c p f (m_key m) Hc (Hm p Hp)) as (c' & metric & -> & Hc' & He & Ht & Hl). simpl.
      eexists _, _. by split_and!.
    + destruct (withLabels_ok c _ Hc (bindField_arity (m_key m) f)) as (r & metric & -> & Ht & Hn & Hc').
      simpl. eexists _, _. split_and!; try done. simpl. split; [done|by eapply touched_names].
  - destruct (m_handles m) as [p|] eqn:Hp.
    + destruct (c_handles c Hc _ p (Hm p Hp)) as (h & -> & [_ Hs]).
      destruct (httpStatuses h !! code) as [counter|] eqn:E.
      * apply Hs in E. eexists _, _. split_and!; try done. apply touched_self. by destruct E.
      * destruct (withLabels_ok c (httpStatus (m_key m) code) Hc eq_refl) as (r & metric & -> & Ht & Hn & Hc').
        simpl. eexists _, _. split_and!; try done. simpl. split; [done|by eapply touched_names].
    + destruct (withLabels_ok c (httpStatus (m_key m) code) Hc eq_refl) as (r & metric & -> & Ht & Hn & Hc').
      simpl. eexists _, _. split_and!; try done. simpl. split; [done|by eapply touched_names].
Qed.

Lemma storeStatus_ok c m k code metric c' p :
  cache_ok c → mm_ok c m → phase_ok (registry c) (m_key m) k (Storing code metric) →
  storeStatus c m code metric = (c', p) →
  cache_ok c' ∧ entries c' = entries c ∧ registry c' = registry c ∧ phase_ok (registry c') (m_key m) k p.
Proof.
  intros Hc Hm [-> Hl] Hs. unfold storeStatus in Hs. destruct (m_handles m) as [q|] eqn:Hq; [|by simplify_eq].
  specialize (Hm q Hq). destruct (c_handles c Hc _ q Hm) as (h & Hh & Hok). rewrite Hh in Hs.
  destruct (httpStatuses h !! code) as [existing|] eqn:E; simplify_eq.
  - split_and!; try done. simpl. split; [done|]. by apply Hok.
  - split_and!; try done. apply (set_heap_ok _ (m_key m)); [done|done|]. destruct Hok as [Hb Hst]. split; [done|].
    simpl. intros code' m' [[<- <-]|[_ Hf]]%lookup_insert_Some; [done|by apply Hst].
Qed.

Lemma admitKey_ok c key r c' :
  cache_ok c → labelBytes key ≤ maxMethodMetricLabelBytes → admitKey c key = (r, c') →
  cache_ok c' ∧ extends c c' ∧ registry c' = registry c ∧ mm_ok c' (mkMethodMetrics key r).
Proof.
  intros Hc Hb Ha. unfold admitKey in Ha. destruct (entries c !! key) as [p|] eqn:E.
  { simplify_eq. split_and!; [done|apply extends_refl|done|]. intros p' [= <-]. done. }
  destruct (limit c <=? size_ c) eqn:Hl; b2p; simplify_eq.
  { split_and!; [|by split|done|done]. destruct Hc. constructor; simpl; try done. intros _. lia. }
  destruct Hc. split_and!; [|split; simpl; [by apply insert_subseteq|done]|done|].
  - constructor; simpl; try lia.
    + rewrite map_size_insert_None by done. lia.
    + intros Hf. specialize (c_full0 Hf). lia.
    + intros k p [[<- _]|[_ Hk]]%lookup_insert_Some; [done|by eapply c_bytes0].
    + assert (∀ k p, entries c !! k = Some p → p < length (heap c))%nat as Hlt.
      { intros k p Hk. destruct (c_handles0 k p Hk) as (h & Hh & _). by eapply lookup_lt_Some. }
      intros k k' p [[<- <-]|[? Hk]]%lookup_insert_Some [[<- Hp]|[? Hk']]%lookup_insert_Some; try done.
      * apply Hlt in Hk'. lia.
      * subst. apply Hlt in Hk. lia.
      * by eapply c_inj0.
    + intros k p [[<- <-]|[_ Hk]]%lookup_insert_Some.
      * eexists. split; [apply list_lookup_middle; done|]. split; simpl; intros *; by rewrite lookup_empty.
      * destruct (c_handles0 k p Hk) as (h & Hh & Hok). exists h. split; [by apply lookup_app_l_Some|done].
  - intros p [= <-]. simpl. apply lookup_insert_eq.
Qed.

(** *** The whole *)

(** What was recorded for a series. *)
Definition samples (id : serie) (l : list (serie * sample)) : list sample := (filter (λ e, e.1 = id) l).*2.

Lemma samples_app id l s x : samples id (l ++ [(s, x)]) = samples id l ++ (if decide (s = id) then [x] else []).
Proof. unfold samples. rewrite filter_app, fmap_app, filter_cons. simpl. by case_decide. Qed.

(** A request is in a call that records into the series. *)
Definition recording (w : world) (id : serie) : Prop :=
  ∃ i m k p, threads w !! i = Some (InCall m k p) ∧ (meaning (m_key m) k).1 = id.

Record world_ok (r0 : Registry) (w : world) : Prop := {
  w_cache : cache_ok (cache w);
  w_limit : limit (cache w) = maxMethodMetricEntries;
  w_threads i t : threads w !! i = Some t → thread_ok (cache w) t;
  w_content id : default [] (series (registry (cache w)) !! id) =
                 default [] (series r0 !! id) ++ samples id (log w);
  w_dom id : is_Some (series (registry (cache w)) !! id) →
             is_Some (series r0 !! id) ∨ id ∈ (log w).*1 ∨ recording w id }.

(** A step of one request that leaves the registry's contents alone. *)
Lemma unrecorded_step r0 w i t c :
  world_ok r0 w → cache_ok c → limit c = limit (cache w) → extends (cache w) c → thread_ok c t →
  (∀ id, default [] (series (registry c) !! id) = default [] (series (registry (cache w)) !! id)) →
  (∀ id, is_Some (series (registry c) !! id) → is_Some (series (registry (cache w)) !! id) ∨
     ∃ m k p, t = InCall m k p ∧ (meaning (m_key m) k).1 = id) →
  (∀ m k p, threads w !! i = Some (InCall m k p) → ∃ p', t = InCall m k p') →
  world_ok r0 (mkWorld_ c (<[i := t]> (threads w)) (log w)).
Proof.
  intros [Hc Hl Ht Hcont Hd] Hc' Hl' He Hth Hsame Hdom Hkeep. constructor; simpl; [done|congruence| | |].
  - intros j u [[_ <-]|[_ Hj]]%lookup_insert_Some; [done|]. eapply thread_extends; [done|by eapply Ht].
  - intros id. by rewrite Hsame.
  - intros id Hid. apply Hdom in Hid as [Hid|(m & k & p & -> & Hm)].
    + apply Hd in Hid as [?|[?|(j & m & k & p & Hj & Hm)]]; [by left|by right; left|]. right. right.
      destruct (decide (i = j)) as [->|].
      * destruct (Hkeep m k p Hj) as [p' ->]. exists j, m, k, p'. simpl. by rewrite lookup_insert_eq.
      * exists j, m, k, p. simpl. by rewrite lookup_insert_ne.
    + right. right. exists i, m, k, p. simpl. by rewrite lookup_insert_eq.
Qed.

(** One that leaves the whole cache alone. *)
Lemma idle_step r0 w i t :
  world_ok r0 w → thread_ok (cache w) t → (∀ m k p, threads w !! i ≠ Some (InCall m k p)) →
  world_ok r0 (mkWorld_ (cache w) (<[i := t]> (threads w)) (log w)).
Proof.
  intros Hw Ht Hi. apply unrecorded_step; try done; [by destruct Hw|by left|].
  intros m k p Hk. by destruct (Hi m k p).
Qed.

Lemma fastLookup_ok c key :
  match fastLookup c key with
  | Some r => mm_ok c (mkMethodMetrics key r)
  | None => labelBytes key ≤ maxMethodMetricLabelBytes
  end.
Proof.
  unfold fastLookup. destruct (_ <? _) eqn:Hb; b2p; [by intros ? [=]|].
  destruct (entries c !! key) as [p|] eqn:E; [by intros ? [= <-]|].
  destruct (full c); [by intros ? [=]|lia].
Qed.

Lemma record_step r0 w i m k metric x c :
  world_ok r0 w → threads w !! i = Some (InCall m k (Recording metric x)) →
  c = (cache w) <| registry := Update (registry (cache w)) metric x |> →
  world_ok r0 (mkWorld_ c (<[i := Running m]> (threads w)) (log w ++ [meaning (m_key m) k])).
Proof.
  intros [Hc Hl Ht Hcont Hd] Hi ->. destruct (Ht _ _ Hi) as [Hm [Hx [Hn Hlive]]].
  destruct (meaning (m_key m) k) as [s y] eqn:Hmean. simpl in *. subst y.
  pose proof Hlive as Hlive'. rewrite <- Hn in Hlive'. apply update_ok with (x := x) in Hlive' as Hu. rewrite Hn in Hu.
  assert (∀ id, is_Some (series (Update (registry (cache w)) metric x) !! id) ↔
                is_Some (series (registry (cache w)) !! id)) as Hdom.
  { intros id. rewrite Hu. apply lookup_alter_is_Some. }
  assert (extends (cache w) ((cache w) <| registry := Update (registry (cache w)) metric x |>)) as He.
  { split; [done|]. intros id. simpl. apply Hdom. }
  constructor; simpl.
  - destruct Hc. constructor; simpl; try done. intros key p Hk.
    destruct (c_handles0 key p Hk) as (h & Hh & [Hb Hs]). exists h. split; [done|].
    split; intros; apply (live_extends _ _ _ _ He); auto.
  - done.
  - intros j u [[_ <-]|[_ Hj]]%lookup_insert_Some; [done|]. eapply thread_extends; [done|by eapply Ht].
  - intros id. rewrite samples_app, Hu, (assoc_L (++)), <- Hcont. destruct (decide (s = id)) as [->|].
    + rewrite lookup_alter_eq. destruct Hlive as [l ->]. done.
    + by rewrite lookup_alter_ne, (right_id_L [] (++)).
  - intros id [?|[?|(j & m' & k' & p & Hj & Hm')]]%Hdom%Hd; [by left|right; left; set_solver|].
    right. destruct (decide (i = j)) as [->|].
    + left. simplify_eq. rewrite fmap_app, Hmean. simpl. set_solver.
    + right. exists j, m', k', p. simpl. by rewrite lookup_insert_ne.
Qed.

Lemma step_ok r0 w w' : world_ok r0 w → step w w' → world_ok r0 w'.
Proof.
  intros Hw Hs. destruct Hs.
  - apply idle_step; [done|done|]. intros * Hi. congruence.
  - apply idle_step; [done| |intros * Hi; congruence]. pose proof (fastLookup_ok (cache w) key) as Hf.
    by rewrite H2 in Hf.
  - apply idle_step; [done| |intros * Hi; congruence]. pose proof (fastLookup_ok (cache w) key) as Hf.
    by rewrite H2 in Hf.
  - destruct (admitKey_ok (cache w) key r c) as (Hc & He & Hr & Hm); [by destruct Hw|exact (w_threads _ _ Hw _ _ H1)|done|].
    apply unrecorded_step; try done; [|intros id; by rewrite Hr|intros id; rewrite Hr; by left|intros * Hi; congruence].
    unfold admitKey in H2. repeat case_match; by simplify_eq.
  - destruct (beginCall_ok (cache w) m k) as (c' & p' & Hb & Hc & He & Ht & Hp);
      [by destruct Hw|exact (w_threads _ _ Hw _ _ H1)|done|]. rewrite H3 in Hb. simplify_eq.
    apply unrecorded_step; try done.
    + clear - H3. unfold beginCall, get, withLabels, go_bind in H3. repeat (case_match; simplify_eq/=); done.
    + split; [by rewrite He|]. intros s Hs. apply (touched_dom _ _ _ s Ht). by left.
    + split; [|done]. intros q Hq. rewrite He. by apply (w_threads _ _ Hw _ _ H1).
    + intros id. by apply (touched_content _ _ _ _ Ht).
    + intros id [?| ->]%(touched_dom _ _ _ id Ht); [by left|right; by eexists _, _, _].
    + intros * Hi. congruence.
  - destruct (beginCall_ok (cache w) m k) as (c' & p' & Hb & _);
      [by destruct Hw|exact (w_threads _ _ Hw _ _ H1)|done|]. congruence.
  - destruct (w_threads _ _ Hw _ _ H1) as [Hm Hp].
    destruct (storeStatus_ok (cache w) m k code metric c p) as (Hc & He & Hr & Hp'); [by destruct Hw|done|done|done|].
    apply unrecorded_step; try done.
    + unfold storeStatus in H2. repeat (case_match || simplify_eq/=); done.
    + split; [by rewrite He|]. by rewrite Hr.
    + split; [|done]. intros q Hq. rewrite He. by apply Hm.
    + intros id. by rewrite Hr.
    + intros id. rewrite Hr. by left.
    + intros m' k' p' Hi. simplify_eq. by eexists.
  - by eapply record_step.
  - destruct Hw as [Hc Hl Ht Hcont Hd]. constructor; simpl; try done.
    + intros j t [_ Hj]%lookup_delete_Some. by eapply Ht.
    + intros id [?|[?|(j & m' & k' & p & Hj & Hm')]]%Hd; [by left|by right; left|]. right. right.
      exists j, m', k', p. simpl. rewrite lookup_delete_ne; [done|]. intros ->. congruence.
Qed.

Lemma reachable_ok r0 w : reachable r0 w → world_ok r0 w.
Proof.
  induction 1 as [|w w' Hr IH Hs]; [|by eapply step_ok].
  constructor; simpl; try done.
  - intros id. unfold samples. simpl. by rewrite (right_id_L [] (++)).
  - intros id. by left.
Qed.
End Proofs.

(** ** A registry and a run *)

(** The registry as a map, a handle as the series it belongs to. *)
Definition ref_prometheus : Prometheus := {|
  Registry := gmap serie (list sample); Metric := serie;
  WithLabelValues r v ls :=
    if bool_decide (length ls = length (vecLabels v)) then
      Ret (match r !! (v, ls) with Some _ => r | None => <[(v, ls) := []]> r end, (v, ls))
    else Panic;
  Update r m x := alter (λ l, l ++ [x]) m r |}.

Definition ref_prometheus_laws : @PrometheusLaws ref_prometheus.
Proof.
  refine {| series := λ r : @Registry ref_prometheus, (r : gmap serie (list sample)); names := λ m, m |}.
  - intros r v ls Hl. simpl. rewrite bool_decide_eq_true_2 by done. by eexists _, _.
  - done.
Defined.

Definition ex_key : methodMetricKey := mkMethodMetricKey (mkLabels "h" "t" "1" "") "eth_call".

(** One request looks its tuple up, is admitted and counts itself. *)
Lemma ex_run : ∃ w, @reachable ref_prometheus ∅ w ∧ log w = [((totalJRPCRequest, ["h"; "t"; "1"; ""]), Inc)] ∧
  @entries ref_prometheus (cache w) = {[ex_key := 0%nat]} ∧ threads w !! 0%nat = Some (Running (mkMethodMetrics ex_key (Some 0%nat))).
Proof.
  pose (m := mkMethodMetrics ex_key (Some 0%nat)). eexists. split.
  - eapply reachable_step; [eapply reachable_step; [eapply reachable_step; [eapply reachable_step;
      [eapply reachable_step; [apply reachable_init|]|]|]|]|].
    + by apply (step_spawn _ 0%nat ex_key).
    + by apply (step_miss _ 0%nat ex_key).
    + by eapply (step_admit _ 0%nat ex_key).
    + by eapply (step_begin _ 0%nat m IncrTotalJRPCRequest).
    + by eapply (step_record _ 0%nat m IncrTotalJRPCRequest).
  - done.
Qed.

(** ** Properties *)

(** C20: the cache is transparent. However requests interleave, every series holds exactly what
    the calls recorded, in that order, after what it held before, as if each call had gone
    through its vector; a series exists only when something was, or is just being, recorded
    in it, and no call panics. *)
Theorem metrics_exact `{PrometheusLaws} r0 w :
  reachable r0 w →
  (∀ id, default [] (series (registry (cache w)) !! id) = default [] (series r0 !! id) ++ samples id (log w)) ∧
  (∀ id, is_Some (series (registry (cache w)) !! id) →
     is_Some (series r0 !! id) ∨ id ∈ (log w).*1 ∨ recording w id) ∧
  (∀ i, threads w !! i ≠ Some Crashed).
Proof.
  intros [Hc Hl Ht Hcont Hd]%reachable_ok. split_and!; [done|done|]. intros i Hi. by apply Ht in Hi.
Qed.

Lemma metrics_exact_witness :
  ∃ w : @world ref_prometheus, log w = [((totalJRPCRequest, ["h"; "t"; "1"; ""]), Inc)] ∧
    default [] ((registry (cache w) : gmap serie (list sample)) !! (totalJRPCRequest, ["h"; "t"; "1"; ""])) = [Inc].
Proof.
  destruct ex_run as (w & Hr & Hl & _). exists w. split; [exact Hl|].
  pose proof (proj1 (@metrics_exact ref_prometheus ref_prometheus_laws ∅ w Hr)
    (totalJRPCRequest, ["h"; "t"; "1"; ""])) as E. rewrite Hl in E. exact E.
Defined.

(** The cache is bounded. It never holds more than its limit of tuples, none with more than
    the allowed bytes of labels, its count is right, and once marked full it is full; requests
    of a cached tuple all use that tuple's handles. *)
Theorem cache_bounded `{PrometheusLaws} r0 w :
  reachable r0 w →
  let c := cache w in
  size_ c = Z.of_nat (size (entries c)) ∧ size_ c ≤ maxMethodMetricEntries ∧
  (full c = true → size_ c = maxMethodMetricEntries) ∧
  (∀ k p, entries c !! k = Some p → labelBytes k ≤ maxMethodMetricLabelBytes) ∧
  (∀ i m, threads w !! i = Some (Running m) → ∀ p, m_handles m = Some p → entries c !! m_key m = Some p).
Proof.
  intros [Hc Hl Ht _ _]%reachable_ok. destruct Hc. rewrite Hl in *. split_and!; try done.
  intros i m Hi. exact (Ht _ _ Hi).
Qed.

Lemma cache_bounded_witness :
  ∃ w : @world ref_prometheus, @entries ref_prometheus (cache w) = {[ex_key := 0%nat]} ∧
    size_ (cache w) = 1 ∧ size_ (cache w) ≤ maxMethodMetricEntries.
Proof.
  destruct ex_run as (w & Hr & _ & He & _). exists w. split; [exact He|].
  destruct (@cache_bounded ref_prometheus ref_prometheus_laws ∅ w Hr) as (Hs & Hb & _).
  rewrite He in Hs. split; [exact Hs|exact Hb].
Defined.
