(* ===== verification/NodeHealth.v ===== *)
(** * The health check, its request and its metrics

    [lb/node_health.go] in full: the probe's HTTP request, the retry loop with its clock and
    the metrics it records.  [Refresh] uses the loop without them; the two agree. *)

From S2P Require Import Prelude GoStrings JsonGrammar JsonRpc ChainId LbNode Gateway PickNodes Selector Mirror Refresh Config.
From S2P Require Import UpstreamClient MetricCache.
Local Open Scope Z_scope.

(** ** The probe *)

Record ProbeRequest := mkProbeRequest {
  pr_Method : string; pr_URL : string; pr_ContentType : string; pr_Body : string }.

(** [json.Marshal] writes the members of a map in the order of their names. *)
Definition healthBody (method : string) : string :=
  "{" +:+ quoted "id" +:+ ":1," +:+ quoted "jsonrpc" +:+ ":" +:+ quoted "2.0" +:+ "," +:+
  quoted "method" +:+ ":" +:+ quoted method +:+ "," +:+ quoted "params" +:+ ":[]}".

Definition healthRequest (n : Node) : ProbeRequest :=
  mkProbeRequest "POST" ("http://" +:+ Addr n) "application/json" (healthBody (healthMethod n)).

(** Which URLs [http.NewRequest] accepts. *)
Class ProbeHttp := { NewRequest_ok : string → bool }.

(** One attempt: what the network does with the request and how long the attempt takes until
    the clock is read, what passes until it is read a second time, and what passes until the
    next attempt besides the sleep's own interval. *)
Record attempt := mkAttempt {
  at_Do : ProbeRequest → HealthReply; at_took : Z; at_lag : Z; at_pause : Z }.

Inductive healthErr := CreateFailed | GaveUp (attempts elapsed : Z).

Definition retryInterval : Z := 5 * Second.

Definition recordHealthCheckMetric (chainId nodeKey status : string) (duration : Z) : list call :=
  [IncrNodeHealthCheckTotal chainId nodeKey status; ObserveNodeHealthCheckDuration chainId nodeKey status duration].

Section Check.
Context `{HealthJson} `{ProbeHttp}.

(** [processHealthCheck] with its request. *)
Definition probe (n : Node) (a : attempt) : bool :=
  let req := healthRequest n in
  if negb (NewRequest_ok (pr_URL req)) then false else processHealthCheck (at_Do a req).

(** [time.Sleep(retryInterval)]: the clock, since the first attempt, when the next attempt
    starts. *)
Definition afterSleep (elapsed : Z) (a : attempt) : Z := elapsed + retryInterval + at_pause a.

(** The loop. [built] is the time from the call to the first attempt, [now] the time since
    then; with the number of attempts made and the metrics recorded so far. Running out of
    listed attempts is "still probing". *)
Fixpoint healthLoop (hc : NodeHealthChecker) (tempNode : TargetNode) (targetNode : Node) (built now : Z)
    (attemptCount : Z) (recorded : list call) (attempts : list attempt)
    : go ((healthErr + Node) * list call) :=
  match attempts with
  | [] => NoFuel
  | a :: attempts =>
      let attemptCount := attemptCount + 1 in
      let record := recordHealthCheckMetric (tn_ChainId tempNode) (tn_NodeKey tempNode) in
      let elapsed := now + at_took a in
      let duration := built + elapsed + at_lag a in
      if probe targetNode a then
        Ret (inr targetNode, recorded ++ record "success" duration)
      else if maxWaitTime hc <=? elapsed then
        Ret (inl (GaveUp attemptCount elapsed), recorded ++ record "timeout" duration)
      else
        healthLoop hc tempNode targetNode built (afterSleep elapsed a) attemptCount
          (recorded ++ [IncrNodeHealthCheckTotal (tn_ChainId tempNode) (tn_NodeKey tempNode) "retry"]) attempts
  end.

(** [built] is the time [lbnode.New] took, whether it failed or not. *)
Definition CheckNodeHealthMetered `{ProxyLibrary} (hc : NodeHealthChecker) (ref : nat) (tempNode : TargetNode)
    (built : Z) (attempts : list attempt) : go ((healthErr + Node) * list call) :=
  match New ref (tn_NodeKey tempNode) (tn_Address tempNode) (tn_Port tempNode) (tn_Weight tempNode)
          (tn_NodeType tempNode) [WithSource (tn_Source tempNode)] with
  | None => Ret (inl CreateFailed, recordHealthCheckMetric (tn_ChainId tempNode) (tn_NodeKey tempNode) "create_failed" built)
  | Some targetNode => healthLoop hc tempNode (SetState targetNode (tn_StateType tempNode)) built 0 0 [] attempts
  end.

(** ** Its behaviour *)

(** The attempts as [Refresh] sees them: each with the time elapsed after it. *)
Fixpoint seen (n : Node) (now : Z) (attempts : list attempt) : list (HealthReply * Z) :=
  match attempts with
  | [] => []
  | a :: attempts =>
      let elapsed := now + at_took a in
      (if NewRequest_ok (pr_URL (healthRequest n)) then at_Do a (healthRequest n) else ProbeFailed, elapsed)
        :: seen n (afterSleep elapsed a) attempts
  end.

Lemma probe_seen n a :
  processHealthCheck (if NewRequest_ok (pr_URL (healthRequest n)) then at_Do a (healthRequest n) else ProbeFailed)
  = probe n a.
Proof. unfold probe. by destruct (NewRequest_ok _). Qed.

Definition verdict (r : go ((healthErr + Node) * list call)) : go (option Node) :=
  let! x := r in Ret (match x.1 with inr n => Some n | inl _ => None end).

Lemma healthLoop_probeLoop hc tn n built now k recorded attempts :
  verdict (healthLoop hc tn n built now k recorded attempts) = probeLoop (maxWaitTime hc) n (seen n now attempts).
Proof.
  revert now k recorded. induction attempts as [|a attempts IH]; intros now k recorded; [done|].
  cbn [healthLoop probeLoop seen]. rewrite probe_seen.
  destruct (probe n a); [done|]. destruct (maxWaitTime hc <=? now + at_took a); [done|]. apply IH.
Qed.

(** When the attempt after [before] starts. *)
Definition startOf (now : Z) (before : list attempt) : Z :=
  foldl (λ now a, afterSleep (now + at_took a) a) now before.

(** Attempts after each of which the loop goes on. *)
Fixpoint retried (hc : NodeHealthChecker) (n : Node) (now : Z) (before : list attempt) : Prop :=
  match before with
  | [] => True
  | b :: before =>
      probe n b = false ∧ now + at_took b < maxWaitTime hc ∧
      retried hc n (afterSleep (now + at_took b) b) before
  end.

Lemma healthLoop_ends hc tn n built now k recorded before a after :
  let elapsed := startOf now before + at_took a in
  retried hc n now before → probe n a = true ∨ maxWaitTime hc ≤ elapsed →
  healthLoop hc tn n built now k recorded (before ++ a :: after) =
  Ret (if probe n a then inr n else inl (GaveUp (k + Z.of_nat (length before) + 1) elapsed),
       recorded ++
       replicate (length before) (IncrNodeHealthCheckTotal (tn_ChainId tn) (tn_NodeKey tn) "retry") ++
       recordHealthCheckMetric (tn_ChainId tn) (tn_NodeKey tn) (if probe n a then "success" else "timeout")
         (built + elapsed + at_lag a)).
Proof.
  revert now k recorded. induction before as [|b before IH]; intros now k recorded elapsed Hb Ha.
  - unfold elapsed in *. cbn [app healthLoop startOf foldl] in *. destruct (probe n a) eqn:E; [done|].
    destruct Ha as [|Ha]; [done|]. rewrite (proj2 (Z.leb_le _ _) Ha). simpl. by rewrite Z.add_0_r.
  - destruct Hb as (Hp & Ht & Hb). cbn [app healthLoop]. rewrite Hp, (proj2 (Z.leb_gt _ _) Ht).
    rewrite IH by done. unfold elapsed. cbn [length replicate startOf foldl].
    rewrite <- (assoc_L (++)). f_equal. f_equal. destruct (probe n a); [done|]. do 2 f_equal. lia.
Qed.

(** The clock does not run backwards. *)
Definition forward (a : attempt) : Prop := 0 ≤ at_took a ∧ 0 ≤ at_lag a ∧ 0 ≤ at_pause a.

Lemma attempts_end hc n now attempts :
  Forall forward attempts → maxWaitTime hc ≤ now + (Z.of_nat (length attempts) - 1) * retryInterval → attempts ≠ [] →
  ∃ before a after, attempts = before ++ a :: after ∧ retried hc n now before ∧
    (probe n a = true ∨ maxWaitTime hc ≤ startOf now before + at_took a).
Proof.
  intros Hf. revert now. induction Hf as [|a attempts Ha _ IH]; intros now Hl Hne; [done|].
  destruct (probe n a) eqn:E; [exists [], a, attempts; by split_and!; [| |left]|].
  destruct (decide (maxWaitTime hc ≤ now + at_took a)) as [Ht|Ht];
    [exists [], a, attempts; by split_and!; [| |right]|].
  destruct Ha as (Ht0 & _ & Hp0).
  destruct (IH (afterSleep (now + at_took a) a)) as (before & x & after & -> & Hb & Hx).
  - unfold afterSleep. simpl in Hl. lia.
  - intros ->. simpl in Hl. lia.
  - exists (a :: before), x, after. split_and!; [done| |done]. split_and!; [done|lia|done].
Qed.

(** Every retry has slept: no more of them than intervals fit into the waiting time. *)
Lemma retried_count hc n now before :
  Forall forward before → retried hc n now before → before ≠ [] →
  now + (Z.of_nat (length before) - 1) * retryInterval < maxWaitTime hc.
Proof.
  intros Hf. revert now. induction Hf as [|b before (Ht & _ & Hp) _ IH]; intros now Hr Hne; [done|].
  destruct Hr as (_ & Hlt & Hr).
  destruct before as [|b' before]; [simpl; lia|]. specialize (IH _ Hr ltac:(done)).
  unfold afterSleep in IH. cbn [length] in *. lia.
Qed.
End Check.

(** ** Properties *)

(** C26: a health check ends and is counted once. Every attempt that is tried again is
    followed by a sleep of five seconds, whatever else passes (the clock never runs backwards),
    so a check has ended when it has made more attempts than the maximum waiting time holds
    intervals, plus one, and its retries, the first apart, each took five seconds of that
    waiting time; it returns what the check of the event loop's model returns; and it
    records one "retry" for every attempt that was tried again and then exactly one status with
    the time since the call: "success" with the node, "timeout" without, or "create_failed" when
    the node could not be built. *)
Theorem health_check_ends `{HealthJson} `{ProbeHttp} `{ProxyLibrary} hc ref tn built attempts :
  0 < maxWaitTime hc → Forall forward attempts →
  maxWaitTime hc / retryInterval + 1 < Z.of_nat (length attempts) →
  match newTargetNode ref tn (tn_Weight tn) with
  | None => CheckNodeHealthMetered hc ref tn built attempts =
            Ret (inl CreateFailed, recordHealthCheckMetric (tn_ChainId tn) (tn_NodeKey tn) "create_failed" built)
  | Some n =>
      verdict (CheckNodeHealthMetered hc ref tn built attempts) =
        CheckNodeHealth (maxWaitTime hc) ref tn (seen n 0 attempts) ∧
      ∃ before a after, attempts = before ++ a :: after ∧ retried hc n 0 before ∧
        (before ≠ [] → (Z.of_nat (length before) - 1) * (5 * Second) < maxWaitTime hc) ∧
        let elapsed := startOf 0 before + at_took a in
        (probe n a = true ∨ maxWaitTime hc ≤ elapsed) ∧
        CheckNodeHealthMetered hc ref tn built attempts =
        Ret (if probe n a then inr n else inl (GaveUp (Z.of_nat (length before) + 1) elapsed),
             replicate (length before) (IncrNodeHealthCheckTotal (tn_ChainId tn) (tn_NodeKey tn) "retry") ++
             recordHealthCheckMetric (tn_ChainId tn) (tn_NodeKey tn)
               (if probe n a then "success" else "timeout") (built + elapsed + at_lag a))
  end.
Proof.
  intros Hpos Hs Hl. unfold newTargetNode, CheckNodeHealthMetered, CheckNodeHealth.
  destruct (New _ _ _ _ _ _ _) as [n0|]; [|done]. simpl. set (n := SetState n0 (tn_StateType tn)).
  split; [apply healthLoop_probeLoop|].
  pose proof (Z.div_pos (maxWaitTime hc) retryInterval ltac:(lia) eq_refl) as Hq.
  destruct (attempts_end hc n 0 attempts Hs) as (before & a & after & -> & Hb & Ha).
  - pose proof (Z.mul_succ_div_gt (maxWaitTime hc) retryInterval eq_refl). unfold retryInterval in *. nia.
  - intros ->. simpl in Hl. lia.
  - exists before, a, after. split_and!; [done|done| |done|by rewrite healthLoop_ends].
    apply Forall_app in Hs as [Hs _]. intros Hne. by apply (retried_count hc n 0).
Qed.

(** Two failed probes and a third that is answered. *)
Definition ex_health : HealthJson := {| UnmarshalHealth body := Some (false, body) |}.
Definition ex_probe : ProbeHttp := {| NewRequest_ok _ := true |}.
Definition ex_attempts : list attempt :=
  [mkAttempt (λ _, ProbeFailed) Second 1 0; mkAttempt (λ _, Replied 503 None) 1 1 1;
   mkAttempt (λ req, Replied 200 (Some (pr_URL req))) 7 1 0].

Lemma health_check_ends_witness :
  let tn := ex_target EVENT_PUT 1 in
  ∃ n before a after, ex_attempts = before ++ a :: after ∧
    @CheckNodeHealthMetered ex_health ex_probe ex_proxy (mkChecker Second (8 * Second) Second) 0 tn 0 ex_attempts =
    Ret (if @probe ex_health ex_probe n a then inr n
         else inl (GaveUp (Z.of_nat (length before) + 1) (startOf 0 before + at_took a)),
         replicate (length before) (IncrNodeHealthCheckTotal "1" "a" "retry") ++
         recordHealthCheckMetric "1" "a" (if @probe ex_health ex_probe n a then "success" else "timeout")
           (0 + (startOf 0 before + at_took a) + at_lag a)).
Proof.
  intros tn. pose proof (@health_check_ends ex_health ex_probe ex_proxy (mkChecker Second (8 * Second) Second) 0 tn 0 ex_attempts
    eq_refl ltac:(repeat constructor; discriminate) ltac:(vm_compute; reflexivity)) as Hc.
  destruct (newTargetNode 0 tn (tn_Weight tn)) as [n|] eqn:E; [|vm_compute in E; discriminate].
  destruct Hc as (_ & before & a & after & Heq & _ & _ & _ & Hm). exists n, before, a, after. split; [exact Heq|exact Hm].
Defined.

(** The probe is a JSON-RPC request as the proxy itself reads them: of the method the node's
    source calls for, without parameters. *)
Theorem probe_request_parses Valid UnmarshalRequest UnmarshalBatch n :
  Valid (pr_Body (healthRequest n)) = true →
  ParseRequest Valid UnmarshalRequest UnmarshalBatch (Some (pr_Body (healthRequest n))) =
  Ret (inr [Some {| ro_Jsonrpc := "2.0"; ro_Method := healthMethod n; ro_Params := Some "[]"; ro_ID := Some "1" |}]).
Proof.
  unfold healthRequest, healthMethod. cbn [pr_Body]. case_bool_decide; intros HV; unfold ParseRequest, parseRequestBorrowed;
    rewrite HV; vm_compute; reflexivity.
Qed.

Lemma probe_request_parses_witness :
  ParseRequest (λ _, true) (λ _, None) (λ _, None) (Some (healthBody "getLatestBlock")) =
  Ret (inr [Some {| ro_Jsonrpc := "2.0"; ro_Method := "getLatestBlock"; ro_Params := Some "[]"; ro_ID := Some "1" |}]).
Proof. exact (probe_request_parses (λ _, true) (λ _, None) (λ _, None) (example_node "a" "h" 1 0) eq_refl). Defined.
