(* ===== verification/RequestMetrics.v ===== *)
(** * What a request leaves in Prometheus

    The post-processor of [lb/jsonrpc/hertz_process.go] ([Processors]) decides what a request
    records, and the series cache of [lb/jsonrpc/metrics] ([MetricCache]) records it while
    other requests do the same.  Here each request runs its own list of calls through the
    cache, and what the source promises of the counters is shown of the series. *)

From S2P Require Import Prelude GoStrings JsonRpc ChainId Types BlockContext LbNode Gateway PickNodes Selector Mirror.
From S2P Require Import Config Processors MetricCache.
Local Open Scope Z_scope.

(** ** The calls of a request *)

(** A finished request: its response, its context and the time it took. *)
Record request := mkRequest { rq_response : Hertz; rq_context : RequestContext; rq_duration : Z }.

(** The call each recorded metric stands for. *)
Definition call_of (duration : Z) (m : metric) : call :=
  match m with
  | CallsStarted l method dapp => IncrCallsStarted l method dapp
  | TotalJRPCRequest _ _ => IncrTotalJRPCRequest
  | HTTPStatusCode _ _ code => IncrHTTPStatusCode code
  | BatchCallsFinished _ _ => IncrBatchCallsFinished
  | BatchCallsTime _ _ => ObBatchCallsTime duration
  | CallsTime _ _ => ObCallsTime duration
  | CallsFailed l code method upstream reason node => IncrCallsFailed l code method upstream reason node
  | CallsFinished _ _ => IncrCallsFinished
  | RequestPayloadSizes _ _ size => ObRequestPayloadSizes size
  | ResponsePayloadSizes _ _ size => ObResponsePayloadSizes size
  | ArchiveHashCacheEvent chain event => IncrArchiveHashCache chain event
  end.

(** The handles the post-processor asks for. *)
Definition key_of (p : RequestContext) : methodMetricKey :=
  mkMethodMetricKey (labels p) (if rc_IsBatch p then "" else Method p).

Section Requests.
Context `{RateLimiter}.

(** The metrics the post-processor records of a request. *)
Definition postMetrics (q : request) : list metric :=
  match updatePostProcessorMetricsHertz with
  | Some f =>
      match f (rq_response q, rq_context q, mkWorld [] ∅ [] []) with
      | Ret (_, _, w) => w_metrics w
      | _ => []
      end
  | None => []
  end.

Definition script (q : request) : methodMetricKey * list call :=
  (key_of (rq_context q), call_of (rq_duration q) <$> postMetrics q).

Definition meanings (s : methodMetricKey * list call) : list (serie * sample) := meaning s.1 <$> s.2.

(** ** Counting *)

(** What was recorded in a vector for a tuple of common labels. *)
Definition counted (v : vec) (l : Labels) (es : list (serie * sample)) : nat :=
  length (filter (λ e, e.1.1 = v ∧ take 4 e.1.2 = commonValues l) es).

#[export] Instance counted_Proper v l : Proper ((≡ₚ) ==> eq) (counted v l).
Proof. intros a b Hab. unfold counted. by rewrite Hab. Qed.

Lemma counted_app v l a b : counted v l (a ++ b) = (counted v l a + counted v l b)%nat.
Proof. unfold counted. by rewrite filter_app, length_app. Qed.

Lemma commonValues_inj l l' : commonValues l = commonValues l' ↔ l = l'.
Proof. destruct l, l'. unfold commonValues. simpl. naive_solver. Qed.

Lemma counted_cons v l s x es :
  counted v l ((s, x) :: es) =
  ((if decide (s.1 = v ∧ take 4 s.2 = commonValues l) then 1 else 0) + counted v l es)%nat.
Proof. unfold counted. rewrite filter_cons. simpl. by case_decide. Qed.

(** What a call of a request with the labels [l0] counts for. *)
Definition vec_of (c : call) : vec :=
  match c with
  | Direct s _ => s.1
  | Use total _ => totalJRPCRequest
  | Use finished _ => callsFinished
  | Use batchFinished _ => batchCallsFinished
  | Use callsDuration _ => callsTime
  | Use batchDuration _ => batchCallsTime
  | Use requestSize _ => requestPayloadSizes
  | Use responseSize _ => responsePayloadSizes
  | Status _ => httpStatusCode
  end.

(** A call whose series begins with the labels. *)
Definition labelled (l0 : Labels) (c : call) : Prop :=
  match c with Direct s _ => take 4 s.2 = commonValues l0 | _ => True end.

Lemma counted_call v l k c es :
  labelled (k_labels k) c →
  counted v l (meaning k c :: es) =
  ((if decide (vec_of c = v ∧ k_labels k = l) then 1 else 0) + counted v l es)%nat.
Proof.
  intros Hc. assert ((meaning k c).1.1 = vec_of c ∧ take 4 (meaning k c).1.2 = commonValues (k_labels k)) as [Hv Ht].
  { destruct c as [s x|f x|code]; [done| |done]. by destruct f. }
  destruct (meaning k c) as [s x] eqn:E. simpl in Hv, Ht. rewrite counted_cons, Hv, Ht.
  f_equal. rewrite (decide_ext _ (vec_of c = v ∧ k_labels k = l)); [done|]. by rewrite commonValues_inj.
Qed.

(** How many of the calls go to a vector. *)
Definition uses (v : vec) (cs : list call) : nat := length (filter (λ c, vec_of c = v) cs).

Lemma counted_script v l k cs :
  Forall (labelled (k_labels k)) cs →
  counted v l (meaning k <$> cs) = if decide (k_labels k = l) then uses v cs else 0%nat.
Proof.
  unfold uses. induction 1 as [|c cs Hc _ IH]; csimpl; [by case_decide|].
  rewrite counted_call, IH, filter_cons by done. repeat case_decide; simpl; naive_solver.
Qed.

(** One total and one outcome, both with the labels of the request; and every call has the
    values its vector asks for. *)
Lemma script_calls q :
  let cs := (script q).2 in
  Forall (labelled (labels (rq_context q))) cs ∧ Forall call_ok cs ∧ uses totalJRPCRequest cs = 1%nat ∧
  (uses batchCallsFinished cs + uses callsFinished cs + uses callsFailed cs)%nat = 1%nat.
Proof.
  destruct q as [c p d]. unfold script, postMetrics, updatePostProcessorMetricsHertz.
  cbn [rq_response rq_context rq_duration snd]. destruct (rc_IsBatch p); [by repeat constructor|].
  destruct (rc_Error p) as [err|]; [destruct (response_error p) as [eo|]|];
    (destruct (0 <? RequestBodySize p); destruct (shouldRecordResponsePayloadSize _ _ _));
    (split; [by repeat constructor|]; split; [by repeat constructor|]; by split).
Qed.

Lemma script_counts q l :
  let n v := counted v l (meanings (script q)) in
  let one := if decide (labels (rq_context q) = l) then 1%nat else 0%nat in
  n totalJRPCRequest = one ∧ (n batchCallsFinished + n callsFinished + n callsFailed)%nat = one.
Proof.
  destruct (script_calls q) as (Hl & _ & Ht & Ho). intros n one. unfold n, one, meanings.
  change ((script q).1) with (key_of (rq_context q)).
  rewrite !counted_script by done. simpl. case_decide; done.
Qed.
End Requests.

(** ** Requests side by side *)

Section Serving.
Context `{Prometheus}.

(** The key a thread works for. *)
Definition thread_key (t : thread) : option methodMetricKey :=
  match t with
  | Looking key | Locked key => Some key
  | Running m | InCall m _ _ => Some (m_key m)
  | Crashed => None
  end.

(** Runs in which every request makes the calls of its list, in order and to the end: the
    world, the calls each running request has left (the one it is in included), and the
    lists of all the requests so far. *)
Inductive serving (r0 : Registry) :
    world → gmap nat (methodMetricKey * list call) → list (methodMetricKey * list call) → Prop :=
| serving_init : serving r0 (mkWorld_ (methodMetrics r0) ∅ []) ∅ []
| serving_spawn w todo all i key cs :
    serving r0 w todo all → threads w !! i = None → Forall call_ok cs →
    serving r0 (mkWorld_ (cache w) (<[i := Looking key]> (threads w)) (log w)) (<[i := (key, cs)]> todo)
      (all ++ [(key, cs)])
| serving_lookup w todo all i key r :
    serving r0 w todo all → threads w !! i = Some (Looking key) → fastLookup (cache w) key = Some r →
    serving r0 (mkWorld_ (cache w) (<[i := Running (mkMethodMetrics key r)]> (threads w)) (log w)) todo all
| serving_miss w todo all i key :
    serving r0 w todo all → threads w !! i = Some (Looking key) → fastLookup (cache w) key = None →
    serving r0 (mkWorld_ (cache w) (<[i := Locked key]> (threads w)) (log w)) todo all
| serving_admit w todo all i key r c :
    serving r0 w todo all → threads w !! i = Some (Locked key) → admitKey (cache w) key = (r, c) →
    serving r0 (mkWorld_ c (<[i := Running (mkMethodMetrics key r)]> (threads w)) (log w)) todo all
| serving_begin w todo all i m key k cs c p :
    serving r0 w todo all → threads w !! i = Some (Running m) → todo !! i = Some (key, k :: cs) →
    beginCall (cache w) m k = Ret (c, p) →
    serving r0 (mkWorld_ c (<[i := InCall m k p]> (threads w)) (log w)) todo all
| serving_store w todo all i m k code metric c p :
    serving r0 w todo all → threads w !! i = Some (InCall m k (Storing code metric)) →
    storeStatus (cache w) m code metric = (c, p) →
    serving r0 (mkWorld_ c (<[i := InCall m k p]> (threads w)) (log w)) todo all
| serving_record w todo all i m key k cs metric x c :
    serving r0 w todo all → threads w !! i = Some (InCall m k (Recording metric x)) → todo !! i = Some (key, k :: cs) →
    c = (cache w) <| registry := Update (registry (cache w)) metric x |> →
    serving r0 (mkWorld_ c (<[i := Running m]> (threads w)) (log w ++ [meaning (m_key m) k])) (<[i := (key, cs)]> todo) all
| serving_finish w todo all i m key :
    serving r0 w todo all → threads w !! i = Some (Running m) → todo !! i = Some (key, []) →
    serving r0 (mkWorld_ (cache w) (delete i (threads w)) (log w)) (delete i todo) all.

(** What is left to record. *)
Definition left_over (todo : gmap nat (methodMetricKey * list call)) : list (serie * sample) :=
  map_to_list todo ≫= λ x, meanings x.2.

Lemma left_insert i s todo : todo !! i = None → left_over (<[i := s]> todo) ≡ₚ meanings s ++ left_over todo.
Proof. intros Hi. unfold left_over. by rewrite map_to_list_insert. Qed.

Lemma left_delete i s todo : todo !! i = Some s → left_over todo ≡ₚ meanings s ++ left_over (delete i todo).
Proof. intros Hi. rewrite <- (insert_delete_id todo i s) at 1 by done. apply left_insert. apply lookup_delete_eq. Qed.

Record serving_ok (r0 : Registry) (w : world) (todo : gmap nat (methodMetricKey * list call))
    (all : list (methodMetricKey * list call)) : Prop := {
  so_reachable : reachable r0 w;
  so_todo i t : threads w !! i = Some t → ∃ cs, todo !! i = Some (default (mkMethodMetricKey (mkLabels "" "" "" "") "") (thread_key t), cs);
  so_threads i : threads w !! i = None → todo !! i = None;
  so_calls i key cs : todo !! i = Some (key, cs) → Forall call_ok cs;
  so_log : log w ++ left_over todo ≡ₚ all ≫= meanings }.

(** A step that changes neither the log nor what is left. *)
Lemma serving_inner r0 w todo all i t t' c :
  serving_ok r0 w todo all → threads w !! i = Some t → thread_key t' = thread_key t →
  step w (mkWorld_ c (<[i := t']> (threads w)) (log w)) →
  serving_ok r0 (mkWorld_ c (<[i := t']> (threads w)) (log w)) todo all.
Proof.
  intros [Hr Ht Hn Hc Hl] Hi Hk Hs. constructor; simpl; try done.
  - by eapply reachable_step.
  - intros j u [[<- <-]|[_ Hj]]%lookup_insert_Some; [rewrite Hk|]; eauto.
  - intros j [Hj _]%lookup_insert_None. by apply Hn.
Qed.

Lemma serving_invariant r0 w todo all : serving r0 w todo all → serving_ok r0 w todo all.
Proof.
  induction 1 as [|w todo all i key cs _ IH Hi Hok|w todo all i key r _ IH Hi Hf|w todo all i key _ IH Hi Hf
    |w todo all i key r c _ IH Hi Ha|w todo all i m key k cs c p _ IH Hi Htd Hb|w todo all i m k code metric c p _ IH Hi Hs
    |w todo all i m key k cs metric x c _ IH Hi Htd Hc|w todo all i m key _ IH Hi Htd].
  - constructor; try done. constructor.
  - destruct IH as [Hr Ht Hn Hc Hl]. constructor; simpl.
    + eapply reachable_step; [done|]. by apply step_spawn.
    + intros j u [[<- <-]|[Hne Hj]]%lookup_insert_Some; [exists cs; by rewrite lookup_insert_eq|].
      rewrite lookup_insert_ne by done. eauto.
    + intros j [Hj Hne]%lookup_insert_None. rewrite lookup_insert_ne by done. by apply Hn.
    + intros j key' cs' [[_ [= <- <-]]|[_ Hj]]%lookup_insert_Some; eauto.
    + rewrite left_insert by (by apply Hn). rewrite bind_app. simpl. rewrite (right_id_L [] (++)), <- Hl. solve_Permutation.
  - eapply serving_inner; [done|done|done|by apply step_lookup].
  - eapply serving_inner; [done|done|done|by apply step_miss].
  - eapply serving_inner; [done|done|done|by eapply step_admit].
  - eapply serving_inner; [done|done|done|]. eapply step_begin; [done| |done].
    pose proof (so_calls _ _ _ _ IH i _ _ Htd) as Hcs. by apply Forall_cons in Hcs as [? _].
  - eapply serving_inner; [done|done|done|by eapply step_store].
  - destruct IH as [Hr Ht Hn Hcs Hl]. destruct (Ht _ _ Hi) as [cs' E]. simpl in E. rewrite Htd in E. simplify_eq.
    constructor; simpl.
    + eapply reachable_step; [done|]. by eapply step_record.
    + intros j u [[<- <-]|[Hne Hj]]%lookup_insert_Some; [exists cs; by rewrite lookup_insert_eq|].
      rewrite lookup_insert_ne by done. eauto.
    + intros j [Hj Hne]%lookup_insert_None. rewrite lookup_insert_ne by done. by apply Hn.
    + intros j key' cs' [[_ [= <- <-]]|[_ Hj]]%lookup_insert_Some; [|eauto].
      specialize (Hcs _ _ _ Htd). by apply Forall_cons in Hcs as [_ ?].
    + rewrite <- insert_delete_eq, left_insert by apply lookup_delete_eq.
      rewrite (left_delete i _ _ Htd) in Hl. rewrite <- Hl. unfold meanings. csimpl. solve_Permutation.
  - destruct IH as [Hr Ht Hn Hcs Hl]. constructor; simpl.
    + eapply reachable_step; [done|]. by eapply step_finish.
    + intros j u [Hne Hj]%lookup_delete_Some. rewrite lookup_delete_ne by done. eauto.
    + intros j [->|Hj]%lookup_delete_None; apply lookup_delete_None; [by left|right; by apply Hn].
    + intros j key' cs' [_ Hj]%lookup_delete_Some. eauto.
    + rewrite <- Hl, (left_delete i _ _ Htd). done.
Qed.
End Serving.

(** ** Requests served one after the other *)

Section Alone.
Context `{PrometheusLaws}.

(** A request that is between two calls can make the rest of them. *)
Lemma calls_alone r0 cs w all key m :
  serving r0 w {[0%nat := (key, cs)]} all → threads w = {[0%nat := Running m]} →
  ∃ w', serving r0 w' ∅ all ∧ threads w' = ∅.
Proof.
  revert w. induction cs as [|k cs IH]; intros w Hs Ht.
  - pose proof (serving_finish _ _ _ _ 0%nat m key Hs ltac:(by rewrite Ht, lookup_singleton_eq) (lookup_singleton_eq _ _)) as Hf.
    rewrite delete_singleton_eq in Hf. eexists. split; [exact Hf|]. simpl. by rewrite Ht, delete_singleton_eq.
  - pose proof (serving_invariant _ _ _ _ Hs) as [Hr _ _ Hok _].
    destruct (reachable_ok _ _ Hr) as [Hc _ Hth _ _]. specialize (Hok 0%nat key _ (lookup_singleton_eq _ _)).
    apply Forall_cons in Hok as [Hk _].
    assert (threads w !! 0%nat = Some (Running m)) as Hi by (by rewrite Ht, lookup_singleton_eq).
    destruct (beginCall_ok (cache w) m k Hc (Hth _ _ Hi) Hk) as (c & p & Hb & _).
    pose proof (serving_begin _ _ _ _ 0%nat m key k cs c p Hs Hi (lookup_singleton_eq _ _) Hb) as H1.
    assert (∃ c' metric x, serving r0 (mkWorld_ c' {[0%nat := InCall m k (Recording metric x)]} (log w))
              {[0%nat := (key, k :: cs)]} all) as (c' & metric & x & H2).
    { rewrite Ht, insert_singleton_eq in H1. destruct p as [code metric|metric x]; [|by eexists _, _, _].
      destruct (storeStatus c m code metric) as [c' p'] eqn:Es.
      pose proof (serving_store _ _ _ _ 0%nat m k code metric c' p' H1 (lookup_singleton_eq _ _) Es) as H2.
      simpl in H2. rewrite insert_singleton_eq in H2.
      assert (∃ metric' x', p' = Recording metric' x') as (metric' & x' & ->)
        by (unfold storeStatus in Es; repeat case_match; simplify_eq; eauto).
      by eexists _, _, _. }
    pose proof (serving_record _ _ _ _ 0%nat m key k cs metric x _ H2 (lookup_singleton_eq _ _) (lookup_singleton_eq _ _) eq_refl) as H3.
    simpl in H3. rewrite !insert_singleton_eq in H3. by eapply IH.
Qed.

(** Any requests can be served. *)
Lemma requests_alone r0 scripts :
  Forall (λ s, Forall call_ok s.2) scripts → ∃ w, serving r0 w ∅ scripts ∧ threads w = ∅.
Proof.
  induction scripts as [|[key cs] scripts IH] using rev_ind; intros Hok; [eexists; split; [constructor|done]|].
  apply Forall_app in Hok as [Hok [Hcs _]%Forall_cons]. destruct (IH Hok) as (w & Hs & Ht). simpl in Hcs.
  pose proof (serving_spawn _ _ _ _ 0%nat key cs Hs ltac:(by rewrite Ht) Hcs) as H1.
  rewrite Ht, !insert_empty in H1.
  assert (∃ c r, serving r0 (mkWorld_ c {[0%nat := Running (mkMethodMetrics key r)]} (log w)) {[0%nat := (key, cs)]}
            (scripts ++ [(key, cs)])) as (c & r & H2).
  { destruct (fastLookup (cache w) key) as [r|] eqn:Ef.
    - pose proof (serving_lookup _ _ _ _ 0%nat key r H1 (lookup_singleton_eq _ _) Ef) as H2.
      simpl in H2. rewrite insert_singleton_eq in H2. by eexists _, _.
    - pose proof (serving_miss _ _ _ _ 0%nat key H1 (lookup_singleton_eq _ _) Ef) as H2.
      simpl in H2. rewrite insert_singleton_eq in H2. destruct (admitKey (cache w) key) as [r c] eqn:Ea.
      pose proof (serving_admit _ _ _ _ 0%nat key r c H2 (lookup_singleton_eq _ _) Ea) as H3.
      simpl in H3. rewrite insert_singleton_eq in H3. by eexists _, _. }
  by eapply calls_alone.
Qed.
End Alone.

(** ** Properties *)

(** C21: the request counters add up in Prometheus. However requests interleave, when none is
    being served any more, the calls that were counted for a host, target, chain and version
    are exactly its requests, each of them counted once as a finished batch, a finished call
    or a failed call; and every series holds what it held before and what was recorded in it. *)
Theorem request_counters_balance `{PrometheusLaws} `{RateLimiter} r0 w (requests : list request) :
  serving r0 w ∅ (script <$> requests) →
  (∀ l, let n v := counted v l (log w) in
     n totalJRPCRequest = length (filter (λ q, labels (rq_context q) = l) requests) ∧
     n totalJRPCRequest = (n batchCallsFinished + n callsFinished + n callsFailed)%nat) ∧
  (∀ id, default [] (series (registry (cache w)) !! id) = default [] (series r0 !! id) ++ samples id (log w)).
Proof.
  intros Hs%serving_invariant. destruct Hs as [Hr _ _ _ Hl]. split; [|by destruct (reachable_ok _ _ Hr)].
  unfold left_over in Hl. rewrite map_to_list_empty in Hl. simpl in Hl. rewrite (right_id_L [] (++)) in Hl.
  intros l n. unfold n. rewrite !Hl. clear Hr Hl n. induction requests as [|q qs IH]; [done|]. csimpl.
  rewrite !counted_app. destruct (script_counts q l) as [Ht Ho], IH as [IH1 IH2]. cbv zeta in Ht, Ho.
  rewrite filter_cons. case_decide; simpl; lia.
Qed.

(** A finished call and a finished batch of one chain. *)
Definition ex_requests : list request :=
  let p := labelled_ctx "1" in
  [mkRequest (ex_hertz "{}") p 7; mkRequest (ex_hertz "[]") (p <| rc_IsBatch := true |>) 9].

Lemma ex_requests_ok : Forall (λ s : methodMetricKey * list call, Forall call_ok s.2) ((@script ex_limiter) <$> ex_requests).
Proof. apply Forall_fmap, Forall_true. intros q. by destruct (@script_calls ex_limiter q) as (_ & Hok & _). Qed.

Lemma request_counters_balance_witness :
  ∃ w : @world ref_prometheus,
    counted totalJRPCRequest (labels (labelled_ctx "1")) (log w) = 2%nat ∧
    (counted batchCallsFinished (labels (labelled_ctx "1")) (log w) +
     counted callsFinished (labels (labelled_ctx "1")) (log w) +
     counted callsFailed (labels (labelled_ctx "1")) (log w))%nat = 2%nat.
Proof.
  destruct (@requests_alone ref_prometheus ref_prometheus_laws ∅ _ ex_requests_ok) as (w & Hs & _). exists w.
  destruct (@request_counters_balance ref_prometheus ref_prometheus_laws ex_limiter ∅ w ex_requests Hs) as [Hn _].
  destruct (Hn (labels (labelled_ctx "1"))) as [Ht Ho].
  assert (length (filter (λ q, labels (rq_context q) = labels (labelled_ctx "1")) ex_requests) = 2%nat) as E
    by (vm_compute; reflexivity).
  rewrite E in Ht. split; [exact Ht|]. rewrite <- Ho. exact Ht.
Defined.
