(* ===== verification/Usage.v ===== *)
(** * Usage collection

    [usage/collector.go], [usage/model.go], [usage/kafka_producer.go], the usage part of
    [config/config.go], and of [cmd/proxy/main.go] the start of the collector and the
    wrapper that records each request.  The collector is shared by the request handlers,
    its own loop and the shutdown; they interleave as the steps below, each of which is one
    section under the collector's lock or one receive. *)

From S2P Require Import Prelude GoStrings ChainId Config.
Local Open Scope Z_scope.

(** ** Records ([usage/model.go]) *)

Definition UnknownClientID : string := "unknown".
Definition ServiceLeafage : string := "leafage".
Definition ResourceTypeRead : string := "read".

Record UsageRecord := mkUsageRecord {
  ur_ID : string; ur_ClientID : string; ur_Service : string; ur_ResourceType : string;
  ur_Usage : Z; ur_Timestamp : Z }.

(** ** The collector ([usage/collector.go]) *)

Definition aggregationFlushThreshold : Z := 10000.
Definition flushTimeout : Z := 5 * Second.

Record collectorOptions := mkCollectorOptions {
  interval : Z; timeout : Z; flushThreshold : Z }.

(** Where the loop and the call of [Close] are. *)
Inductive loopState := Waiting | Flushing (snapshot : gmap string Z) | LoopDone.
Inductive closeState :=
  NotClosed | AwaitingLoop | FinalWrite (snapshot : gmap string Z) | ClosingProducer | Returned.

(** A batch handed to the producer: the snapshot it was made of, and whether [Write] failed. *)
Record batch := mkBatch { b_snapshot : gmap string Z; b_records : list UsageRecord; b_failed : bool }.

(** [signals] are the recorders between unlocking and signalling [flushNow]; [drawn] counts
    the identifiers drawn from [newID]; [accepted] and [batches] are the history. *)
Record Collector := mkCollector {
  options : collectorOptions;
  active : gmap string Z;
  closed : bool;
  stop : bool;
  flushNow : bool;
  signals : nat;
  loop : loopState;
  closer : closeState;
  producerClosed : bool;
  aggregationKeys : Z;
  flushSuccess : Z; flushFailed : Z; recordsSent : Z; recordsDropped : Z;
  drawn : nat;
  accepted : list (string * Z);
  batches : list batch }.

#[export] Instance Collector_expands : Expands Collector := λ c,
  mkCollector (options c) (active c) (closed c) (stop c) (flushNow c) (signals c) (loop c) (closer c)
    (producerClosed c) (aggregationKeys c) (flushSuccess c) (flushFailed c) (recordsSent c)
    (recordsDropped c) (drawn c) (accepted c) (batches c).

Definition newCollector (producer : bool) (o : collectorOptions) : go Collector :=
  if negb producer then Panic else
  if interval o <=? 0 then Panic else
  let o := mkCollectorOptions (interval o)
             (if timeout o <=? 0 then flushTimeout else timeout o)
             (if flushThreshold o <=? 0 then aggregationFlushThreshold else flushThreshold o) in
  Ret (mkCollector o ∅ false false false 0 Waiting NotClosed false 0 0 0 0 0 0 [] []).

Definition NewCollector (producer : bool) (reportInterval : Z) : go Collector :=
  newCollector producer (mkCollectorOptions reportInterval flushTimeout aggregationFlushThreshold).

Definition clientKey (clientID : string) : string :=
  let clientID := TrimSpace clientID in
  if bool_decide (clientID = "") then UnknownClientID else clientID.

(** [Collector.Record], up to the signal. *)
Definition recordUsage (c : Collector) (clientID : string) (duration : Z) : Collector :=
  if duration <? 0 then c else
  let clientID := clientKey clientID in
  if closed c then c else
  let c := c <| accepted := accepted c ++ [(clientID, duration)] |> in
  match active c !! clientID with
  | Some accumulated =>
      c <| active := <[clientID := wrap_int64 (accumulated + duration)]> (active c) |>
  | None =>
      let c := c <| active := <[clientID := duration]> (active c) |> in
      let keyCount := Z.of_nat (size (active c)) in
      let c := c <| aggregationKeys := aggregationKeys c + 1 |> in
      if flushThreshold (options c) <=? keyCount then c <| signals := S (signals c) |> else c
  end.

(** The send on [flushNow], which has room for one; a second signal is dropped. *)
Definition signalFlush (c : Collector) : Collector :=
  c <| signals := Nat.pred (signals c) |> <| flushNow := true |>.

Definition snapshot (c : Collector) (closeCollector : bool) : gmap string Z * Collector :=
  let c := if closeCollector then c <| closed := true |> else c in
  if bool_decide (size (active c) = 0%nat) then (∅, c)
  else (active c, c <| active := ∅ |>).

(** [time.Duration.Milliseconds], at least 1. *)
Definition usageOf (duration : Z) : Z :=
  let usage := Z.quot duration Millisecond in
  if usage <? 1 then 1 else usage.

Section Writing.
Context (newID : nat → string).

Fixpoint makeRecords (timestamp : Z) (drawn : nat) (order : list (string * Z)) : list UsageRecord :=
  match order with
  | [] => []
  | (clientID, duration) :: order =>
      mkUsageRecord (newID drawn) clientID ServiceLeafage ResourceTypeRead (usageOf duration) timestamp
        :: makeRecords timestamp (S drawn) order
  end.

(** [writeSnapshot] of a non-empty snapshot, ranged over in [order], when the producer
    answers with [failed]. *)
Definition writeSnapshot (c : Collector) (snapshot : gmap string Z) (order : list (string * Z))
    (timestamp : Z) (failed : bool) : Collector :=
  let records := makeRecords timestamp (drawn c) order in
  let c := c <| drawn := (drawn c + length order)%nat |>
             <| batches := batches c ++ [mkBatch snapshot records failed] |> in
  let n := Z.of_nat (length records) in
  let c := if failed then c <| flushFailed := flushFailed c + 1 |>
                            <| recordsDropped := recordsDropped c + n |>
           else c <| flushSuccess := flushSuccess c + 1 |>
                  <| recordsSent := recordsSent c + n |> in
  c <| aggregationKeys := aggregationKeys c - Z.of_nat (size snapshot) |>.

(** [flush] up to the producer: an empty snapshot needs no write. *)
Definition startFlush (c : Collector) : Collector :=
  let '(snap, c) := snapshot c false in
  if bool_decide (size snap = 0%nat) then c else c <| loop := Flushing snap |>.

(** The part of [Close] after the loop has ended, up to the producer's [Write] or, when
    there is nothing to write, up to its [Close]. *)
Definition startFinal (c : Collector) : Collector :=
  let '(snap, c) := snapshot c true in
  if bool_decide (size snap = 0%nat)
  then c <| closer := ClosingProducer |> <| producerClosed := true |>
  else c <| closer := FinalWrite snap |>.

(** What can happen next. *)
Inductive step (c : Collector) : Collector → Prop :=
| SRecord clientID duration : step c (recordUsage c clientID duration)
| SSignal : (0 < signals c)%nat → step c (signalFlush c)
| STick : loop c = Waiting → step c (startFlush c)
| SFlushNow :
    loop c = Waiting → flushNow c = true → step c (startFlush (c <| flushNow := false |>))
| SStop : loop c = Waiting → stop c = true → step c (c <| loop := LoopDone |>)
| SWritten snap order timestamp failed :
    loop c = Flushing snap → order ≡ₚ map_to_list snap →
    step c ((writeSnapshot c snap order timestamp failed) <| loop := Waiting |>)
| SClose :
    closer c = NotClosed →
    step c (c <| closed := true |> <| stop := true |> <| closer := AwaitingLoop |>)
| SLoopDone : closer c = AwaitingLoop → loop c = LoopDone → step c (startFinal c)
| SExpired : closer c = AwaitingLoop → step c (c <| closer := Returned |>)
| SFinalWritten snap order timestamp failed :
    closer c = FinalWrite snap → order ≡ₚ map_to_list snap →
    step c ((writeSnapshot c snap order timestamp failed)
              <| closer := ClosingProducer |> <| producerClosed := true |>)
| SClosed : closer c = ClosingProducer → step c (c <| closer := Returned |>).

Inductive reachable : Collector → Prop :=
| reach_new producer o c : newCollector producer o = Ret c → reachable c
| reach_step c c' : reachable c → step c c' → reachable c'.
End Writing.

(** ** Accounting *)

Definition entry_of (k : string) (m : gmap string Z) : Z := default 0 (m !! k).
Definition sum_for (k : string) (ms : list (gmap string Z)) : Z := foldr (λ m s, entry_of k m + s) 0 ms.

(** What the collector holds: the current window and the batches being written. *)
Definition flushing (c : Collector) : list (gmap string Z) :=
  match loop c with Flushing s => [s] | _ => [] end ++
  match closer c with FinalWrite s => [s] | _ => [] end.
Definition held (c : Collector) : list (gmap string Z) := active c :: flushing c.
Definition handed (c : Collector) : list (gmap string Z) := b_snapshot <$> batches c.

Definition recorded (c : Collector) (k : string) : Z :=
  foldr (λ e s, (if bool_decide (e.1 = k) then e.2 else 0) + s) 0 (accepted c).

Definition keys_of (ms : list (gmap string Z)) : Z :=
  foldr (λ (m : gmap string Z) s, Z.of_nat (size m) + s) 0 ms.

#[export] Instance sum_for_perm k : Proper ((≡ₚ) ==> (=)) (sum_for k).
Proof. induction 1; simpl; lia. Qed.

#[export] Instance keys_of_perm : Proper ((≡ₚ) ==> (=)) keys_of.
Proof. induction 1; simpl; lia. Qed.

Lemma sum_for_app k a b : sum_for k (a ++ b) = sum_for k a + sum_for k b.
Proof. induction a as [|m a IH]; simpl; [done|]. rewrite IH. lia. Qed.

Lemma entry_of_empty k : entry_of k ∅ = 0.
Proof. unfold entry_of. by rewrite lookup_empty. Qed.

Lemma sum_for_nonneg k ms : Forall (λ m, 0 ≤ entry_of k m) ms → 0 ≤ sum_for k ms.
Proof. induction 1; simpl; lia. Qed.

Lemma recorded_snoc c k e :
  recorded (c <| accepted := accepted c ++ [e] |>) k =
  recorded c k + (if bool_decide (e.1 = k) then e.2 else 0).
Proof.
  unfold recorded. simpl. induction (accepted c) as [|x l IH]; simpl; [lia|]. rewrite IH. lia.
Qed.

(** Every accepted duration is non-negative; what a client was charged is what is held and
    what was handed over for it, as long as it fits an [int64]. *)
Record accounted (c : Collector) : Prop := {
  a_durations : Forall (λ e, 0 ≤ e.2) (accepted c);
  a_exact k : recorded c k ≤ max_int64 →
    recorded c k = sum_for k (held c ++ handed c) ∧ Forall (λ m, 0 ≤ entry_of k m) (held c ++ handed c);
  a_keys : aggregationKeys c = keys_of (held c) }.

Lemma recorded_nonneg c k : Forall (λ e, 0 ≤ e.2) (accepted c) → 0 ≤ recorded c k.
Proof.
  unfold recorded. induction 1 as [|e l He _ IH]; simpl; [lia|]. case_bool_decide; lia.
Qed.

(** Steps that only move maps between the window, the writers and the batches. *)
Lemma accounted_move c c' empties :
  accepted c' = accepted c → aggregationKeys c' = keys_of (held c') →
  Forall (λ m, m = ∅) empties → held c' ++ handed c' ≡ₚ empties ++ held c ++ handed c →
  accounted c → accounted c'.
Proof.
  intros Ha Hg He Hp [Hd Hx _]. constructor; [by rewrite Ha| |done].
  intros k. unfold recorded. rewrite Ha. fold (recorded c k). intros Hk. destruct (Hx k Hk) as [Hs Hn].
  rewrite Hp. split.
  - rewrite sum_for_app, Hs.
    assert (sum_for k empties = 0) as ->; [|done]. clear -He.
    induction He as [|m l -> _ IH]; simpl; [done|]. by rewrite entry_of_empty.
  - apply Forall_app. split; [|done]. eapply Forall_impl; [done|]. intros m ->. by rewrite entry_of_empty.
Qed.

Lemma size_insert_new (m : gmap string Z) k v :
  m !! k = None → Z.of_nat (size (<[k := v]> m)) = Z.of_nat (size m) + 1.
Proof. intros Hn. rewrite map_size_insert_None by done. lia. Qed.

Lemma size_insert_old (m : gmap string Z) k v x :
  m !! k = Some x → size (<[k := v]> m) = size m.
Proof. intros Hn. by rewrite map_size_insert, Hn. Qed.

(** Charging [d] to a client that the window maps to [old] (or not at all). *)
Lemma accounted_charge c c' key d v :
  accounted c → 0 ≤ d → accepted c' = accepted c ++ [(key, d)] →
  (0 ≤ entry_of key (active c) → entry_of key (active c) + d ≤ max_int64 → v = entry_of key (active c) + d) →
  active c' = <[key := v]> (active c) → flushing c' = flushing c → handed c' = handed c →
  aggregationKeys c' = keys_of (held c') → accounted c'.
Proof.
  intros [Hd Hx Hg] Hpos Hacc Hv Hact Hfl Hha Hkeys.
  assert (∀ k, recorded c' k = recorded c k + if bool_decide (key = k) then d else 0) as Hrec.
  { intros k. unfold recorded. rewrite Hacc. apply (recorded_snoc c k (key, d)). }
  constructor; [|intros k Hk|done].
  - rewrite Hacc. apply Forall_app. split; [done|]. by repeat constructor.
  - rewrite Hrec in Hk. assert (recorded c k ≤ max_int64) as Hk0 by (revert Hk; case_bool_decide; lia).
    destruct (Hx k Hk0) as [Hs Hn]. unfold held in *. rewrite Hact, Hfl, Hha, Hrec. simpl in *.
    apply Forall_cons in Hn as [Hn0 Hn]. pose proof (sum_for_nonneg k _ Hn) as Hrest.
    unfold entry_of at 1. destruct (decide (key = k)) as [<-|Hne].
    + rewrite bool_decide_eq_true_2 in * by done. rewrite lookup_insert_eq. simpl.
      rewrite Hv by lia. split; [lia|]. constructor; [|done].
      unfold entry_of at 1. rewrite lookup_insert_eq. simpl. lia.
    + rewrite bool_decide_eq_false_2 by done. rewrite lookup_insert_ne by done.
      fold (entry_of k (active c)). split; [lia|]. constructor; [|done].
      unfold entry_of at 1. by rewrite lookup_insert_ne.
Qed.

Lemma accounted_record c clientID d : accounted c → accounted (recordUsage c clientID d).
Proof.
  intros Hc. unfold recordUsage. destruct (d <? 0) eqn:Hd; [done|]. b2p.
  destruct (closed c); [done|]. simpl. set (key := clientKey clientID).
  pose proof (a_keys _ Hc) as Hg. unfold held in Hg. simpl in Hg.
  destruct (active c !! key) as [old|] eqn:E.
  - apply (accounted_charge c _ key d (wrap_int64 (old + d))); try done.
    + unfold entry_of. rewrite E. simpl. intros. apply wrap_int64_id.
      unfold in_int64, min_int64. lia.
    + unfold held, flushing in *. simpl. rewrite (size_insert_old _ _ _ _ E). done.
  - assert (∀ c', accepted c' = accepted c ++ [(key, d)] → active c' = <[key := d]> (active c) →
      flushing c' = flushing c → handed c' = handed c → aggregationKeys c' = aggregationKeys c + 1 →
      accounted c') as Hnew.
    { intros c' H1 H2 H3 H4 H5. apply (accounted_charge c c' key d d); try done.
      - unfold entry_of. rewrite E. simpl. lia.
      - unfold held. rewrite H2, H3, H5, Hg. simpl. rewrite (size_insert_new _ _ _ E). lia. }
    case_match; by apply Hnew.
Qed.

Section Steps.
Context (newID : nat → string).
Local Abbreviation reach := (reachable newID).

Lemma snapshot_accounted c b :
  let '(snap, c') := snapshot c b in
  accepted c' = accepted c ∧ flushing c' = flushing c ∧ handed c' = handed c ∧
  aggregationKeys c' = aggregationKeys c ∧ loop c' = loop c ∧ closer c' = closer c ∧
  active c' = ∅ ∧ snap = active c.
Proof.
  unfold snapshot. destruct b; simpl; case_bool_decide as Hs; simpl;
    repeat split; try done; by apply map_size_empty_iff in Hs.
Qed.

Lemma accounted_startFlush c : loop c = Waiting → accounted c → accounted (startFlush c).
Proof.
  intros Hl Hc. pose proof (a_keys _ Hc) as Hg. unfold startFlush.
  pose proof (snapshot_accounted c false) as Hs. destruct (snapshot c false) as [snap c'].
  destruct Hs as (H1 & H2 & H3 & H4 & H5 & H6 & H7 & ->).
  unfold held, flushing, handed in *. rewrite Hl in *. simpl in *.
  case_bool_decide as Hz.
  - apply map_size_empty_iff in Hz. apply (accounted_move c c' []); try done;
      unfold held, flushing, handed in *; rewrite ?H2, ?H3, ?H4, ?H7, ?Hz, ?Hg, ?Hl, ?Hz; done.
  - apply (accounted_move c _ [∅]); try done; unfold held, flushing, handed in *; simpl;
      rewrite ?H3, ?H4, ?H6, ?H7, ?Hg, ?Hl; [|by repeat constructor|done].
    rewrite map_size_empty. simpl. lia.
Qed.

Lemma accounted_startFinal c :
  closer c = AwaitingLoop → loop c = LoopDone → accounted c → accounted (startFinal c).
Proof.
  intros Hcl Hl Hc. pose proof (a_keys _ Hc) as Hg. unfold startFinal.
  pose proof (snapshot_accounted c true) as Hs. destruct (snapshot c true) as [snap c'].
  destruct Hs as (H1 & H2 & H3 & H4 & H5 & H6 & H7 & ->).
  unfold held, flushing, handed in *. rewrite Hl, Hcl in *. simpl in *.
  case_bool_decide as Hz.
  - apply map_size_empty_iff in Hz. apply (accounted_move c _ []); try done;
      unfold held, flushing, handed in *; simpl; rewrite ?H3, ?H4, ?H5, ?H7, ?Hg, ?Hl, ?Hcl, ?Hz; done.
  - apply (accounted_move c _ [∅]); try done; unfold held, flushing, handed in *; simpl;
      rewrite ?H3, ?H4, ?H5, ?H7, ?Hg, ?Hl, ?Hcl; [|by repeat constructor|done].
    rewrite map_size_empty. simpl. lia.
Qed.

Lemma writeSnapshot_parts c snap order ts failed :
  let c' := writeSnapshot newID c snap order ts failed in
  accepted c' = accepted c ∧ active c' = active c ∧ loop c' = loop c ∧ closer c' = closer c ∧
  handed c' = handed c ++ [snap] ∧ aggregationKeys c' = aggregationKeys c - Z.of_nat (size snap).
Proof.
  unfold writeSnapshot, handed. destruct failed; simpl; rewrite fmap_app; repeat split; done.
Qed.

Lemma accounted_written c c' snap order ts failed :
  accounted c → let w := writeSnapshot newID c snap order ts failed in
  accepted c' = accepted w → active c' = active w → batches c' = batches w →
  aggregationKeys c' = aggregationKeys w → flushing c ≡ₚ snap :: flushing c' → accounted c'.
Proof.
  intros Hc w. destruct (writeSnapshot_parts c snap order ts failed) as (H1 & H2 & _ & _ & H5 & H6).
  fold w in H1, H2, H5, H6. intros Ha Hact Hb Hk Hfl. pose proof (a_keys _ Hc) as Hg.
  assert (handed c' = handed c ++ [snap]) as Hh by (unfold handed; by rewrite Hb).
  apply (accounted_move c c' []); [congruence| |done| |done]; unfold held in *.
  - rewrite Hk, H6, Hg, Hact, H2, Hfl. simpl. lia.
  - rewrite Hact, H2, Hh, Hfl. simpl. f_equiv. rewrite (assoc_L (++)). by rewrite Permutation_app_comm.
Qed.

Lemma accounted_step c c' : step newID c c' → accounted c → accounted c'.
Proof.
  intros Hst Hc. pose proof (a_keys _ Hc) as Hg. destruct Hst.
  - by apply accounted_record.
  - by apply (accounted_move c _ []).
  - by apply accounted_startFlush.
  - apply accounted_startFlush; [done|]. by apply (accounted_move c _ []).
  - apply (accounted_move c _ []); try done; unfold held, flushing in *; simpl; by rewrite H in *.
  - eapply (accounted_written c _ snap order timestamp failed); try done.
    unfold flushing. rewrite H. by destruct failed.
  - apply (accounted_move c _ []); try done; unfold held, flushing in *; simpl; by rewrite H in *.
  - by apply accounted_startFinal.
  - apply (accounted_move c _ []); try done; unfold held, flushing in *; simpl; by rewrite H in *.
  - eapply (accounted_written c _ snap order timestamp failed); try done.
    unfold flushing. rewrite H. destruct failed; simpl; rewrite (right_id_L [] (++));
      by rewrite Permutation_app_comm.
  - apply (accounted_move c _ []); try done; unfold held, flushing in *; simpl; by rewrite H in *.
Qed.

Lemma newCollector_fresh producer o c :
  newCollector producer o = Ret c →
  c = mkCollector (options c) ∅ false false false 0 Waiting NotClosed false 0 0 0 0 0 0 [] [] ∧
  0 < flushThreshold (options c) ∧ 0 < timeout (options c) ∧ 0 < interval (options c).
Proof.
  unfold newCollector. destruct producer; [|done]. simpl. destruct (interval o <=? 0) eqn:Hi; [done|].
  intros [= <-]. b2p. simpl. unfold flushTimeout, aggregationFlushThreshold, Second, Millisecond.
  split; [done|]. repeat case_match; b2p; lia.
Qed.

Lemma reachable_accounted c : reach c → accounted c.
Proof.
  induction 1 as [producer o c Hn|c c' _ IH Hst]; [|by eapply accounted_step].
  apply newCollector_fresh in Hn as [-> _]. constructor; [constructor| |done].
  intros k _. split; [done|]. repeat constructor. by rewrite entry_of_empty.
Qed.

(** ** Phases *)

Record phases_ok (c : Collector) : Prop := {
  p_closed : closer c ≠ NotClosed → closed c = true ∧ stop c = true;
  p_final : match closer c with
            | FinalWrite _ | ClosingProducer => loop c = LoopDone ∧ active c = ∅
            | _ => True
            end;
  p_producer : producerClosed c = true →
    (closer c = ClosingProducer ∨ closer c = Returned) ∧ loop c = LoopDone ∧ active c = ∅;
  p_window : flushThreshold (options c) ≤ Z.of_nat (size (active c)) →
    (0 < signals c)%nat ∨ flushNow c = true;
  p_threshold : 0 < flushThreshold (options c) }.

Lemma recordUsage_cases c clientID d :
  let c' := recordUsage c clientID d in
  c' = c ∨
  (closed c = false ∧ closed c' = false ∧ stop c' = stop c ∧ loop c' = loop c ∧ closer c' = closer c ∧
   producerClosed c' = producerClosed c ∧ options c' = options c ∧ batches c' = batches c ∧
   drawn c' = drawn c ∧ flushNow c' = flushNow c ∧ (signals c ≤ signals c')%nat ∧
   (size (active c') = size (active c) ∨
    (flushThreshold (options c) ≤ Z.of_nat (size (active c')) → (0 < signals c')%nat))).
Proof.
  unfold recordUsage. destruct (d <? 0); [by left|]. destruct (closed c) eqn:Hc; [by left|]. right.
  destruct (active c !! clientKey clientID) as [old|] eqn:E; simpl.
  - rewrite E. simpl. rewrite (size_insert_old _ _ _ _ E). repeat split; try done; eauto; lia.
  - rewrite E. simpl. case_match eqn:Ht; simpl; b2p; repeat split; try done; try lia; right; lia.
Qed.

Lemma startFlush_cases c :
  startFlush c = if bool_decide (size (active c) = 0%nat) then c
                 else c <| active := ∅ |> <| loop := Flushing (active c) |>.
Proof. unfold startFlush, snapshot. simpl. by repeat case_bool_decide. Qed.

Lemma startFinal_cases c :
  startFinal c = let c := c <| closed := true |> in
    if bool_decide (size (active c) = 0%nat)
    then c <| closer := ClosingProducer |> <| producerClosed := true |>
    else c <| active := ∅ |> <| closer := FinalWrite (active c) |>.
Proof. unfold startFinal, snapshot. simpl. by repeat case_bool_decide. Qed.

Lemma phases_startFlush c b :
  loop c = Waiting → phases_ok c → phases_ok (startFlush (c <| flushNow := b |>)).
Proof.
  intros Hl []. rewrite startFlush_cases.
  assert (match closer c with FinalWrite _ | ClosingProducer => False | _ => True end) as Hcl
    by (destruct (closer c); try done; by destruct p_final0; congruence).
  assert (producerClosed c = false) as Hp
    by (destruct (producerClosed c); [|done]; destruct p_producer0 as (_ & ? & _); [done|congruence]).
  simpl. case_bool_decide; constructor; simpl; try done;
    try (rewrite Hp; done); try (by destruct (closer c)); rewrite ?map_size_empty; lia.
Qed.

Lemma phases_startFinal c :
  closer c = AwaitingLoop → loop c = LoopDone → phases_ok c → phases_ok (startFinal c).
Proof.
  intros Hcl Hl []. destruct p_closed0 as [Hc Hs]; [by rewrite Hcl|]. rewrite startFinal_cases.
  simpl. case_bool_decide as Hz; constructor; simpl; rewrite ?map_size_empty; try done; try lia;
    try (apply map_size_empty_iff in Hz; eauto; done).
  intros Hx. destruct (p_producer0 Hx) as ([|] & _); congruence.
Qed.

Lemma phases_step c c' : step newID c c' → phases_ok c → phases_ok c'.
Proof.
  intros Hst Hc. destruct Hst.
  - destruct (recordUsage_cases c clientID duration) as [->|(Ho & H1 & H2 & H3 & H4 & H5 & H6 & _ & _ & H7 & H8 & H9)];
      [done|]. destruct Hc as [Hcl Hf Hp Hw Ht].
    assert (closer c = NotClosed) as Hn.
    { destruct (closer c); try done; destruct Hcl; congruence. }
    constructor; rewrite ?H2, ?H3, ?H4, ?H5, ?H6, ?Hn, ?H7; try done.
    + intros Hx. destruct (Hp Hx) as ([|] & _); congruence.
    + intros Hle. destruct H9 as [H9|H9]; [|by left; apply H9].
      rewrite H9 in Hle. destruct (Hw Hle); [left; lia|by right].
  - destruct Hc. constructor; simpl; try done. by right.
  - replace (startFlush c) with (startFlush (c <| flushNow := flushNow c |>)) by by destruct c.
    by apply phases_startFlush.
  - by apply phases_startFlush.
  - destruct Hc as [Hcl Hf Hp Hw Ht]. constructor; simpl; try done.
    + by destruct (closer c); try done; destruct Hf.
    + intros Hx. by destruct (Hp Hx) as (? & ? & ?).
  - destruct Hc as [Hcl Hf Hp Hw Ht].
    assert (producerClosed c = false) as Hpc
      by (destruct (producerClosed c); [|done]; destruct Hp as (_ & ? & _); [done|congruence]).
    destruct failed; constructor; simpl; try done; try (rewrite Hpc; done);
      destruct (closer c); try done; destruct Hf; congruence.
  - destruct Hc as [Hcl Hf Hp Hw Ht]. constructor; simpl; try done.
    intros Hx. destruct (Hp Hx) as ([|] & _); congruence.
  - by apply phases_startFinal.
  - destruct Hc as [Hcl Hf Hp Hw Ht]. rewrite H in *. constructor; simpl; try done; [by intros _; apply Hcl|].
    intros Hx. destruct (Hp Hx) as ([|] & _); congruence.
  - destruct Hc as [Hcl Hf Hp Hw Ht]. rewrite H in *. destruct Hf as [Hf1 Hf2].
    destruct failed; constructor; simpl; try done; try (by intros _; apply Hcl); by eauto.
  - destruct Hc as [Hcl Hf Hp Hw Ht]. rewrite H in *. destruct Hf as [Hf1 Hf2].
    constructor; simpl; try done; [by intros _; apply Hcl|]. eauto.
Qed.

Lemma reachable_phases c : reach c → phases_ok c.
Proof.
  induction 1 as [producer o c Hn|c c' _ IH Hst]; [|by eapply phases_step].
  apply newCollector_fresh in Hn as [-> [Ht _]]. simpl in Ht. constructor; simpl; try done.
  rewrite map_size_empty. simpl. lia.
Qed.

(** ** Records *)

(** A batch has one record per client of its snapshot. *)
Definition batch_ok (b : batch) : Prop :=
  ∃ order timestamp n, order ≡ₚ map_to_list (b_snapshot b) ∧
    b_records b = makeRecords newID timestamp n order.

Lemma makeRecords_ids ts n order :
  ur_ID <$> makeRecords newID ts n order = newID <$> seq n (length order).
Proof. revert n. induction order as [|[k d] order IH]; intros n; simpl; [done|]. by rewrite IH. Qed.

Lemma makeRecords_length ts n order : length (makeRecords newID ts n order) = length order.
Proof. revert n. induction order as [|[k d] order IH]; intros n; simpl; [done|]. by rewrite IH. Qed.

Record records_ok (c : Collector) : Prop := {
  r_batches : Forall batch_ok (batches c);
  r_ids : ur_ID <$> concat (b_records <$> batches c) = newID <$> seq 0 (drawn c) }.

Lemma records_written c c' snap order ts failed :
  records_ok c → order ≡ₚ map_to_list snap →
  batches c' = batches (writeSnapshot newID c snap order ts failed) →
  drawn c' = drawn (writeSnapshot newID c snap order ts failed) → records_ok c'.
Proof.
  intros [Hb Hi] Hord Hb' Hd'.
  assert (batches c' = batches c ++ [mkBatch snap (makeRecords newID ts (drawn c) order) failed] ∧
          drawn c' = (drawn c + length order)%nat) as [E1 E2]
    by (rewrite Hb', Hd'; by destruct failed).
  constructor.
  - rewrite E1. apply Forall_app. split; [done|]. repeat constructor. by exists order, ts, (drawn c).
  - rewrite E1, E2, fmap_app, concat_app, fmap_app, Hi. simpl.
    rewrite (right_id_L [] (++)), makeRecords_ids, seq_app, fmap_app. done.
Qed.

Lemma records_step c c' : step newID c c' → records_ok c → records_ok c'.
Proof.
  intros Hst Hc.
  assert (∀ c', batches c' = batches c → drawn c' = drawn c → records_ok c') as Hsame
    by (destruct Hc; intros c0 E1 E2; constructor; by rewrite ?E1, ?E2).
  destruct Hst; try (by apply Hsame); try (by eapply records_written).
  - destruct (recordUsage_cases c clientID duration) as [->|(_ & _ & _ & _ & _ & _ & _ & ? & ? & _)];
      [done|by apply Hsame].
  - apply Hsame; rewrite startFlush_cases; by case_bool_decide.
  - apply Hsame; rewrite startFlush_cases; by case_bool_decide.
  - apply Hsame; rewrite startFinal_cases; simpl; by case_bool_decide.
Qed.

Lemma reachable_records c : reach c → records_ok c.
Proof.
  induction 1 as [producer o c Hn|c c' _ IH Hst]; [|by eapply records_step].
  apply newCollector_fresh in Hn as [-> _]. constructor; [constructor|done].
Qed.

Lemma makeRecords_elem ts n order r :
  r ∈ makeRecords newID ts n order →
  ∃ d, (ur_ClientID r, d) ∈ order ∧ ur_Usage r = Z.max 1 (Z.quot d Millisecond) ∧ ur_Timestamp r = ts ∧
       ur_Service r = ServiceLeafage ∧ ur_ResourceType r = ResourceTypeRead.
Proof.
  revert n. induction order as [|[k d] order IH]; intros n; simpl; [set_solver|].
  intros [->|Hin]%elem_of_cons.
  - exists d. simpl. split; [by left|]. split; [|done]. unfold usageOf. case_match; b2p; lia.
  - destruct (IH _ Hin) as (d' & ? & ?). exists d'. split; [by right|done].
Qed.

(** The usages of one client's records, in the order they were written. *)
Definition usages (k : string) (rs : list UsageRecord) : list Z :=
  ur_Usage <$> filter (λ r, ur_ClientID r = k) rs.

Lemma makeRecords_usages ts n order k :
  usages k (makeRecords newID ts n order)
  = (λ d, Z.max 1 (Z.quot d Millisecond)) <$> (filter (λ e : string * Z, e.1 = k) order).*2.
Proof.
  unfold usages. revert n. induction order as [|[k' d] order IH]; intros n; simpl; [done|].
  rewrite !filter_cons. simpl. case_decide; simpl; rewrite IH; [|done]. f_equal.
  unfold usageOf. case_match; b2p; lia.
Qed.

Lemma map_to_list_of_key (m : gmap string Z) k order :
  order ≡ₚ map_to_list m →
  (filter (λ e : string * Z, e.1 = k) order).*2 = option_list (m !! k).
Proof.
  intros Hord. assert (filter (λ e : string * Z, e.1 = k) order
    ≡ₚ (λ d, (k, d)) <$> option_list (m !! k)) as Hp.
  { apply NoDup_Permutation.
    - apply NoDup_filter. rewrite Hord. apply NoDup_map_to_list.
    - destruct (m !! k); simpl; [apply NoDup_singleton|constructor].
    - intros [k' d]. rewrite list_elem_of_filter, Hord, elem_of_map_to_list, list_elem_of_fmap. simpl. split.
      + intros [-> Hd]. exists d. rewrite Hd. split; [done|by left].
      + intros (d' & [= -> ->] & Hd). split; [done|]. destruct (m !! k); simpl in Hd; set_solver. }
  destruct (m !! k) as [d|]; simpl in *.
  - by apply Permutation_singleton_r in Hp as ->.
  - by apply Permutation_nil_r in Hp as ->.
Qed.

(** What the batches hold of a client, and what their records report of it. *)
Lemma batches_usages bs k :
  Forall batch_ok bs →
  usages k (concat (b_records <$> bs))
  = (λ d, Z.max 1 (Z.quot d Millisecond)) <$> omap (λ b, b_snapshot b !! k) bs.
Proof.
  unfold usages. induction 1 as [|b bs (order & ts & n & Hord & Hrec) _ IH]; [done|].
  cbn [fmap list_fmap concat]. rewrite filter_app, fmap_app, IH, Hrec. fold (usages k).
  change (ur_Usage <$> filter _ (makeRecords newID ts n order)) with (usages k (makeRecords newID ts n order)).
  rewrite makeRecords_usages, (map_to_list_of_key _ _ _ Hord). simpl.
  by destruct (b_snapshot b !! k).
Qed.

Lemma makeRecords_clients ts n order : ur_ClientID <$> makeRecords newID ts n order = order.*1.
Proof. revert n. induction order as [|[k d] order IH]; intros n; simpl; [done|]. by rewrite IH. Qed.
End Steps.

Definition total (ds : list Z) : Z := foldr Z.add 0 ds.

Lemma omap_total (bs : list batch) k :
  total (omap (λ b, b_snapshot b !! k) bs) = sum_for k (b_snapshot <$> bs).
Proof.
  induction bs as [|b bs IH]; [done|]. cbn [fmap list_fmap omap list_omap sum_for foldr].
  fold (sum_for k (b_snapshot <$> bs)). rewrite <- IH. unfold entry_of. by destruct (_ !! k).
Qed.

Lemma omap_nonneg (bs : list batch) k :
  Forall (λ m, 0 ≤ entry_of k m) (b_snapshot <$> bs) → Forall (λ d, 0 ≤ d) (omap (λ b, b_snapshot b !! k) bs).
Proof.
  induction bs as [|b bs IH]; simpl; [constructor|]. intros [Hb Hbs]%Forall_cons. unfold entry_of in Hb.
  destruct (_ !! k); [constructor; [done|]|]; by apply IH.
Qed.

(** Rounding to whole milliseconds, at least one, is off by one at most for each record. *)
Lemma rounding ds :
  Forall (λ d, 0 ≤ d) ds →
  Z.abs (total ((λ d, Z.max 1 (Z.quot d Millisecond)) <$> ds) * Millisecond - total ds)
  ≤ Z.of_nat (length ds) * Millisecond.
Proof.
  induction 1 as [|d ds Hd _ IH]; [done|]. cbn [fmap list_fmap total foldr length].
  fold (total ((λ d, Z.max 1 (Z.quot d Millisecond)) <$> ds)) (total ds).
  pose proof (Z.quot_div_nonneg d Millisecond Hd eq_refl) as Hq. rewrite Hq.
  pose proof (Z.div_mod d Millisecond ltac:(done)). pose proof (Z.mod_pos_bound d Millisecond eq_refl).
  unfold Millisecond in *. lia.
Qed.

(** What holds once the producer is being closed. *)
Lemma closed_complete newID c :
  reachable newID c → producerClosed c = true →
  loop c = LoopDone ∧ active c = ∅ ∧ flushing c = [] ∧
  (∀ k, recorded c k ≤ max_int64 → recorded c k = sum_for k (handed c)) ∧
  ∀ c', step newID c c' → accepted c' = accepted c ∧ batches c' = batches c.
Proof.
  intros Hr Hp. destruct (reachable_phases newID c Hr) as [Hcl Hf Hpr _ _].
  destruct (Hpr Hp) as (Hc & Hl & Ha).
  assert (flushing c = []) as Hfl by (unfold flushing; rewrite Hl; by destruct Hc as [-> | ->]).
  assert (closed c = true) as Hclosed by (apply Hcl; by destruct Hc as [-> | ->]).
  split_and!; try done.
  - intros k Hk. destruct (reachable_accounted newID c Hr) as [_ Hx _]. destruct (Hx k Hk) as [-> _].
    rewrite sum_for_app. unfold held. rewrite Hfl, Ha. simpl. rewrite entry_of_empty. lia.
  - intros c' Hst. destruct Hst; try done; try congruence; try (by destruct Hc; congruence).
    unfold recordUsage. rewrite Hclosed. by destruct (duration <? 0).
Qed.

(** ** The Kafka producer ([usage/kafka_producer.go]) *)

(** The writer's cleaned broker list and topic, or an error. *)
Fixpoint cleanBrokers (brokers : list string) : option (list string) :=
  match brokers with
  | [] => Some []
  | broker :: brokers =>
      let broker := TrimSpace broker in
      if bool_decide (broker = "") then None else cons broker <$> cleanBrokers brokers
  end.

Definition NewKafkaProducer (brokers : list string) (topic : string) : option (list string * string) :=
  if bool_decide (length brokers = 0%nat) then None else
  let topic := TrimSpace topic in
  if bool_decide (topic = "") then None else
  (λ cleaned, (cleaned, topic)) <$> cleanBrokers brokers.

Section Kafka.
(** [json.Marshal] of a record and the writer's [WriteMessages] (true on success). *)
Context (Marshal : UsageRecord → option string) (WriteMessages : list (string * string) → bool).

Fixpoint makeMessages (records : list UsageRecord) : option (list (string * string)) :=
  match records with
  | [] => Some []
  | record :: records =>
      match Marshal record with
      | None => None
      | Some value => cons (ur_ClientID record, value) <$> makeMessages records
      end
  end.

(** The messages given to the writer, if any, and whether there was no error. *)
Definition Write (records : list UsageRecord) : option (list (string * string)) * bool :=
  if bool_decide (length records = 0%nat) then (None, true) else
  match makeMessages records with
  | None => (None, false)
  | Some messages => (Some messages, WriteMessages messages)
  end.
End Kafka.

(** ** Configuration ([config/config.go]) and start ([cmd/proxy/main.go]) *)

Record UsageConfig := mkUsageConfig {
  KafkaBrokers : list string; KafkaTopic : string; ReportInterval : Z }.

Definition defaultUsage : UsageConfig := mkUsageConfig [] "leafage-usage" (5 * Second).

Definition Enabled (c : UsageConfig) : bool := (0 <? length (KafkaBrokers c))%nat.

(** True when there is no error. *)
Definition Validate (c : UsageConfig) : bool :=
  if negb (Enabled c) then true else
  if bool_decide (TrimSpace (KafkaTopic c) = "") then false else
  if ReportInterval c <=? 0 then false else true.

(** [log.Fatal] ends the process. *)
Inductive started := Fatal | Running (collector : option Collector).

Definition startUsage (c : UsageConfig) : go started :=
  if negb (Enabled c) then Ret (Running None) else
  if negb (Validate c) then Ret Fatal else
  let usageTopic := TrimSpace (KafkaTopic c) in
  match NewKafkaProducer (KafkaBrokers c) usageTopic with
  | None => Ret Fatal
  | Some _ => let! collector := NewCollector true (ReportInterval c) in Ret (Running (Some collector))
  end.

(** [newRPCRequestHandler]: serving may panic, which hertz recovers after the deferred
    recording; [Since] is the time the request took. *)
Definition rpcRequestHandler {S : Type} (serve : S → string → S * bool) (recorder : option Collector)
    (st : S) (chainID clientID : string) (since : Z) : S * bool * option Collector :=
  match recorder with
  | None => let '(st, panicked) := serve st chainID in (st, panicked, None)
  | Some c =>
      let '(_, collectUsage) := ParseBaseChainID chainID in
      let '(st, panicked) := serve st chainID in
      (st, panicked, Some (if collectUsage then recordUsage c clientID since else c))
  end.

(** What a start of the collector has checked. *)
Definition checked (cfg : UsageConfig) (r : started) : Prop :=
  match r with
  | Fatal => Enabled cfg = true ∧
      (TrimSpace (KafkaTopic cfg) = "" ∨ ReportInterval cfg ≤ 0 ∨ cleanBrokers (KafkaBrokers cfg) = None)
  | Running None => Enabled cfg = false
  | Running (Some c) => Enabled cfg = true ∧ TrimSpace (KafkaTopic cfg) ≠ "" ∧ 0 < ReportInterval cfg ∧
      is_Some (cleanBrokers (KafkaBrokers cfg)) ∧ flushThreshold (options c) = 10000
  end.

Lemma startUsage_returns cfg : returns (startUsage cfg) (checked cfg).
Proof.
  unfold startUsage, checked. destruct (Enabled cfg) eqn:He; simpl; [|done].
  unfold Validate. rewrite He. simpl. case_bool_decide as Ht; simpl; [by eauto|].
  destruct (ReportInterval cfg <=? 0) eqn:Hi; b2p; simpl; [by eauto|].
  unfold NewKafkaProducer. unfold Enabled in He. b2p.
  rewrite bool_decide_eq_false_2 by lia. rewrite TrimSpace_idemp, bool_decide_eq_false_2 by done.
  destruct (cleanBrokers (KafkaBrokers cfg)) as [cleaned|] eqn:Hc; simpl; [|by eauto].
  unfold NewCollector, newCollector. simpl. rewrite (proj2 (Z.leb_gt _ _)) by lia. simpl. eauto 10.
Qed.

(** ** Properties *)

(** C11: nothing a client used is lost or counted twice inside the proxy. Under any
    interleaving of recording requests, the flush loop, the producer's answers and the
    shutdown, the time recorded for a client (as long as it fits an int64) is what the current
    window and the batches being written hold for it plus the times [ds] that were written:
    one for each record of the client the producer was handed, which reports it in whole
    milliseconds and as at least one. So the milliseconds reported differ from the time that
    has left the collector by one at most for each record. The gauge is the number of keys
    held, batches being written included. *)
Theorem usage_conserved newID c k :
  reachable newID c →
  (recorded c k ≤ max_int64 →
   let reported := usages k (concat (b_records <$> batches c)) in
   (∃ ds, recorded c k = sum_for k (held c) + total ds ∧ Forall (λ d, 0 ≤ d) ds ∧
          reported = (λ d, Z.max 1 (Z.quot d Millisecond)) <$> ds) ∧
   Z.abs (total reported * Millisecond - (recorded c k - sum_for k (held c)))
   ≤ Z.of_nat (length reported) * Millisecond) ∧
  aggregationKeys c = keys_of (held c).
Proof.
  intros Hr. destruct (reachable_accounted newID c Hr) as [_ Hx Hg]. split; [|done].
  intros Hk reported. destruct (Hx k Hk) as [Hs Hn]. rewrite sum_for_app in Hs. unfold handed in Hs, Hn.
  apply Forall_app in Hn as [_ Hn%omap_nonneg].
  pose proof (batches_usages newID _ k (r_batches _ _ (reachable_records newID c Hr))) as Hu. fold reported in Hu.
  rewrite <- omap_total in Hs. set (ds := omap _ (batches c)) in *. split; [by exists ds|].
  pose proof (rounding ds Hn) as Hb. rewrite <- Hu in Hb.
  assert (length reported = length ds) as -> by (by rewrite Hu, length_fmap). lia.
Qed.

(** An orderly shutdown is complete. Once [Close] closes the producer the loop has ended,
    no batch is being written, everything recorded has been handed over, and nothing is
    recorded or written afterwards. *)
Theorem shutdown_complete newID c :
  reachable newID c → producerClosed c = true →
  loop c = LoopDone ∧ active c = ∅ ∧ flushing c = [] ∧
  (∀ k, recorded c k ≤ max_int64 → recorded c k = sum_for k (handed c)) ∧
  ∀ c', step newID c c' → accepted c' = accepted c ∧ batches c' = batches c.
Proof. apply closed_complete. Qed.

(** A full window is about to be flushed: whenever the window has reached the threshold a
    flush has been signalled or a recorder is about to signal it, and every record ever
    written is the usage of one client of its snapshot, at least one millisecond, under an
    identifier of its own. *)
Theorem full_window_flushes newID c :
  reachable newID c →
  (flushThreshold (options c) ≤ Z.of_nat (size (active c)) → (0 < signals c)%nat ∨ flushNow c = true) ∧
  (∀ b, b ∈ batches c →
     (ur_ClientID <$> b_records b) ≡ₚ (map_to_list (b_snapshot b)).*1 ∧
     ∀ r, r ∈ b_records b → ∃ d, b_snapshot b !! ur_ClientID r = Some d ∧
       ur_Usage r = Z.max 1 (Z.quot d Millisecond)) ∧
  ((∀ i j, newID i = newID j → i = j) → NoDup (ur_ID <$> concat (b_records <$> batches c))).
Proof.
  intros Hr. destruct (reachable_records newID c Hr) as [Hb Hi]. split_and!.
  - apply (reachable_phases newID c Hr).
  - intros b Hin. rewrite Forall_forall in Hb. destruct (Hb b Hin) as (order & ts & n & Hord & Hrec).
    rewrite Hrec. split; [by rewrite makeRecords_clients, Hord|]. intros r Hr'.
    destruct (makeRecords_elem newID ts n order r Hr') as (d & Hd & Hu & _). exists d. split; [|done].
    rewrite Hord in Hd. by apply elem_of_map_to_list in Hd.
  - intros Hinj. rewrite Hi. apply NoDup_fmap_2; [intros i j; apply Hinj|]. apply NoDup_ListNoDup, seq_NoDup.
Qed.

(** Usage configuration is checked before anything starts: starting never panics, a
    disabled collector starts nothing, an enabled one runs exactly when the topic is not
    blank, the interval is positive and no broker is blank, with the documented threshold;
    and with it every request on a numeric chain is recorded once under its client, whether
    serving it returned or panicked, and serving itself is unaffected. *)
Theorem startUsage_checked {S : Type} cfg (serve : S → string → S * bool) st chainID clientID since :
  returns (startUsage cfg) (λ r, checked cfg r ∧
    (∀ rec, r = Running rec →
     rpcRequestHandler serve rec st chainID clientID since =
     ((serve st chainID).1, (serve st chainID).2,
      if (ParseBaseChainID chainID).2 then (λ c, recordUsage c clientID since) <$> rec else rec))).
Proof.
  eapply returns_mono; [apply startUsage_returns|]. intros r Hr. split; [done|]. intros [c|] _; simpl;
    destruct (ParseBaseChainID chainID) as [? []], (serve st chainID); done.
Qed.

(** ** A run: one client charged twice, a flush, a charge during the write, the shutdown. *)

Definition ex_id (n : nat) : string := Itoa (Z.of_nat n).
Definition ex_new : Collector :=
  mkCollector (mkCollectorOptions 1 1 1) ∅ false false false 0 Waiting NotClosed false 0 0 0 0 0 0 [] [].
Definition ex_charged : Collector := recordUsage (recordUsage ex_new " a " 3000000) "a" 500.
Definition ex_flushing : Collector := startFlush ((signalFlush ex_charged) <| flushNow := false |>).
Definition ex_window : Collector := recordUsage ex_flushing "" 7.
Definition ex_written : Collector :=
  (writeSnapshot ex_id ex_window {["a" := 3000500]} [("a", 3000500)] 9 false) <| loop := Waiting |>.
Definition ex_final : Collector :=
  let c := ex_written <| closed := true |> <| stop := true |> <| closer := AwaitingLoop |> in
  startFinal (c <| loop := LoopDone |>).
Definition ex_closed : Collector :=
  (writeSnapshot ex_id ex_final {["unknown" := 7]} [("unknown", 7)] 10 true)
    <| closer := ClosingProducer |> <| producerClosed := true |>.

Lemma ex_reach_window : reachable ex_id ex_window.
Proof.
  eapply reach_step; [|apply SRecord].
  eapply reach_step; [|by apply (SFlushNow ex_id (signalFlush ex_charged))].
  eapply reach_step; [|apply SSignal; vm_compute; lia].
  eapply reach_step; [|apply SRecord]. eapply reach_step; [|apply SRecord].
  by apply (reach_new ex_id true (mkCollectorOptions 1 1 1)).
Qed.

Lemma ex_reach_closed : reachable ex_id ex_closed.
Proof.
  eapply reach_step; [|apply (SFinalWritten ex_id ex_final {["unknown" := 7]} [("unknown", 7)] 10 true);
    [vm_compute; reflexivity|by rewrite map_to_list_singleton]].
  eapply reach_step; [|apply SLoopDone; vm_compute; reflexivity].
  eapply reach_step; [|apply SStop; vm_compute; reflexivity].
  eapply reach_step; [|apply SClose; vm_compute; reflexivity].
  eapply reach_step; [apply ex_reach_window|].
  apply SWritten; [vm_compute; reflexivity|by rewrite map_to_list_singleton].
Qed.

Lemma usage_conserved_witness :
  recorded ex_closed "a" = 3000500 ∧ usages "a" (concat (b_records <$> batches ex_closed)) = [3] ∧
  (∃ ds, recorded ex_closed "a" = sum_for "a" (held ex_closed) + total ds ∧ Forall (λ d, 0 ≤ d) ds ∧
         usages "a" (concat (b_records <$> batches ex_closed))
         = (λ d, Z.max 1 (Z.quot d Millisecond)) <$> ds) ∧
  aggregationKeys ex_closed = keys_of (held ex_closed).
Proof.
  split; [vm_compute; reflexivity|]. split; [vm_compute; reflexivity|].
  destruct (usage_conserved ex_id ex_closed "a" ex_reach_closed) as [Hk Hg].
  split; [apply Hk; vm_compute; discriminate|exact Hg].
Defined.

Lemma shutdown_complete_witness :
  length (batches ex_closed) = 2%nat ∧
  loop ex_closed = LoopDone ∧ active ex_closed = ∅ ∧ flushing ex_closed = [] ∧
  (∀ k, recorded ex_closed k ≤ max_int64 → recorded ex_closed k = sum_for k (handed ex_closed)) ∧
  ∀ c', step ex_id ex_closed c' → accepted c' = accepted ex_closed ∧ batches c' = batches ex_closed.
Proof.
  split; [vm_compute; reflexivity|].
  exact (shutdown_complete ex_id ex_closed ex_reach_closed (eq_refl true)).
Defined.

Lemma full_window_flushes_witness :
  (0 < signals ex_window)%nat ∧ NoDup (ur_ID <$> concat (b_records <$> batches ex_closed)).
Proof.
  split.
  - destruct (full_window_flushes ex_id ex_window ex_reach_window) as [Hw _].
    destruct Hw as [Hw|Hw]; [vm_compute; congruence|done|vm_compute in Hw; discriminate].
  - apply (full_window_flushes ex_id ex_closed ex_reach_closed).
    intros i j Hij. unfold ex_id, Itoa in Hij. apply (inj pretty) in Hij. lia.
Defined.
