(* ===== verification/UsageClose.v ===== *)
(** * Closing the usage collector

    [Close] and [closeProducer] of [usage/collector.go] with their errors, on top of the
    transition system of [Usage].  [Close] may be called any number of times: [closeOnce]
    lets the first call run and makes the others wait for it, and all return the error it
    left.  Only the context of the first call counts. *)

From S2P Require Import Prelude GoStrings Usage.
Local Open Scope Z_scope.

(** The parts of the error: the context's own, that of the last write, that of the producer's
    [Close]; [errors.Join] keeps those that are not nil, and no part is nil. *)
Inductive closeError := CtxErr | WriteErr | ProducerErr.
#[export] Instance closeError_eq_dec : EqDecision closeError.
Proof. solve_decision. Defined.

(** [k_ctx] is whether the first call has a context that can expire, [k_writeErr] the error
    of its last write, [k_closeErr] the field, set when the first call is through, and
    [k_flushed] the number of batches the loop had handed over when it ended (history);
    [k_waiting] are the calls inside [closeOnce.Do] and [k_returned] what calls returned. *)
Record Closing := mkClosing {
  k_collector : Collector; k_ctx : bool; k_writeErr : list closeError;
  k_closeErr : option (list closeError); k_flushed : nat;
  k_waiting : gset nat; k_returned : gmap nat (list closeError) }.

#[export] Instance Closing_expands : Expands Closing := λ k,
  mkClosing (k_collector k) (k_ctx k) (k_writeErr k) (k_closeErr k) (k_flushed k) (k_waiting k) (k_returned k).

Definition opened (c : Collector) : Closing := mkClosing c false [] None 0 ∅ ∅.

(** A call enters [Close]; the first one shuts the collector. *)
Definition enterClose (k : Closing) (i : nat) (ctx : bool) : Closing :=
  let k := k <| k_waiting := {[i]} ∪ k_waiting k |> in
  match closer (k_collector k) with
  | NotClosed =>
      let c := (k_collector k) <| closed := true |> <| stop := true |> <| closer := AwaitingLoop |> in
      k <| k_ctx := ctx |> <| k_collector := c |>
  | _ => k
  end.

(** The first call is through, with the field set. *)
Definition finishClose (k : Closing) (err : list closeError) : Closing :=
  let c := (k_collector k) <| closer := Returned |> in
  k <| k_collector := c |> <| k_closeErr := Some err |>.

(** [closeProducer]: the producer's answer, or the context's when it expires first. *)
Definition closeProducer (ctx : bool) (r : option closeError) : Prop :=
  match r with
  | None | Some ProducerErr => True
  | Some CtxErr => ctx = true
  | Some WriteErr => False
  end.

Section Close.
Context (newID : nat → string).

Inductive kstep (k : Closing) : Closing → Prop :=
| KOther c : step newID (k_collector k) c → closer c = closer (k_collector k) → kstep k (k <| k_collector := c |>)
| KEnter i ctx : i ∉ k_waiting k → k_returned k !! i = None → kstep k (enterClose k i ctx)
| KExpired :
    closer (k_collector k) = AwaitingLoop → k_ctx k = true → kstep k (finishClose k [CtxErr])
| KLoopDone :
    closer (k_collector k) = AwaitingLoop → loop (k_collector k) = LoopDone →
    kstep k (k <| k_collector := startFinal (k_collector k) |> <| k_flushed := length (batches (k_collector k)) |>)
| KFinalWritten snap order timestamp failed :
    closer (k_collector k) = FinalWrite snap → order ≡ₚ map_to_list snap →
    let c := (writeSnapshot newID (k_collector k) snap order timestamp failed)
               <| closer := ClosingProducer |> <| producerClosed := true |> in
    kstep k (k <| k_collector := c |>
               <| k_writeErr := if failed : bool then [WriteErr] else [] |>)
| KProducerClosed r :
    closer (k_collector k) = ClosingProducer → closeProducer (k_ctx k) r →
    kstep k (finishClose k (k_writeErr k ++ option_list r))
| KReturn i err :
    i ∈ k_waiting k → k_closeErr k = Some err →
    kstep k (k <| k_waiting := k_waiting k ∖ {[i]} |> <| k_returned := <[i := err]> (k_returned k) |>).

Inductive kreachable : Closing → Prop :=
| kreach_new producer o c : newCollector producer o = Ret c → kreachable (opened c)
| kreach_step k k' : kreachable k → kstep k k' → kreachable k'.

(** ** Lemmas *)

(** The errors are an annotation: without them a step is one of the collector's, or none. *)
Lemma kstep_step k k' :
  kstep k k' → k_collector k' = k_collector k ∨ step newID (k_collector k) (k_collector k').
Proof.
  destruct 1; simpl; try (by left); try (right; by econstructor); [by right|].
  unfold enterClose. simpl. destruct (closer (k_collector k)) eqn:E; try (by left). right. by constructor.
Qed.

Lemma kreachable_reachable k : kreachable k → reachable newID (k_collector k).
Proof.
  induction 1 as [producer o c Hn|k k' _ IH Hst]; [by eapply reach_new|].
  destruct (kstep_step k k' Hst) as [->|Hs]; [done|by eapply reach_step].
Qed.

(** A step of the others leaves the producer, and once the loop has ended the batches too. *)
Lemma other_step c c' :
  step newID c c' → closer c' = closer c →
  producerClosed c' = producerClosed c ∧ (loop c = LoopDone → batches c' = batches c).
Proof.
  destruct 1; simpl; try done; intros E; try congruence.
  - destruct (recordUsage_cases c clientID duration) as [->|(_ & _ & _ & _ & _ & ? & _ & ? & _)]; done.
  - rewrite startFlush_cases. by case_bool_decide.
  - rewrite startFlush_cases. simpl. by case_bool_decide.
  - split; [by destruct failed|congruence].
  - exfalso. rewrite startFinal_cases in E. simpl in E. case_bool_decide; simpl in E; congruence.
Qed.

(** The batches of the last write, of which there is one at most. *)
Definition final_batches (k : Closing) : list batch := drop (k_flushed k) (batches (k_collector k)).

Definition final_ok (k : Closing) : Prop :=
  producerClosed (k_collector k) = true ∧
  k_writeErr k = if existsb b_failed (final_batches k) then [WriteErr] else [].

Definition ended (k : Closing) (err : list closeError) : Prop :=
  (err = [CtxErr] ∧ k_ctx k = true ∧ producerClosed (k_collector k) = false) ∨
  (final_ok k ∧ ∃ r, closeProducer (k_ctx k) r ∧ err = k_writeErr k ++ option_list r).

Record closing_ok (k : Closing) : Prop := {
  ok_returned i err : k_returned k !! i = Some err → k_closeErr k = Some err;
  ok_state : match closer (k_collector k) with
    | NotClosed => k_closeErr k = None ∧ producerClosed (k_collector k) = false ∧ k_writeErr k = [] ∧ k_waiting k = ∅
    | AwaitingLoop => k_closeErr k = None ∧ producerClosed (k_collector k) = false ∧ k_writeErr k = []
    | FinalWrite _ => k_closeErr k = None ∧ k_flushed k = length (batches (k_collector k))
    | ClosingProducer => k_closeErr k = None ∧ final_ok k
    | Returned => ∃ err, k_closeErr k = Some err ∧ ended k err
    end }.

Lemma final_ok_same k k' :
  producerClosed (k_collector k') = producerClosed (k_collector k) → batches (k_collector k') = batches (k_collector k) →
  k_flushed k' = k_flushed k → k_writeErr k' = k_writeErr k → final_ok k → final_ok k'.
Proof. unfold final_ok, final_batches. by intros -> -> -> ->. Qed.

Lemma other_ok k c :
  kreachable k → closing_ok k → step newID (k_collector k) c → closer c = closer (k_collector k) →
  closing_ok (k <| k_collector := c |>).
Proof.
  intros Hr [Hret Hst] Hs Hc. destruct (other_step _ _ Hs Hc) as [Hp Hb].
  pose proof (reachable_phases _ _ (kreachable_reachable k Hr)) as Hph.
  pose proof (p_final _ Hph) as Hf.
  assert (producerClosed (k_collector k) = true → batches c = batches (k_collector k)) as Hcl.
  { intros Ht. apply Hb. by apply (p_producer _ Hph). }
  constructor; [done|]. simpl. rewrite Hc. destruct (closer (k_collector k)); simpl; rewrite ?Hp; try done.
  - destruct Hf as [Hl _]. by rewrite Hb.
  - destruct Hst as [? Hok]. split; [done|]. eapply final_ok_same; [..|exact Hok]; try done. apply Hb, Hf.
  - destruct Hst as (err & ? & [(? & ? & ?)|[Hok Hx]]); exists err; (split; [done|]).
    + left. simpl. by rewrite Hp.
    + right. split; [|done]. eapply final_ok_same; [..|exact Hok]; try done. apply Hcl, Hok.
Qed.

Lemma enter_ok k i ctx : closing_ok k → closing_ok (enterClose k i ctx).
Proof.
  intros [Hret Hst]. unfold enterClose. simpl.
  destruct (closer (k_collector k)) eqn:E; constructor; simpl; rewrite ?E; try done.
  by destruct Hst as (? & ? & ? & _).
Qed.

Lemma startFinal_ok k :
  closer (k_collector k) = AwaitingLoop → closing_ok k →
  closing_ok (k <| k_collector := startFinal (k_collector k) |> <| k_flushed := length (batches (k_collector k)) |>).
Proof.
  intros E [Hret Hst]. rewrite E in Hst. destruct Hst as (Hn & Hp & Hw). constructor; [done|]. simpl.
  rewrite startFinal_cases. simpl. case_bool_decide; simpl; [|done].
  split; [done|]. split; [done|]. unfold final_batches. simpl. by rewrite drop_all.
Qed.

Lemma written_ok k snap order ts (failed : bool) :
  closer (k_collector k) = FinalWrite snap → closing_ok k →
  let c := (writeSnapshot newID (k_collector k) snap order ts failed)
             <| closer := ClosingProducer |> <| producerClosed := true |> in
  closing_ok (k <| k_collector := c |> <| k_writeErr := if failed then [WriteErr] else [] |>).
Proof.
  intros E [Hret Hst] c. rewrite E in Hst. destruct Hst as [Hn Hl]. constructor; [done|]. simpl.
  split; [done|]. split; [done|]. unfold final_batches. simpl. rewrite Hl.
  assert (batches c = batches (k_collector k) ++ [mkBatch snap (makeRecords newID ts (drawn (k_collector k)) order) failed])
    as Hb by (by destruct failed).
  unfold c in Hb. simpl in Hb. rewrite Hb, drop_app_length. simpl. by destruct failed.
Qed.

Lemma finish_ok k err :
  k_closeErr k = None → ended k err → closing_ok k → closing_ok (finishClose k err).
Proof.
  intros Hn He [Hret _]. constructor; simpl.
  - intros i e Hi. apply Hret in Hi. congruence.
  - exists err. split; [done|]. destruct He as [?|[Hok ?]]; [by left|]. right. split; [|done].
    by eapply final_ok_same; [..|exact Hok].
Qed.

Lemma kstep_ok k k' : kreachable k → kstep k k' → closing_ok k → closing_ok k'.
Proof.
  intros Hr Hst Hok. pose proof (ok_state _ Hok) as Hs. destruct Hst as [c H1 H2|i ctx H1 H2|H1 H2|H1 H2|snap order ts failed H1 H2|r H1 H2|i err H1 H2].
  - by apply other_ok.
  - by apply enter_ok.
  - rewrite H1 in Hs. destruct Hs as (? & ? & ?). apply finish_ok; try done. by left.
  - by apply startFinal_ok.
  - by apply written_ok.
  - rewrite H1 in Hs. destruct Hs as [? ?]. apply finish_ok; try done. right. eauto.
  - constructor; simpl.
    + intros j e. destruct (decide (i = j)) as [->|Hne]; [rewrite lookup_insert_eq; congruence|].
      rewrite lookup_insert_ne by done. apply Hok.
    + destruct (closer (k_collector k)); try done. destruct Hs as (? & ?). congruence.
Qed.

Lemma kreachable_ok k : kreachable k → closing_ok k.
Proof.
  induction 1 as [producer o c Hn|k k' Hr IH Hst]; [|by eapply kstep_ok].
  destruct (newCollector_fresh _ _ _ Hn) as [-> _]. constructor; simpl; [|done].
  intros i err. by rewrite lookup_empty.
Qed.

(** ** A call is never stuck *)

(** The first call can get through without anyone else's call moving. *)
Definition completes (k : Closing) : Prop :=
  ∃ k', rtc kstep k k' ∧ k_waiting k' = k_waiting k ∧ is_Some (k_closeErr k').

Lemma completes_step k k' : kstep k k' → k_waiting k' = k_waiting k → completes k' → completes k.
Proof.
  intros Hs Hw (k'' & Hr & Hw' & He). exists k''. split; [by eapply rtc_l|]. by rewrite Hw', Hw.
Qed.

Lemma closing_completes k : closer (k_collector k) = ClosingProducer → completes k.
Proof.
  intros E. eexists. split; [apply rtc_once, (KProducerClosed k None E I)|]. done.
Qed.

Lemma writing_completes k snap : closer (k_collector k) = FinalWrite snap → completes k.
Proof.
  intros E. eapply completes_step; [by apply (KFinalWritten k snap (map_to_list snap) 0 false)|done|].
  by apply closing_completes.
Qed.

Lemma ended_loop_completes k :
  closer (k_collector k) = AwaitingLoop → loop (k_collector k) = LoopDone → completes k.
Proof.
  intros E El. eapply completes_step; [by apply (KLoopDone k)|done|].
  pose proof (startFinal_cases (k_collector k)) as Hc. simpl in Hc. case_bool_decide.
  - apply closing_completes. simpl. by rewrite Hc.
  - eapply writing_completes. simpl. by rewrite Hc.
Qed.

Lemma waiting_loop_completes k :
  closer (k_collector k) = AwaitingLoop → loop (k_collector k) = Waiting → stop (k_collector k) = true → completes k.
Proof.
  intros E El Es. eapply completes_step; [by apply (KOther k _ (SStop newID _ El Es))|done|].
  by apply ended_loop_completes.
Qed.

Lemma call_completes k : kreachable k → closer (k_collector k) ≠ NotClosed → completes k.
Proof.
  intros Hr Hn. destruct (reachable_phases _ _ (kreachable_reachable k Hr)) as [Hst _ _ _ _].
  destruct (Hst Hn) as [_ Hs]. pose proof (ok_state _ (kreachable_ok k Hr)) as Hok.
  destruct (closer (k_collector k)) as [| |snap| |] eqn:E; [done| | | |].
  - destruct (loop (k_collector k)) as [|snap|] eqn:El.
    + by apply waiting_loop_completes.
    + eapply completes_step.
      * apply (KOther k _ (SWritten newID _ snap (map_to_list snap) 0 false El (reflexivity _))). done.
      * done.
      * by apply waiting_loop_completes.
    + by apply ended_loop_completes.
  - by eapply writing_completes.
  - by apply closing_completes.
  - destruct Hok as (err & He & _). exists k. by split; [apply rtc_refl|rewrite He].
Qed.

Lemma call_returns k i : kreachable k → i ∈ k_waiting k → ∃ k', rtc kstep k k' ∧ is_Some (k_returned k' !! i).
Proof.
  intros Hr Hi. destruct (call_completes k Hr) as (k' & Hs & Hw & [err He]).
  { intros E. pose proof (ok_state _ (kreachable_ok k Hr)) as Hok. rewrite E in Hok.
    destruct Hok as (_ & _ & _ & Hw). set_solver. }
  eexists. split; [eapply rtc_r; [exact Hs|]|].
  - apply (KReturn k' i err); [by rewrite Hw|done].
  - simpl. rewrite lookup_insert_eq. done.
Qed.
Lemma returned_ended k i err : kreachable k → k_returned k !! i = Some err → ended k err.
Proof.
  intros Hr Hi. destruct (kreachable_ok k Hr) as [Hret Hst]. apply Hret in Hi.
  destruct (closer (k_collector k)); try (destruct Hst; congruence).
  destruct Hst as (e & He & ?). congruence.
Qed.

(** Nothing is left in the collector and every client's time was handed over. *)
Definition drained (c : Collector) : Prop :=
  loop c = LoopDone ∧ active c = ∅ ∧ flushing c = [] ∧
  ∀ key, recorded c key ≤ max_int64 → recorded c key = sum_for key (handed c).

Lemma closed_drained k : kreachable k → producerClosed (k_collector k) = true → drained (k_collector k).
Proof. intros Hr Hp. by destruct (closed_complete newID _ (kreachable_reachable k Hr) Hp) as (? & ? & ? & ? & _). Qed.

(** The error holds the write's part exactly when the last write failed. *)
Lemma final_ok_error k r :
  final_ok k → closeProducer (k_ctx k) r →
  (WriteErr ∈ k_writeErr k ++ option_list r ↔ Exists (λ b, b_failed b = true) (final_batches k)) ∧
  (k_writeErr k ++ option_list r = [] → Forall (λ b, b_failed b = false) (final_batches k)).
Proof.
  intros [_ Hw] Hr. rewrite Hw. assert (WriteErr ∉ option_list r) as Hn by (destruct r as [[]|]; set_solver).
  destruct (existsb b_failed (final_batches k)) eqn:E; simpl; (split; [split; [intros Hi|intros Hx]|]); try done.
  - apply existsb_exists in E as (b & Hb & Hf). apply Exists_exists. exists b. by rewrite list_elem_of_In.
  - by left.
  - exfalso. apply Exists_exists in Hx as (b & Hb & Hf). rewrite <- not_true_iff_false in E. apply E, existsb_exists.
    exists b. by rewrite <- list_elem_of_In.
  - intros _. apply Forall_forall. intros b Hb. destruct (b_failed b) eqn:Ef; [|done].
    rewrite <- not_true_iff_false in E. exfalso. apply E, existsb_exists. exists b. by rewrite <- list_elem_of_In.
Qed.
End Close.

(** ** Properties *)

(** C34: the error of [Close] tells what became of the records. However calls of [Close],
    recorders, the flush loop and the producer interleave, all calls return the same error,
    and a call that has begun can always return. Without an error the loop has ended, every
    client's time was handed over and the last write succeeded; a failed last write is
    always reported; records are left behind only under the context's own error, which only
    a context that can expire yields. *)
Theorem close_verdict newID k :
  kreachable newID k →
  (∀ i, i ∈ k_waiting k → ∃ k', rtc (kstep newID) k k' ∧ is_Some (k_returned k' !! i)) ∧
  ∀ i err, k_returned k !! i = Some err →
    let c := k_collector k in
    (∀ j err', k_returned k !! j = Some err' → err' = err) ∧
    (err = [] → drained c ∧ Forall (λ b, b_failed b = false) (final_batches k)) ∧
    (err ≠ [CtxErr] → drained c) ∧
    (WriteErr ∈ err ↔ producerClosed c = true ∧ Exists (λ b, b_failed b = true) (final_batches k)) ∧
    (k_ctx k = false → CtxErr ∉ err).
Proof.
  intros Hr. split; [intros i; by apply call_returns|]. intros i err Hi c.
  split.
  { intros j err' Hj. apply (ok_returned _ (kreachable_ok newID k Hr)) in Hi, Hj. congruence. }
  destruct (returned_ended newID k i err Hr Hi) as [(-> & Hc & Hp)|[Hf (r & Hcl & ->)]].
  - split_and!; try done; [split; [set_solver|intros [Hx _]; unfold c in Hx; congruence]|congruence].
  - destruct (final_ok_error k r Hf Hcl) as [Hw He]. pose proof (closed_drained newID k Hr (proj1 Hf)) as Hd.
    split_and!; [by eauto|done|rewrite Hw; split; [split; [apply Hf|done]|by intros []]|].
    intros Hctx. rewrite Hctx in Hcl. rewrite (proj2 Hf). destruct (existsb _ _), r as [[]|]; set_solver.
Qed.

(** ** A run: two calls of [Close] while a batch is written, and a last write that fails *)

Definition ex_shut : Closing := enterClose (enterClose (opened ex_written) 1 true) 2 false.
Definition ex_ended : Closing := ex_shut <| k_collector := (k_collector ex_shut) <| loop := LoopDone |> |>.
Definition ex_last : Closing :=
  ex_ended <| k_collector := startFinal (k_collector ex_ended) |> <| k_flushed := length (batches (k_collector ex_ended)) |>.
Definition ex_failed : Closing :=
  let c := (writeSnapshot ex_id (k_collector ex_last) {["unknown" := 7]} [("unknown", 7)] 10 true)
             <| closer := ClosingProducer |> <| producerClosed := true |> in
  ex_last <| k_collector := c |> <| k_writeErr := [WriteErr] |>.
Definition ex_through : Closing := finishClose ex_failed ([WriteErr] ++ [ProducerErr]).
Definition ex_one_back : Closing :=
  ex_through <| k_waiting := k_waiting ex_through ∖ {[2%nat]} |>
             <| k_returned := <[2%nat := [WriteErr; ProducerErr]]> (k_returned ex_through) |>.

(** Steps of the collector before [Close] is called. *)
Lemma kreachable_open newID c : reachable newID c → closer c = NotClosed → kreachable newID (opened c).
Proof.
  induction 1 as [producer o c Hn|c c' Hr IH Hst]; intros Hc; [by eapply kreach_new|].
  assert (closer c = NotClosed) as Hc0.
  { destruct Hst; simpl in *; try done; try congruence.
    - destruct (recordUsage_cases c clientID duration) as [E|(_ & _ & _ & _ & E & _)]; congruence.
    - rewrite startFlush_cases in Hc. by case_bool_decide.
    - rewrite startFlush_cases in Hc. simpl in Hc. by case_bool_decide.
    - by destruct failed.
    - rewrite startFinal_cases in Hc. simpl in Hc. by case_bool_decide. }
  eapply kreach_step; [by apply IH|]. apply (KOther newID (opened c) c' Hst). simpl. congruence.
Qed.

Lemma ex_last_written : kstep ex_id ex_last ex_failed.
Proof.
  assert (closer (k_collector ex_last) = FinalWrite {["unknown" := 7]}) as E by (vm_compute; reflexivity).
  unfold ex_failed. generalize dependent ex_last. intros k E.
  apply (KFinalWritten ex_id k {["unknown" := 7]} [("unknown", 7)] 10 true E). by rewrite map_to_list_singleton.
Qed.

Lemma ex_shut_reachable : kreachable ex_id ex_shut.
Proof.
  eapply kreach_step; [|apply KEnter; [vm_compute; congruence|vm_compute; reflexivity]].
  eapply kreach_step; [|apply KEnter; [vm_compute; congruence|vm_compute; reflexivity]].
  apply kreachable_open; [|vm_compute; reflexivity].
  eapply reach_step; [apply ex_reach_window|].
  apply SWritten; [vm_compute; reflexivity|by rewrite map_to_list_singleton].
Qed.

Lemma ex_back_reachable : kreachable ex_id ex_one_back.
Proof.
  assert (k_closeErr ex_through = Some [WriteErr; ProducerErr]) as Ec by reflexivity.
  assert (2%nat ∈ k_waiting ex_through) as Ew by (vm_compute; reflexivity).
  assert (closer (k_collector ex_failed) = ClosingProducer) as Ef by reflexivity.
  refine (kreach_step _ ex_through _ _ (KReturn ex_id ex_through 2 _ Ew Ec)).
  refine (kreach_step _ ex_failed _ _ (KProducerClosed ex_id ex_failed (Some ProducerErr) Ef I)).
  refine (kreach_step _ ex_last _ _ ex_last_written).
  eapply kreach_step; [|apply (KLoopDone ex_id ex_ended); vm_compute; reflexivity].
  eapply kreach_step; [apply ex_shut_reachable|].
  apply (KOther ex_id ex_shut); [apply SStop; vm_compute; reflexivity|done].
Qed.

Lemma close_verdict_witness :
  (∃ k', rtc (kstep ex_id) ex_one_back k' ∧ is_Some (k_returned k' !! 1%nat)) ∧
  k_returned ex_one_back !! 2%nat = Some [WriteErr; ProducerErr] ∧
  drained (k_collector ex_one_back) ∧
  Exists (λ b, b_failed b = true) (final_batches ex_one_back).
Proof.
  destruct (close_verdict ex_id ex_one_back ex_back_reachable) as [Hw Hv].
  assert (k_returned ex_one_back !! 2%nat = Some [WriteErr; ProducerErr]) as Hr by (vm_compute; reflexivity).
  destruct (Hv 2%nat _ Hr) as (_ & _ & Hd & He & _).
  split_and!; [apply Hw; vm_compute; reflexivity|done|by apply Hd|].
  apply He. left.
Defined.
