(* ===== verification/Routes.v ===== *)
(** * The routes of the server

    The registrations of [main] in [cmd/proxy/main.go].  hertz's router is a parameter with
    its documented contract: a request goes to a registered route that matches its method
    and path, and where routes differ a fixed segment is preferred to a parameter.  A path
    is the list of its segments. *)

From S2P Require Import Prelude GoStrings.

(** ** Routes *)

Inductive segment := Fixed (s : string) | Param (name : string).
#[export] Instance segment_eq_dec : EqDecision segment.
Proof. solve_decision. Defined.

(** The handlers, by the names [main] registers. *)
Inductive endpoint :=
| status_ | rpc
| GetAllChainsIDs_e | SetWeight_e | GetWeight_e | DeleteWeight_e | GetAllNodes_e | ChooseOneNode_e
| AddNode_e | DeleteNode_e | UpdateNode_e | AddLocalNode_e | DeleteLocalNode_e
| AddMethodRoute_e | RemoveMethodRoute_e | DeleteMethodRoute_e | GetMethodRoutes_e | GetMethodRoute_e
| GetWriters_e | SwitchLeader_e | GetLeaderStatus_e
| AddLocalMirror_e | DeleteLocalMirror_e | DeleteAllLocalMirrors_e
| AddMirror_e | DeleteMirror_e | DeleteAllMirrors_e | GetMirrors_e | GetAllMirrors_e.
#[export] Instance endpoint_eq_dec : EqDecision endpoint.
Proof. solve_decision. Defined.

Record route := mkRoute { rt_methods : list string; rt_path : list segment; rt_endpoint : endpoint }.
#[export] Instance route_eq_dec : EqDecision route.
Proof. solve_decision. Defined.

(** The methods [h.Any] registers. *)
Definition anyMethod : list string :=
  ["GET"; "POST"; "PUT"; "PATCH"; "HEAD"; "OPTIONS"; "DELETE"; "CONNECT"; "TRACE"].

Definition chainParam : segment := Param "chainId".
Definition on (method : string) (path : list segment) (e : endpoint) : route := mkRoute [method] path e.

Definition routes : list route :=
  [on "GET" [Fixed "status"] status_;
   on "GET" [Fixed "getChains"] GetAllChainsIDs_e;
   on "POST" [chainParam; Fixed "setWeight"] SetWeight_e;
   on "GET" [chainParam; Fixed "getWeight"] GetWeight_e;
   on "DELETE" [chainParam; Fixed "deleteWeight"] DeleteWeight_e;
   on "GET" [chainParam; Fixed "getAllNodes"] GetAllNodes_e;
   on "GET" [chainParam; Fixed "debug_chooseOneNode"] ChooseOneNode_e;
   on "POST" [chainParam; Fixed "addNode"] AddNode_e;
   on "DELETE" [chainParam; Fixed "deleteNode"; Param "nodeKey"] DeleteNode_e;
   on "PUT" [chainParam; Fixed "updateNode"; Param "nodeKey"] UpdateNode_e;
   on "POST" [chainParam; Fixed "addLocalNode"] AddLocalNode_e;
   on "DELETE" [chainParam; Fixed "deleteLocalNode"; Param "nodeKey"] DeleteLocalNode_e;
   on "POST" [chainParam; Fixed "addMethodRoute"] AddMethodRoute_e;
   on "POST" [chainParam; Fixed "removeMethodRoute"] RemoveMethodRoute_e;
   on "DELETE" [chainParam; Fixed "deleteMethodRoute"; Param "method"] DeleteMethodRoute_e;
   on "GET" [chainParam; Fixed "getAllMethodRoutes"] GetMethodRoutes_e;
   on "GET" [chainParam; Fixed "getMethodRoute"; Param "method"] GetMethodRoute_e;
   on "GET" [chainParam; Fixed "writers"] GetWriters_e;
   on "POST" [chainParam; Fixed "writers"; Fixed "switchLeader"] SwitchLeader_e;
   on "GET" [chainParam; Fixed "writers"; Fixed "leader"] GetLeaderStatus_e;
   on "POST" [chainParam; Fixed "addLocalMirror"] AddLocalMirror_e;
   on "DELETE" [chainParam; Fixed "deleteLocalMirror"] DeleteLocalMirror_e;
   on "DELETE" [chainParam; Fixed "deleteAllLocalMirrors"] DeleteAllLocalMirrors_e;
   on "POST" [chainParam; Fixed "addMirror"] AddMirror_e;
   on "DELETE" [chainParam; Fixed "deleteMirror"] DeleteMirror_e;
   on "DELETE" [chainParam; Fixed "deleteAllMirrors"] DeleteAllMirrors_e;
   on "GET" [chainParam; Fixed "getMirrors"] GetMirrors_e;
   on "GET" [Fixed "getAllMirrors"] GetAllMirrors_e;
   mkRoute anyMethod [chainParam] rpc].

(** ** Matching *)

(** The parameters of a path that a pattern matches. *)
Fixpoint match_path (pattern : list segment) (path : list string) : option (list (string * string)) :=
  match pattern, path with
  | [], [] => Some []
  | Fixed s :: pattern, x :: path => if bool_decide (s = x) then match_path pattern path else None
  | Param name :: pattern, x :: path =>
      if bool_decide (x = "") then None else cons (name, x) <$> match_path pattern path
  | _, _ => None
  end.

Definition matches (r : route) (method : string) (path : list string) : Prop :=
  method ∈ rt_methods r ∧ is_Some (match_path (rt_path r) path).
#[export] Instance matches_dec r method path : Decision (matches r method path).
Proof. unfold matches. apply _. Defined.

(** [p] has a fixed segment where the two first differ in kind. *)
Fixpoint preferred (p q : list segment) : bool :=
  match p, q with
  | Fixed a :: p, Fixed b :: q => bool_decide (a = b) && preferred p q
  | Param _ :: p, Param _ :: q => preferred p q
  | Fixed _ :: _, Param _ :: _ => true
  | _, _ => false
  end.

(** The router with the routes registered: the route a request goes to. *)
Class Router := { find_route : string → list string → option route }.

Class RouterLaws `{Router} := {
  find_matches method path r : find_route method path = Some r → r ∈ routes ∧ matches r method path;
  find_complete method path r : r ∈ routes → matches r method path → is_Some (find_route method path);
  find_prefers method path r r' : find_route method path = Some r → r' ∈ routes → matches r' method path →
    preferred (rt_path r') (rt_path r) = false }.

(** The endpoint and parameters of a request. *)
Definition dispatch `{Router} (method : string) (path : list string) : option (endpoint * list (string * string)) :=
  r ← find_route method path; ps ← match_path (rt_path r) path; Some (rt_endpoint r, ps).

(** ** Overlaps *)

(** Whether some path fits both patterns. *)
Fixpoint overlap (p q : list segment) : bool :=
  match p, q with
  | [], [] => true
  | Fixed a :: p, Fixed b :: q => bool_decide (a = b) && overlap p q
  | _ :: p, _ :: q => overlap p q
  | _, _ => false
  end.

Lemma match_path_cons s p x path :
  is_Some (match_path (s :: p) (x :: path)) → is_Some (match_path p path) ∧ ∀ a, s = Fixed a → a = x.
Proof.
  simpl. destruct s as [a|name]; case_bool_decide; rewrite ?fmap_is_Some; intros Hm; try (by apply is_Some_None in Hm).
  - split; [done|]. by intros ? [= <-].
  - by split.
Qed.

Lemma overlap_spec p q path : is_Some (match_path p path) → is_Some (match_path q path) → overlap p q = true.
Proof.
  revert q path. induction p as [|s p IH]; intros q path Hp Hq.
  - destruct path as [|x path]; [|by destruct Hp]. destruct q as [|[]]; [done|by destruct Hq..].
  - destruct path as [|x path]; [destruct s; by destruct Hp|]. destruct q as [|t q]; [by destruct Hq|].
    destruct (match_path_cons _ _ _ _ Hp) as [Hp' Hs], (match_path_cons _ _ _ _ Hq) as [Hq' Ht].
    specialize (IH q path Hp' Hq'). destruct s as [a|], t as [b|]; simpl; try done. rewrite IH, andb_true_r.
    apply bool_decide_eq_true_2. by rewrite (Hs a), (Ht b).
Qed.

(** The table has no two routes for one request, except a fixed path that a chain could have. *)
Definition shadowed : list string := ["status"; "getChains"; "getAllMirrors"].

Definition clash (r r' : route) : bool :=
  overlap (rt_path r) (rt_path r') && existsb (λ m, bool_decide (m ∈ rt_methods r')) (rt_methods r).

Definition allowed_clash (r r' : route) : bool :=
  bool_decide (r = r') ||
  existsb (λ s, bool_decide ((r = on "GET" [Fixed s] (rt_endpoint r) ∧ rt_endpoint r' = rpc ∧ rt_path r' = [chainParam]) ∨
                             (r' = on "GET" [Fixed s] (rt_endpoint r') ∧ rt_endpoint r = rpc ∧ rt_path r = [chainParam]))) shadowed.

Lemma table_clashes : forallb (λ r, forallb (λ r', negb (clash r r') || allowed_clash r r') routes) routes = true.
Proof. vm_compute. reflexivity. Qed.

Lemma matching_routes r r' method path :
  r ∈ routes → r' ∈ routes → matches r method path → matches r' method path → r = r' ∨ allowed_clash r r' = true.
Proof.
  intros Hr Hr' [Hm Hp] [Hm' Hp']. pose proof table_clashes as Ht.
  rewrite forallb_forall in Ht. apply list_elem_of_In in Hr, Hr'. specialize (Ht r Hr). rewrite forallb_forall in Ht.
  specialize (Ht r' Hr'). apply orb_true_iff in Ht as [Ht|Ht]; [|by right].
  apply negb_true_iff, andb_false_iff in Ht as [Ht|Ht]; [by rewrite (overlap_spec _ _ path) in Ht|].
  exfalso. apply not_true_iff_false in Ht. apply Ht, existsb_exists. exists method.
  split; [by apply list_elem_of_In|by apply bool_decide_eq_true_2].
Qed.

(** A clash is between a fixed path and the chain's own. *)
Lemma clash_cases r r' :
  allowed_clash r r' = true → r = r' ∨
  ∃ s, s ∈ shadowed ∧ ((rt_path r = [Fixed s] ∧ rt_methods r = ["GET"] ∧ rt_endpoint r' = rpc) ∨
                       (rt_path r' = [Fixed s] ∧ rt_path r = [chainParam])).
Proof.
  unfold allowed_clash. intros [H|H]%orb_true_iff; [b2p; by left|right].
  apply existsb_exists in H as (s & Hs & H). b2p. exists s. split; [by apply list_elem_of_In|].
  destruct H as [(-> & H1 & _)|(-> & _ & H1)]; [left|right]; done.
Qed.

Lemma match_fixed s path : is_Some (match_path [Fixed s] path) → path = [s].
Proof.
  intros Hm. destruct path as [|x path]; [by destruct Hm|]. destruct (match_path_cons _ _ _ _ Hm) as [Hp Hx].
  rewrite (Hx s eq_refl). destruct path; [done|by destruct Hp].
Qed.

Section Dispatch.
Context `{RouterLaws}.

(** A request that a route matches goes there, unless it is a chain's request with the
    method and the name of a fixed path. *)
Lemma dispatch_route r method path ps :
  r ∈ routes → method ∈ rt_methods r → match_path (rt_path r) path = Some ps →
  (rt_endpoint r = rpc → method = "GET" → path ∉ (λ s, [s]) <$> shadowed) →
  dispatch method path = Some (rt_endpoint r, ps).
Proof.
  intros Hr Hm Hp Hrpc. assert (matches r method path) as Hmatch by (split; [done|by eexists]).
  destruct (find_complete method path r Hr Hmatch) as [r' Hf]. unfold dispatch. rewrite Hf. simpl.
  destruct (find_matches _ _ _ Hf) as [Hr' [Hm' Hp']].
  assert (r' = r) as ->; [|by rewrite Hp].
  destruct (matching_routes r' r method path Hr' Hr (conj Hm' Hp') Hmatch) as [|Hc]; [done|].
  destruct (clash_cases _ _ Hc) as [|(s & Hs & [(Hp1 & Hg & He)|(Hp1 & Hp2)])]; [done|exfalso..].
  - rewrite Hp1 in Hp'. rewrite Hg in Hm'. apply list_elem_of_singleton in Hm'. apply (Hrpc He Hm').
    rewrite (match_fixed _ _ Hp'). apply list_elem_of_fmap. by exists s.
  - pose proof (find_prefers _ _ _ r Hf Hr Hmatch) as Hpref. by rewrite Hp1, Hp2 in Hpref.
Qed.
End Dispatch.

(** ** Properties *)

(** C38: the server's routes do not get in each other's way. Whatever router keeps the
    documented contract, a request that matches a registered route reaches that route's
    handler with its parameters; in particular a chain's requests reach the RPC handler with
    the chain's id, except a GET of a chain that is named like a fixed path. *)
Theorem routes_reach_handlers `{RouterLaws} :
  (∀ r method path ps, r ∈ routes → rt_endpoint r ≠ rpc → method ∈ rt_methods r →
     match_path (rt_path r) path = Some ps → dispatch method path = Some (rt_endpoint r, ps)) ∧
  (∀ method chainId, method ∈ anyMethod → chainId ≠ "" → (method = "GET" → chainId ∉ shadowed) →
     dispatch method [chainId] = Some (rpc, [("chainId", chainId)])) ∧
  (∀ chainId, chainId ∈ shadowed → ∃ e, e ≠ rpc ∧ dispatch "GET" [chainId] = Some (e, [])).
Proof.
  split_and!.
  - intros r method path ps Hr He Hm Hp. by apply dispatch_route.
  - intros method chainId Hm Hc Hg. apply (dispatch_route (mkRoute anyMethod [chainParam] rpc)).
    + refine (bool_decide_unpack _ _). vm_compute. exact I.
    + done.
    + simpl. by rewrite bool_decide_eq_false_2.
    + intros _ Eg (s & [= ->] & Hin)%list_elem_of_fmap. by apply Hg.
  - intros chainId Hin. unfold shadowed in Hin.
    assert (∀ e, on "GET" [Fixed chainId] e ∈ routes → e ≠ rpc → dispatch "GET" [chainId] = Some (e, [])) as Hd.
    { intros e He Hne. apply (dispatch_route (on "GET" [Fixed chainId] e)); [done|by left| |done].
      simpl. by rewrite bool_decide_eq_true_2. }
    apply elem_of_cons in Hin as [->|[->|[->|Hin%not_elem_of_nil]%elem_of_cons]%elem_of_cons]; [..|done];
      [exists status_|exists GetAllChainsIDs_e|exists GetAllMirrors_e]; (split; [done|]); apply Hd; try done;
      (refine (bool_decide_unpack _ _); vm_compute; exact I).
Qed.

(** A router that keeps the contract: of the routes that match, one to which none is preferred. *)
Definition best (method : string) (path : list string) (r : route) : Prop :=
  Forall (λ r', matches r' method path → preferred (rt_path r') (rt_path r) = false) routes.
Definition ref_router : Router := {|
  find_route method path := snd <$> list_find (λ r, matches r method path ∧ best method path r) routes |}.

Lemma preferred_irrefl p : preferred p p = false.
Proof. induction p as [|[s|s] p IH]; simpl; [done|by rewrite IH, andb_false_r|done]. Qed.

Lemma preferred_nil p : preferred p [] = false.
Proof. by destruct p as [|[]]. Qed.

Lemma ref_router_laws : @RouterLaws ref_router.
Proof.
  split.
  - intros method path r ([i r'] & (Hi & [Hm _] & _)%list_find_Some & ->)%fmap_Some. split; [by eapply list_elem_of_lookup_2|done].
  - intros method path r Hr Hm. apply fmap_is_Some.
    assert (∃ b, b ∈ routes ∧ matches b method path ∧ best method path b) as (b & Hb & Hbest).
    { destruct (decide (best method path r)) as [|Hn]; [by exists r|].
      unfold best in Hn. rewrite <- Exists_Forall_neg in Hn by (intros; destruct (decide (matches x method path → preferred (rt_path x) (rt_path r) = false)); tauto).
      apply Exists_exists in Hn as (r' & Hr' & Hn). exists r'.
      assert (matches r' method path ∧ preferred (rt_path r') (rt_path r) = true) as [Hm' Hp].
      { destruct (decide (matches r' method path)); [|tauto]. split; [done|]. destruct (preferred _ _); [done|tauto]. }
      split_and!; [done|done|]. apply Forall_forall. intros r2 Hr2 Hm2.
      destruct (matching_routes r' r method path Hr' Hr Hm' Hm) as [->|Hc]; [by rewrite preferred_irrefl in Hp|].
      destruct (clash_cases _ _ Hc) as [->|(s & _ & [(Hp1 & _ & _)|(_ & Hp2)])]; [by rewrite preferred_irrefl in Hp| |].
      - rewrite Hp1. destruct (rt_path r2) as [|[a|a] q]; simpl; by rewrite ?preferred_nil, ?andb_false_r.
      - rewrite Hp2 in Hp. by destruct (rt_path r) as [|[] ?]. }
    by apply (list_find_elem_of _ routes b).
  - intros method path r r' ([i x] & (Hi & [_ Hb] & _)%list_find_Some & ->)%fmap_Some Hr' Hm.
    unfold best in Hb. rewrite Forall_forall in Hb. by apply Hb.
Qed.

Lemma routes_reach_handlers_witness :
  @dispatch ref_router "POST" ["1"; "setWeight"] = Some (SetWeight_e, [("chainId", "1")]) ∧
  @dispatch ref_router "POST" ["status"] = Some (rpc, [("chainId", "status")]).
Proof.
  destruct (@routes_reach_handlers ref_router ref_router_laws) as (H1 & H2 & _). split.
  - apply (H1 (on "POST" [chainParam; Fixed "setWeight"] SetWeight_e)); [|discriminate|by left|reflexivity].
    refine (bool_decide_unpack _ _). vm_compute. exact I.
  - apply H2; [right; by left|discriminate|discriminate].
Defined.
