(* ===== verification/Main.v ===== *)
(** * The process

    [cmd/proxy/main.go]: the time a shutdown waits for the requests in flight.  The start of
    the process is in [Start], the usage wrapper in [Usage]. *)

From S2P Require Import Prelude GoStrings JsonScan JsonRpc ChainId Types BlockContext.
From S2P Require Import LbNode Gateway PickNodes Selector Mirror Config Processors Serve ServeProof.
Local Open Scope Z_scope.

Definition maxUpstreamAttempts : Z := 3.
Definition shutdownRequestBuffer : Z := 5 * Second.
Definition maxExitWait : Z := 2 ^ 63 - 1.

(** ** The shutdown budget *)

(** The largest timeout configured, in milliseconds; the order of the map's entries does
    not matter to it. *)
Definition maxTimeout (default_ : Z) (timeouts : list Z) : Z :=
  foldl (λ m t, if m <? t then t else m) default_ timeouts.

(** The loop over the two connection overheads; [None] is the early return. *)
Fixpoint addOverheads (maxPerAttemptMS perAttemptMS : Z) (overheads : list Z) : option Z :=
  match overheads with
  | [] => Some perAttemptMS
  | overheadMS :: rest =>
      if overheadMS <=? 0 then addOverheads maxPerAttemptMS perAttemptMS rest else
      if wrap_int64 (maxPerAttemptMS - perAttemptMS) <? overheadMS then None else
      addOverheads maxPerAttemptMS (wrap_int64 (perAttemptMS + overheadMS)) rest
  end.

Definition gracefulExitWait (proxyConfig : option Config) : Z :=
  match proxyConfig with
  | None => shutdownRequestBuffer
  | Some cfg =>
      let maxTimeoutMS := maxTimeout (DefaultRPCTimeout cfg)
                            (map_to_list (default ∅ (RPCMethodTimeoutConfig cfg))).*2 in
      if maxTimeoutMS <=? 0 then shutdownRequestBuffer else
      let maxPerAttemptMS :=
        Z.quot (Z.quot (maxExitWait - shutdownRequestBuffer) Millisecond) maxUpstreamAttempts in
      match addOverheads maxPerAttemptMS maxTimeoutMS [ConnDialTimeout cfg; ConnMaxWaitTimeout cfg] with
      | None => maxExitWait
      | Some perAttemptMS =>
          if maxPerAttemptMS <? perAttemptMS then maxExitWait else
          wrap_int64 (wrap_int64 (wrap_int64 (maxUpstreamAttempts * perAttemptMS) * Millisecond)
                      + shutdownRequestBuffer)
      end
  end.

(** ** Lemmas *)

Lemma maxTimeout_spec d ts :
  d ≤ maxTimeout d ts ∧ (∀ t, t ∈ ts → t ≤ maxTimeout d ts) ∧ (maxTimeout d ts = d ∨ maxTimeout d ts ∈ ts).
Proof.
  unfold maxTimeout. revert d. induction ts as [|t ts IH]; intros d; simpl; [set_solver by lia|].
  destruct (d <? t) eqn:E; b2p.
  - destruct (IH t) as (H1 & H2 & H3). split_and!; [lia| |set_solver].
    intros u [->|Hu]%elem_of_cons; auto.
  - destruct (IH d) as (H1 & H2 & H3). split_and!; [lia| |set_solver].
    intros u [->|Hu]%elem_of_cons; [lia|auto].
Qed.

(** The per-attempt budget the source computes with. *)
Abbreviation budget := (Z.quot (Z.quot (maxExitWait - shutdownRequestBuffer) Millisecond) maxUpstreamAttempts).

Lemma budget_value : budget = 3074457343951.
Proof. reflexivity. Qed.

(** Without an early return the overheads are added up, with no overflow. *)
Lemma addOverheads_spec m os :
  0 ≤ m → 0 < m ≤ max_int64 → Forall in_int64 os →
  match addOverheads budget m os with
  | Some r => r = m + foldr (λ o s, Z.max 0 o + s) 0 os ∧ (m ≤ budget ∨ r = m)
  | None => budget < m + foldr (λ o s, Z.max 0 o + s) 0 os
  end.
Proof.
  rewrite budget_value. intros _ Hm Hos. revert m Hm.
  assert (∀ l, 0 ≤ foldr (λ o s, Z.max 0 o + s) 0 l) as Hpos.
  { intros l. induction l; simpl; lia. }
  induction Hos as [|o os Ho Hos IH]; intros m Hm; simpl; [lia|]. specialize (Hpos os).
  unfold in_int64, min_int64, max_int64 in *.
  destruct (o <=? 0) eqn:E; b2p.
  - replace (Z.max 0 o) with 0 by lia. specialize (IH m Hm). by destruct (addOverheads _ m os).
  - rewrite (wrap_int64_id (3074457343951 - m)) by (unfold in_int64, min_int64, max_int64; lia).
    destruct (_ <? o) eqn:E'; b2p; [lia|].
    rewrite (wrap_int64_id (m + o)) by (unfold in_int64, min_int64, max_int64; lia).
    assert (0 < m + o ≤ 2 ^ 63 - 1) as Hm' by lia. specialize (IH (m + o) Hm').
    replace (Z.max 0 o) with o by lia. destruct (addOverheads _ (m + o) os); lia.
Qed.

(** The configured times are Go [int]s. *)
Record config_ints (cfg : Config) : Prop := {
  ci_default : in_int64 (DefaultRPCTimeout cfg);
  ci_methods m t : default ∅ (RPCMethodTimeoutConfig cfg) !! m = Some t → in_int64 t;
  ci_dial : in_int64 (ConnDialTimeout cfg);
  ci_wait : in_int64 (ConnMaxWaitTimeout cfg) }.

(** The longest timeout of the configuration. *)
Definition longest (cfg : Config) : Z :=
  maxTimeout (DefaultRPCTimeout cfg) (map_to_list (default ∅ (RPCMethodTimeoutConfig cfg))).*2.

(** What one attempt may take at most, in milliseconds: connecting, waiting for a
    connection and the answer. *)
Definition perAttempt (cfg : Config) : Z :=
  longest cfg + Z.max 0 (ConnDialTimeout cfg) + Z.max 0 (ConnMaxWaitTimeout cfg).

Lemma longest_in_int64 cfg : config_ints cfg → in_int64 (longest cfg).
Proof.
  intros [Hd Hm _ _]. unfold longest.
  destruct (maxTimeout_spec (DefaultRPCTimeout cfg)
    (map_to_list (default ∅ (RPCMethodTimeoutConfig cfg))).*2) as (_ & _ & [->|Hin]); [done|].
  apply list_elem_of_fmap in Hin as ([m t] & -> & Hin). apply elem_of_map_to_list in Hin. by apply (Hm m).
Qed.

Lemma gracefulExitWait_value cfg :
  config_ints cfg → 0 < longest cfg →
  gracefulExitWait (Some cfg) =
  if bool_decide (perAttempt cfg ≤ budget)
  then maxUpstreamAttempts * perAttempt cfg * Millisecond + shutdownRequestBuffer else maxExitWait.
Proof.
  intros Hc Hl. unfold gracefulExitWait. fold (longest cfg).
  rewrite (proj2 (Z.leb_gt _ _)) by done.
  pose proof (longest_in_int64 cfg Hc) as Hi. destruct Hc as [_ _ Hd Hw].
  pose proof (addOverheads_spec (longest cfg) [ConnDialTimeout cfg; ConnMaxWaitTimeout cfg]) as Hs.
  unfold perAttempt. rewrite budget_value in *. simpl foldr in Hs.
  assert (Forall in_int64 [ConnDialTimeout cfg; ConnMaxWaitTimeout cfg]) as Hos.
  { constructor; [done|]. by constructor. }
  unfold in_int64 in Hi. specialize (Hs ltac:(lia) ltac:(lia) Hos).
  destruct (addOverheads _ _ _) as [r|]; [|rewrite bool_decide_eq_false_2 by lia; done].
  destruct Hs as [-> _].
  match goal with |- context [?b <? ?x] => destruct (b <? x) eqn:E end; b2p.
  - rewrite bool_decide_eq_false_2 by lia. done.
  - rewrite bool_decide_eq_true_2 by lia.
    unfold maxUpstreamAttempts, shutdownRequestBuffer, Second, Millisecond.
    rewrite (wrap_int64_id (3 * _)), (wrap_int64_id (3 * _ * 1000000)), wrap_int64_id;
      unfold in_int64, min_int64, max_int64; lia.
Qed.

(** What an attempt of the log can take: the read timeout of the request sent and the
    connection overheads. Nothing bounds an attempt without a positive read timeout. *)
Definition attempt_cost (cfg : Config) (a : Attempt) : option Z :=
  t ← at_timeout a;
  if 0 <? t then
    Some (t + (Z.max 0 (ConnDialTimeout cfg) + Z.max 0 (ConnMaxWaitTimeout cfg)) * Millisecond)
  else None.
Definition attempts_cost (cfg : Config) (atts : list Attempt) : option Z :=
  foldr (λ a s, x ← attempt_cost cfg a; y ← s; Some (x + y)) (Some 0) atts.

(** Attempts under one positive timeout. *)
Lemma attempts_cost_same cfg atts t :
  0 < t → Forall (λ a, at_timeout a = Some t) atts →
  attempts_cost cfg atts = Some (Z.of_nat (length atts) *
    (t + (Z.max 0 (ConnDialTimeout cfg) + Z.max 0 (ConnMaxWaitTimeout cfg)) * Millisecond)).
Proof.
  intros Ht Hts. induction Hts as [|a atts Ha _ IH]; [done|].
  change (attempts_cost cfg (a :: atts))
    with (attempt_cost cfg a ≫= λ x, attempts_cost cfg atts ≫= λ y, Some (x + y)).
  rewrite IH. unfold attempt_cost. rewrite Ha. cbn [mbind option_bind].
  rewrite (proj2 (Z.ltb_lt 0 t) Ht). cbn [mbind option_bind length]. f_equal. lia.
Qed.

(** The timeout of an attempt never exceeds the longest configured one. *)
Lemma upstreamReadTimeout_longest `{RateLimiter} lb method :
  config_ints (b_Config lb) → 0 < DefaultRPCTimeout (b_Config lb) →
  longest (b_Config lb) ≤ budget →
  0 < upstreamReadTimeout lb method ≤ longest (b_Config lb) * Millisecond.
Proof.
  set (cfg := b_Config lb). intros Hc Hd Hl. rewrite budget_value in Hl. unfold upstreamReadTimeout. fold cfg.
  destruct (maxTimeout_spec (DefaultRPCTimeout cfg)
    (map_to_list (default ∅ (RPCMethodTimeoutConfig cfg))).*2) as (Hdef & Hin & _). fold (longest cfg) in *.
  set (t := default 0 _).
  assert (t ≤ 0 ∨ t ≤ longest cfg) as Ht.
  { unfold t. destruct (default ∅ _ !! method) as [t'|] eqn:E; simpl; [right|lia].
    apply Hin. apply list_elem_of_fmap. exists (method, t'). split; [done|]. by apply elem_of_map_to_list. }
  unfold Millisecond. destruct (0 <? t) eqn:E; b2p;
    rewrite wrap_int64_id; unfold in_int64, min_int64, max_int64; lia.
Qed.

(** ** Properties *)

(** The time a shutdown waits is exactly three times the longest attempt the
    configuration allows plus the five-second buffer, or the largest duration when that does
    not fit; no intermediate computation overflows. *)
Theorem gracefulExitWait_exact cfg :
  config_ints cfg → 0 < longest cfg →
  gracefulExitWait (Some cfg) =
    (if bool_decide (perAttempt cfg ≤ budget)
     then maxUpstreamAttempts * perAttempt cfg * Millisecond + shutdownRequestBuffer else maxExitWait) ∧
  (∀ m t, default ∅ (RPCMethodTimeoutConfig cfg) !! m = Some t → t ≤ longest cfg) ∧
  DefaultRPCTimeout cfg ≤ longest cfg.
Proof.
  intros Hc Hl. split; [by apply gracefulExitWait_value|].
  destruct (maxTimeout_spec (DefaultRPCTimeout cfg)
    (map_to_list (default ∅ (RPCMethodTimeoutConfig cfg))).*2) as (Hdef & Hin & _).
  split; [|done]. intros m t Hm. apply Hin, list_elem_of_fmap. exists (m, t).
  split; [done|by apply elem_of_map_to_list].
Qed.

Definition slow_config : Config :=
  mkConfig 5000 (Some {[ "debug_traceTransaction" := 60000 ]}) 512 90000 1000 3000
    (Processor defaultConfig) "" 5 300 1024.

Lemma slow_config_ints : config_ints slow_config.
Proof.
  split; simpl; unfold in_int64, min_int64, max_int64; try lia.
  intros m t [_ <-]%lookup_singleton_Some. lia.
Qed.

Lemma gracefulExitWait_exact_witness :
  gracefulExitWait (Some slow_config) = 197 * Second ∧
  (∀ m t, default ∅ (RPCMethodTimeoutConfig slow_config) !! m = Some t → t ≤ 60000) ∧ 5000 ≤ 60000.
Proof. apply (gracefulExitWait_exact slow_config); [exact slow_config_ints|done]. Defined.

(** C32: a shutdown waits long enough for every request: the attempts a served request makes,
    each bounded by the read timeout set on the request sent, its connection wait and its dial,
    fit into the wait, unless the configuration is so large that the wait is the largest
    duration. *)
Theorem shutdown_covers_request `{GoEthereum} `{SonicParams} `{Sonic} `{Render} `{RateLimiter} `{OtterCache}
    Int63n lb proxyServe c sv chainID p0 base uuid eff :
  lb_ok Int63n lb →
  generateRequestContext (b_Debug lb) c = Ret p0 → rc_Error p0 = None →
  effectiveChain (b_Router lb) chainID = Some (base, uuid, eff) →
  config_ints (b_Config lb) → 0 < DefaultRPCTimeout (b_Config lb) →
  gracefulExitWait (Some (b_Config lb)) < maxExitWait →
  returns (ServeHTTP Int63n proxyServe lb c sv chainID) (λ '(_, _, sv'),
    ∃ atts cost, sv_Log sv' = sv_Log sv ++ atts ∧
            attempts_cost (b_Config lb) atts = Some cost ∧
            cost + shutdownRequestBuffer ≤ gracefulExitWait (Some (b_Config lb))).
Proof.
  intros Hlb Hg He Hc Hci Hd Hw. eapply returns_mono; [by eapply ServeHTTP_served|].
  intros [[c' p'] sv'] [(atts & Hl & Ha) _].
  assert (0 < longest (b_Config lb)) as Hlp.
  { unfold longest. pose proof (maxTimeout_spec (DefaultRPCTimeout (b_Config lb))
      (map_to_list (default ∅ (RPCMethodTimeoutConfig (b_Config lb)))).*2). lia. }
  rewrite gracefulExitWait_value in * by done. case_bool_decide as Hb; [|lia].
  pose proof (upstreamReadTimeout_longest lb (Method p0) Hci Hd) as Ht.
  specialize (Ht ltac:(unfold perAttempt in Hb; lia)).
  pose proof (attempts_ok_length _ _ _ _ Ha) as Hn. pose proof (at_timeouts _ _ _ _ Ha) as Hts.
  exists atts. eexists. split; [done|]. split; [eapply attempts_cost_same; [|exact Hts]; lia|].
  unfold maxUpstreamAttempts, perAttempt, Millisecond in *. nia.
Qed.

Section Shutdown.
Import Instance_.

Lemma default_config_ints : config_ints defaultConfig.
Proof. split; simpl; unfold in_int64, min_int64, max_int64; try lia. by intros m t ?%lookup_empty_Some. Qed.

Lemma shutdown_covers_request_witness :
  returns (ServeHTTP first_draw missing_state ex_lb ex_call ex_serving "1") (λ '(_, _, sv'),
    ∃ atts cost, sv_Log sv' = [] ++ atts ∧ attempts_cost defaultConfig atts = Some cost ∧
            cost + 5 * Second ≤ 32 * Second).
Proof.
  apply (shutdown_covers_request first_draw ex_lb missing_state ex_call ex_serving "1" ex_ctx "1" "" "1");
    [exact ex_lb_ok|vm_compute; reflexivity..|exact default_config_ints|done|vm_compute; reflexivity].
Defined.
End Shutdown.
