(* ===== verification/Start.v ===== *)
(** * Starting the process

    [config/config.go]'s [LoadConfig] and the start of [main] in [cmd/proxy/main.go]: flags
    and file, usage collection, discovery, and the time the server will wait at its exit.
    The YAML decoder, the file system and the etcd connection are parameters. *)

From S2P Require Import Prelude GoStrings LbNode Gateway PickNodes Selector Mirror Refresh Config UpstreamClient.
From S2P Require Import Processors Logging DiscoveryKeys Discovery Usage Main.
Local Open Scope Z_scope.

Record ProcessConfig := mkProcessConfig {
  Listen : string; MetricListen : string; EtcdEndpoints : list string;
  ProxyConfig : option Config; UsageOf : UsageConfig; LogLevel : string }.

#[export] Instance ProcessConfig_expands : Expands ProcessConfig := λ c,
  mkProcessConfig (Listen c) (MetricListen c) (EtcdEndpoints c) (ProxyConfig c) (UsageOf c) (LogLevel c).

Definition defaultProcessConfig : ProcessConfig := mkProcessConfig "8663" "8664" [] None defaultUsage "".

(** The decoder fills the configuration it is given from a document; [None] is an error. *)
Class Yaml := { Decode : ProcessConfig → string → option ProcessConfig }.

Section Start.
Context `{Yaml}.
Variable open_ : string → option string.                   (** the files that can be read *)
Variable dial : list string → string → bool.               (** whether [clientv3.New] succeeds *)

(** [inl] is [log.Fatal], which ends the process; a nil [ProxyConfig] is dereferenced by
    [FillWithDefaultConfig]. *)
Definition LoadConfig (configPath : string) : go (string + ProcessConfig) :=
  match open_ configPath with
  | None => Ret (inl "open config file error")
  | Some configFile =>
      match Decode defaultProcessConfig configFile with
      | None => Ret (inl "parse config file error")
      | Some config =>
          match ProxyConfig config with
          | None => Panic
          | Some proxy => Ret (inr (config <| ProxyConfig := Some (FillWithDefaultConfig proxy) |>))
          end
      end
  end.

(** The flags [-listen] and [-config]. *)
Definition parseCmdlineAndLoadConfig (listen configFilePath : string) : go (string + ProcessConfig) :=
  let! fileConfig := LoadConfig configFilePath in
  match fileConfig with
  | inl err => Ret (inl err)
  | inr fileConfig =>
      Ret (inr (if negb (bool_decide (listen = "")) then fileConfig <| Listen := listen |> else fileConfig))
  end.

(** What the server is started with. *)
Record Process := mkProcess {
  p_Config : ProcessConfig; p_Proxy : Config; p_Collector : option Collector; p_Discover : Discover;
  p_HostPorts : string; p_ExitWait : Z }.

(** [main] up to the server; [resp] is what etcd answers the first [Get]. *)
Definition startProcess `{DiscoveryJson} (listen configFilePath : string) (resp : option GetResponse)
    : go (string + Process) :=
  let! loaded := parseCmdlineAndLoadConfig listen configFilePath in
  match loaded with
  | inl err => Ret (inl err)
  | inr config =>
      let! usage := startUsage (UsageOf config) in
      match usage with
      | Fatal => Ret (inl "usage")
      | Running usageCollector =>
          match ProxyConfig config with
          | None => Panic
          | Some proxy =>
              if negb (dial (EtcdEndpoints config) (EtcdPrefix proxy)) then Ret (inl "New refresher failed") else
              let! refresher := Init (NewDiscover (EtcdPrefix proxy)) resp in
              match refresher with
              | None => Ret (inl "Init node refresher failed")
              | Some nodeRefresher =>
                  Ret (inr (mkProcess config proxy usageCollector nodeRefresher
                              ("0.0.0.0:" +:+ Listen config) (gracefulExitWait (ProxyConfig config))))
              end
          end
      end
  end.

(** What the server runs with besides: the watcher, whose channels the event loop receives
    from since [go loadBalancer.BackgroundRefreshNode()], the logger, the upstream client, the
    health checker, the load balancer and, when usage is collected, its recorder; and the time the collector
    has to write its last records when the server has ended. *)
Record Server `{RateLimiter} := mkServer {
  s_Process : Process; s_Discover : Discover; s_Logger : logger; s_Clients : clients; s_Checker : NodeHealthChecker;
  s_LoadBalancer : LoadBalancer; s_Recorder : option Collector; s_CloseWait : option Z }.

Definition usageCloseWait : Z := 10 * Second.

(** [main] up to [h.Spin]. *)
Definition startServer `{DiscoveryJson} `{RateLimiter} `{UpstreamClient.Hertz} (listen configFilePath : string)
    (resp : option GetResponse) : go (string + Server) :=
  let! started := startProcess listen configFilePath resp in
  match started with
  | inl err => Ret (inl err)
  | inr p =>
      Ret (inr (mkServer _ p (served (p_Discover p)) (InitLogger None (LogLevel (p_Config p))) (initUpstream (p_Proxy p) noClients)
                  (healthCheckerOf (p_Proxy p)) NewLoadBalancer (p_Collector p)
                  ((λ _, usageCloseWait) <$> p_Collector p)))
  end.

(** ** Lemmas *)




(** ** Properties *)


(** A server that runs logs at the configured level, never through a nil logger; all the
    nodes it makes share one client with the options of its configuration; and usage is
    recorded, and flushed at the end, exactly when its configuration names brokers. *)
Theorem server_ready `{DiscoveryJson} `{RateLimiter} `{UpstreamClient.Hertz} listen path resp srv :
  startServer listen path resp = Ret (inr srv) →
  startProcess listen path resp = Ret (inr (s_Process srv)) ∧
  DebugEnabled (s_Logger srv) = Ret (bool_decide (ToLower (TrimSpace (LogLevel (p_Config (s_Process srv)))) = "debug")) ∧
  one_client (p_Proxy (s_Process srv)) (s_Clients srv) ∧
  (∀ cs, (creations cs (s_Clients srv)).1 = (@create_node (library (p_Proxy (s_Process srv)))) <$> cs) ∧
  s_Recorder srv = p_Collector (s_Process srv) ∧
  (is_Some (s_CloseWait srv) ↔ is_Some (s_Recorder srv)).
Proof.
  unfold startServer. destruct (startProcess listen path resp) as [[err|p]| |]; simpl; intros E; simplify_eq/=.
  split_and!; try done.
  - apply (log_debug None).
  - apply initUpstream_one.
  - intros cs. apply creations_one, initUpstream_one.
  - by rewrite fmap_is_Some.
Qed.
End Start.
