(* ===== verification/System.v ===== *)
(** * The whole proxy: event loop and handler together

    The event loop ([Refresh]) builds the state a request reads ([Serve]).  Here the
    handler's assumptions on that state are proved of every state the loop can reach, so
    that its contract holds after any sequence of discovery events and finished checks. *)

From S2P Require Import Prelude GoStrings JsonScan JsonRpc ChainId Types BlockContext.
From S2P Require Import LbNode Gateway PickNodes Selector Mirror Refresh Config Processors Serve ServeProof.
Local Open Scope Z_scope.

(** What the handler reads of the load balancer. *)
Definition balancer_of `{RateLimiter} (config : Config) (debug : bool) (now duration : Z)
    (lb : LoadBalancer) : Balancer :=
  mkBalancer config (NodeSelector lb) (chainVersionRouter lb) (lb_HeightMap lb) (lb_MirrorMap lb)
    debug now duration.

(** ** What every reachable selector provides *)

Definition percent (w : Z) : Prop := 0 ≤ w ≤ DefaultWeight.
Definition has_proxy (n : Node) : Prop := is_Some (ReverseProxy n).

Definition gateway_weights (r : Random gatewayStrategy) (c : string) : gmap string Z :=
  match gateway r with Some g => ChainWeights g c | None => ∅ end.

(** Every pooled node has a proxy, every weight is a percentage, and a chain's pools hold
    at most [k] nodes. *)
Record ready (k : nat) (r : Random gatewayStrategy) : Prop := {
  r_archives c : Forall has_proxy (pool (archiveNodes r) c);
  r_states c : Forall has_proxy (pool (stateNodes r) c);
  r_natives c : Forall has_proxy (pool (nativeNodes r) c);
  r_sizes c : (length (pool (archiveNodes r) c) + length (pool (stateNodes r) c)
               + length (pool (nativeNodes r) c) ≤ k)%nat;
  r_weights c key : percent (nodeWeight (gateway_weights r c) key) }.

Lemma UpsertInto_length l n : (length (UpsertInto l n) ≤ S (length l))%nat.
Proof. induction l as [|e l IH]; simpl; [lia|]. case_bool_decide; simpl; lia. Qed.

Lemma upsert_pool_ready m c n c' :
  has_proxy n → Forall has_proxy (pool m c') →
  Forall has_proxy (pool (upsert_pool m c n) c') ∧
  (length (pool (upsert_pool m c n) c') ≤ S (length (pool m c')))%nat.
Proof.
  intros Hn Hm. rewrite pool_upsert. case_decide as Hc; [subst c'|split; [done|lia]].
  split; [|apply UpsertInto_length]. by apply UpsertInto_Forall.
Qed.

Lemma remove_pool_ready m c n c' :
  Forall has_proxy (pool m c') →
  Forall has_proxy (pool (remove_pool m c n) c') ∧
  (length (pool (remove_pool m c n) c') ≤ length (pool m c'))%nat.
Proof.
  intros Hm. rewrite pool_remove. case_decide as Hc; [subst c'|done].
  pose proof (RemoveKey_sublist (pool m c) (Key n)) as Hs.
  split; [|by apply sublist_length]. rewrite Forall_forall in *. intros x Hx.
  apply Hm. by eapply sublist_subseteq.
Qed.

Lemma ready_mono k k' r : (k ≤ k')%nat → ready k r → ready k' r.
Proof. intros Hk []. constructor; try done. intros c. specialize (r_sizes0 c). lia. Qed.

Lemma ready_UpsertNode k r c role n : has_proxy n → ready k r → ready (S k) (UpsertNode r c role n).
Proof.
  intros Hn [Ha Hs Hv Hk Hw]. unfold UpsertNode.
  case_bool_decide; [|destruct (role =? NodeTypeArchive)]; constructor; simpl; try done; intros c';
    try (by apply upsert_pool_ready); specialize (Hk c').
  - pose proof (upsert_pool_ready (nativeNodes r) c n c' Hn (Hv c')). lia.
  - pose proof (upsert_pool_ready (archiveNodes r) c n c' Hn (Ha c')). lia.
  - pose proof (upsert_pool_ready (stateNodes r) c n c' Hn (Hs c')). lia.
Qed.

Lemma ready_RemoveNode k r c role n : ready k r → ready k (RemoveNode r c role n).
Proof.
  intros [Ha Hs Hv Hk Hw]. unfold RemoveNode.
  case_bool_decide; [|destruct (role =? NodeTypeArchive)]; constructor; simpl; try done; intros c';
    try (by apply remove_pool_ready); specialize (Hk c').
  - pose proof (remove_pool_ready (nativeNodes r) c n c' (Hv c')). lia.
  - pose proof (remove_pool_ready (archiveNodes r) c n c' (Ha c')). lia.
  - pose proof (remove_pool_ready (stateNodes r) c n c' (Hs c')). lia.
Qed.

Lemma weightsOf_percent ws :
  Forall (λ w, percent (wi_Weight w)) ws → ∀ key, percent (nodeWeight (weightsOf ws) key).
Proof.
  unfold weightsOf. intros Hws.
  assert (∀ key, percent (nodeWeight ∅ key)) as H0 by (intros key; unfold nodeWeight; done).
  revert H0. generalize (∅ : gmap string Z).
  induction Hws as [|w ws Hw _ IH]; intros m Hm; [done|]. simpl. apply IH. intros key.
  unfold nodeWeight. destruct (decide (key = wi_NodeKey w)) as [->|Hne];
    [by rewrite lookup_insert_eq|rewrite lookup_insert_ne by done; apply Hm].
Qed.

(** ** Reachable states *)

(** The gateway documents carry percentages. *)
Definition good_action (a : action) : Prop :=
  match a with AGateway g => Forall (λ w, percent (wi_Weight w)) (Weights g) | _ => True end.

Section Reachable.
Context `{ProxyLibrary} `{RateLimiter}.

Lemma newTargetNode_proxy ref tn w n : newTargetNode ref tn w = Some n → has_proxy n.
Proof.
  unfold newTargetNode. destruct (New _ _ _ _ _ _ _) as [m|] eqn:E; [|done].
  apply foldl_New in E as (_ & _ & _ & _ & _ & Hr). intros [= <-]. by exists ref.
Qed.

Lemma ready_gateway k r g :
  Forall (λ w, percent (wi_Weight w)) (Weights g) → ready k r →
  ready k (r <| gateway := (λ s, match gw_ChangeType g with
                                 | EVENT_PUT => UpdateGateway s (gw_ChainId g) g
                                 | EVENT_DELETE => DeleteGateway s (gw_ChainId g)
                                 end) <$> gateway r |>).
Proof.
  intros Hg [Ha Hs Hv Hk Hw]. constructor; try done. intros c key. specialize (Hw c key).
  unfold gateway_weights in *. simpl. destruct (gateway r) as [s|]; [|done]. simpl.
  destruct (gw_ChangeType g); unfold ChainWeights in *; simpl;
    destruct (decide (c = gw_ChainId g)) as [->|Hne];
    rewrite ?lookup_insert_eq, ?lookup_insert_ne, ?lookup_delete_eq, ?lookup_delete_ne by done;
    simpl; try done. by apply weightsOf_percent.
Qed.

Lemma ready_step k lb a :
  good_action a → ready k (NodeSelector lb) → ready (S k) (NodeSelector (BackgroundRefreshNode lb a)).
Proof.
  intros Ha Hr. assert (ready (S k) (NodeSelector lb)) as HrS by (eapply ready_mono; [|done]; lia).
  destruct a as [tn|h|g|m|v|i passed]; simpl.
  - unfold handleNode. destruct (tn_ChangeType tn).
    + destruct (Bump _ _) as [gen gs]. case_match; [|done]. unfold applyNodeState.
      destruct (newTargetNode _ _ _) as [n|] eqn:En; [|done]. simpl.
      apply ready_UpsertNode; [by eapply newTargetNode_proxy|done].
    + destruct (newTargetNode _ _ _) as [n|] eqn:En; [|done]. simpl. by apply ready_RemoveNode.
  - by destruct HrS.
  - by apply ready_gateway.
  - unfold handleMirrorEvent. by destruct (handleMirror _ _ _).
  - done.
  - unfold finishCheck. destruct (inflight lb !! i) as [ck|]; [|done].
    destruct (newTargetNode _ _ _) as [n|] eqn:En; [|done]. destruct passed; [|done].
    cbn [negb]. unfold ApplyIfCurrent. case_bool_decide; [done|]. simpl.
    apply ready_UpsertNode; [by eapply newTargetNode_proxy|done].
Qed.

Lemma ready_run acts lb :
  run NewLoadBalancer acts lb → Forall good_action acts → ready (length acts) (NodeSelector lb).
Proof.
  intros Hrun. remember NewLoadBalancer as lb0 eqn:E. revert E.
  induction Hrun as [lb|lb acts lb1 a Hrun IH]; intros E Hall.
  - subst lb. constructor; intros c; simpl; unfold pool; rewrite ?lookup_empty; simpl; try done; try lia.
  - apply Forall_app in Hall as [Hall [Ha _]%Forall_cons]. rewrite length_app, Nat.add_comm.
    apply ready_step; auto.
Qed.

(** The handler's assumptions hold of every reachable state. *)
Lemma reachable_lb_ok Int63n config debug now duration acts lb :
  run NewLoadBalancer acts lb → Forall good_action acts → Z.of_nat (length acts) < 2 ^ 50 →
  (∀ i n, 0 < n → 0 ≤ Int63n i n < n) →
  lb_ok Int63n (balancer_of config debug now duration lb).
Proof.
  intros Hrun Hall Hlen Hdraw. destruct (ready_run acts lb Hrun Hall) as [Ha Hs Hv Hk Hw].
  constructor; simpl; try done.
  - intros c n Hn. specialize (Ha c). specialize (Hs c). specialize (Hv c).
    rewrite Forall_forall in Ha, Hs, Hv. unfold has_proxy in *. naive_solver.
  - intros c. specialize (Hk c). lia.
Qed.
End Reachable.

(** ** Properties *)

(** C19: whatever discovery published, the proxy serves. After any interleaving of discovery
    events and finished health checks whose gateway documents carry percentages, a
    well-formed request on a known chain is served to the end within three attempts on
    nodes of the right pools, and is accounted exactly once. *)
Theorem proxy_serves `{ProxyLibrary} `{GoEthereum} `{SonicParams} `{Sonic} `{Render} `{RateLimiter}
    `{OtterCache} Int63n proxyServe config debug now duration acts lb c sv chainID p0 base uuid eff :
  let b := balancer_of config debug now duration lb in
  run NewLoadBalancer acts lb → Forall good_action acts → Z.of_nat (length acts) < 2 ^ 50 →
  (∀ i n, 0 < n → 0 ≤ Int63n i n < n) →
  generateRequestContext debug c = Ret p0 → rc_Error p0 = None →
  effectiveChain (chainVersionRouter lb) chainID = Some (base, uuid, eff) →
  returns (ServeHTTP Int63n proxyServe b c sv chainID) (λ '(_, _, sv'),
    (∃ atts, sv_Log sv' = sv_Log sv ++ atts ∧ (length atts ≤ 3)%nat ∧
             attempts_ok b eff atts (upstreamReadTimeout b (Method p0))) ∧
    accounted (w_metrics (sv_World sv)) (w_metrics (sv_World sv'))).
Proof.
  intros b Hrun Hall Hlen Hdraw Hg He Hc.
  eapply returns_mono; [eapply ServeHTTP_served; [by eapply reachable_lb_ok|done..]|].
  intros [[c' p'] sv'] [(atts & Hl & Ha) Hacc]. split; [|done].
  exists atts. split_and!; [done| |done]. by eapply attempts_ok_length.
Qed.

(** One node put and checked, its weight published, one request. *)
Definition ex_events : list action :=
  [ANode (ex_target EVENT_PUT 1); AGateway (mkGateway "1" EVENT_PUT [mkWeightInfo "a" 40] ∅); ACheck 0 true].
Definition ex_reached : @LoadBalancer ex_limiter :=
  foldl (@BackgroundRefreshNode ex_proxy ex_limiter) (@NewLoadBalancer ex_limiter) ex_events.

Import Instance_.

Lemma proxy_serves_witness :
  let b := balancer_of defaultConfig false 0 0 ex_reached in
  (returns (ServeHTTP first_draw plain b ex_call ex_serving "1") (λ '(_, _, sv'),
    length (sv_Log sv') = 1%nat)) ∧
  returns (ServeHTTP first_draw plain b ex_call ex_serving "1") (λ '(_, _, sv'),
    (∃ atts, sv_Log sv' = [] ++ atts ∧ (length atts ≤ 3)%nat ∧ attempts_ok b "1" atts 5000000000) ∧
    accounted [] (w_metrics (sv_World sv'))).
Proof.
  intros b. split; [vm_compute; reflexivity|].
  apply (@proxy_serves ex_proxy example_eth example_sonic ex_sonic ex_render ex_limiter ex_otter
    first_draw plain defaultConfig false 0 0 ex_events ex_reached ex_call ex_serving "1" ex_ctx "1" "" "1");
    [apply (@run_exec ex_proxy ex_limiter)| |done|intros i n Hn; unfold first_draw; lia
    |vm_compute; reflexivity..].
  repeat constructor; done.
Defined.
