(* ===== verification/EndToEnd.v ===== *)
(** * Discovery and the event loop together

    The watcher ([Discovery]) sends on five channels what etcd holds, and the event loop
    ([Refresh]) receives from them, in order on each channel and in any order between them.
    Here the two are put together: once the loop has caught up, the gateway documents, the
    mirrors and the chain versions the requests are served with are those in etcd, and a node
    that etcd no longer has is in no pool. *)

From S2P Require Import Prelude GoStrings ChainId DiscoveryKeys LbNode Gateway PickNodes Selector Mirror Refresh.
From S2P Require Import Discovery EtcdWatch Config Processors.
Local Open Scope Z_scope.

(** ** Channels *)

(** The event an action of the loop receives. *)
Definition event_of (a : action) : option event :=
  match a with
  | ANode n => Some (ENode n)
  | AHeight h => Some (EHeight h)
  | AGateway g => Some (EGateway g)
  | AMirror m => Some (EMirror m)
  | AVersion v => EVersion <$> v
  | ACheck _ _ => None
  end.

Definition on_channel (ch : nat) (es : list event) : list event := filter (λ e, channel e = ch) es.

(** The loop has received everything that was sent. *)
Definition caught_up (r : Discover) (acts : list action) : Prop :=
  ∀ ch, on_channel ch (omap event_of acts) = on_channel ch (sent r).*2.

(** ** Which key an event is about *)

Definition about (k : string) (e : event) : Prop :=
  let '(kind, c, s) := parseKey k in
  match e with
  | ENode n => (kind = keyNode ∨ kind = keyNativeNode) ∧ tn_ChainId n = c ∧ tn_NodeKey n = s
  | EHeight h => kind = keyHeight ∧ ch_ChainId h = c
  | EGateway g => kind = keyGateway ∧ gw_ChainId g = c
  | EMirror m => kind = keyMirror ∧ mt_ChainId m = c ∧ mt_AddrKey m = s
  | EVersion v => kind = keyVersion ∧ TrimSpace (cv_ChainId v) = TrimSpace c
  end.

#[export] Instance about_dec k e : Decision (about k e).
Proof. unfold about. destruct (parseKey k) as [[kind c] s]. destruct e; apply _. Defined.

Section Keys.
Context `{DiscoveryJson}.

Lemma document_about k v e : document k v = Some e → about k e.
Proof.
  unfold document, about. destruct (parseKey k) as [[[] c] s]; repeat case_match; intros; simplify_eq; simpl; auto.
Qed.

Lemma removal_about k p e : removal k p = Some e → about k e.
Proof.
  unfold removal, about. destruct (parseKey k) as [[[] c] s]; intros; simplify_eq; simpl; auto.
Qed.

Definition keyed (r : Discover) : Prop := Forall (λ ke, about ke.1 ke.2) (sent r).

Lemma keyed_put r k v : keyed r → keyed (put_state r k v).
Proof.
  intros Hk. unfold keyed, put_state. destruct (document k (contents v)) as [e|] eqn:E; [|done].
  assert (Forall (λ ke, about ke.1 ke.2) (sent r ++ [(k, e)])).
  { apply Forall_app. split; [done|]. apply Forall_singleton. by eapply document_about. }
  by destruct (tracked k).
Qed.

Lemma keyed_delete r k p : keyed r → keyed (delete_state r k p).
Proof.
  intros Hk. unfold keyed, delete_state. destruct (removal k _) as [e|] eqn:E; [|done].
  apply Forall_app. split; [done|]. apply Forall_singleton. by eapply removal_about.
Qed.

Lemma dispatchPuts_keyed kvs r : keyed r → ensures (dispatchPuts r kvs) keyed.
Proof.
  revert r. induction kvs as [|[k v] kvs IH]; intros r Hr; simpl; [done|].
  eapply ensures_seq; [apply dispatchPut_ensures|]. intros r' ->. by apply IH, keyed_put.
Qed.

Lemma dispatchEvents_keyed evs r : keyed r → ensures (dispatchEvents r evs) keyed.
Proof.
  revert r. induction evs as [|ev evs IH]; intros r Hr; simpl; [done|].
  destruct (ev_Put ev); (eapply ensures_seq; [apply dispatchPut_ensures || apply dispatchDelete_ensures|]);
    intros r' ->; apply IH; [by apply keyed_put|by apply keyed_delete].
Qed.

Lemma deleteVanished_keyed live order r : keyed r → ensures (deleteVanished live r order) keyed.
Proof.
  revert r. induction order as [|[k v] order IH]; intros r Hr; simpl; [done|].
  case_bool_decide; [auto|]. eapply ensures_seq; [apply dispatchDelete_ensures|]. intros r' ->.
  by apply IH, keyed_delete.
Qed.

Lemma putChanged_keyed kvs r : keyed r → ensures (putChanged r kvs) keyed.
Proof.
  revert r. induction kvs as [|[k v] kvs IH]; intros r Hr; simpl; [done|].
  case_bool_decide; [auto|]. eapply ensures_seq; [apply dispatchPut_ensures|]. intros r' ->. by apply IH, keyed_put.
Qed.

Lemma resync_keyed order resp r : keyed r → ensures (resync r order resp) (λ x, keyed x.1).
Proof.
  intros Hr. destruct resp as [resp|]; simpl; [|done].
  eapply ensures_seq; [by apply deleteVanished_keyed|]. intros r1 H1.
  eapply ensures_seq; [by apply putChanged_keyed|]. by intros r2 H2.
Qed.

Lemma watchStep_keyed s i : keyed s.1 → ensures (watchStep s i) (λ x, keyed x.1).
Proof.
  destruct s as [r ph]. intros Hr. destruct ph as [|err|]; [|destruct i, err; simpl; try done|done].
  - destruct i as [| |resp|]; simpl; try done. unfold processWatchResponse.
    destruct (negb _); [done|]. destruct (wr_Err resp) as [[]|]; [done|done|]. destruct (Canceled resp); [done|].
    pose proof (dispatchEvents_keyed (Events resp) r Hr) as He. by destruct (dispatchEvents r (Events resp)).
  - eapply ensures_seq; [by apply resync_keyed|]. by intros [r' b] Hr'.
Qed.

Lemma watched_keyed hist r ph st : watched hist r ph st → keyed r.
Proof.
  induction 1 as [prefix resp r current Hl Hs Hcur Hi|r ph st i r' ph' st' Hw IH Ha Hst He].
  - pose proof (dispatchPuts_keyed (Kvs resp) (NewDiscover prefix) (Forall_nil_2 _)) as Ho. simpl in Hi.
    by destruct (dispatchPuts _ _); simplify_eq/=.
  - pose proof (watchStep_keyed (r, ph) i IH) as Ho. by rewrite Hst in Ho.
Qed.
End Keys.

(** ** Tables *)

(** What the proxy knows for a key: the weights and routes of a chain, a mirror, or the chain
    a version routes to. *)
Inductive setting :=
| TGateway (weights : option (gmap string Z)) (routes : option (gmap string MethodRoute))
| TMirror (m : MirrorTarget)
| TVersion (target : string).

Definition configured (k : string) : bool :=
  match parseKey k with
  | (keyGateway, _, _) | (keyMirror, _, _) => true
  | (keyVersion, c, _) => negb (bool_decide (TrimSpace c = ""))
  | _ => false
  end.

Section Tables.
Context `{ProxyLibrary} `{RateLimiter}.

Definition published (lb : LoadBalancer) (k : string) : option setting :=
  match parseKey k with
  | (keyGateway, c, _) =>
      s ← gateway (NodeSelector lb);
      match weightMap s !! c, methodRouteMap s !! c with
      | None, None => None
      | w, m => Some (TGateway w m)
      end
  | (keyMirror, c, s) => TMirror <$> mirror_lookup (lb_MirrorMap lb) c s
  | (keyVersion, c, _) => TVersion <$> overrides (chainVersionRouter lb) !! TrimSpace c
  | _ => None
  end.

(** What a document asks for; a blank version asks for none. *)
Definition meant (e : event) : option setting :=
  match e with
  | EGateway g => Some (TGateway (Some (weightsOf (Weights g))) (Some (MethodRoutes g)))
  | EMirror m => Some (TMirror m)
  | EVersion v =>
      if bool_decide (TrimSpace (TrimSpace (cv_Version v)) = "") then None else
      Some (TVersion (TrimSpace (cv_ChainId v) +:+ "-" +:+ ReplaceByte (TrimSpace (TrimSpace (cv_Version v))) "/" "-"))
  | _ => None
  end.

(** The setting after an event about the key. *)
Definition outcome (e : event) : option setting := if is_delete e then None else meant e.

(** *** The loop's side *)

Lemma gateway_kept lb a : is_Some (gateway (NodeSelector lb)) → is_Some (gateway (NodeSelector (BackgroundRefreshNode lb a))).
Proof.
  intros Hg. destruct a as [tn|h|g|m|v|i passed]; simpl; try done.
  - unfold handleNode, applyNodeState, UpsertNode, RemoveNode. repeat case_match; done.
  - by rewrite fmap_is_Some.
  - unfold handleMirrorEvent. by destruct (handleMirror _ _ _).
  - unfold finishCheck, ApplyIfCurrent, UpsertNode. repeat case_match; simplify_eq; done.
Qed.

(** What the loop reads to answer [published] only changes with the three kinds of events. *)
Lemma published_frame lb lb' k :
  gateway (NodeSelector lb') = gateway (NodeSelector lb) → lb_MirrorMap lb' = lb_MirrorMap lb →
  chainVersionRouter lb' = chainVersionRouter lb → published lb' k = published lb k.
Proof. unfold published. by intros -> -> ->. Qed.

Lemma published_node lb tn k : published (handleNode lb tn) k = published lb k.
Proof.
  apply published_frame; unfold handleNode, applyNodeState, UpsertNode, RemoveNode; repeat case_match; done.
Qed.

Lemma published_check lb i passed k : published (finishCheck lb i passed) k = published lb k.
Proof.
  apply published_frame; unfold finishCheck, ApplyIfCurrent, UpsertNode;
    repeat (case_match; simplify_eq/=); done.
Qed.

Lemma published_gateway lb g k :
  is_Some (gateway (NodeSelector lb)) →
  published (handleGateway lb g) k =
  if decide (about k (EGateway g)) then outcome (EGateway g) else published lb k.
Proof.
  intros [s Hs]. destruct (decide _) as [Hd|Hd]; unfold about in Hd; unfold published, outcome, handleGateway;
    destruct (parseKey k) as [[kind c] sub]; simpl; rewrite Hs; simpl.
  - destruct Hd as [-> <-]. destruct (gw_ChangeType g); simpl; by rewrite ?lookup_insert_eq, ?lookup_delete_eq.
  - destruct kind; try done. assert (gw_ChainId g ≠ c) by naive_solver.
    destruct (gw_ChangeType g); simpl; by rewrite ?lookup_insert_ne, ?lookup_delete_ne.
Qed.

Lemma published_mirror lb m k :
  published (handleMirrorEvent lb m) k =
  if decide (about k (EMirror m)) then outcome (EMirror m) else published lb k.
Proof.
  destruct (decide _) as [Hd|Hd]; unfold about in Hd; unfold published, outcome, handleMirrorEvent, handleMirror;
    destruct (parseKey k) as [[kind c] sub]; simpl.
  - destruct Hd as (-> & <- & <-). destruct (mt_Deleted m); simpl;
      rewrite ?mirror_lookup_delete, ?mirror_lookup_add, decide_True by done; done.
  - destruct kind; try (by destruct (mt_Deleted m)). destruct (mt_Deleted m); simpl;
      rewrite ?mirror_lookup_delete, ?mirror_lookup_add, decide_False by naive_solver; done.
Qed.

Lemma published_version lb v k :
  configured k = true →
  published (handleVersion lb (Some v)) k =
  if decide (about k (EVersion v)) then outcome (EVersion v) else published lb k.
Proof.
  intros Hc. destruct (decide _) as [Hd|Hd]; unfold about in Hd;
    unfold configured, published, outcome, handleVersion, handleChainVersionUpdate, Update, Remove in *;
    destruct (parseKey k) as [[kind c] sub]; simpl.
  - destruct Hd as [-> E]. b2p. rewrite <- E in *. rewrite (bool_decide_eq_false_2 (TrimSpace _ = "")) by done.
    destruct (cv_ChangeType v); simpl; [|by rewrite lookup_delete_eq].
    case_bool_decide; simpl; [by rewrite lookup_delete_eq|by rewrite lookup_insert_eq].
  - destruct kind; try done. assert (TrimSpace (cv_ChainId v) ≠ TrimSpace c) by naive_solver.
    destruct (cv_ChangeType v); repeat case_bool_decide; simpl;
      rewrite ?lookup_delete_ne, ?lookup_insert_ne by done; done.
Qed.

(** One action of the loop. *)
Lemma published_step lb a k :
  configured k = true → is_Some (gateway (NodeSelector lb)) →
  published (BackgroundRefreshNode lb a) k =
  match event_of a with
  | Some e => if decide (about k e) then outcome e else published lb k
  | None => published lb k
  end.
Proof.
  intros Hk Hg. assert (∀ n, ¬ about k (ENode n)) as Hn.
  { intros n. unfold configured, about in *. destruct (parseKey k) as [[kind c] s]. intros [[-> | ->] _]; done. }
  assert (∀ h, ¬ about k (EHeight h)) as Hh.
  { intros h. unfold configured, about in *. destruct (parseKey k) as [[kind c] s]. intros [-> _]; done. }
  destruct a as [tn|h|g|m|[v|]|i passed]; simpl.
  - rewrite decide_False by done. apply published_node.
  - rewrite decide_False by done. by apply published_frame.
  - by apply published_gateway.
  - apply published_mirror.
  - by apply published_version.
  - by apply published_frame.
  - apply published_check.
Qed.

(** The last event about the key decides. *)
Definition applyEvent (k : string) (t : option setting) (e : event) : option setting :=
  if decide (about k e) then outcome e else t.

Lemma published_run acts lb k :
  run NewLoadBalancer acts lb → configured k = true →
  is_Some (gateway (NodeSelector lb)) ∧ published lb k = foldl (applyEvent k) None (omap event_of acts).
Proof.
  intros Hrun Hk. remember NewLoadBalancer as lb0 eqn:E. revert E.
  induction Hrun as [lb|lb acts lb1 a Hrun IH]; intros E.
  - subst lb. split; [by eexists|]. unfold published. by destruct (parseKey k) as [[[] c] s].
  - destruct (IH E) as [Hg Hp]. split; [by apply gateway_kept|].
    rewrite published_step by done. rewrite omap_app, foldl_app, <- Hp. simpl.
    by destruct (event_of a).
Qed.

(** *** The watcher's side *)

(** Only events of one channel are about a key. *)
Lemma about_channel k e e' : about k e → about k e' → channel e = channel e'.
Proof. unfold about. destruct (parseKey k) as [[kind c] s]. destruct e, e'; naive_solver. Qed.

Lemma foldl_channel k ch es t :
  (∀ e, about k e → channel e = ch) → foldl (applyEvent k) t es = foldl (applyEvent k) t (on_channel ch es).
Proof.
  intros Hch. unfold on_channel. revert t. induction es as [|e es IH]; intros t; [done|].
  rewrite filter_cons. simpl. rewrite IH. case_decide as Hc; [done|].
  unfold applyEvent at 2. rewrite decide_False; [done|]. intros Ha. by apply Hc, Hch.
Qed.

(** No other key of the log stands for the same document. *)
Definition sole (log : list (string * event)) (k : string) : Prop :=
  ∀ k' e, (k', e) ∈ log → about k e → k' = k.

Lemma foldl_view log k :
  Forall (λ ke, about ke.1 ke.2) log → sole log k →
  foldl (applyEvent k) None log.*2 = view log !! k ≫= meant.
Proof.
  induction log as [|[k' e] log IH] using rev_ind; intros Hall Hs; [done|].
  apply Forall_app in Hall as [Hall [Ha _]%Forall_cons]. simpl in Ha.
  rewrite fmap_app, foldl_app, view_snoc. simpl. unfold observe. simpl.
  rewrite IH; [|done|intros k2 e2 Hin; apply Hs, elem_of_app; by left].
  unfold applyEvent, outcome. case_decide as Hk.
  - assert (k' = k) as -> by (eapply Hs; [|done]; apply elem_of_app; right; by left).
    destruct (is_delete e); by rewrite ?lookup_delete_eq, ?lookup_insert_eq.
  - assert (k' ≠ k) by (by intros ->). destruct (is_delete e); by rewrite ?lookup_delete_ne, ?lookup_insert_ne.
Qed.

Lemma caught_up_published `{DiscoveryJson} hist r ph st acts lb k :
  watched hist r ph st → run NewLoadBalancer acts lb → caught_up r acts → configured k = true →
  sole (sent r) k → published lb k = Discovery.view (sent r) !! k ≫= meant.
Proof.
  intros Hw Hrun Hup Hk Hs. destruct (published_run acts lb k Hrun Hk) as [_ ->].
  pose proof (watched_keyed _ _ _ _ Hw) as Hkeyed. rewrite <- foldl_view by done.
  assert (∃ ch, ∀ e, about k e → channel e = ch) as [ch Hch].
  { unfold configured, about in *. destruct (parseKey k) as [[kind c] s].
    exists (match kind with keyGateway => 2%nat | keyMirror => 3%nat | _ => 4%nat end).
    intros e. destruct e; simpl; naive_solver. }
  by rewrite (foldl_channel k ch), Hup, <- foldl_channel.
Qed.
End Tables.

(** ** Withdrawn nodes *)

(** The node a key was last announced with. *)
Definition announcement (k : string) (ke : string * event) : option TargetNode :=
  if bool_decide (ke.1 = k) then
    match ke.2 with
    | ENode n => match tn_ChangeType n with EVENT_PUT => Some n | EVENT_DELETE => None end
    | _ => None
    end
  else None.
Definition last_announced (log : list (string * event)) (k : string) : option TargetNode :=
  last (omap (announcement k) log).

Lemma last_announced_snoc log ke k :
  last_announced (log ++ [ke]) k =
  match announcement k ke with Some n => Some n | None => last_announced log k end.
Proof.
  unfold last_announced. rewrite omap_app. simpl. destruct (announcement k ke); simpl.
  - apply last_snoc.
  - by rewrite (right_id_L [] (++)).
Qed.

Definition node_key (k : string) : Prop := (parseKey k).1.1 = keyNode ∨ (parseKey k).1.1 = keyNativeNode.

Lemma about_node k e : node_key k → about k e → ∃ n, e = ENode n.
Proof.
  unfold node_key, about. destruct (parseKey k) as [[kind c] s]. simpl.
  intros Hk. destruct e; [by eexists|..]; intros [-> _]; by destruct Hk.
Qed.

(** What the consumers know of a node is its last announcement. *)
Lemma view_announced log k e :
  Forall (λ ke, about ke.1 ke.2) log → node_key k → view log !! k = Some e →
  ∃ n, e = ENode n ∧ last_announced log k = Some n.
Proof.
  intros Hall Hk. induction log as [|[k' e'] log IH] using rev_ind; [done|].
  apply Forall_app in Hall as [Hall [Ha _]%Forall_cons]. simpl in Ha.
  rewrite view_snoc, last_announced_snoc. unfold observe, announcement. simpl.
  destruct (decide (k' = k)) as [->|Hne].
  - rewrite bool_decide_eq_true_2 by done. destruct (about_node k e' Hk Ha) as [n ->]. simpl.
    destruct (tn_ChangeType n) eqn:Ec; [rewrite lookup_insert_eq; intros [= <-]; by exists n|by rewrite lookup_delete_eq].
  - rewrite bool_decide_eq_false_2 by done. destruct (is_delete e');
      rewrite ?lookup_delete_ne, ?lookup_insert_ne by done; auto.
Qed.

(** The last thing said about a withdrawn node is its deletion. *)
Lemma withdrawn_last log k n :
  Forall (λ ke, about ke.1 ke.2) log → orderly k log → node_key k →
  view log !! k = None → last_announced log k = Some n →
  ∃ l1 l2, log = l1 ++ (k, ENode (n <| tn_ChangeType := EVENT_DELETE |>)) :: l2 ∧ k ∉ l2.*1.
Proof.
  intros Hall Ho Hk. induction log as [|[k' e'] log IH] using rev_ind; [done|].
  apply Forall_app in Hall as [Hall [Ha _]%Forall_cons]. simpl in Ha.
  assert (orderly k log) as Ho'.
  { intros l1 e1 l2 -> Hd. eapply (Ho l1 e1 (l2 ++ [(k', e')])); [|done]. by rewrite <- (assoc_L (++)). }
  rewrite view_snoc, last_announced_snoc. unfold observe, announcement. simpl.
  destruct (decide (k' = k)) as [->|Hne].
  - rewrite bool_decide_eq_true_2 by done. destruct (about_node k e' Hk Ha) as [m ->]. simpl.
    destruct (tn_ChangeType m) eqn:Ec; [by rewrite lookup_insert_eq|]. intros _ Hn.
    destruct (Ho log (ENode m) []) as (e0 & Hv & E); [done|simpl; by rewrite Ec|].
    destruct (view_announced log k e0 Hall Hk Hv) as (n0 & -> & Hn0). rewrite Hn in Hn0. injection Hn0 as <-.
    simpl in E. injection E as ->. exists log, []. split; [done|]. simpl. apply not_elem_of_nil.
  - rewrite bool_decide_eq_false_2 by done. intros Hv Hn.
    assert (view log !! k = None) as Hv'
      by (revert Hv; destruct (is_delete e'); rewrite ?lookup_delete_ne, ?lookup_insert_ne by done; auto).
    destruct (IH Hall Ho' Hv' Hn) as (l1 & l2 & -> & Hk2). exists l1, (l2 ++ [(k', e')]).
    split; [by rewrite <- (assoc_L (++))|]. rewrite fmap_app, not_elem_of_app. split; [done|]. simpl. set_solver.
Qed.

(** Where in the loop's run the event of a channel was received. *)
Lemma omap_split {A B : Type} (f : A → option B) (l : list A) (xs : list B) (y : B) (ys : list B) :
  omap f l = xs ++ y :: ys → ∃ l1 a l2, l = l1 ++ a :: l2 ∧ f a = Some y ∧ omap f l2 = ys.
Proof.
  revert xs. induction l as [|a l IH]; intros xs; simpl; [by destruct xs|].
  destruct (f a) as [b|] eqn:E.
  - destruct xs as [|x xs]; simpl; intros [= -> Hl]; [by exists [], a, l|].
    destruct (IH xs Hl) as (l1 & a1 & l2 & -> & H1 & H2). by exists (a :: l1), a1, l2.
  - intros Hl. destruct (IH xs Hl) as (l1 & a1 & l2 & -> & H1 & H2). by exists (a :: l1), a1, l2.
Qed.

(** The node an action receives. *)
Definition node_of (a : action) : option TargetNode := match a with ANode n => Some n | _ => None end.
Definition node_in (e : event) : option TargetNode := match e with ENode n => Some n | _ => None end.

Lemma nodes_received acts : omap node_of acts = omap node_in (on_channel 0 (omap event_of acts)).
Proof.
  induction acts as [|a acts IH]; [done|]. unfold on_channel in *.
  destruct a as [n|h|g|m|[v|]|i b]; csimpl; rewrite ?filter_cons; csimpl; by rewrite IH.
Qed.

Lemma nodes_sent es : omap node_in (on_channel 0 es) = omap node_in es.
Proof.
  unfold on_channel. induction es as [|e es IH]; [done|]. rewrite filter_cons.
  destruct e; csimpl; by rewrite IH.
Qed.

Lemma elem_omap_node n (l : list (string * event)) :
  n ∈ omap node_in l.*2 → ∃ k, (k, ENode n) ∈ l.
Proof.
  intros (e & He & Hn)%list_elem_of_omap. destruct e; simpl in Hn; simplify_eq.
  apply list_elem_of_fmap in He as ([k e] & He & Hin). simpl in He. subst e. by exists k.
Qed.

(** The last event about a node's key is, in the loop's run, the last one of the node. *)
Lemma received_last l1 l2 acts k n :
  Forall (λ ke, about ke.1 ke.2) (l1 ++ (k, ENode n) :: l2) → sole (l1 ++ (k, ENode n) :: l2) k → k ∉ l2.*1 →
  on_channel 0 (omap event_of acts) = on_channel 0 (l1 ++ (k, ENode n) :: l2).*2 →
  ∃ a1 a2, acts = a1 ++ ANode n :: a2 ∧ Forall (λ a, ¬ touches (identity_of n) a) a2.
Proof.
  intros Hall Hs Hk2 Hup.
  assert (omap node_of acts = omap node_in l1.*2 ++ n :: omap node_in l2.*2) as Hnodes.
  { rewrite nodes_received, Hup, nodes_sent, fmap_app, omap_app. done. }
  destruct (omap_split _ _ _ _ _ Hnodes) as (a1 & a & a2 & -> & Ha & Ha2).
  destruct a as [tn| | | | |]; simpl in Ha; simplify_eq. exists a1, a2. split; [done|].
  apply Forall_forall. intros x Hx Ht. destruct x as [tn| | | | |]; simpl in Ht; try done.
  assert (tn ∈ omap node_in l2.*2) as Hin.
  { rewrite <- Ha2. apply list_elem_of_omap. by exists (ANode tn). }
  apply elem_omap_node in Hin as (k' & Hin). apply Forall_app in Hall as [_ [Hd _]%Forall_cons]. simpl in Hd.
  assert (k' = k) as ->; [|by apply Hk2, list_elem_of_fmap; exists (k, ENode tn)].
  apply (Hs k' (ENode tn)); [apply elem_of_app; right; by right|].
  unfold about in *. destruct (parseKey k) as [[kind c] sub]. injection Ht as -> -> _. done.
Qed.

Section Withdrawn.
Context `{ProxyLibrary} `{RateLimiter}.

Lemma withdrawn_gone log acts lb k n :
  Forall (λ ke, about ke.1 ke.2) log → orderly k log → node_key k → sole log k →
  view log !! k = None → last_announced log k = Some n →
  run NewLoadBalancer acts lb → on_channel 0 (omap event_of acts) = on_channel 0 log.*2 →
  (∀ ref, newTargetNode ref (n <| tn_ChangeType := EVENT_DELETE |>) DefaultWeight ≠ None) →
  Z.of_nat (length acts) < 2 ^ 64 →
  entry (NodeSelector lb) (identity_of n) (tn_NodeType n) = None.
Proof.
  intros Hall Ho Hk Hs Hv Hn Hrun Hup Hnew Hlt.
  destruct (withdrawn_last log k n Hall Ho Hk Hv Hn) as (l1 & l2 & -> & Hk2).
  destruct (received_last _ _ _ _ _ Hall Hs Hk2 Hup) as (a1 & a2 & -> & Hq).
  destruct (run_split _ _ _ _ _ Hrun) as (lb1 & Hr1 & Hr2).
  rewrite length_app in Hlt. simpl in Hlt.
  set (d := n <| tn_ChangeType := EVENT_DELETE |>) in *.
  apply (deleted_gone a1 lb1 d a2 lb); [done|done|apply Hnew|done|done|lia].
Qed.
End Withdrawn.

(** A node that the store no longer has, once the loop has caught up. *)
Lemma withdrawn_entry `{DiscoveryJsonLaws} `{ProxyLibrary} `{RateLimiter} hist r ph st acts lb k n :
  valid_history hist k → watched hist r ph st → ws_skips st = false → run NewLoadBalancer acts lb → caught_up r acts →
  Z.of_nat (length acts) < 2 ^ 64 → node_key k → sole (sent r) k →
  store hist (ws_next st - 1) !! k = None → last_announced (sent r) k = Some n →
  (∀ ref, newTargetNode ref (n <| tn_ChangeType := EVENT_DELETE |>) DefaultWeight ≠ None) →
  entry (NodeSelector lb) (identity_of n) (tn_NodeType n) = None.
Proof.
  intros Hh Hw Hsk Hrun Hup Hlt Hk Hs Hgone Hn Hnew.
  destruct (watched_ok _ _ _ _ Hw) as [_ Hc _ _ _ Hg Hsync].
  destruct (ws_gap st) eqn:Egap; [by rewrite Hg in Hsk|]. destruct (Hsync eq_refl) as [_ Hdel].
  assert (tracked k = true) as Ht.
  { unfold node_key, tracked in *. destruct (parseKey k) as [[kind c] sub]. simpl in *. by destruct Hk as [-> | ->]. }
  apply (withdrawn_gone (sent r) acts lb k n); try done.
  - apply (watched_keyed _ _ _ _ Hw).
  - by apply (watched_orderly k Ht hist r ph st).
  - apply (c_view _ Hc k Ht (Hdel k Hgone Ht)).
Qed.

(** ** Properties *)

(** C3: the proxy serves what etcd holds. When the event loop has received all that the
    watcher sent, in any interleaving of the channels and with health checks ending at any
    moment, the weights and routes of a chain, a mirror or a chain's version are those of
    the document etcd had for its key at the last revision delivered, and none when etcd had
    none (provided no other key names the same chain or mirror, and no revision was passed
    over since the last snapshot). *)
Theorem settings_follow_etcd `{DiscoveryJsonLaws} `{ProxyLibrary} `{RateLimiter} hist r ph st acts lb k :
  watched hist r ph st → ws_gap st = false → run NewLoadBalancer acts lb → caught_up r acts → configured k = true →
  sole (sent r) k →
  match store hist (ws_next st - 1) !! k with
  | Some v => ∀ e, document k (contents v) = Some e → published lb k = meant e
  | None => published lb k = None
  end.
Proof.
  intros Hw Hgap Hrun Hup Hk Hs. rewrite (caught_up_published hist r ph st acts) by done.
  destruct (watched_ok _ _ _ _ Hw) as [_ Hc _ _ _ _ Hsync]. destruct (Hsync Hgap) as [Hl Hg].
  destruct (store _ _ !! k) as [v|] eqn:E.
  - intros e He. destruct (Hl _ _ _ E He) as [-> _]. done.
  - assert (tracked k = true) as Ht by (unfold configured, tracked in *; by destruct (parseKey k) as [[[] c] s]).
    by rewrite (c_view _ Hc k Ht (Hg k E Ht)).
Qed.

(** C14: a node withdrawn from etcd gets no more traffic. When its documents decode and the
    event loop has received all that the watcher sent, a node that etcd had deleted by the
    last revision delivered is not in the pool it was announced for, whichever health checks
    were running when it was withdrawn and however often the watch broke, as long as no
    revision was passed over. *)
Theorem withdrawn_nodes_gone `{DiscoveryJsonLaws} `{ProxyLibrary} `{RateLimiter} hist r ph st acts lb k n :
  valid_history hist k → watched hist r ph st → ws_skips st = false → run NewLoadBalancer acts lb → caught_up r acts →
  Z.of_nat (length acts) < 2 ^ 64 → node_key k → sole (sent r) k →
  store hist (ws_next st - 1) !! k = None → last_announced (sent r) k = Some n →
  (∀ ref, newTargetNode ref (n <| tn_ChangeType := EVENT_DELETE |>) DefaultWeight ≠ None) →
  entry (NodeSelector lb) (identity_of n) (tn_NodeType n) = None.
Proof. apply withdrawn_entry. Qed.

(** The run of [EtcdWatch]'s examples, the gateway's event received before the node's, and a check of
    the node that ends after its deletion. *)
Definition action_of (e : event) : action :=
  match e with
  | ENode n => ANode n | EHeight h => AHeight h | EGateway g => AGateway g | EMirror m => AMirror m
  | EVersion v => AVersion (Some v)
  end.
Definition ex_received : list action :=
  let es := (sent EtcdWatch.ex_final).*2 in
  (action_of <$> on_channel 2 es) ++ (action_of <$> on_channel 0 es) ++ [ACheck 0 true].
Definition ex_loop : @LoadBalancer ex_limiter :=
  foldl (@BackgroundRefreshNode ex_proxy ex_limiter) (@NewLoadBalancer ex_limiter) ex_received.

Lemma settings_follow_etcd_witness :
  published ex_loop "1/gateway" = Some (TGateway (Some {["a" := 50]}) (Some ∅)).
Proof.
  assert (caught_up EtcdWatch.ex_final ex_received) as Hup
    by (intros [|[|[|[|[|ch]]]]]; vm_compute; reflexivity).
  assert (sole (sent EtcdWatch.ex_final) "1/gateway") as Hs.
  { assert (Forall (λ ke, about "1/gateway" ke.2 → ke.1 = "1/gateway") (sent EtcdWatch.ex_final)) as Hall
      by (refine (bool_decide_unpack _ _); vm_compute; exact I).
    rewrite Forall_forall in Hall. intros k' e Hin. exact (Hall (k', e) Hin). }
  pose proof (@settings_follow_etcd Discovery.ex_json ex_json_laws ex_proxy ex_limiter ex_history
    EtcdWatch.ex_final Watching _ ex_received ex_loop "1/gateway" ex_resynced eq_refl
    (@run_exec ex_proxy ex_limiter _ _) Hup eq_refl Hs) as E.
  cbn [ws_next] in E. assert (store ex_history (4 - 1) = {["1/gateway" := Some "a"]}) as Es
    by (vm_compute; reflexivity).
  rewrite Es, lookup_singleton_eq in E. exact (E _ eq_refl).
Defined.

Lemma withdrawn_nodes_gone_witness :
  let n := mkTargetNode "1" 1 "h" 80 2 EVENT_PUT "a" 100 "manual" in
  last_announced (sent EtcdWatch.ex_final) "1/nodes/a" = Some n ∧
  entry (NodeSelector ex_loop) ("1", "a", false) NodeTypeArchive = None.
Proof.
  intros n. assert (last_announced (sent EtcdWatch.ex_final) "1/nodes/a" = Some n) as Hn
    by (vm_compute; reflexivity).
  split; [exact Hn|].
  assert (caught_up EtcdWatch.ex_final ex_received) as Hup
    by (intros [|[|[|[|[|ch]]]]]; vm_compute; reflexivity).
  assert (sole (sent EtcdWatch.ex_final) "1/nodes/a") as Hs.
  { assert (Forall (λ ke, about "1/nodes/a" ke.2 → ke.1 = "1/nodes/a") (sent EtcdWatch.ex_final)) as Hall
      by (refine (bool_decide_unpack _ _); vm_compute; exact I).
    rewrite Forall_forall in Hall. intros k' e Hin. exact (Hall (k', e) Hin). }
  exact (@withdrawn_nodes_gone Discovery.ex_json ex_json_laws ex_proxy ex_limiter ex_history
    EtcdWatch.ex_final Watching _ ex_received ex_loop "1/nodes/a" n ex_valid ex_resynced eq_refl
    (@run_exec ex_proxy ex_limiter _ _) Hup ltac:(vm_compute; reflexivity) (or_introl eq_refl) Hs
    ltac:(vm_compute; reflexivity) Hn ltac:(intros ref; vm_compute; discriminate)).
Defined.
