(* ===== verification/AdminFlow.v ===== *)
(** * From a management call to the requests

    The management API ([Admin]) writes to etcd ([EtcdStore]), the watcher ([Discovery])
    reads etcd's history and the event loop ([Refresh]) publishes what the watcher sends.
    Here the three are put together: the history the watcher follows is the one the store
    writes ([logged]), and what a call that reported success stored is, once the proxy has
    caught up, what its requests are served with. *)

From S2P Require Import Prelude GoStrings JsonRpc ChainId DiscoveryKeys Types LbNode Gateway PickNodes Selector Mirror.
From S2P Require Import Refresh Discovery EtcdWatch Config Processors EtcdStore Admin Writers AdminProof EndToEnd.
Local Open Scope Z_scope.

(** ** The history a store writes *)

(** etcd's client gives an empty value as nil. *)
Definition wire (s : string) : bytes := if bool_decide (s = "") then None else Some s.

(** The keys under a prefix with their values, as a range request answers. *)
Definition values (prefix : string) (m : gmap string kv) : gmap string bytes :=
  (λ v, wire (kv_Value v)) <$> with_prefix prefix m.

(** What etcd reports of an operation to a watcher of a prefix: a deletion only when there
    was something to delete, with the previous value when etcd still has it. *)
Definition op_events (prefix : string) (has_prev : string → bool) (m : gmap string kv) (o : eop) : list Event :=
  match o with
  | OpPut k v => if HasPrefix k prefix then [mkEvent true k (wire v) None] else []
  | OpDelete k =>
      match m !! k with
      | Some v =>
          if HasPrefix k prefix
          then [mkEvent false k None (if has_prev k then Some (wire (kv_Value v)) else None)] else []
      | None => []
      end
  end.

Fixpoint ops_events (prefix : string) (has_prev : string → bool) (rev : Z) (m : gmap string kv)
    (ops : list eop) : list Event :=
  match ops with
  | [] => []
  | o :: ops => op_events prefix has_prev m o ++ ops_events prefix has_prev rev (apply_op rev m o) ops
  end.

(** [logged prefix d hist]: [hist] lists, revision by revision, what made [d] of an empty
    store.  The revision of an empty store need not be 0. *)
Inductive logged (prefix : string) : db → list (list Event) → Prop :=
| logged_start rev : logged prefix (mkDb (Z.of_nat rev) ∅) (replicate rev [])
| logged_ops d hist ops has_prev :
    logged prefix d hist → existsb (modifies (db_kvs d)) ops = true →
    logged prefix (apply_ops d ops)
      (hist ++ [ops_events prefix has_prev (db_revision d + 1) (db_kvs d) ops]).

Lemma contents_wire s : contents (wire s) = s.
Proof. unfold wire. by case_bool_decide; subst. Qed.

Lemma values_lookup prefix m k :
  HasPrefix k prefix = true → values prefix m !! k = (λ v, wire (kv_Value v)) <$> m !! k.
Proof.
  intros Hk. unfold values. rewrite lookup_fmap. unfold with_prefix. f_equal.
  destruct (m !! k) as [v|] eqn:E; [by apply map_lookup_filter_Some|].
  apply map_lookup_filter_None. by left.
Qed.

Lemma values_other prefix m k : HasPrefix k prefix = false → values prefix m !! k = None.
Proof.
  intros Hk. unfold values. rewrite lookup_fmap, fmap_None. apply map_lookup_filter_None. right.
  intros x _. simpl. by rewrite Hk.
Qed.

Lemma values_op prefix has_prev rev m o :
  foldl apply_event (values prefix m) (op_events prefix has_prev m o) = values prefix (apply_op rev m o).
Proof.
  apply map_eq. intros k. destruct (HasPrefix k prefix) eqn:Hk.
  - rewrite (values_lookup _ _ _ Hk). destruct o as [k' v|k']; simpl.
    + destruct (HasPrefix k' prefix) eqn:Hk'; simpl; unfold apply_event; simpl.
      * destruct (decide (k' = k)) as [->|Hne]; [by rewrite !lookup_insert_eq|].
        by rewrite !lookup_insert_ne, values_lookup.
      * rewrite lookup_insert_ne by congruence. by apply values_lookup.
    + destruct (m !! k') as [v|] eqn:E.
      * destruct (HasPrefix k' prefix) eqn:Hk'; simpl; unfold apply_event; simpl.
        -- destruct (decide (k' = k)) as [->|Hne]; [by rewrite !lookup_delete_eq|].
           by rewrite !lookup_delete_ne, values_lookup.
        -- rewrite lookup_delete_ne by congruence. by apply values_lookup.
      * rewrite delete_id by done. by apply values_lookup.
  - rewrite (values_other _ (apply_op _ _ _)) by done.
    assert (∀ k', HasPrefix k' prefix = true → k' ≠ k) as Hne by congruence.
    destruct o as [k' v|k']; simpl; [|destruct (m !! k')]; repeat case_match;
      simpl; unfold apply_event; simpl; rewrite ?lookup_insert_ne, ?lookup_delete_ne by auto;
      by apply values_other.
Qed.

Lemma values_ops prefix has_prev rev m ops :
  foldl apply_event (values prefix m) (ops_events prefix has_prev rev m ops)
  = values prefix (foldl (apply_op rev) m ops).
Proof.
  revert m. induction ops as [|o ops IH]; intros m; simpl; [done|].
  by rewrite foldl_app, (values_op _ _ rev), IH.
Qed.

(** What a history says about the store it is of. *)
Lemma logged_store prefix d hist :
  logged prefix d hist →
  db_ok d ∧ db_revision d = Z.of_nat (length hist) ∧ foldl apply_event ∅ (concat hist) = values prefix (db_kvs d).
Proof.
  induction 1 as [rev|d hist ops has_prev _ (Hd & Hr & Hs) Hm].
  - split_and!.
    + split; [simpl; lia|]. intros k v. simpl. by rewrite lookup_empty.
    + by rewrite length_replicate.
    + assert (concat (replicate rev ([] : list Event)) = []) as -> by (induction rev; done).
      unfold values, with_prefix. simpl. by rewrite map_filter_empty, fmap_empty.
  - split; [by apply apply_ops_ok|]. unfold apply_ops. rewrite Hm. cbn [db_revision db_kvs].
    rewrite length_app, concat_app, foldl_app, Hs. simpl. rewrite (right_id_L [] (++)), values_ops. split; [lia|done].
Qed.

(** A longer history has the same store at the revisions of a shorter one. *)
Lemma store_logged prefix d hist more :
  logged prefix d hist → store (hist ++ more) (db_revision d) = values prefix (db_kvs d).
Proof.
  intros Hl. destruct (logged_store _ _ _ Hl) as (_ & Hr & Hs). unfold store.
  by rewrite Hr, Nat2Z.id, take_app_length.
Qed.

(** Whatever a request does, it does by operations at one revision. *)
Lemma etcd_spec_ops {X : Type} d (r : request X) : ∃ ops, (etcd_spec d r).1 = apply_ops d ops.
Proof.
  assert (d = apply_ops d []) as Hd by done.
  destruct r; simpl; try (by eexists); try (by exists []). case_match; [by eexists|by exists []].
Qed.

Lemma logged_apply prefix d hist ops :
  logged prefix d hist → ∃ more, logged prefix (apply_ops d ops) (hist ++ more).
Proof.
  intros Hl. destruct (existsb (modifies (db_kvs d)) ops) eqn:E.
  - eexists. by apply (logged_ops _ _ _ _ (λ _, true)).
  - exists []. unfold apply_ops. by rewrite E, (right_id_L [] (++)).
Qed.

Section Logged.
Context `{EtcdLaws}.

Lemma serve_logged {X : Type} prefix s (r : request X) s' a hist :
  serve_etcd s r = (s', a) → logged prefix (stored s) hist → ∃ more, logged prefix (stored s') (hist ++ more).
Proof.
  intros Hs Hl. destruct (etcd_spec_ops (stored s) r) as [ops E].
  assert (stored s' = stored s ∨ stored s' = apply_ops (stored s) ops) as [-> | ->];
    [|exists []; by rewrite (right_id_L [] (++))|by apply logged_apply].
  rewrite <- E. destruct a; [by apply etcd_failed in Hs|right]. by apply etcd_ok in Hs as [-> _].
Qed.

Lemma others_logged prefix s s' hist :
  others s s' → logged prefix (stored s) hist → ∃ more, logged prefix (stored s') (hist ++ more).
Proof.
  intros Ho. revert hist. induction Ho as [s|X s r s1 a s2 Hs _ IH]; intros hist Hl.
  - exists []. by rewrite (right_id_L [] (++)).
  - destruct (serve_logged _ _ _ _ _ _ Hs Hl) as [m1 H1]. destruct (IH _ H1) as [m2 H2].
    exists (m1 ++ m2). by rewrite (assoc_L (++)).
Qed.

(** Before and after each of a program's requests etcd has a history that extends the one it
    had when the program began. *)
Lemma runs_logged {A : Type} (p : prog A) prefix s trace a hist :
  runs p s trace a → logged prefix (stored s) hist →
  Forall (λ x, ∃ m1 m2, logged prefix (stored x.1) (hist ++ m1) ∧ logged prefix (stored x.2) (hist ++ m1 ++ m2)) trace.
Proof.
  revert s trace hist. induction p as [x|X r k IH]; intros s trace hist; simpl; [by intros [-> _] _|].
  intros (s0 & x & s1 & rest & Ho & Hs & -> & Hr) Hl.
  destruct (others_logged _ _ _ _ Ho Hl) as [m1 H1]. destruct (serve_logged _ _ _ _ _ _ Hs H1) as [m2 H2].
  apply Forall_cons. split; [exists m1, m2; by rewrite (assoc_L (++))|].
  eapply Forall_impl; [apply (IH _ _ _ _ Hr H2)|]. intros y (n1 & n2 & Hn1 & Hn2).
  exists (m1 ++ m2 ++ n1), n2. rewrite !(assoc_L (++)) in *. done.
Qed.
End Logged.

(** ** What the watcher knows of a key *)

Definition untouched (key : string) (evs : list Event) : Prop := Forall (λ ev, ev_Key ev ≠ key) evs.

Lemma untouched_lookup key evs m : untouched key evs → foldl apply_event m evs !! key = m !! key.
Proof.
  intros Hu. revert m. induction Hu as [|ev evs Hne _ IH]; intros m; simpl; [done|].
  rewrite IH. unfold apply_event. destruct (ev_Put ev); by rewrite ?lookup_insert_ne, ?lookup_delete_ne.
Qed.

(** The proxy has caught up with etcd: its watcher follows a history that extends [hist] by
    [more], has been given all of [hist] and perhaps more and has no gap in it, nothing
    delivered since has changed [key], and the event loop has received all that the watcher
    sent; no other key of the log stands for what [key] stands for. *)
Record settled `{DiscoveryJson} `{ProxyLibrary} `{RateLimiter} (hist more : list (list Event)) (key : string)
    (r : Discover) (ph : phase) (st : stream) (acts : list action) (lb : LoadBalancer) : Prop := {
  st_watched : watched (hist ++ more) r ph st;
  st_gap : ws_gap st = false;
  st_reached : latest hist < ws_next st;
  st_untouched : untouched key (changes (hist ++ more) (latest hist) (ws_next st - 1));
  st_run : run NewLoadBalancer acts lb;
  st_caught_up : caught_up r acts;
  st_sole : sole (sent r) key }.
Arguments st_watched {_ _ _ _ _ _ _ _ _ _ _} _.
Arguments st_run {_ _ _ _ _ _ _ _ _ _ _} _.

Section Settled.
Context `{DiscoveryJsonLaws} `{ProxyLibrary} `{RateLimiter}.

Lemma settled_store prefix d hist more key r ph st acts lb :
  logged prefix d hist → HasPrefix key prefix = true → settled hist more key r ph st acts lb →
  store (hist ++ more) (ws_next st - 1) !! key = (λ v, wire (kv_Value v)) <$> db_kvs d !! key.
Proof.
  intros Hl Hk Hs. destruct (logged_store _ _ _ Hl) as (_ & Hr & _).
  rewrite <- (store_changes _ (latest hist)) by (destruct Hs; lia).
  rewrite untouched_lookup by apply Hs. unfold latest. rewrite <- Hr, (store_logged prefix d) by done. by apply values_lookup.
Qed.

(** What etcd held when the call ended is what the consumers know. *)
Lemma settled_view prefix d hist more key r ph st acts lb v e :
  logged prefix d hist → HasPrefix key prefix = true → settled hist more key r ph st acts lb →
  db_kvs d !! key = Some v → document key (kv_Value v) = Some e →
  Discovery.view (sent r) !! key = Some e.
Proof.
  intros Hl Hk Hs Hv He. pose proof (settled_store _ _ _ _ _ _ _ _ _ _ Hl Hk Hs) as Hst. rewrite Hv in Hst.
  destruct (wo_synced _ _ _ (watched_ok _ _ _ _ (st_watched Hs)) (st_gap _ _ _ _ _ _ _ _ Hs)) as [Hlive _].
  apply (Hlive _ _ _ Hst). by rewrite contents_wire.
Qed.

Lemma settled_published prefix d hist more key r ph st acts lb v e :
  logged prefix d hist → HasPrefix key prefix = true → settled hist more key r ph st acts lb →
  configured key = true → db_kvs d !! key = Some v → document key (kv_Value v) = Some e →
  published lb key = meant e.
Proof.
  intros Hl Hk Hs Hc Hv He.
  rewrite (caught_up_published (hist ++ more) r ph st acts) by (done || apply Hs).
  by rewrite (settled_view _ _ _ _ _ _ _ _ _ _ _ _ Hl Hk Hs Hv He).
Qed.
End Settled.

(** ** What the management API writes, the watcher reads *)

(** Texts and numbers that JSON carries unchanged. *)
Definition plain_text (s : string) : bool :=
  all_bytes (λ c, byte c <? 128) s.

Definition plain_route (r : RouteDoc) : Prop :=
  map_Forall (λ k _, plain_text k = true) (default ∅ (rd_Include r)) ∧
  map_Forall (λ k _, plain_text k = true) (default ∅ (rd_Exclude r)).
Definition plain_gateway (g : GatewayDoc) : Prop :=
  Forall (λ w, plain_text (wi_NodeKey w) = true ∧ in_int64 (wi_Weight w)) (gd_Weights g) ∧
  map_Forall (λ m r, plain_text m = true ∧ plain_route r) (default ∅ (gd_Routes g)).
Definition plain_node (n : TargetNode) : Prop :=
  plain_text (tn_Address n) = true ∧ plain_text (tn_Source n) = true ∧
  Forall in_int64 [tn_StateType n; tn_Port n; tn_NodeType n; tn_Weight n].

(** encoding/json's encoders and sonic's decoders agree on such documents. *)
Class SharedDocuments `{AdminJson} `{DiscoveryJson} := {
  gateway_shared g text : plain_gateway g → MarshalGateway g = Some text →
    ∃ w, UnmarshalGateway text = (w, true) ∧ Weights w = gd_Weights g ∧
         MethodRoutes w = route_of <$> default ∅ (gd_Routes g);
  node_shared n text : plain_node n → MarshalNode n = Some text →
    ∃ m, UnmarshalTargetNode text = (m, true) ∧ tn_StateType m = tn_StateType n ∧
         tn_Address m = tn_Address n ∧ tn_Port m = tn_Port n ∧ tn_NodeType m = tn_NodeType n ∧
         tn_Weight m = tn_Weight n ∧ tn_Source m = tn_Source n }.

Section Documents.
Context `{SharedDocuments}.

Lemma document_gateway key c g text :
  parseKey key = (keyGateway, c, "") → plain_gateway g → MarshalGateway g = Some text →
  document key text = Some (EGateway (gateway_of c g)).
Proof.
  intros Hk Hp Hm. destruct (gateway_shared _ _ Hp Hm) as (w & Hu & Hw & Hr).
  unfold document. rewrite Hk, Hu, Hw, Hr. done.
Qed.

Lemma document_node key c k n text :
  parseKey key = (keyNode, c, k) → plain_node n → MarshalNode n = Some text →
  document key text = Some (ENode (mkTargetNode c (tn_StateType n) (tn_Address n) (tn_Port n) (tn_NodeType n)
                                    EVENT_PUT k (tn_Weight n) (tn_Source n))).
Proof.
  intros Hk Hp Hm. destruct (node_shared _ _ Hp Hm) as (m & Hu & <- & <- & <- & <- & <- & <-).
  unfold document. rewrite Hk, Hu. done.
Qed.
End Documents.

(** ** The keys of a chain *)

Lemma key_has_prefix h c rest : HasPrefix (h_keyPrefix h +:+ c +:+ rest) (h_keyPrefix h) = true.
Proof. apply HasPrefix_app. Qed.

Lemma gatewayKey_configured h c : parseKey (gatewayKey h c) = (keyGateway, c, "") → configured (gatewayKey h c) = true.
Proof. unfold configured. by intros ->. Qed.

(** ** Gateway documents *)

Section Edits.
Context `{EtcdLaws} `{SharedDocuments} `{!DiscoveryJsonLaws} `{ProxyLibrary} `{RateLimiter}.

(** What the requests of a chain are served with, of a gateway document. *)
Definition serves_gateway (lb : LoadBalancer) (c : string) (g : GatewayDoc) : Prop :=
  ∃ strategy, gateway (NodeSelector lb) = Some strategy ∧
    ChainWeights strategy c = weightsOf (gd_Weights g) ∧
    methodRouteMap strategy !! c = Some (route_of <$> default ∅ (gd_Routes g)).

Lemma gateway_served h c d hist more r ph st acts lb g text :
  logged (h_keyPrefix h) d hist → parseKey (gatewayKey h c) = (keyGateway, c, "") →
  settled hist more (gatewayKey h c) r ph st acts lb → plain_gateway g → MarshalGateway g = Some text →
  db_kvs d !! gatewayKey h c ≫= (λ v, Some (kv_Value v)) = Some text →
  serves_gateway lb c g.
Proof.
  intros Hl Hk Hs Hp Hm Hd. apply bind_Some in Hd as (v & Hv & [= <-]).
  assert (published lb (gatewayKey h c) = meant (EGateway (gateway_of c g))) as E.
  { eapply settled_published; [done|apply key_has_prefix|done|by apply gatewayKey_configured|done|].
    by apply document_gateway. }
  unfold published in E. rewrite Hk in E. simpl in E. unfold serves_gateway, ChainWeights.
  destruct (gateway (NodeSelector lb)) as [s|]; [|done]. exists s. simpl in E.
  destruct (weightMap s !! c), (methodRouteMap s !! c); simplify_eq/=. done.
Qed.

(** What etcd holds when a run has ended is what its history says. *)
Lemma runs_last_logged {A : Type} (p : prog A) prefix s trace a hist pre x :
  runs p s trace a → logged prefix (stored s) hist → trace = pre ++ [x] →
  ∃ new, logged prefix (stored x.2) (hist ++ new).
Proof.
  intros Hr Hl ->. pose proof (runs_logged _ _ _ _ _ _ Hr Hl) as [_ [(m1 & m2 & _ & Hx) _]%Forall_cons]%Forall_app.
  by exists (m1 ++ m2).
Qed.
End Edits.

(** ** Deletions are reported as they happen *)

Definition reports_ok (m : gmap string bytes) (e : Event) : Prop :=
  ev_Put e = false → ∃ v, m !! ev_Key e = Some v ∧ ∀ p, ev_PrevKv e = Some p → p = v.

(** An operation is reported by at most one event. *)
Lemma op_events_inv prefix has_prev m o :
  op_events prefix has_prev m o = [] ∨
  ∃ e, op_events prefix has_prev m o = [e] ∧ reports_ok (values prefix m) e.
Proof.
  destruct o as [k v|k]; simpl.
  - destruct (HasPrefix k prefix); [right; eexists; split; [done|by intros ?]|by left].
  - destruct (m !! k) as [v|] eqn:E; [|by left]. destruct (HasPrefix k prefix) eqn:Hk; [right|by left].
    eexists. split; [done|]. intros _. simpl. rewrite values_lookup, E by done. exists (wire (kv_Value v)).
    split; [done|]. destruct (has_prev k); by intros p [= <-].
Qed.

Lemma ops_events_reports prefix has_prev rev m ops pre e post :
  ops_events prefix has_prev rev m ops = pre ++ e :: post →
  reports_ok (foldl apply_event (values prefix m) pre) e.
Proof.
  revert m pre. induction ops as [|o ops IH]; intros m pre; simpl; [by destruct pre|].
  pose proof (values_op prefix has_prev rev m o) as Hv.
  destruct (op_events_inv prefix has_prev m o) as [E|(e' & E & He')]; rewrite E in *; simpl in *.
  - intros Heq. rewrite Hv. by apply IH.
  - destruct pre as [|e1 pre]; simpl; intros [= -> Heq]; [done|]. rewrite Hv. by apply IH.
Qed.

Lemma logged_reports prefix d hist pre e post :
  logged prefix d hist → concat hist = pre ++ e :: post → reports_ok (foldl apply_event ∅ pre) e.
Proof.
  intros Hl. revert pre post. induction Hl as [rev|d hist ops has_prev Hl IH Hm]; intros pre post Heq.
  - assert (concat (replicate rev ([] : list Event)) = []) as E by (clear; induction rev; done).
    rewrite E in Heq. by destruct pre.
  - rewrite concat_app in Heq. simpl in Heq. rewrite (right_id_L [] (++)) in Heq.
    apply List.app_eq_app in Heq as (l & [[E1 E2]|[E1 E2]]).
    + destruct l as [|e' l]; simpl in *; [|injection E2 as -> ->; by eapply IH].
      rewrite (right_id_L [] (++)) in E1. subst pre.
      destruct (logged_store _ _ _ Hl) as (_ & _ & ->). by eapply (ops_events_reports _ _ _ _ _ [] _ post).
    + subst pre. rewrite foldl_app. destruct (logged_store _ _ _ Hl) as (_ & _ & ->).
      by eapply ops_events_reports.
Qed.

Section Nodes.
Context `{EtcdLaws} `{SharedDocuments} `{!DiscoveryJsonLaws} `{ProxyLibrary} `{RateLimiter}.

(** Every document put under a key decodes. *)
Definition decodable (hist : list (list Event)) (k : string) : Prop :=
  Forall (λ e, ev_Put e = true → ev_Key e = k → is_Some (document k (contents (ev_Value e)))) (concat hist).

Lemma logged_valid prefix d hist k : logged prefix d hist → decodable hist k → valid_history hist k.
Proof.
  intros Hl Hd pre e post Heq Hk. unfold decodable in Hd. rewrite Heq in Hd.
  apply Forall_app in Hd as [_ [He _]%Forall_cons]. pose proof (logged_reports _ _ _ _ _ _ Hl Heq) as Hr.
  unfold reports_ok in Hr. rewrite Hk in Hr. destruct (ev_Put e); auto.
Qed.

(** The last event about a key that the consumers still know of. *)
Lemma view_last log k e :
  Discovery.view log !! k = Some e → ∃ l1 l2, log = l1 ++ (k, e) :: l2 ∧ k ∉ l2.*1.
Proof.
  induction log as [|[k' e'] log IH] using rev_ind; [done|]. rewrite view_snoc. unfold observe. simpl.
  destruct (decide (k' = k)) as [->|Hne].
  - destruct (is_delete e'); [by rewrite lookup_delete_eq|]. rewrite lookup_insert_eq. intros [= ->].
    exists log, []. split; [done|]. apply not_elem_of_nil.
  - intros Hv. assert (Discovery.view log !! k = Some e) as Hv'
      by (revert Hv; destruct (is_delete e'); rewrite ?lookup_delete_ne, ?lookup_insert_ne by done; auto).
    destruct (IH Hv') as (l1 & l2 & -> & Hk). exists l1, (l2 ++ [(k', e')]).
    split; [by rewrite <- (assoc_L (++))|]. rewrite fmap_app, not_elem_of_app. split; [done|]. simpl. set_solver.
Qed.

(** The event loop's last event of a node is the last one about its key. *)
Lemma last_event_announced log acts k n :
  Forall (λ ke, about ke.1 ke.2) log → sole log k → node_key k → Discovery.view log !! k = Some (ENode n) →
  on_channel 0 (omap event_of acts) = on_channel 0 log.*2 →
  last_event (identity_of n) acts = Some n.
Proof.
  intros Hall Hs Hk Hv Hup. destruct (view_last _ _ _ Hv) as (l1 & l2 & -> & Hk2).
  destruct (received_last _ _ _ _ _ Hall Hs Hk2 Hup) as (a1 & a2 & -> & Hq).
  change (a1 ++ ANode n :: a2) with (a1 ++ [ANode n] ++ a2).
  rewrite (assoc_L (++)), last_event_quiet, last_event_snoc by done. simpl. by rewrite decide_True.
Qed.
End Nodes.

(** ** Properties *)

(** C4: an accepted edit takes effect. When a call that sets or resets a weight or changes a
    method route reports success, etcd's history goes on with an edit of the document stored
    at that moment; and once the proxy has caught up with it (without passing over a revision) and the document has not changed
    since, the chain's requests are served with exactly the weights and routes of the edited
    document, in which a call that sets a weight has changed that weight and no other. *)
Theorem edits_reach_requests `{EtcdLaws} `{SharedDocuments} `{!DiscoveryJsonLaws} `{ProxyLibrary} `{RateLimiter}
    h c call s trace r hist :
  runs (handleCall h c call) s trace r → logged (h_keyPrefix h) (stored s) hist → success r →
  parseKey (gatewayKey h c) = (keyGateway, c, "") →
  ∃ pre x g g', trace = pre ++ [x] ∧ (∃ new, logged (h_keyPrefix h) (stored x.2) (hist ++ new)) ∧
    doc_at (stored x.1) (gatewayKey h c) = Some g ∧ callEdits h c call g g' ∧
    ∀ hist' more d ph st acts lb, logged (h_keyPrefix h) (stored x.2) hist' →
      settled hist' more (gatewayKey h c) d ph st acts lb → plain_gateway g' →
      serves_gateway lb c g' ∧
      ∀ k w, call = CSetWeight k w → NoDup (weight_keys (gd_Weights g)) →
        ∃ strategy weight, gateway (NodeSelector lb) = Some strategy ∧ ParseInt w 10 = Some weight ∧
          ∀ k', nodeWeight (ChainWeights strategy c) k' =
                if decide (k' = k) then weight else nodeWeight (weightsOf (gd_Weights g)) k'.
Proof.
  intros Hr Hl Hok Hk. destruct (logged_store _ _ _ Hl) as (Hd & _ & _).
  destruct (call_atomic _ _ _ _ _ _ Hr Hd) as (pre & edit & Ht & _ & He & Ha). destruct (Ha Hok) as [x ->].
  specialize (He x eq_refl).
  destruct He as (g & g' & text & Hg & HE & Hm & Ex). exists pre, x, g, g'.
  split_and!; [done|by eapply runs_last_logged|done|done|]. intros hist' more d ph st acts lb Hl' Hs Hp.
  assert (serves_gateway lb c g') as Hserve.
  { eapply gateway_served; [done|done|done|done|done|]. rewrite Ex. apply (apply_ops_put _ []). }
  split; [done|]. intros k w -> Hnd. destruct Hserve as (strategy & Hgw & Hw & _).
  destruct HE as (weight & Hpw & _ & _ & ->). exists strategy, weight. split_and!; [done|done|]. intros k'.
  rewrite Hw. unfold docSetWeight, nodeWeight. simpl. rewrite SetWeight_lookup by done.
  repeat case_decide; subst; done.
Qed.

(** C15: a node added through the management API is served. When [AddNode] reports success
    and the proxy has caught up (without passing over a revision), the event loop's last event of the node carries what the
    request asked for, and the current health check of the node, when it passes, puts the
    node in the requested pool with the requested state and address. *)
Theorem added_node_served `{EtcdLaws} `{SharedDocuments} `{!DiscoveryJsonLaws} `{ProxyLibrary} `{RateLimiter}
    h c body s trace r hist :
  runs (AddNode h c body) s trace r → logged (h_keyPrefix h) (stored s) hist → status r = StatusOK →
  ∃ req pre x, body = Some req ∧ trace = pre ++ [x] ∧ (∃ new, logged (h_keyPrefix h) (stored x.2) (hist ++ new)) ∧
    let key := nodeKeyOf h c (nodeKeyFor req) in
    let tn := mkTargetNode c (an_State req) (an_IP req) (an_Port req) (an_NodeType req) EVENT_PUT
                (nodeKeyFor req) (an_Weight req) "manual" in
    ∀ hist' more d ph st acts lb, logged (h_keyPrefix h) (stored x.2) hist' →
      settled hist' more key d ph st acts lb → parseKey key = (keyNode, c, nodeKeyFor req) →
      plain_node (newNode req) → Z.of_nat (length acts) < 2 ^ 64 →
      last_event (identity_of tn) acts = Some tn ∧
      ∀ i ck n, inflight lb !! i = Some ck → ck_id ck = identity_of tn →
        current (nodeGens lb) (identity_of tn) = ck_gen ck →
        newTargetNode (next_ref lb) tn (an_Weight req) = Some n →
        ∃ e, entry (NodeSelector (finishCheck lb i true)) (identity_of tn) (an_NodeType req) = Some e ∧
             State e = an_State req ∧ Weight e = Weight n ∧ Addr e = Addr n.
Proof.
  intros Hr Hl Hok. destruct (logged_store _ _ _ Hl) as (Hd & _ & _).
  destruct (runs_AddNode _ _ _ _ _ _ Hr Hd Hok) as (req & text & pre & x & Hb & _ & Hm & Ht & _ & _ & He).
  exists req, pre, x. split_and!; [done|done|by eapply runs_last_logged|]. cbv zeta.
  intros hist' more d ph st acts lb Hl' Hs Hk Hp Hlt.
  set (key := nodeKeyOf h c (nodeKeyFor req)) in *.
  pose proof (added_stored _ _ _ _ _ _ He) as Hv. fold key in Hv.
  apply bind_Some in Hv as (v & Hv & [= <-]).
  pose proof (document_node key c _ _ _ Hk Hp Hm) as Hdoc. simpl in Hdoc.
  set (tn := mkTargetNode c (an_State req) _ _ _ _ _ _ _) in *.
  pose proof (settled_view _ _ _ _ _ _ _ _ _ _ _ _ Hl' (key_has_prefix h c _) Hs Hv Hdoc) as Hview.
  assert (last_event (identity_of tn) acts = Some tn) as Hlast.
  { eapply (last_event_announced (sent d) acts key); [apply (watched_keyed _ _ _ _ (st_watched Hs))|apply Hs| |done|apply Hs].
    left. by rewrite Hk. }
  split; [done|]. intros i ck n Hi Hid Hcur Hn.
  by apply (current_check_entry acts lb tn i ck n (st_run Hs)).
Qed.

(** What the proxy keeps of a deleted node in its weights and routes: nothing. *)
Lemma cleared_gateway_served `{RateLimiter} (lb : LoadBalancer) c g k :
  serves_gateway lb c (docClearMethodRoute (docSetWeight g k DefaultWeight) k) → NoDup (weight_keys (gd_Weights g)) →
  ∃ strategy, gateway (NodeSelector lb) = Some strategy ∧
    nodeWeight (ChainWeights strategy c) k = DefaultWeight ∧
    ∀ method route, methodRouteMap strategy !! c ≫= lookup method = Some route →
      IncludeNodeKeys route !! k = None ∧ ExcludeNodeKeys route !! k = None.
Proof.
  intros (strategy & Hgw & Hw & Hroutes) Hnd. exists strategy. split; [done|]. split.
  - rewrite Hw. unfold docSetWeight, nodeWeight. simpl. rewrite SetWeight_lookup by done. by repeat case_decide.
  - intros method route. rewrite Hroutes.
    destruct (docClearMethodRoute_listed (docSetWeight g k DefaultWeight) k method k) as [Hi He].
    rewrite decide_True in Hi, He by done. unfold included, excluded in Hi, He.
    set (routes := default ∅ (gd_Routes _)) in *. clearbody routes. simpl. rewrite lookup_fmap.
    destruct (routes !! method) as [r|]; [|done]. intros [= <-]. by split.
Qed.

(** C6: a deleted node gets no more traffic. When [DeleteNode] reports success and the proxy
    has caught up (without passing over a revision), the node is not in the pool it was announced for, whatever health checks
    were running; and of the gateway document of that moment the requests see the node with
    the default weight and in no method route. *)
Theorem deleted_node_unserved `{EtcdLaws} `{SharedDocuments} `{!DiscoveryJsonLaws} `{ProxyLibrary} `{RateLimiter}
    h c k s trace r hist :
  runs (DeleteNode h c k) s trace r → logged (h_keyPrefix h) (stored s) hist → status r = StatusOK →
  parseKey (nodeKeyOf h c k) = (keyNode, c, k) → parseKey (gatewayKey h c) = (keyGateway, c, "") →
  ∃ pre x g g', trace = pre ++ [x] ∧ (∃ new, logged (h_keyPrefix h) (stored x.2) (hist ++ new)) ∧
    doc_at (stored x.1) (gatewayKey h c) = Some g ∧ deleteEdit k g g' ∧
    ∀ hist' more d ph st acts lb, logged (h_keyPrefix h) (stored x.2) hist' →
      (∀ now n, logged (h_keyPrefix h) now (hist' ++ more) → decodable (hist' ++ more) (nodeKeyOf h c k) →
         settled hist' more (nodeKeyOf h c k) d ph st acts lb → ws_skips st = false → Z.of_nat (length acts) < 2 ^ 64 →
         last_announced (sent d) (nodeKeyOf h c k) = Some n →
         (∀ ref, newTargetNode ref (n <| tn_ChangeType := EVENT_DELETE |>) DefaultWeight ≠ None) →
         entry (NodeSelector lb) (identity_of n) (tn_NodeType n) = None) ∧
      (settled hist' more (gatewayKey h c) d ph st acts lb → plain_gateway g' → NoDup (weight_keys (gd_Weights g)) →
       ∃ strategy, gateway (NodeSelector lb) = Some strategy ∧
         nodeWeight (ChainWeights strategy c) k = DefaultWeight ∧
         ∀ method route, methodRouteMap strategy !! c ≫= lookup method = Some route →
           IncludeNodeKeys route !! k = None ∧ ExcludeNodeKeys route !! k = None).
Proof.
  intros Hr Hl Hok Hk Hkg. destruct (logged_store _ _ _ Hl) as (Hd & _ & _).
  destruct (runs_DeleteNode _ _ _ _ _ _ Hr Hd Hok) as (v & node & a & b & x & Ht & _ & _ & _ & _ & _ & He).
  pose proof (deleted_stored _ _ _ _ _ He) as Hgone.
  destruct He as (g & g' & text & Hg & HE & Hm & Ex). exists [a; b], x, g, g'.
  split_and!; [done|by eapply (runs_last_logged _ _ _ _ _ _ [a; b])|done|done|].
  intros hist' more d ph st acts lb Hl'. split.
  - intros now n Hl2 Hdec Hs Hsk Hlt Hn Hnew.
    pose proof (settled_store _ _ _ _ _ _ _ _ _ _ Hl' (key_has_prefix h c _) Hs) as Hst.
    fold (nodeKeyOf h c k) in Hst. rewrite Hgone in Hst.
    apply (withdrawn_entry (hist' ++ more) d ph st acts lb (nodeKeyOf h c k) n); try (done || apply Hs).
    + by eapply logged_valid.
    + left. by rewrite Hk.
  - intros Hs Hp Hnd. rewrite HE in *. apply (cleared_gateway_served lb c g k); [|done].
    eapply gateway_served; [done|done|done|done|done|]. rewrite Ex. apply apply_ops_put.
Qed.

(** ** A small deployment *)

(** A node document of one type, and gateway documents of at most one weight. *)
Definition flow_writer : AdminJson := {|
  MarshalNode n :=
    if bool_decide ((tn_StateType n, tn_Address n, tn_Port n, tn_NodeType n, tn_Weight n, tn_Source n)
                    = (1, "h", 80, 1, 100, "manual")) then Some "state" else None;
  MarshalGateway g :=
    match gd_Weights g, gd_Routes g with
    | [], None => Some "-"
    | [w], None => if bool_decide (wi_NodeKey w = "-") || negb (wi_Weight w =? 50) then None else Some (wi_NodeKey w)
    | _, _ => None
    end;
  MarshalMirror m := None;
  ParseNode text := Some (Discovery.ex_node 1);
  ParseGateway text := Some (mkGatewayDoc (if bool_decide (text = "-") then [] else [mkWeightInfo text 50]) None) |}.

Definition flow_reader : DiscoveryJson := {|
  UnmarshalTargetNode text := if bool_decide (text = "state") then (Discovery.ex_node 1, true) else (zeroTargetNode, false);
  UnmarshalChainHeight text := (mkChainHeight "" None, false);
  UnmarshalGateway text :=
    (mkGateway "" EVENT_PUT (if bool_decide (text = "-") then [] else [mkWeightInfo text 50]) ∅, true);
  UnmarshalMirrorTarget text := (zeroMirrorTarget, false);
  UnmarshalVersion text := ("", false);
  UnmarshalString text := ("", false) |}.

Lemma flow_reader_laws : @DiscoveryJsonLaws flow_reader.
Proof. split; [intros v|..]; done. Defined.

Lemma flow_shared : @SharedDocuments flow_writer flow_reader.
Proof.
  split.
  - intros [ws routes] text _. simpl. destruct ws as [|[k w] [|? ?]], routes as [m|]; try done.
    + intros [= <-]. by eexists.
    + simpl. destruct (bool_decide (k = "-") || negb (w =? 50)) eqn:E; [done|]. intros [= <-].
      apply orb_false_iff in E as [E1 E2]. rewrite E1. b2p. subst w. by eexists.
  - intros n text _. simpl. case_bool_decide as E; [|done]. intros [= <-]. eexists. split; [done|]. by simplify_eq/=.
Qed.

(** etcd with one node, and what the proxy does with a history from the start. *)
Definition flow_start : db := apply_ops (mkDb 0 ∅) [OpPut "1/nodes/a" "state"].
Definition flow_first : list Event := [mkEvent true "1/nodes/a" (Some "state") None].

Lemma flow_logged : logged "" flow_start [flow_first].
Proof. apply (logged_ops "" (mkDb 0 ∅) [] [OpPut "1/nodes/a" "state"] (λ _, true)); [apply (logged_start _ 0)|done]. Qed.

Definition flow_snapshot (hist : list (list Event)) : GetResponse :=
  let rev := Z.of_nat (length hist) in mkGetResponse (map_to_list (store hist rev)) rev.
Definition flow_watcher (hist : list (list Event)) : Discover :=
  match @Init flow_reader (NewDiscover "") (Some (flow_snapshot hist)) with
  | Ret (Some r) => served r
  | _ => NewDiscover ""
  end.
Definition flow_actions (r : Discover) : list action := action_of <$> (sent r).*2.
Definition flow_loop (acts : list action) : @LoadBalancer ex_limiter :=
  foldl (@BackgroundRefreshNode ex_proxy ex_limiter) (@NewLoadBalancer ex_limiter) acts.

Lemma flow_caught_up r : caught_up r (flow_actions r).
Proof.
  intros ch. unfold flow_actions. f_equal. induction (sent r).*2 as [|e es IH]; [done|].
  destruct e; csimpl; by rewrite IH.
Qed.

(** No other key of a log stands for what the key stands for. *)
Definition sole_in (log : list (string * event)) (k : string) : bool :=
  forallb (λ ke, bool_decide (about k ke.2 → ke.1 = k)) log.

Lemma sole_in_sole log k : sole_in log k = true → sole log k.
Proof.
  unfold sole_in. rewrite forallb_forall. intros Hall k' e Hin%list_elem_of_In Ha.
  apply Hall in Hin. by b2p; auto.
Qed.

(** A proxy that starts with a history and has nothing left to receive. *)
Definition flow_stream (hist : list (list Event)) : stream := mkStream (latest hist + 1) false false.

Lemma flow_snapshot_of hist more : snapshot_of (hist ++ more) (flow_snapshot hist).
Proof.
  split; simpl; [|unfold latest; rewrite length_app; lia].
  unfold store. rewrite Nat2Z.id, take_app_length, (firstn_all hist). done.
Qed.

Lemma flow_watched hist more r :
  @Init flow_reader (NewDiscover "") (Some (flow_snapshot hist)) = Ret (Some r) → latest (hist ++ more) < max_int64 →
  @watched flow_reader (hist ++ more) (served r) Watching (flow_stream hist).
Proof.
  intros Hi Hl.
  assert (watchRevision r = latest hist) as Hrev.
  { simpl in Hi. destruct (dispatchPuts _ _); simplify_eq/=. done. }
  pose proof (@watched_init flow_reader (hist ++ more) "" (flow_snapshot hist) r 0 Hl (flow_snapshot_of hist more)) as Hw.
  assert (latest hist ≤ latest (hist ++ more)) as Hle by (unfold latest; rewrite length_app; lia).
  rewrite startRevision_next, Hrev in Hw by (unfold latest in *; lia). unfold reopen in Hw. simpl in Hw.
  rewrite bool_decide_eq_false_2 in Hw by (unfold latest; lia). apply Hw; [unfold latest; lia|done].
Qed.

Lemma flow_settled hist key r :
  @Init flow_reader (NewDiscover "") (Some (flow_snapshot hist)) = Ret (Some r) →
  latest hist < max_int64 → sole_in (sent r) key = true →
  let acts := flow_actions (served r) in
  @settled flow_reader ex_proxy ex_limiter hist [] key (served r) Watching (flow_stream hist) acts (flow_loop acts).
Proof.
  intros Hi Hl Hs acts. constructor.
  - apply flow_watched; [done|]. by rewrite (right_id_L [] (++)).
  - done.
  - simpl. lia.
  - unfold changes. simpl. rewrite (right_id_L [] (++)), drop_ge; [constructor|]. rewrite length_take. unfold latest. lia.
  - apply run_exec.
  - apply flow_caught_up.
  - by apply sole_in_sole.
Qed.

(** The weight of the node is set to 50. *)
Definition flow_edit : prog (go reply) := @handleCall flow_writer ex_handler "1" (CSetWeight "a" "50").
Definition flow_edited : list (list Event) := [flow_first; [mkEvent true "1/gateway" (Some "a") None]].

Lemma flow_edit_logged : logged "" (run_alone flow_edit flow_start).2 flow_edited.
Proof.
  assert ((run_alone flow_edit flow_start).2 = apply_ops flow_start [OpPut "1/gateway" "a"]) as -> by (vm_compute; reflexivity).
  apply (logged_ops "" flow_start [flow_first] [OpPut "1/gateway" "a"] (λ _, true)); [apply flow_logged|done].
Qed.

Lemma flow_edit_settled :
  let acts := flow_actions (flow_watcher flow_edited) in
  @settled flow_reader ex_proxy ex_limiter flow_edited [] "1/gateway" (flow_watcher flow_edited) Watching
    (flow_stream flow_edited) acts (flow_loop acts).
Proof. eapply flow_settled; vm_compute; reflexivity. Qed.

Lemma edits_reach_requests_witness :
  let acts := flow_actions (flow_watcher flow_edited) in
  ∃ strategy, gateway (NodeSelector (flow_loop acts)) = Some strategy ∧
    nodeWeight (ChainWeights strategy "1") "a" = 50 ∧ nodeWeight (ChainWeights strategy "1") "b" = DefaultWeight.
Proof.
  intros acts. assert (success (run_alone flow_edit flow_start).1) as Hok by (eexists; vm_compute; reflexivity).
  destruct (@edits_reach_requests ref_etcd ref_etcd_laws flow_writer flow_reader flow_shared flow_reader_laws ex_proxy ex_limiter
    ex_handler "1" (CSetWeight "a" "50") flow_start (trace_alone flow_edit flow_start) (run_alone flow_edit flow_start).1 [flow_first]
    (runs_alone flow_edit flow_start) flow_logged Hok eq_refl) as (pre & x & g & g' & Ht & _ & Hg & HE & Hserve).
  assert (pre ++ [x] = [(flow_start, flow_start)] ++ [(flow_start, (run_alone flow_edit flow_start).2)]) as Hx
    by (rewrite <- Ht; vm_compute; reflexivity).
  apply app_inj_tail in Hx as [_ ->]. vm_compute in Hg. injection Hg as <-.
  assert (g' = mkGatewayDoc [mkWeightInfo "a" 50] None) as ->.
  { destruct HE as (w & Hw & _ & _ & ->). vm_compute in Hw. injection Hw as <-. reflexivity. }
  destruct (Hserve flow_edited [] (flow_watcher flow_edited) Watching (flow_stream flow_edited) acts (flow_loop acts) flow_edit_logged
    flow_edit_settled) as [_ Hw].
  - split; [|apply map_Forall_empty]. apply Forall_singleton. split; [reflexivity|]. vm_compute. split; discriminate.
  - destruct (Hw "a" "50" eq_refl (NoDup_nil_2)) as (strategy & weight & Hgw & Hpw & Hk).
    exists strategy. split; [exact Hgw|]. vm_compute in Hpw. injection Hpw as <-. rewrite !Hk. split; reflexivity.
Defined.

(** A second node is added. *)
Definition flow_request : AddNodeRequest := mkAddNodeRequest 1 "b" "h" 80 1 100.
Definition flow_add : prog reply := @AddNode flow_writer ex_handler "1" (Some flow_request).
Definition flow_added : list (list Event) := [flow_first; [mkEvent true "1/nodes/b" (Some "state") None]].

Lemma flow_add_logged : logged "" (run_alone flow_add flow_start).2 flow_added.
Proof.
  assert ((run_alone flow_add flow_start).2 = apply_ops flow_start [OpPut "1/nodes/b" "state"]) as -> by (vm_compute; reflexivity).
  apply (logged_ops "" flow_start [flow_first] [OpPut "1/nodes/b" "state"] (λ _, true)); [apply flow_logged|done].
Qed.

Lemma flow_add_settled :
  let acts := flow_actions (flow_watcher flow_added) in
  @settled flow_reader ex_proxy ex_limiter flow_added [] "1/nodes/b" (flow_watcher flow_added) Watching
    (flow_stream flow_added) acts (flow_loop acts).
Proof. eapply flow_settled; vm_compute; reflexivity. Qed.

Lemma added_node_served_witness :
  let lb := flow_loop (flow_actions (flow_watcher flow_added)) in
  ∃ i e, entry (NodeSelector (@finishCheck ex_proxy ex_limiter lb i true)) ("1", "b", false) 1 = Some e ∧ State e = 1.
Proof.
  intros lb. assert (status (run_alone flow_add flow_start).1 = StatusOK) as Hok by (vm_compute; reflexivity).
  destruct (@added_node_served ref_etcd ref_etcd_laws flow_writer flow_reader flow_shared flow_reader_laws ex_proxy ex_limiter
    ex_handler "1" (Some flow_request) flow_start (trace_alone flow_add flow_start) (run_alone flow_add flow_start).1 [flow_first]
    (runs_alone flow_add flow_start) flow_logged Hok) as (req & pre & x & [= <-] & Ht & _ & Hserve).
  assert (pre ++ [x] = [(flow_start, flow_start)] ++ [(flow_start, (run_alone flow_add flow_start).2)]) as Hx
    by (rewrite <- Ht; vm_compute; reflexivity).
  apply app_inj_tail in Hx as [_ ->].
  destruct (Hserve flow_added [] (flow_watcher flow_added) Watching (flow_stream flow_added) (flow_actions (flow_watcher flow_added)) lb
    flow_add_logged flow_add_settled eq_refl) as [_ Hcheck].
  - split_and!; [reflexivity..|]. repeat constructor; vm_compute; discriminate.
  - vm_compute. reflexivity.
  - set (i := match list_find (λ ck, ck_id ck = ("1", "b", false)) (inflight lb) with Some (i, _) => i | None => 0%nat end).
    exists i. edestruct (Hcheck i) as (e & He & Hst & _); [vm_compute; reflexivity..|]. exists e. split; [exact He|exact Hst].
Defined.

(** The first node is deleted while the proxy watches. *)
Definition flow_delete : prog reply := @DeleteNode flow_writer ex_handler "1" "a".
Definition flow_deleted : list (list Event) :=
  [flow_first; [mkEvent false "1/nodes/a" None (Some (Some "state")); mkEvent true "1/gateway" (Some "-") None]].

Lemma flow_delete_logged : logged "" (run_alone flow_delete flow_start).2 flow_deleted.
Proof.
  assert ((run_alone flow_delete flow_start).2 = apply_ops flow_start [OpDelete "1/nodes/a"; OpPut "1/gateway" "-"]) as ->
    by (vm_compute; reflexivity).
  apply (logged_ops "" flow_start [flow_first] [OpDelete "1/nodes/a"; OpPut "1/gateway" "-"] (λ _, true)); [apply flow_logged|done].
Qed.

(** The watcher that saw the node before. *)
Definition flow_change : WatchResponse := mkWatchResponse 0 None false (changes flow_deleted 1 2) 2.
Definition flow_after : Discover * phase :=
  match @watchConfig flow_reader (flow_watcher [flow_first], Watching) [InResponse flow_change] with
  | Ret s => s
  | _ => (NewDiscover "", Stopped)
  end.

Lemma flow_after_watched : @watched flow_reader flow_deleted flow_after.1 Watching (flow_stream flow_deleted).
Proof.
  assert (delivers flow_deleted (flow_stream [flow_first]) flow_change 2) as Hd
    by (constructor; [split; vm_compute; congruence|vm_compute; congruence|reflexivity|done]).
  refine (watched_step _ (flow_watcher [flow_first]) Watching (flow_stream [flow_first]) (InResponse flow_change) _ _ _ _ _ _ _).
  - apply (flow_watched [flow_first] [[mkEvent false "1/nodes/a" None (Some (Some "state")); mkEvent true "1/gateway" (Some "-") None]]);
      vm_compute; reflexivity.
  - intros _. by exists 2.
  - vm_compute. reflexivity.
  - by apply (es_events flow_deleted _ (flow_stream [flow_first]) flow_change 2).
Qed.

Lemma flow_delete_settled :
  let acts := flow_actions flow_after.1 in
  @settled flow_reader ex_proxy ex_limiter flow_deleted [] "1/nodes/a" flow_after.1 Watching
    (flow_stream flow_deleted) acts (flow_loop acts).
Proof.
  intros acts. constructor.
  - rewrite (right_id_L [] (++)). apply flow_after_watched.
  - done.
  - simpl. lia.
  - assert (changes (flow_deleted ++ []) (latest flow_deleted) (ws_next (flow_stream flow_deleted) - 1) = []) as ->
      by (vm_compute; reflexivity). constructor.
  - apply run_exec.
  - apply flow_caught_up.
  - apply sole_in_sole. vm_compute. reflexivity.
Qed.

Lemma deleted_node_unserved_witness :
  last_announced (sent flow_after.1) "1/nodes/a" = Some (mkTargetNode "1" 1 "h" 80 1 EVENT_PUT "a" 100 "manual") ∧
  entry (NodeSelector (flow_loop (flow_actions flow_after.1))) ("1", "a", false) 1 = None.
Proof.
  set (n := mkTargetNode "1" 1 "h" 80 1 EVENT_PUT "a" 100 "manual").
  assert (last_announced (sent flow_after.1) "1/nodes/a" = Some n) as Hn by (vm_compute; reflexivity).
  split; [exact Hn|].
  assert (status (run_alone flow_delete flow_start).1 = StatusOK) as Hok by (vm_compute; reflexivity).
  destruct (@deleted_node_unserved ref_etcd ref_etcd_laws flow_writer flow_reader flow_shared flow_reader_laws ex_proxy ex_limiter
    ex_handler "1" "a" flow_start (trace_alone flow_delete flow_start) (run_alone flow_delete flow_start).1 [flow_first]
    (runs_alone flow_delete flow_start) flow_logged Hok eq_refl eq_refl) as (pre & x & g & g' & Ht & _ & _ & _ & Hserve).
  assert (pre ++ [x] = [(flow_start, flow_start); (flow_start, flow_start)] ++ [(flow_start, (run_alone flow_delete flow_start).2)]) as Hx
    by (rewrite <- Ht; vm_compute; reflexivity).
  apply app_inj_tail in Hx as [_ ->].
  destruct (Hserve flow_deleted [] flow_after.1 Watching (flow_stream flow_deleted) (flow_actions flow_after.1) (flow_loop (flow_actions flow_after.1))
    flow_delete_logged) as [Hgone _].
  apply (Hgone (run_alone flow_delete flow_start).2 n).
  - rewrite (right_id_L [] (++)). exact flow_delete_logged.
  - repeat constructor; intros; try done; by eexists.
  - exact flow_delete_settled.
  - reflexivity.
  - vm_compute. reflexivity.
  - exact Hn.
  - intros ref. vm_compute. discriminate.
Defined.
